(* ===== verification/_CoqProject ===== *)
-Q . S2P
Prelude.v
Order.v
States.v
Contract.v
GoStrings.v
JobSpec.v
L1Types.v
NodeTypes.v
RestartPolicy.v
Database.v
LeaseClock.v
Authority.v
Credentials.v
Lifecycle.v
Summaries.v
LogRetention.v
Logs.v
LogStreams.v
Ingestion.v
Completion.v
Placement.v
Claim.v
ServiceOperator.v
Submit.v
Reconcile.v
ClaimCorrect.v
Invariant.v
Preservation.v
LogPreservation.v
UpgradeCompat.v
NodeSessions.v
SessionInvariant.v
Promotion.v
NodePreservation.v
SessionFrame.v
CompletionReplay.v
OperatorPreservation.v
Machine.v
NodeIdentity.v
NodeUpgrade.v
History.v
LogSpool.v
LogUpload.v
SpoolStreams.v
UploadSync.v
SpoolEvidence.v
Redaction.v
RedactionCorrect.v
RunLedger.v
RunDispatch.v
RunProtocol.v
RunHistory.v
RunMachine.v
RunHold.v
RunIntent.v
RunAccepted.v
RunWorld.v
