(* ===== verification/Prelude.v ===== *)
(** * wefty: the control plane, the run ledger and the agent's evidence, in Rocq

    wefty runs jobs on a fleet of nodes.  A client submits a job to the control
    plane L1; an agent on a node claims it, starts it through a runner, renews
    its lease, uploads logs and completes it; a run ledger L3 records runs and
    has each executed as a job.  L1 (src/l1) keeps everything in one SQLite
    database and every handler is one immediate write transaction, so the handlers
    are serialized: the state of the model is the database and each handler is one
    function on it.
    The package src/contract holds what the parts share: the state tables, the
    job description with its validation, and the error codes.  On the node, the
    agent (src/agent) masks secrets in the output of an attempt, keeps output and
    completions in a SQLite spool until L1 has acknowledged them, and sends them
    again after a restart.  A node is represented at L1 by the session of its
    agent; an upgrade hands the node from one agent generation to the next while
    the attempts of the old one run on.  L3 (src/l3) has a SQLite database of its
    own and reaches L1 only by messages: it submits a run under a dispatch key,
    learns the job from the answer or from a later lookup, and projects what it
    observes of the job onto the run.

    ** How the code is represented

    - A handler is a computation of the transaction monad [tx] of this file:
      it continues, returns after a commit, or aborts (every early return of the
      Go code that rolls back).  [run] gives the store after the transaction and
      the answer; [ends] is its weakest precondition and [wp] steps through it.
    - A table is a [gmap] from its key to a record of its columns (Database.v);
      a table without a key, or whose order matters, is a list.  JSON columns
      hold the decoded value.  An UPDATE whose WHERE finds no row does nothing.
      The secret-scrub trigger is part of [exec_job_state].
    - The ledger is a second store of the same kind (RunLedger.v): each of its
      transactions is one function on it, most of them on the rows of one run
      ([on_run]).  What a pass read before, and what L1 answered, are arguments.
    - Times are nanoseconds in Z.  Strings are byte strings; the Go string
      functions the code uses (UTF-8 decoding, TrimSpace, ToLower, path.Clean,
      the regular expression of image references) are in GoStrings.v.
    - An error is its protocol code ([ErrorCode]); texts and details are not
      modelled.  Failures of the database or of JSON encoding are not modelled.
    - Fresh identifiers and tokens, the clock sample, the jitter, the digests,
      the Unicode lower-case table, URL parsing and the verdict of Seat admission
      are arguments ([instant], [config], [environment], section variables).

    ** Files

    - Prelude.v: record update, results, the transaction monad and its rules.
      Order.v: the byte order of strings, the (time, id) keys and sorting.
    - States.v: contract/states.go.  Contract.v: contract/errors.go, types.go,
      limits.go.  GoStrings.v: the string functions.  JobSpec.v:
      contract/job_spec.go and handoff_owner.go.
    - L1Types.v: l1/types.go and the validators of completion evidence.
      NodeTypes.v: the types of l1/node_generation*.go.  RestartPolicy.v:
      l1/restart_policy.go and the delays of oneshot_restart.go.  Database.v: the
      tables of l1/store.go, secret_scrub.go and node_generation.go.
    - LeaseClock.v: l1/attempt_time.go, lease_sleep.go and readAttemptAuthority.
      Authority.v: l1/attempt_authority.go, expireAttempt, recoverOneshot.
      Credentials.v: l1/attempt_credential.go.
    - Lifecycle.v: RenewLease, ObserveAttemptImage, StartAttempt,
      SetAttemptPublication, InterruptRestartableAttempt, CancelJob and the
      image latch.  Completion.v: CompleteAttemptOutcome.  Summaries.v: the
      attempt-summary part of l1/retention_sweep.go.
    - LogRetention.v: l1/log_retention.go.  Logs.v: AppendLogs and
      l1/log_continuity.go.
    - Placement.v: tags and capabilities.  Claim.v: claimJob.  Submit.v:
      CreateJobAs.  ServiceOperator.v: the service verbs of operator_routes.go
      and service_operator.go.  Reconcile.v: the liveness and lease half of
      Reconcile, drain and node intent.
    - UpgradeCompat.v: internal/hostboot and internal/upgradecompat.
      NodeSessions.v: registerNode, heartbeatNode and the operations of
      l1/node_generation.go, node_generation_abort.go and
      node_generation_deenroll.go.
    - LogSpool.v: agent/log_spool.go and spool_sweep.go.  LogUpload.v: one turn
      of the upload loop of agent/logs.go and of the recovery loop of
      evidence_outbox.go, and the error classifier.  Redaction.v:
      agent/redaction.go.
    - RunLedger.v: the rows of a run, decodeRunJobLink and the acknowledgement
      transaction of l3/run_job_link.go.  RunDispatch.v: submit attempts,
      cancellation, recovery and settlement, l3/cancel.go and dispatch_hold.go.
      RunProtocol.v: CreateRun, CreateRerun, the token protocol, gates,
      envelopes and the projection of jobs of l3/store.go.  RunIntent.v:
      dispatchIntent.jobSpec and the wire form of its result.

    The other files prove.  ClaimCorrect.v: what a claim does.  Invariant.v,
    Preservation.v, LogPreservation.v, NodePreservation.v and
    OperatorPreservation.v: the invariant [wf] of jobs and attempts and that
    every handler keeps it.  SessionInvariant.v and Promotion.v: the invariant
    [sessions_ok] of node sessions and that every node operation keeps it;
    SessionFrame.v: no other handler touches a session.  Machine.v: the step
    relation of the control plane and its reachable stores.  History.v,
    NodeIdentity.v, NodeUpgrade.v, CompletionReplay.v: what holds along every run
    of it.  LogStreams.v, Ingestion.v: the log tables and uploads.
    SpoolStreams.v, UploadSync.v, SpoolEvidence.v: the spool, alone and together
    with L1.  RedactionCorrect.v: the masked output.  RunHistory.v, RunMachine.v,
    RunHold.v: what holds along every sequence of ledger transactions.
    RunAccepted.v: the checks of a creation against those of L1.  RunWorld.v: the
    ledger and L1 together, as histories in which a message that was sent may be
    delivered late, twice or never.

    ** What the theorems show

    - Execution authority (Machine.v, ClaimCorrect.v): in every reachable store
      an active attempt is its job's current one and is alone; a claim takes the
      first eligible job, fences every predecessor, respects the slots and
      spends earlier restart requests; a superseded attempt can change nothing;
      an expired lease is settled, never extended; one reconcile pass settles
      every expired lease; a completion is settled once (CompletionReplay.v).
    - Jobs over time (History.v): a job's record is permanent, restarts stay
      within the budget, an ended one-shot holds no secret.
    - Node sessions (NodeIdentity.v, NodeUpgrade.v): a node has at most one
      primary session and its row agrees with it; a node never changes identity
      and its capabilities only advance within a boot session; a session that was
      replaced never acts again; a promotion keeps the authority of the running
      attempts; a promotion or a refused de-enrollment is answered the same way
      for ever.  One theorem exhibits a rejoin that restores authority across a
      reboot, against the stated rule.
    - Logs: an accepted upload extends every stream without a gap and can be
      replayed; eviction takes the oldest events, declares them and terminates;
      the spool, the uploader and L1 together never lose the output of a one-shot
      attempt, and every batch they send is accepted.  One theorem exhibits the
      loss of service output when the spool evicts during an upload.
    - Completions in the spool are rebuilt identically after a restart.
    - Redaction: no secret appears in the masked output and other text passes
      unchanged.  One theorem exhibits the loss of gap events in the masking sink.
    - Clocks: the Go and SQL forms of the lease test agree, the sweep agrees
      with the handlers, and sleep credit never exceeds the sleep that happened.
    - Submission and credentials: a child cannot widen its parent's authority,
      dispatch and instance keys stay unique, retries replay; a bearer is
      honoured exactly when its attempt may write.
    - Runs (RunMachine.v, RunHold.v): a run's request, program, link and token
      never change once set and an ended run keeps its outcome; a run that
      succeeded has the envelope it promised and only succeeded children; a token
      authenticates the run it was minted for
      and no other; a retried creation answers the same run; a stopped run is not
      submitted again; a probe that a newer refusal overtook never lifts the hold.
    - Runs and jobs (RunWorld.v, RunAccepted.v): a run has at most one job however
      often it is submitted; the job a run is linked to was created from that
      run; a run stopped before its first attempt never gets a job; what the
      ledger accepts passes L1's validation.
    - Policy, placement and validation: backoff and requeue rules, the summary
      retention, the order independence of capability reports, the upgrade
      decision, and what a validated job description guarantees.

    ** Bounds and fuel

    The delay loops run on fuel that the closed forms proved about them show to
    be enough ([prestart_loop_closed] and its companions).  Rune decoding runs
    on the length of the string.  The eviction loop runs on one more than the
    number of log rows ([eviction_loop_terminates] shows that more changes
    nothing).  In the redactor the search for straddling secrets runs on one more
    than the length of the buffer and the search for a settled cut on one more
    than the cut ([straddle_spec], [settle_cut_spec]).

    ** Not modelled

    At L1: the HTTP server (request decoding, routing and authorization), the
    read-only listings, Computers, Seats, Storage, backups, custody, service
    removal, administrator devices and the age walk of the retention sweep.
    Their work on tables outside the modelled schema enters the machine as steps
    that leave the jobs, the attempts, the log and the node sessions as they are;
    where they write those too (a removed service, a Computer's job), the machine
    does not describe them.  In the agent: the session and attempt drivers, which
    are goroutines and timers around the modelled protocol, the handoff store,
    mailboxes and front doors.  In L3: the HTTP server and client, the loop that
    schedules the passes (the model lets the transactions come in any order), the
    classification of L1's answers, workflows, Computer grants and exec captures
    (CreateRun takes their verdicts as arguments), JSON schema validation (an
    append takes the validator's verdict), the migration of links of older
    databases and the read projections.  The runners, the fabrics, the installers
    and the commands drive the operating system, containers and the network and
    are not modelled. *)
From stdpp Require Export base list gmap strings pretty sorting.
From Stdlib Require Export ZArith Lia.

Declare Scope wefty_scope.
Delimit Scope wefty_scope with wefty.
Open Scope wefty_scope.
Open Scope Z_scope.

(** ** Record update

    [Eta R] is the expansion of a record through its constructor and its
    projections; the setter of a projection is obtained from it by abstracting
    that projection. *)
Class Eta (R : Type) := eta_expand : R -> R.
Class Setter {R T : Type} (proj : R -> T) := set_field : T -> R -> R.
Global Hint Mode Setter - - ! : typeclass_instances.

Ltac derive_setter :=
  match goal with
  | |- @Setter ?R ?T ?proj =>
      let e := constr:(_ : Eta R) in
      let body := eval cbv delta [eta_expand] in e in
      let body := eval red in body in
      match eval pattern proj in body with
      | ?f proj =>
          let s := eval cbv beta in (fun (v : T) (r : R) => f (fun _ => v) r) in
          exact s
      end
  end.
Global Hint Extern 0 (Setter _) => derive_setter : typeclass_instances.

#[warnings="-postfix-notation-not-level-1"]
Notation "r <| f := v |>" := (@set_field _ _ f _ v r)
  (at level 40, left associativity, f at level 9, format "r  <|  f  :=  v  |>") : wefty_scope.

(** ** Fallible computations *)
Inductive result (E A : Type) : Type :=
| Ok (a : A)
| Err (e : E).
Arguments Ok {E A} a.
Arguments Err {E A} e.

Definition result_bind {E A B} (m : result E A) (k : A -> result E B) : result E B :=
  match m with Ok a => k a | Err e => Err e end.

Notation "'let?' x := m 'in' k" := (result_bind m (fun x => k))
  (at level 10, x pattern, k at level 200) : wefty_scope.

Lemma result_bind_ok {E A B} (m : result E A) (k : A -> result E B) b :
  result_bind m k = Ok b <-> exists a, m = Ok a /\ k a = Ok b.
Proof. destruct m; simpl; split; [eauto | by intros (? & [= ->] & ?) | done | by intros (? & ? & ?)]. Qed.

(** ** Transactions

    A store handler runs in one immediate SQLite transaction.  [Next] keeps the
    transaction open, [Return] is a return after a commit, [Abort] is a return
    that leaves the deferred rollback to undo every write.  A returned error
    may sit in either arm: settling an expired lease commits and then refuses. *)
Inductive flow (S E R A : Type) : Type :=
| Next (a : A) (s : S)
| Return (r : result E R) (s : S)
| Abort (r : result E R).
Arguments Next {S E R A} a s.
Arguments Return {S E R A} r s.
Arguments Abort {S E R A} r.

Definition tx (S E R A : Type) : Type := S -> flow S E R A.

Section Transactions.
Context {S E R : Type}.

Definition pure {A} (a : A) : tx S E R A := fun s => Next a s.

Definition bind {A B} (m : tx S E R A) (k : A -> tx S E R B) : tx S E R B :=
  fun s => match m s with
           | Next a s' => k a s'
           | Return r s' => Return r s'
           | Abort r => Abort r
           end.

(** An early [return nil, err] before the commit. *)
Definition fail {A} (e : E) : tx S E R A := fun _ => Abort (Err e).
(** An early successful return before the commit (a read-only replay). *)
Definition answer {A} (r : R) : tx S E R A := fun _ => Abort (Ok r).
(** [tx.Commit()] followed by a return. *)
Definition commit {A} (r : result E R) : tx S E R A := fun s => Return r s.
Definition reads {A} (f : S -> A) : tx S E R A := fun s => Next (f s) s.
Definition writes (f : S -> S) : tx S E R unit := fun s => Next tt (f s).
Definition lift {A} (m : result E A) : tx S E R A :=
  match m with Ok a => pure a | Err e => fail e end.
Definition need {A} (f : S -> option A) (e : E) : tx S E R A :=
  fun s => match f s with Some a => Next a s | None => Abort (Err e) end.
Definition check (b : bool) (e : E) : tx S E R unit :=
  if b then pure tt else fail e.

(** The store after the handler, and what the caller receives. *)
Definition run (m : tx S E R R) (s : S) : S * result E R :=
  match m s with
  | Next r s' => (s', Ok r)
  | Return r s' => (s', r)
  | Abort r => (s, r)
  end.

(** [ends m Q K X s]: what holds when [m], started in [s], continues ([Q]),
    returns with a committed store ([K]) or returns and rolls back ([X]). *)
Definition ends {A} (m : tx S E R A) (Q : A -> S -> Prop) (K : result E R -> S -> Prop)
    (X : result E R -> Prop) (s : S) : Prop :=
  match m s with
  | Next a s' => Q a s'
  | Return r s' => K r s'
  | Abort r => X r
  end.

Lemma ends_bind {A B} (m : tx S E R A) (k : A -> tx S E R B) Q K X s :
  ends m (fun a s' => ends (k a) Q K X s') K X s -> ends (bind m k) Q K X s.
Proof. unfold ends, bind. destruct (m s); auto. Qed.

(** Cut a sequence at what its first part establishes. *)
Lemma ends_seq {A B} (P : A -> S -> Prop) (m : tx S E R A) (k : A -> tx S E R B) Q K X s :
  ends m P K X s -> (forall a s', P a s' -> ends (k a) Q K X s') -> ends (bind m k) Q K X s.
Proof. intros Hm Hk. unfold ends, bind in *. destruct (m s); [by apply Hk | done..]. Qed.

Lemma ends_mono {A} (m : tx S E R A) (Q Q' : A -> S -> Prop) (K K' : result E R -> S -> Prop)
    (X X' : result E R -> Prop) s :
  (forall a s', Q a s' -> Q' a s') -> (forall r s', K r s' -> K' r s') -> (forall r, X r -> X' r) ->
  ends m Q K X s -> ends m Q' K' X' s.
Proof. unfold ends. destruct (m s); auto. Qed.

Lemma ends_run (m : tx S E R R) (P : S -> result E R -> Prop) s :
  ends m (fun r s' => P s' (Ok r)) (fun r s' => P s' r) (P s) s -> P (run m s).1 (run m s).2.
Proof. unfold ends, run. destruct (m s); auto. Qed.

Lemma ends_check b e (Q : unit -> S -> Prop) K (X : result E R -> Prop) s :
  (b = true -> Q tt s) -> (b = false -> X (Err e)) -> ends (check b e) Q K X s.
Proof. unfold check. destruct b; intros H1 H2; [by apply H1 | by apply H2]. Qed.

Lemma ends_lift {A} (m : result E A) (Q : A -> S -> Prop) K (X : result E R -> Prop) s :
  (forall a, m = Ok a -> Q a s) -> (forall e, m = Err e -> X (Err e)) -> ends (lift m) Q K X s.
Proof. unfold lift. destruct m; intros H1 H2; [by apply H1 | by apply H2]. Qed.

Lemma ends_need {A} (f : S -> option A) e (Q : A -> S -> Prop) K (X : result E R -> Prop) s :
  (forall a, f s = Some a -> Q a s) -> (f s = None -> X (Err e)) -> ends (need f e) Q K X s.
Proof. unfold ends, need. destruct (f s); auto. Qed.

Lemma post_run (m : tx S E R R) (I : S -> Prop) s :
  I s -> ends m (fun _ => I) (fun _ => I) (fun _ => True) s -> I (run m s).1.
Proof. unfold ends, run. destruct (m s); auto. Qed.
End Transactions.

(** What holds of every store a handler leaves through a commit. *)
Abbreviation post m Q K s := (ends m Q K (fun _ => True) s).

Notation "'let!' x := m 'in' k" := (bind m (fun x => k))
  (at level 10, x pattern, k at level 200) : wefty_scope.

(** [wp] runs a transaction symbolically: it opens binds, checks and lookups,
    keeps what each of them establishes, and stops at the statements it does not
    know; [wp_extra] is extended where the handlers' own statements are. *)
Ltac wp_extra := fail.
Ltac wp :=
  repeat (cbv beta zeta;
  lazymatch goal with
  | |- ends (bind _ _) _ _ _ _ => apply ends_bind
  | |- ends (pure ?a) ?Q _ _ ?s => change (Q a s)
  | |- ends (reads ?f) ?Q _ _ ?s => change (Q (f s) s)
  | |- ends (writes ?f) ?Q _ _ ?s => change (Q tt (f s))
  | |- ends (fail ?e) _ _ ?X _ => change (X (Err e))
  | |- ends (answer ?r) _ _ ?X _ => change (X (Ok r))
  | |- ends (commit ?r) _ ?K _ ?s => change (K r s)
  | |- ends (check _ _) _ _ _ _ => apply ends_check; intros ?
  | |- ends (lift _) _ _ _ _ => apply ends_lift; intros ? ?
  | |- ends (need _ _) _ _ _ _ => apply ends_need; [intros ? ? | intros ?]
  | |- ends (match ?x with _ => _ end) _ _ _ _ => destruct x eqn:?
  | |- ends _ _ _ _ _ => wp_extra
  end; cbv beta; try exact I); cbv beta.

(** ** Lists *)
Lemma filter_none {A} (p : A -> bool) l : List.filter p l = [] -> forall x, x ∈ l -> p x = false.
Proof.
  intros H x Hx. destruct (p x) eqn:E; [|done]. apply list_elem_of_In in Hx.
  assert (Hin := proj2 (filter_In p x l) (conj Hx E)). by rewrite H in Hin.
Qed.

(** [LIMIT 1] over a filtered table. *)
Lemma head_filter_none {A} (p : A -> bool) l : head (List.filter p l) = None -> forall x, x ∈ l -> p x = false.
Proof. intros H. apply filter_none. by destruct (List.filter p l). Qed.

Lemma head_filter_some {A} (p : A -> bool) l x : head (List.filter p l) = Some x -> x ∈ l /\ p x = true.
Proof. intros H. apply head_Some_elem_of, list_elem_of_In, filter_In in H as [Hin Hp]. split; [by apply list_elem_of_In | done]. Qed.

Lemma length_filter_perm {A} (p : A -> bool) l k : l ≡ₚ k -> length (List.filter p l) = length (List.filter p k).
Proof. induction 1; simpl; repeat case_match; simpl; congruence. Qed.

Lemma filter_length_one {A} (f : A -> bool) (l : list A) :
  length (List.filter f l) = 1%nat ->
  exists before x after, l = before ++ x :: after /\ f x = true
    /\ Forall (fun y => f y = false) (before ++ after).
Proof.
  induction l as [|a l IH]; simpl; [done|]. destruct (f a) eqn:E.
  - intros [= Hl]. exists [], a, l. split_and!; [done|done|]. simpl.
    apply Forall_forall. intros y Hy. destruct (f y) eqn:Ey; [|done].
    assert (Hin : In y (List.filter f l)) by (apply filter_In; split; [by apply list_elem_of_In | done]).
    by destruct (List.filter f l).
  - intros Hl. destruct (IH Hl) as (before & x & after & -> & Hx & Hr).
    exists (a :: before), x, after. split_and!; [done | done | by constructor].
Qed.

Lemma list_filter_true {A} (p : A -> bool) l : Forall (fun x => p x = true) l -> List.filter p l = l.
Proof. induction 1 as [|x l Hx _ IH]; simpl; [done|]. by rewrite Hx, IH. Qed.

Lemma list_filter_false {A} (p : A -> bool) l : Forall (fun x => p x = false) l -> List.filter p l = [].
Proof. induction 1 as [|x l Hx _ IH]; simpl; [done|]. by rewrite Hx. Qed.

Lemma filter_filter_comm {A} (p q : A -> bool) l : List.filter p (List.filter q l) = List.filter q (List.filter p l).
Proof.
  induction l as [|x l IH]; simpl; [done|].
  destruct (p x) eqn:P, (q x) eqn:Q; simpl; rewrite ?P, ?Q, ?IH; done.
Qed.

Lemma sorted_filter {A} (R : A -> A -> Prop) (p : A -> bool) l :
  StronglySorted R l -> StronglySorted R (List.filter p l).
Proof.
  induction 1 as [|x l _ IH Hx]; simpl; [constructor|]. case_match; [|done]. constructor; [done|].
  rewrite Forall_forall in *. intros y Hy. apply Hx. rewrite list_elem_of_In, filter_In in Hy. apply list_elem_of_In, Hy.
Qed.

Lemma list_filter_perm {A} (p : A -> bool) (l k : list A) : l ≡ₚ k -> List.filter p l ≡ₚ List.filter p k.
Proof.
  induction 1 as [|x l k _ IH|x y l|l k m _ IH1 _ IH2]; simpl; [done| | |by etrans].
  - case_match; [by constructor | done].
  - do 2 case_match; try done. apply perm_swap.
Qed.

Lemma filter_filter_and {A} (p q : A -> bool) l : List.filter p (List.filter q l) = List.filter (fun x => q x && p x) l.
Proof. induction l as [|x l IH]; simpl; [done|]. destruct (q x); simpl; [destruct (p x)|]; by rewrite IH. Qed.

Lemma filter_partition {A} (p : A -> bool) (l : list A) : l ≡ₚ List.filter p l ++ List.filter (fun x => negb (p x)) l.
Proof.
  induction l as [|x l IH]; simpl; [done|]. destruct (p x); simpl; [by constructor|].
  rewrite <- Permutation_middle. by constructor.
Qed.

Lemma elem_of_filter_bool {A} (p : A -> bool) (l : list A) x : x ∈ List.filter p l <-> x ∈ l /\ p x = true.
Proof. by rewrite !list_elem_of_In, filter_In. Qed.
