(* ===== verification/Order.v ===== *)
(** * Row orders

    The orders of the store's [ORDER BY] clauses: SQLite compares TEXT columns
    byte by byte, and the queries order rows by an integer column and then by an
    identifier.  Both orders are total; sorting is stdpp's merge sort. *)
From S2P Require Import Prelude.
From Stdlib Require Import Ascii.
From Stdlib Require String.
#[local] Open Scope Z_scope.

(** ** Identifiers *)
Definition str_leb (a b : string) : bool := String.leb a b.
Definition str_ltb (a b : string) : bool := negb (str_leb b a).

Lemma ascii_compare_spec a b :
  CompareSpec (a = b) (N_of_ascii a < N_of_ascii b)%N (N_of_ascii b < N_of_ascii a)%N (Ascii.compare a b).
Proof.
  unfold Ascii.compare. destruct (N.compare_spec (N_of_ascii a) (N_of_ascii b)) as [H|H|H]; constructor; try done.
  by rewrite <- (ascii_N_embedding a), <- (ascii_N_embedding b), H.
Qed.

Lemma str_compare_refl a : String.compare a a = Eq.
Proof. induction a as [|c a IH]; simpl; [done|]. destruct (ascii_compare_spec c c); [done|lia|lia]. Qed.

Lemma str_leb_refl a : str_leb a a = true.
Proof. unfold str_leb, String.leb. by rewrite str_compare_refl. Qed.

Lemma str_leb_cons c a d b :
  str_leb (String.String c a) (String.String d b) =
  match Ascii.compare c d with Eq => str_leb a b | Lt => true | Gt => false end.
Proof. unfold str_leb, String.leb. simpl. by destruct (Ascii.compare c d). Qed.

Lemma str_leb_trans a b c : str_leb a b = true -> str_leb b c = true -> str_leb a c = true.
Proof.
  revert b c. induction a as [|x a IH]; intros [|y b] [|z c]; try done.
  rewrite !str_leb_cons.
  destruct (ascii_compare_spec x y), (ascii_compare_spec y z), (ascii_compare_spec x z); intros ??; subst;
    try done; try lia; eauto.
Qed.

Lemma str_leb_total a b : str_leb a b = true \/ str_leb b a = true.
Proof. apply String.leb_total. Qed.

Lemma str_leb_antisym a b : str_leb a b = true -> str_leb b a = true -> a = b.
Proof. apply String.leb_antisym. Qed.

(** ** Keys: an integer column, then an identifier *)
Definition key_leb (a b : Z * string) : bool :=
  (a.1 <? b.1) || ((a.1 =? b.1) && str_leb a.2 b.2).
Definition key_ltb (a b : Z * string) : bool := negb (key_leb b a).

Lemma key_leb_iff a b : key_leb a b = true <-> a.1 < b.1 \/ (a.1 = b.1 /\ str_leb a.2 b.2 = true).
Proof. unfold key_leb. rewrite orb_true_iff, andb_true_iff, Z.ltb_lt, Z.eqb_eq. done. Qed.

Definition key_le (a b : Z * string) : Prop := key_leb a b = true.
#[export] Instance key_le_dec : RelDecision key_le.
Proof. intros a b. unfold key_le. apply _. Defined.

#[export] Instance key_le_trans : Transitive key_le.
Proof.
  unfold key_le. intros a b c. rewrite !key_leb_iff. intros [?|[? Hab]] [?|[? Hbc]]; try (left; lia).
  right. split; [lia|]. by eapply str_leb_trans.
Qed.

#[export] Instance key_le_total : Total key_le.
Proof.
  unfold key_le. intros a b. rewrite !key_leb_iff. destruct (str_leb_total a.2 b.2); destruct (Z.lt_total a.1 b.1) as [|[]]; auto.
Qed.

Lemma key_le_antisym a b : key_le a b -> key_le b a -> a = b.
Proof.
  unfold key_le. rewrite !key_leb_iff. destruct a as [x i], b as [y j]; simpl.
  intros [?|[? Hij]] [?|[? Hji]]; try lia. f_equal; [lia | by apply str_leb_antisym].
Qed.

(** ** Sorting by a key *)
Section SortBy.
Context {A : Type} (key : A -> Z * string).

Definition by_key (a b : A) : Prop := key_le (key a) (key b).
#[local] Instance by_key_dec : forall a b, Decision (by_key a b).
Proof. intros. unfold by_key. apply _. Defined.
#[local] Instance by_key_trans : Transitive by_key.
Proof. intros a b c. unfold by_key. apply key_le_trans. Qed.
#[local] Instance by_key_total : Total by_key.
Proof. intros a b. unfold by_key. apply key_le_total. Qed.

Definition sort_by (l : list A) : list A := merge_sort by_key l.

Lemma sort_by_perm l : sort_by l ≡ₚ l.
Proof. apply merge_sort_Permutation. Qed.

Lemma sort_by_sorted l : StronglySorted by_key (sort_by l).
Proof. apply StronglySorted_merge_sort; apply _. Qed.

Lemma elem_of_sort_by x l : x ∈ sort_by l <-> x ∈ l.
Proof. by rewrite sort_by_perm. Qed.

(** [LIMIT 1]: the first row is a least one, and there is one unless there are no rows. *)
Lemma sort_by_head l x : head (sort_by l) = Some x -> x ∈ l /\ forall y, y ∈ l -> by_key x y.
Proof.
  intros Hx. destruct (sort_by l) as [|z k] eqn:E; simplify_eq/=.
  assert (Hs := sort_by_sorted l). rewrite E in Hs. apply StronglySorted_inv in Hs as [_ Hs].
  assert (Hin : forall y, y ∈ l <-> y ∈ x :: k) by (intros y; by rewrite <- E, elem_of_sort_by).
  split; [apply Hin; by left|]. intros y [->|Hy]%Hin%elem_of_cons.
  - destruct (by_key_total x x); done.
  - rewrite Forall_forall in Hs. by apply Hs.
Qed.

Lemma sort_by_head_none l : head (sort_by l) = None -> l = [].
Proof.
  destruct (sort_by l) eqn:E; [|done]. intros _.
  apply Permutation_nil_r. by rewrite <- E, sort_by_perm.
Qed.
End SortBy.
