(* ===== verification/States.v ===== *)
(** * The contract's state machines

    [contract/states.go]: the enumerations of Job, Attempt, Node and Run states
    and the transition tables the control plane consults.  A Go
    [map[S][]S] literal is an association list here; a key that is absent from
    the map yields the nil slice, hence no transition. *)
From S2P Require Import Prelude.

Inductive JobState :=
| JobQueued | JobClaimed | JobRunning | JobStopping | JobStopped | JobAwaitingInput
| JobSucceeded | JobFailed | JobRemovalPending | JobAgentCleaned | JobRemovedVerified
| JobForgottenCleanupUnverified | JobStalledCleanupUnverified.

Inductive ServiceDesiredState :=
| ServiceDesiredRunning | ServiceDesiredStopped | ServiceDesiredRemoved.

Inductive AttemptState :=
| AttemptClaimed | AttemptRunning | AttemptAwaitingInput | AttemptSucceeded
| AttemptFailed | AttemptLost | AttemptInterrupted.

Inductive NodeState := NodeAlive | NodeStale | NodeDraining | NodeDead.

Inductive RunState :=
| RunPending | RunDispatching | RunQueued | RunRunning | RunAwaitingInput
| RunSucceeded | RunFailed.

#[export] Instance JobState_eq_dec : EqDecision JobState.
Proof. solve_decision. Defined.
#[export] Instance ServiceDesiredState_eq_dec : EqDecision ServiceDesiredState.
Proof. solve_decision. Defined.
#[export] Instance AttemptState_eq_dec : EqDecision AttemptState.
Proof. solve_decision. Defined.
#[export] Instance NodeState_eq_dec : EqDecision NodeState.
Proof. solve_decision. Defined.
#[export] Instance RunState_eq_dec : EqDecision RunState.
Proof. solve_decision. Defined.

Definition transition_table (T : Type) : Type := list (T * list T).

Definition JobTransitions : transition_table JobState :=
  [ (JobQueued, [JobClaimed; JobFailed]);
    (JobClaimed, [JobRunning; JobQueued; JobFailed]);
    (JobRunning, [JobAwaitingInput; JobSucceeded; JobFailed]);
    (JobStopping, []);
    (JobStopped, []);
    (JobAwaitingInput, [JobRunning; JobFailed]);
    (JobSucceeded, []);
    (JobFailed, []);
    (JobRemovalPending, []);
    (JobAgentCleaned, []);
    (JobRemovedVerified, []);
    (JobForgottenCleanupUnverified, []);
    (JobStalledCleanupUnverified, []) ].

Definition ServiceJobTransitions : transition_table JobState :=
  [ (JobQueued, [JobClaimed; JobStopped; JobFailed; JobRemovalPending]);
    (JobClaimed, [JobRunning; JobStopping; JobStopped; JobQueued; JobFailed; JobRemovalPending]);
    (JobRunning, [JobStopping; JobStopped; JobQueued; JobFailed; JobRemovalPending]);
    (JobStopping, [JobStopped; JobFailed; JobRemovalPending]);
    (JobStopped, [JobQueued; JobFailed; JobRemovalPending]);
    (JobFailed, [JobQueued; JobRemovalPending]);
    (JobRemovalPending,
      [JobAgentCleaned; JobForgottenCleanupUnverified; JobStalledCleanupUnverified]);
    (JobAgentCleaned, [JobRemovedVerified; JobForgottenCleanupUnverified]);
    (JobRemovedVerified, []);
    (JobForgottenCleanupUnverified, []);
    (JobStalledCleanupUnverified, []) ].

Definition RestartableJobTransitions : transition_table JobState :=
  [ (JobQueued, [JobClaimed; JobFailed]);
    (JobClaimed, [JobRunning; JobQueued; JobFailed]);
    (JobRunning, [JobAwaitingInput; JobQueued; JobSucceeded; JobFailed]);
    (JobAwaitingInput, [JobRunning; JobQueued; JobFailed]);
    (JobSucceeded, []);
    (JobFailed, []) ].

Definition AttemptTransitions : transition_table AttemptState :=
  [ (AttemptClaimed, [AttemptRunning; AttemptFailed; AttemptLost; AttemptInterrupted]);
    (AttemptRunning,
      [AttemptAwaitingInput; AttemptSucceeded; AttemptFailed; AttemptLost; AttemptInterrupted]);
    (AttemptAwaitingInput, [AttemptRunning; AttemptFailed; AttemptLost; AttemptInterrupted]);
    (AttemptSucceeded, []);
    (AttemptFailed, []);
    (AttemptLost, []);
    (AttemptInterrupted, []) ].

Definition NodeTransitions : transition_table NodeState :=
  [ (NodeAlive, [NodeStale; NodeDraining; NodeDead]);
    (NodeStale, [NodeAlive; NodeDraining; NodeDead]);
    (NodeDraining, [NodeAlive; NodeDead]);
    (NodeDead, [NodeAlive]) ].

Definition RunTransitions : transition_table RunState :=
  [ (RunPending, [RunDispatching; RunFailed]);
    (RunDispatching, [RunQueued; RunFailed]);
    (RunQueued, [RunRunning; RunFailed]);
    (RunRunning, [RunAwaitingInput; RunSucceeded; RunFailed]);
    (RunAwaitingInput, [RunRunning; RunFailed]);
    (RunSucceeded, []);
    (RunFailed, []) ].

(** [table[from]]: the zero value of a missing key is the nil slice. *)
Fixpoint table_lookup `{EqDecision T} (table : transition_table T) (from : T) : list T :=
  match table with
  | [] => []
  | (k, v) :: rest => if decide (from = k) then v else table_lookup rest from
  end.

Definition CanTransition `{EqDecision T} (table : transition_table T) (from to : T) : bool :=
  existsb (fun candidate => bool_decide (candidate = to)) (table_lookup table from).

Lemma CanTransition_spec `{EqDecision T} (table : transition_table T) from to :
  CanTransition table from to = true <-> to ∈ table_lookup table from.
Proof.
  unfold CanTransition. rewrite existsb_exists, list_elem_of_In.
  split; [intros (c & Hc & He) | intros Hin; exists to].
  - apply bool_decide_eq_true in He. by subst.
  - split; [done | by apply bool_decide_eq_true].
Qed.

(** A state with no way out of it in a table. *)
Definition terminal `{EqDecision T} (table : transition_table T) (s : T) : bool :=
  match table_lookup table s with [] => true | _ => false end.

(** Any path of a table from a state: the states it may visit afterwards. *)
Inductive path `{EqDecision T} (table : transition_table T) : T -> T -> Prop :=
| path_refl s : path table s s
| path_step s t u : CanTransition table s t = true -> path table t u -> path table s u.

Lemma path_terminal `{EqDecision T} (table : transition_table T) s t :
  terminal table s = true -> path table s t -> t = s.
Proof.
  intros Ht Hp. destruct Hp as [|s' m u Hst _]; [done|].
  apply CanTransition_spec in Hst. unfold terminal in Ht.
  destruct (table_lookup table s'); [by apply not_elem_of_nil in Hst | done].
Qed.

Lemma attempt_terminal_states s :
  terminal AttemptTransitions s = true <->
  s = AttemptSucceeded \/ s = AttemptFailed \/ s = AttemptLost \/ s = AttemptInterrupted.
Proof. destruct s; vm_compute; intuition congruence. Qed.

(** The states a removed service can be in. *)
Definition removal_state (s : JobState) : bool :=
  match s with
  | JobRemovalPending | JobAgentCleaned | JobRemovedVerified
  | JobForgottenCleanupUnverified | JobStalledCleanupUnverified => true
  | _ => false
  end.

Lemma removal_state_step s t :
  removal_state s = true -> CanTransition ServiceJobTransitions s t = true -> removal_state t = true.
Proof. destruct s, t; vm_compute; congruence. Qed.

(** The restartable table is the ordinary one-shot table plus exactly two
    edges, running to queued and awaiting-input to queued; terminal one-shot
    states stay terminal in it. *)
Theorem restartable_adds_only_requeue (from to : JobState) :
  CanTransition RestartableJobTransitions from to =
  CanTransition JobTransitions from to
  || (bool_decide (from = JobRunning \/ from = JobAwaitingInput) && bool_decide (to = JobQueued)).
Proof. destruct from, to; reflexivity. Qed.

(** Once a service Job has entered removal, no path of the service table
    leads back to a schedulable or running state. *)
Theorem removal_is_irreversible (s t : JobState) :
  removal_state s = true -> path ServiceJobTransitions s t -> removal_state t = true.
Proof. intros Hs Hp. induction Hp; eauto using removal_state_step. Qed.

Lemma removal_is_irreversible_witness : removal_state JobRemovedVerified = true.
Proof.
  apply (removal_is_irreversible JobRemovalPending); [reflexivity|].
  eapply path_step with (t := JobAgentCleaned); [reflexivity|].
  eapply path_step; [|apply path_refl]. reflexivity.
Defined.
