(* ===== verification/Contract.v ===== *)
(** * The contract package's wire vocabulary and job description

    [contract/errors.go], [contract/limits.go] and [contract/types.go]: the
    protocol error codes, the job specification with its wire-presence flags,
    execution results and log events.  Fields whose Go type distinguishes nil
    from empty are options; the unexported [*Set]/[*Null] members that
    [UnmarshalJSON] fills are ordinary fields.  Closed vocabularies that arrive
    as JSON strings stay strings, because the decoder admits any text. *)
From S2P Require Import Prelude.
#[local] Open Scope string_scope.
#[local] Open Scope list_scope.
#[local] Open Scope Z_scope.

(** ** Error codes *)
Inductive ErrorCode :=
| ErrorInvalidRequest | ErrorNotFound | ErrorUnauthorized | ErrorForbidden
| ErrorPrincipalForbidden | ErrorIdentityBound | ErrorConflict | ErrorNodeNotRegistered
| ErrorNodeDead | ErrorNodeDraining | ErrorNodeSessionReplaced | ErrorAttemptNotFound
| ErrorAttemptNotOwned | ErrorStaleFence | ErrorLeaseExpired | ErrorAttemptMismatch
| ErrorSupersededAttempt | ErrorDispatchKeyConflict | ErrorInstanceKeyConflict
| ErrorInstanceKeyNotSupported | ErrorSpawnDepthExceeded | ErrorIdempotencyConflict
| ErrorStaleIntentRevision | ErrorStalePolicyRevision | ErrorStorageReferenceConflict
| ErrorComputerResourceRequired | ErrorComputerTraitRequired | ErrorRunIdentityRequired
| ErrorRunIdentityNotEntitled | ErrorPersonIdentityRequired | ErrorPersonDeviceMismatch
| ErrorMachineIdentityRequired | ErrorParticipantInUse | ErrorAdminRequired
| ErrorAdminBootstrapInvalid | ErrorAdminBootstrapClosed | ErrorFinalAdmin
| ErrorControlNotAuthorized | ErrorControllerBusy | ErrorControllerAlreadyHeld
| ErrorTakeoverSessionEnded | ErrorTenureUnavailable | ErrorRevocationObservationFailed
| ErrorRevocationWaitTimeout | ErrorCapacityExhausted | ErrorPassUnavailable
| ErrorSubmitInflightLimit | ErrorUnsupportedKind | ErrorUnsupportedClass
| ErrorUnsupportedRuntimeHandler | ErrorNoResolvedImageSnapshot | ErrorCancelService
| ErrorCancelNotQueued | ErrorNotImplemented | ErrorRunLedgerUnavailable | ErrorUnavailable
| ErrorFabricUnreachable | ErrorClientServiceBusy | ErrorInternal
| ErrorDeEnrollmentNotCommitted.

#[export] Instance ErrorCode_eq_dec : EqDecision ErrorCode.
Proof. solve_decision. Defined.

(** ** Vocabularies *)
Definition SpawnFailureUnsupportedClass : string := "unsupported_class".
Definition SpawnFailureUnsupportedKind : string := "unsupported_kind".
Definition SpawnFailureUnsupportedRuntimeHandler : string := "unsupported_runtime_handler".
Definition SpawnFailureManagedResourcePreparation : string := "managed_resource_preparation_failed".
Definition SpawnFailureHandoffPreparation : string := "handoff_preparation_failed".
Definition SpawnFailureExecutableMaterialization : string := "executable_materialization_failed".
Definition SpawnFailureWorkflowBridgeCreation : string := "workflow_bridge_creation_failed".
Definition SpawnFailureLogSinkSetup : string := "log_sink_setup_failed".
Definition SpawnFailureProcessRequest : string := "process_request_invalid".
Definition SpawnFailureProcessGroupSetup : string := "process_group_setup_failed".
Definition SpawnFailureProcessSpawn : string := "process_spawn_failed".
Definition SpawnFailureProcessWait : string := "process_wait_failed".
Definition SpawnFailurePublishedPortOccupied : string := "published_port_occupied".
Definition SpawnFailurePublishedListener : string := "published_listener_failed".
Definition SpawnFailureStartupReadinessTimeout : string := "startup_readiness_timeout".
Definition SpawnFailureRuntimeUnavailable : string := "runtime_unavailable".
Definition SpawnFailureImageUnavailable : string := "image_unavailable".
Definition SpawnFailureImageNotFound : string := "image_not_found".
Definition SpawnFailureImageManifestInvalid : string := "image_manifest_invalid".
Definition SpawnFailureImagePlatformUnsupported : string := "image_platform_unsupported".
Definition SpawnFailureOCISpecRejected : string := "oci_spec_rejected".
Definition SpawnFailureInsufficientMemory : string := "insufficient_memory".
Definition SpawnFailureInsufficientDisk : string := "insufficient_disk".
Definition SpawnFailureReconfigurationAborted : string := "reconfiguration_aborted".
Definition SpawnFailureReimagePreflight : string := "computer_reimage_preflight_failed".
Definition SpawnFailurePassUnavailable : string := "pass_unavailable".
Definition SpawnFailureServicePortTaken : string := "service_port_taken".
Definition SpawnFailureComputerStorageQuarantined : string := "computer_storage_quarantined".
Definition SpawnFailureComputerStoragePreparationInterrupted : string := "computer_storage_preparation_interrupted".

Definition RuntimeFailureUnavailable : string := "runtime_unavailable".

Definition TerminationCauseSpontaneous : string := "spontaneous".
Definition TerminationCauseAgent : string := "agent".
Definition TerminationCauseGuardian : string := "guardian".

Definition LimitReachedMaxRuntime : string := "max_runtime".
Definition LimitReachedIdleTimeout : string := "idle_timeout".

Definition LogGapSpoolEviction : string := "spool_eviction".
Definition LogGapOversizedEvent : string := "oversized_event".
Definition LogGapReplayRejected : string := "replay_rejected".
Definition LogGapLateEvidenceWindowExpired : string := "late_evidence_window_expired".
Definition LogGapLoggerSourceIncomplete : string := "logger_source_incomplete".

Definition LogStdout : string := "stdout".
Definition LogStderr : string := "stderr".

Definition ResultUploadSkipAbsent : string := "absent".
Definition ResultUploadSkipNotFile : string := "not_a_regular_file".
Definition ResultUploadSkipOversize : string := "exceeds_upload_bound".
Definition ResultUploadSkipNotJSON : string := "not_json".
Definition ResultUploadSkipUnreadable : string := "unreadable".
Definition ResultUploadSkipTransport : string := "upload_failed".

Definition CapabilityReasonOCIIntentDisabled : string := "oci_intent_disabled".
Definition CapabilityReasonPrerequisiteMissing : string := "prerequisite_missing".
Definition CapabilityReasonRuntimeVersionUnsupported : string := "runtime_version_unsupported".
Definition CapabilityReasonHelperUnreachable : string := "helper_unreachable".
Definition CapabilityReasonHelperUnitUnavailable : string := "helper_unit_unavailable".
Definition CapabilityReasonHelperHandshakeStalled : string := "helper_handshake_stalled".
Definition CapabilityReasonHelperHandshakeStalledPersistent : string := "helper_handshake_stalled_persistent".
Definition CapabilityReasonHelperVersionMismatch : string := "helper_version_mismatch".
Definition CapabilityReasonHelperHandshakeFailed : string := "helper_handshake_failed".
Definition CapabilityReasonBootSweepFailed : string := "boot_sweep_failed".
Definition CapabilityReasonProbeFailed : string := "probe_failed".
Definition CapabilityReasonLimaStopped : string := "lima_stopped".
Definition CapabilityReasonLimaBroken : string := "lima_broken".
Definition CapabilityReasonLimaStartTimeout : string := "lima_start_timeout".
Definition CapabilityReasonTemplateRestartRequired : string := "template_restart_required".
Definition CapabilityReasonTemplateRecreateRequired : string := "template_recreate_required".
Definition CapabilityReasonMountRootUnavailable : string := "mount_root_unavailable".
Definition CapabilityReasonLocalPermissionDenied : string := "local_permission_denied".
Definition CapabilityReasonHostVMIdle : string := "host_vm_idle".

Definition LogGapReasons : list string :=
  [LogGapSpoolEviction; LogGapOversizedEvent; LogGapReplayRejected;
   LogGapLateEvidenceWindowExpired; LogGapLoggerSourceIncomplete].

Definition LogGapReason_Valid (reason : string) : bool :=
  existsb (fun candidate => bool_decide (reason = candidate)) LogGapReasons.

Definition ValidResultUploadSkipReason (reason : string) : bool :=
  bool_decide (reason ∈ [ResultUploadSkipAbsent; ResultUploadSkipNotFile; ResultUploadSkipOversize;
    ResultUploadSkipNotJSON; ResultUploadSkipUnreadable; ResultUploadSkipTransport]).

Definition capabilityReasonCodes : list string :=
  [ CapabilityReasonOCIIntentDisabled;
    CapabilityReasonPrerequisiteMissing;
    CapabilityReasonRuntimeVersionUnsupported;
    CapabilityReasonHelperUnreachable;
    CapabilityReasonHelperUnitUnavailable;
    CapabilityReasonHelperHandshakeStalled;
    CapabilityReasonHelperHandshakeStalledPersistent;
    CapabilityReasonHelperVersionMismatch;
    CapabilityReasonHelperHandshakeFailed;
    CapabilityReasonBootSweepFailed;
    CapabilityReasonProbeFailed;
    CapabilityReasonLimaStopped;
    CapabilityReasonLimaBroken;
    CapabilityReasonLimaStartTimeout;
    CapabilityReasonTemplateRestartRequired;
    CapabilityReasonTemplateRecreateRequired;
    CapabilityReasonMountRootUnavailable;
    CapabilityReasonLocalPermissionDenied;
    CapabilityReasonHostVMIdle ].

Definition ociRestrictionCapabilityReasonCodes : list string :=
  [ CapabilityReasonOCIIntentDisabled;
    CapabilityReasonPrerequisiteMissing;
    CapabilityReasonRuntimeVersionUnsupported;
    CapabilityReasonHelperUnreachable;
    CapabilityReasonHelperUnitUnavailable;
    CapabilityReasonHelperHandshakeStalled;
    CapabilityReasonHelperHandshakeStalledPersistent;
    CapabilityReasonHelperVersionMismatch;
    CapabilityReasonHelperHandshakeFailed;
    CapabilityReasonBootSweepFailed;
    CapabilityReasonProbeFailed;
    CapabilityReasonLimaStopped;
    CapabilityReasonLimaBroken;
    CapabilityReasonLimaStartTimeout;
    CapabilityReasonTemplateRestartRequired;
    CapabilityReasonTemplateRecreateRequired;
    CapabilityReasonMountRootUnavailable;
    CapabilityReasonLocalPermissionDenied;
    CapabilityReasonHostVMIdle ].

Definition CapabilityReasonCode_Valid (code : string) : bool :=
  existsb (fun valid => bool_decide (code = valid)) capabilityReasonCodes.

Definition ValidOCIRestriction (code : string) : bool :=
  existsb (fun valid => bool_decide (code = valid)) ociRestrictionCapabilityReasonCodes.

(** ** Names and constants *)
Definition EnvRunID : string := "WEFTY_RUN_ID".
Definition EnvL1Endpoint : string := "WEFTY_L1_ENDPOINT".
Definition EnvL3Endpoint : string := "WEFTY_L3_ENDPOINT".
Definition EnvAttemptToken : string := "WEFTY_ATTEMPT_TOKEN".
Definition EnvRunToken : string := "WEFTY_RUN_TOKEN".
Definition EnvHandoffDir : string := "WEFTY_HANDOFF_DIR".
Definition EnvRunDir : string := "WEFTY_RUN_DIR".
Definition EnvServiceDir : string := "WEFTY_SERVICE_DIR".
Definition EnvServicePort : string := "WEFTY_SERVICE_PORT".
Definition EnvComputerToken : string := "WEFTY_COMPUTER_TOKEN".
Definition EnvComputerViewPort : string := "WEFTY_COMPUTER_VIEW_PORT".
Definition EnvComputerControlPort : string := "WEFTY_COMPUTER_CONTROL_PORT".
Definition OCIContainerHandoffDirectory : string := "/wefty/handoff".
Definition OCIContainerServiceDirectory : string := "/wefty/service".
Definition OCIContainerControlDirectory : string := "/wefty/control".
Definition StableNodeTagPrefix : string := "wefty:node:".
Definition LabelRunParams : string := "run_params_json".
Definition LabelDispatchAuthority : string := "dispatch_authority".
Definition LabelWithholdCredentials : string := "withhold_workload_credentials".
Definition LabelTrue : string := "true".
Definition JobKindProcess : string := "process".
Definition JobKindOCI : string := "oci".
Definition JobClassOneShot : string := "one-shot".
Definition JobClassService : string := "service".
Definition RestartAlways : string := "always".
Definition RestartOnFailure : string := "on-failure".
Definition RestartNever : string := "never".
Definition LabelRunID : string := "run_id".
Definition LabelHandoffOwnerRunID : string := "handoff_owner_run_id".
Definition ComputerDisplayProtocolRFBWebSocketV1 : string := "rfb-websocket-v1".
Definition SchemaVersionV1 : Z := 1.
Definition SeatFrontDoorPort : Z := 80.
Definition MaxHandoffOwnerKeyBytes : Z := 255.

(** ** Limits *)
Definition MaxInt64 : Z := 9223372036854775807.
Definition second : Z := 1000000000.
Definition MaxLimitSeconds : Z := MaxInt64 / second.

Definition ValidateLimitSeconds (seconds : Z) : result ErrorCode unit :=
  if (seconds <? 0) || (MaxLimitSeconds <? seconds) then Err ErrorInvalidRequest else Ok tt.

(** ** Labels and reserved environment names *)
Definition label (labels : gmap string string) (name : string) : string :=
  default "" (labels !! name).

Definition DeclaresDispatchAuthority (labels : gmap string string) : bool :=
  bool_decide (label labels LabelDispatchAuthority = LabelTrue).

Definition WithholdsWorkloadCredentials (labels : gmap string string) : bool :=
  bool_decide (label labels LabelWithholdCredentials = LabelTrue).

Definition IsReservedCredentialEnvironmentName (name : string) : bool :=
  bool_decide (name = EnvRunToken) || bool_decide (name = EnvComputerToken)
  || bool_decide (name = EnvAttemptToken).

Definition RedactJobLabels (labels : gmap string string) : gmap string string :=
  match labels !! LabelRunParams with
  | None => labels
  | Some _ => delete LabelRunParams labels
  end.

Definition ociReservedEnvironmentNames : list string :=
  [EnvHandoffDir; EnvRunDir; EnvServiceDir; EnvServicePort; EnvL1Endpoint; EnvL3Endpoint;
   EnvAttemptToken; EnvRunToken; EnvComputerToken; EnvComputerViewPort; EnvComputerControlPort].

Definition IsOCIReservedEnvironmentName (name : string) : bool :=
  existsb (fun reserved => bool_decide (name = reserved)) ociReservedEnvironmentNames.

Definition IsOCISensitiveReservedEnvironmentName (name : string) : bool :=
  IsReservedCredentialEnvironmentName name.

(** ** The job specification *)
Record ExecutableSpec := mkExecutableSpec {
  ex_Path : string;
  ex_InlineBase64 : string;
  ex_SHA256 : string;
  ex_Interpreter : option (list string);
  ex_Mode : Z
}.
#[export] Instance ExecutableSpec_eta : Eta ExecutableSpec := fun r =>
  mkExecutableSpec (ex_Path r) (ex_InlineBase64 r) (ex_SHA256 r) (ex_Interpreter r) (ex_Mode r).

Record OCIImageSpec := mkOCIImageSpec {
  img_Reference : string;
  img_Digest : option string;
  img_digestNull : bool
}.
#[export] Instance OCIImageSpec_eta : Eta OCIImageSpec := fun r =>
  mkOCIImageSpec (img_Reference r) (img_Digest r) (img_digestNull r).

Record OCIMount := mkOCIMount {
  mnt_NodePath : string;
  mnt_ContainerPath : string;
  mnt_ReadOnly : bool;
  mnt_readOnlyNull : bool
}.
#[export] Instance OCIMount_eta : Eta OCIMount := fun r =>
  mkOCIMount (mnt_NodePath r) (mnt_ContainerPath r) (mnt_ReadOnly r) (mnt_readOnlyNull r).

Record OCILimits := mkOCILimits {
  ol_MemoryBytes : option Z;
  ol_CPUMillicores : option Z;
  ol_memoryNull : bool;
  ol_cpuNull : bool
}.
#[export] Instance OCILimits_eta : Eta OCILimits := fun r =>
  mkOCILimits (ol_MemoryBytes r) (ol_CPUMillicores r) (ol_memoryNull r) (ol_cpuNull r).

Record OCIComputerSpec := mkOCIComputerSpec {
  comp_DisplayProtocol : string;
  comp_DiskBytes : Z
}.
#[export] Instance OCIComputerSpec_eta : Eta OCIComputerSpec := fun r =>
  mkOCIComputerSpec (comp_DisplayProtocol r) (comp_DiskBytes r).

Record OCIExecutionSpec := mkOCIExecutionSpec {
  oci_Image : OCIImageSpec;
  oci_Argv : option (list string);
  oci_WorkingDirectory : option string;
  oci_Mounts : list OCIMount;
  oci_Limits : option OCILimits;
  oci_Computer : option OCIComputerSpec;
  oci_argvNull : bool;
  oci_workingDirNull : bool;
  oci_mountsNull : bool;
  oci_limitsNull : bool;
  oci_computerNull : bool
}.
#[export] Instance OCIExecutionSpec_eta : Eta OCIExecutionSpec := fun r =>
  mkOCIExecutionSpec (oci_Image r) (oci_Argv r) (oci_WorkingDirectory r) (oci_Mounts r)
    (oci_Limits r) (oci_Computer r) (oci_argvNull r) (oci_workingDirNull r) (oci_mountsNull r)
    (oci_limitsNull r) (oci_computerNull r).

Record ExecutionSpec := mkExecutionSpec {
  exec_Executable : ExecutableSpec;
  exec_Argv : option (list string);
  exec_Env : gmap string string;
  exec_SensitiveEnv : gmap string string;
  exec_WorkingDirectory : string;
  exec_HandoffDirectory : string;
  exec_OCI : option OCIExecutionSpec;
  exec_executableSet : bool;
  exec_argvSet : bool;
  exec_workingDirSet : bool;
  exec_handoffDirSet : bool;
  exec_ociSet : bool
}.
#[export] Instance ExecutionSpec_eta : Eta ExecutionSpec := fun r =>
  mkExecutionSpec (exec_Executable r) (exec_Argv r) (exec_Env r) (exec_SensitiveEnv r)
    (exec_WorkingDirectory r) (exec_HandoffDirectory r) (exec_OCI r) (exec_executableSet r)
    (exec_argvSet r) (exec_workingDirSet r) (exec_handoffDirSet r) (exec_ociSet r).

Record JobLimits := mkJobLimits {
  lim_MaxRuntimeSeconds : Z;
  lim_IdleTimeoutSeconds : Z;
  lim_CompletionTimeoutSeconds : Z;
  lim_idleTimeoutSet : bool
}.
#[export] Instance JobLimits_eta : Eta JobLimits := fun r =>
  mkJobLimits (lim_MaxRuntimeSeconds r) (lim_IdleTimeoutSeconds r)
    (lim_CompletionTimeoutSeconds r) (lim_idleTimeoutSet r).

Record JobSpec := mkJobSpec {
  js_SchemaVersion : Z;
  js_DispatchKey : string;
  js_InstanceKey : option string;
  js_Kind : string;
  js_Class : string;
  js_PublishedPort : option Z;
  js_Restartable : bool;
  js_Restart : string;
  js_MaxRestartStreak : option Z;
  js_RuntimeHandler : string;
  js_RoutingTags : list string;
  js_Execution : ExecutionSpec;
  js_Limits : option JobLimits;
  js_Labels : gmap string string;
  js_publishedPortSet : bool;
  js_instanceKeySet : bool
}.
#[export] Instance JobSpec_eta : Eta JobSpec := fun r =>
  mkJobSpec (js_SchemaVersion r) (js_DispatchKey r) (js_InstanceKey r) (js_Kind r) (js_Class r)
    (js_PublishedPort r) (js_Restartable r) (js_Restart r) (js_MaxRestartStreak r)
    (js_RuntimeHandler r) (js_RoutingTags r) (js_Execution r) (js_Limits r) (js_Labels r)
    (js_publishedPortSet r) (js_instanceKeySet r).

Definition IsComputerExecution (execution : ExecutionSpec) : bool :=
  match exec_OCI execution with
  | Some oci => bool_decide (is_Some (oci_Computer oci))
  | None => false
  end.

(** ** Results and log events *)
Record RuntimeFailure := mkRuntimeFailure {
  rf_Code : string;
  rf_Message : string
}.
#[export] Instance RuntimeFailure_eta : Eta RuntimeFailure := fun r =>
  mkRuntimeFailure (rf_Code r) (rf_Message r).

Record SpawnFailure := mkSpawnFailure {
  sf_Code : string;
  sf_Message : string;
  sf_NodeID : string;
  sf_RequestedBytes : Z;
  sf_ObservedAvailableBytes : Z
}.
#[export] Instance SpawnFailure_eta : Eta SpawnFailure := fun r =>
  mkSpawnFailure (sf_Code r) (sf_Message r) (sf_NodeID r) (sf_RequestedBytes r)
    (sf_ObservedAvailableBytes r).

(** Sequences and counts are uint64 values. *)
Record LogGap := mkLogGap {
  gap_ThroughSequence : Z;
  gap_LostEventCount : Z;
  gap_LostByteCount : Z;
  gap_Reason : string;
  gap_SourceEventSHA256 : string
}.
#[export] Instance LogGap_eta : Eta LogGap := fun r =>
  mkLogGap (gap_ThroughSequence r) (gap_LostEventCount r) (gap_LostByteCount r) (gap_Reason r)
    (gap_SourceEventSHA256 r).

(** [Bytes] is the decoded payload, [Timestamp] Unix nanoseconds. *)
Record LogEvent := mkLogEvent {
  le_AttemptID : string;
  le_Stream : string;
  le_Sequence : Z;
  le_Timestamp : Z;
  le_Bytes : string;
  le_Gap : option LogGap
}.
#[export] Instance LogEvent_eta : Eta LogEvent := fun r =>
  mkLogEvent (le_AttemptID r) (le_Stream r) (le_Sequence r) (le_Timestamp r) (le_Bytes r)
    (le_Gap r).

#[export] Instance LogGap_eq_dec : EqDecision LogGap.
Proof. solve_decision. Defined.
#[export] Instance LogEvent_eq_dec : EqDecision LogEvent.
Proof. solve_decision. Defined.
#[export] Instance SpawnFailure_eq_dec : EqDecision SpawnFailure.
Proof. solve_decision. Defined.
#[export] Instance RuntimeFailure_eq_dec : EqDecision RuntimeFailure.
Proof. solve_decision. Defined.

Record NodeRegistration := mkNodeRegistration {
  reg_SystemBootID : string;
  reg_AgentGenerationID : string;
  reg_NodeID : string;
  reg_BootSessionID : string;
  reg_ConnectHost : string;
  reg_RootInstanceID : string;
  reg_OS : string;
  reg_Architecture : string;
  reg_AgentVersion : string;
  reg_Capabilities : gmap string bool;
  reg_CapabilityRevision : Z;
  reg_CapabilityObservedAt : Z;
  reg_MissingCapabilities : list string;
  reg_CapabilityReasonCode : string;
  reg_SupersedeCapabilityRevision : bool
}.
#[export] Instance NodeRegistration_eta : Eta NodeRegistration := fun r =>
  mkNodeRegistration (reg_SystemBootID r) (reg_AgentGenerationID r) (reg_NodeID r) (reg_BootSessionID r) (reg_ConnectHost r)
    (reg_RootInstanceID r) (reg_OS r) (reg_Architecture r) (reg_AgentVersion r) (reg_Capabilities r)
    (reg_CapabilityRevision r) (reg_CapabilityObservedAt r) (reg_MissingCapabilities r) (reg_CapabilityReasonCode r)
    (reg_SupersedeCapabilityRevision r).
#[export] Instance NodeRegistration_eq_dec : EqDecision NodeRegistration.
Proof. solve_decision. Defined.
