(* ===== verification/GoStrings.v ===== *)
(** * The Go string, path and regexp functions the validators call

    A Go string is a byte string.  This file gives the parts of [strings],
    [unicode/utf8], [path] and [regexp] that the contract package uses:
    UTF-8 decoding with the replacement rune for invalid bytes, [TrimSpace],
    [ToLower], [RuneCountInString], [path.Clean], and a regular-expression
    matcher proved equivalent to the usual language semantics.

    The lower-case mapping of non-ASCII runes is Unicode data; it is an argument
    ([lower_table]) of the functions that use it. *)
From S2P Require Import Prelude.
From Stdlib Require Import Ascii.
From Stdlib Require String.
#[local] Open Scope Z_scope.

Definition byte_val (a : ascii) : Z := Z.of_N (N_of_ascii a).
Definition byte_of (z : Z) : ascii := ascii_of_N (Z.to_N z).
Definition bytes (s : string) : list ascii := String.list_ascii_of_string s.
Definition of_bytes (l : list ascii) : string := String.string_of_list_ascii l.

Lemma of_bytes_bytes s : of_bytes (bytes s) = s.
Proof. apply String.string_of_list_ascii_of_string. Qed.
Lemma bytes_of_bytes l : bytes (of_bytes l) = l.
Proof. apply String.list_ascii_of_string_of_list_ascii. Qed.

Definition in_range (lo hi z : Z) : bool := (lo <=? z) && (z <=? hi).

(** ** UTF-8 *)
Definition RuneError : Z := 65533.

(** One rune and the number of bytes it takes; an invalid sequence is
    [RuneError] of width one, as in [utf8.DecodeRuneInString]. *)
Definition decode_rune (l : list ascii) : Z * nat :=
  match map byte_val (firstn 4 l) with
  | [] => (RuneError, 0%nat)
  | b0 :: t =>
      let cont b := in_range 128 191 b in
      if b0 <? 128 then (b0, 1%nat)
      else if in_range 194 223 b0 then
        match t with
        | b1 :: _ => if cont b1 then ((b0 - 192) * 64 + (b1 - 128), 2%nat) else (RuneError, 1%nat)
        | _ => (RuneError, 1%nat)
        end
      else if in_range 224 239 b0 then
        let lo := if b0 =? 224 then 160 else 128 in
        let hi := if b0 =? 237 then 159 else 191 in
        match t with
        | b1 :: b2 :: _ =>
            if in_range lo hi b1 && cont b2
            then ((b0 - 224) * 4096 + (b1 - 128) * 64 + (b2 - 128), 3%nat)
            else (RuneError, 1%nat)
        | _ => (RuneError, 1%nat)
        end
      else if in_range 240 244 b0 then
        let lo := if b0 =? 240 then 144 else 128 in
        let hi := if b0 =? 244 then 143 else 191 in
        match t with
        | b1 :: b2 :: b3 :: _ =>
            if in_range lo hi b1 && cont b2 && cont b3
            then ((b0 - 240) * 262144 + (b1 - 128) * 4096 + (b2 - 128) * 64 + (b3 - 128), 4%nat)
            else (RuneError, 1%nat)
        | _ => (RuneError, 1%nat)
        end
      else (RuneError, 1%nat)
  end.

(** The runes of a string with the bytes each one occupies.  [fuel] is the
    byte length: every rune takes at least one byte. *)
Fixpoint chunks_fuel (fuel : nat) (l : list ascii) : list (Z * list ascii) :=
  match fuel, l with
  | O, _ | _, [] => []
  | S f, _ => let '(r, w) := decode_rune l in (r, firstn w l) :: chunks_fuel f (skipn w l)
  end.
Definition chunks (l : list ascii) : list (Z * list ascii) := chunks_fuel (length l) l.
Definition runes (s : string) : list Z := map fst (chunks (bytes s)).

Definition RuneCountInString (s : string) : Z := Z.of_nat (length (runes s)).

Definition encode_rune (r : Z) : list ascii :=
  if (r <? 0) || (1114111 <? r) || in_range 55296 57343 r then map byte_of [239; 191; 189]
  else if r <? 128 then [byte_of r]
  else if r <? 2048 then map byte_of [192 + r / 64; 128 + r mod 64]
  else if r <? 65536 then map byte_of [224 + r / 4096; 128 + (r / 64) mod 64; 128 + r mod 64]
  else map byte_of [240 + r / 262144; 128 + (r / 4096) mod 64; 128 + (r / 64) mod 64; 128 + r mod 64].

(** [unicode.IsSpace]: the White_Space property. *)
Definition IsSpace (r : Z) : bool :=
  in_range 9 13 r || (r =? 32) || (r =? 133) || (r =? 160) || (r =? 5760)
  || in_range 8192 8202 r || (r =? 8232) || (r =? 8233) || (r =? 8239) || (r =? 8287) || (r =? 12288).

Fixpoint drop_while {A} (f : A -> bool) (l : list A) : list A :=
  match l with
  | [] => []
  | x :: t => if f x then drop_while f t else l
  end.

Definition TrimSpace (s : string) : string :=
  let space (c : Z * list ascii) := IsSpace c.1 in
  let kept := reverse (drop_while space (reverse (drop_while space (chunks (bytes s))))) in
  of_bytes (concat (map snd kept)).

Definition ToLowerRune (lower_table : Z -> Z) (r : Z) : Z :=
  if in_range 65 90 r then r + 32 else if r <? 128 then r else lower_table r.

Definition ToLower (lower_table : Z -> Z) (s : string) : string :=
  of_bytes (concat (map (fun r => encode_rune (ToLowerRune lower_table r)) (runes s))).

Definition contains_space (s : string) : bool := existsb IsSpace (runes s).

Definition HasPrefix (s p : string) : bool := String.prefix p s.
Definition strlen (s : string) : Z := Z.of_nat (String.length s).
(** The bytes of [s] from position [n] on ([s[n:]]). *)
Definition skip (n : nat) (s : string) : string := of_bytes (skipn n (bytes s)).

(** ** Byte classes and path.Clean *)
Definition is_byte (c a : ascii) : bool := Ascii.eqb c a.

Fixpoint split_on (c : ascii) (l : list ascii) : list (list ascii) :=
  match l with
  | [] => [[]]
  | a :: t =>
      if is_byte c a then [] :: split_on c t
      else match split_on c t with
           | [] => [[a]]
           | w :: ws => (a :: w) :: ws
           end
  end.

Definition dot : ascii := "."%char.
Definition slash : ascii := "/"%char.

(** The kept components, last one first. *)
Fixpoint clean_components (rooted : bool) (cs acc : list (list ascii)) : list (list ascii) :=
  match cs with
  | [] => acc
  | c :: rest =>
      if bool_decide (c = []) || bool_decide (c = [dot]) then clean_components rooted rest acc
      else if bool_decide (c = [dot; dot]) then
        match acc with
        | top :: below =>
            if bool_decide (top = [dot; dot]) then clean_components rooted rest (c :: acc)
            else clean_components rooted rest below
        | [] => clean_components rooted rest (if rooted then [] else [c])
        end
      else clean_components rooted rest (c :: acc)
  end.

Fixpoint join_with (c : ascii) (ws : list (list ascii)) : list ascii :=
  match ws with
  | [] => []
  | [w] => w
  | w :: rest => w ++ c :: join_with c rest
  end.

Definition Clean (s : string) : string :=
  let l := bytes s in
  let rooted := match l with a :: _ => is_byte slash a | [] => false end in
  let body := join_with slash (reverse (clean_components rooted (split_on slash l) [])) in
  if rooted then of_bytes (slash :: body)
  else match body with [] => of_bytes [dot] | _ => of_bytes body end.

(** ** Regular expressions

    Derivative matching; [lang] is the language a Go pattern denotes when it is
    anchored at both ends. *)
Inductive re :=
| RNone
| REps
| RSet (f : ascii -> bool)
| RSeq (r s : re)
| RAlt (r s : re)
| RStar (r : re).

Inductive lang : re -> list ascii -> Prop :=
| lang_eps : lang REps []
| lang_set f a : f a = true -> lang (RSet f) [a]
| lang_seq r s u v : lang r u -> lang s v -> lang (RSeq r s) (u ++ v)
| lang_alt_l r s u : lang r u -> lang (RAlt r s) u
| lang_alt_r r s u : lang s u -> lang (RAlt r s) u
| lang_star_nil r : lang (RStar r) []
| lang_star_cons r a u v : lang r (a :: u) -> lang (RStar r) v -> lang (RStar r) (a :: u ++ v).

Fixpoint nullable (r : re) : bool :=
  match r with
  | RNone | RSet _ => false
  | REps | RStar _ => true
  | RSeq r s => nullable r && nullable s
  | RAlt r s => nullable r || nullable s
  end.

(** Constructors that keep derivatives small. *)
Definition mk_seq (r s : re) : re :=
  match r, s with
  | RNone, _ | _, RNone => RNone
  | REps, _ => s
  | _, REps => r
  | _, _ => RSeq r s
  end.
Definition mk_alt (r s : re) : re :=
  match r, s with
  | RNone, _ => s
  | _, RNone => r
  | _, _ => RAlt r s
  end.

Fixpoint deriv (a : ascii) (r : re) : re :=
  match r with
  | RNone | REps => RNone
  | RSet f => if f a then REps else RNone
  | RSeq r s =>
      if nullable r then mk_alt (mk_seq (deriv a r) s) (deriv a s) else mk_seq (deriv a r) s
  | RAlt r s => mk_alt (deriv a r) (deriv a s)
  | RStar r' => mk_seq (deriv a r') r
  end.

Fixpoint re_match (r : re) (l : list ascii) : bool :=
  match l with
  | [] => nullable r
  | a :: t => re_match (deriv a r) t
  end.

Lemma nullable_lang r : nullable r = true <-> lang r [].
Proof.
  induction r; simpl; split; intros H; try done; try (by constructor); try (by inversion H).
  - apply andb_true_iff in H as [H1 H2]. apply (lang_seq _ _ [] []); tauto.
  - inversion H as [| |? ? u v Hu Hv Heq| | | |]; subst.
    destruct u, v; try done. rewrite andb_true_iff. tauto.
  - apply orb_true_iff in H as [H|H]; [apply lang_alt_l | apply lang_alt_r]; tauto.
  - rewrite orb_true_iff. inversion H; subst; tauto.
Qed.

Lemma lang_none_inv u : ~ lang RNone u.
Proof. intros H. inversion H. Qed.

Lemma lang_seq_inv r s u :
  lang (RSeq r s) u -> exists u1 u2, u = u1 ++ u2 /\ lang r u1 /\ lang s u2.
Proof. intros H. inversion H; subst; eauto. Qed.

Lemma lang_eps_inv u : lang REps u -> u = [].
Proof. intros H. by inversion H. Qed.

Lemma mk_seq_lang r s u : lang (mk_seq r s) u <-> lang (RSeq r s) u.
Proof.
  assert (HL : forall x, lang (RSeq RNone x) u <-> lang RNone u).
  { split; [intros (? & ? & _ & H & _)%lang_seq_inv | intros H]; by apply lang_none_inv in H. }
  assert (HR : forall x, lang (RSeq x RNone) u <-> lang RNone u).
  { split; [intros (? & ? & _ & _ & H)%lang_seq_inv | intros H]; by apply lang_none_inv in H. }
  assert (EL : forall x, lang (RSeq REps x) u <-> lang x u).
  { split; [by intros (? & ? & -> & ->%lang_eps_inv & ?)%lang_seq_inv|].
    intros H. apply (lang_seq REps _ []); [constructor | done]. }
  assert (ER : forall x, lang (RSeq x REps) u <-> lang x u).
  { split; [intros (? & ? & -> & ? & ->%lang_eps_inv)%lang_seq_inv; by rewrite app_nil_r|].
    intros H. rewrite <- (app_nil_r u). apply lang_seq; [done | constructor]. }
  destruct r, s; simpl; rewrite ?HL, ?HR, ?EL, ?ER; reflexivity.
Qed.

Lemma mk_alt_lang r s u : lang (mk_alt r s) u <-> lang r u \/ lang s u.
Proof.
  assert (HN : lang RNone u <-> False) by (split; intros H; inversion H).
  assert (HA : forall x y, lang (RAlt x y) u <-> lang x u \/ lang y u).
  { split; intros H; [inversion H; subst; auto | destruct H; auto using lang]. }
  destruct r, s; simpl; rewrite ?HA, ?HN; tauto.
Qed.

Lemma lang_seq_cons r s a u :
  lang (RSeq r s) (a :: u) <->
  (exists u1 u2, u = u1 ++ u2 /\ lang r (a :: u1) /\ lang s u2) \/ (lang r [] /\ lang s (a :: u)).
Proof.
  split.
  - intros H. inversion H as [| |? ? x y Hx Hy Heq| | | |]; subst.
    destruct x as [|b x]; simpl in *; simplify_eq; eauto 7.
  - intros [(u1 & u2 & -> & H1 & H2) | [H1 H2]].
    + by apply (lang_seq r s (a :: u1) u2).
    + by apply (lang_seq r s [] (a :: u)).
Qed.

Lemma deriv_lang r a u : lang (deriv a r) u <-> lang r (a :: u).
Proof.
  revert u; induction r as [| |f|r1 IH1 r2 IH2|r1 IH1 r2 IH2|r IH]; intros u; simpl.
  - split; intros H; inversion H.
  - split; intros H; inversion H.
  - destruct (f a) eqn:E; split; intros H; inversion H; subst; try constructor; congruence.
  - assert (Hs : lang (RSeq (deriv a r1) r2) u <->
      exists u1 u2, u = u1 ++ u2 /\ lang r1 (a :: u1) /\ lang r2 u2).
    { split.
      - intros H. inversion H as [| |? ? x y Hx Hy Heq| | | |]; subst.
        exists x, y. split_and!; [done | by apply IH1 | done].
      - intros (u1 & u2 & -> & H1 & H2). apply lang_seq; [by apply IH1 | done]. }
    rewrite lang_seq_cons, <- IH2, <- nullable_lang.
    destruct (nullable r1); rewrite ?mk_alt_lang, mk_seq_lang, Hs; intuition congruence.
  - rewrite mk_alt_lang, IH1, IH2.
    split; [intros [H|H]; auto using lang | intros H; inversion H; auto].
  - rewrite mk_seq_lang. split; intros H.
    + inversion H as [| |? ? x y Hx Hy Heq| | | |]; subst.
      constructor; [by apply IH | done].
    + inversion H; subst. apply lang_seq; [by apply IH | done].
Qed.

(** The matcher decides the language of the pattern. *)
Lemma re_match_lang r l : re_match r l = true <-> lang r l.
Proof.
  revert r; induction l as [|a l IH]; intros r; simpl.
  - apply nullable_lang.
  - by rewrite IH, deriv_lang.
Qed.

(** ** Rooted paths and [Clean] *)

(** A component a cleaned rooted path may have. *)
Definition proper_component (c : list ascii) : Prop :=
  c <> [] /\ c <> [dot] /\ c <> [dot; dot] /\ slash ∉ c.

Lemma split_on_not_nil c l : split_on c l <> [].
Proof. destruct l as [|a l]; simpl; [done|]. destruct (is_byte c a); [done|]. by destruct (split_on c l). Qed.

Lemma split_on_free c l w : w ∈ split_on c l -> c ∉ w.
Proof.
  revert w; induction l as [|a l IH]; intros w; simpl.
  { intros ->%list_elem_of_singleton. apply not_elem_of_nil. }
  destruct (is_byte c a) eqn:E.
  - intros [->|H]%elem_of_cons; [apply not_elem_of_nil | by apply IH].
  - destruct (split_on c l) as [|w0 ws] eqn:Es; [by apply split_on_not_nil in Es|].
    intros [->|H]%elem_of_cons; [|by apply IH, elem_of_cons; right].
    apply not_elem_of_cons; split; [|apply IH, elem_of_cons; by left].
    intros ->. unfold is_byte in E. by rewrite Ascii.eqb_refl in E.
Qed.

Lemma split_on_app_free c w l :
  c ∉ w -> split_on c (w ++ c :: l) = w :: split_on c l.
Proof.
  induction w as [|a w IH]; intros Hw; simpl.
  - unfold is_byte. by rewrite Ascii.eqb_refl.
  - apply not_elem_of_cons in Hw as [Hne Hw]. unfold is_byte.
    destruct (Ascii.eqb_spec c a) as [->|_]; [done|]. by rewrite IH.
Qed.

Lemma split_on_free_single c w : c ∉ w -> split_on c w = [w].
Proof.
  induction w as [|a w IH]; intros Hw; simpl; [done|].
  apply not_elem_of_cons in Hw as [Hne Hw]. unfold is_byte.
  destruct (Ascii.eqb_spec c a) as [->|_]; [done|]. by rewrite IH.
Qed.

Lemma split_on_join c ws :
  ws <> [] -> Forall (fun w => c ∉ w) ws -> split_on c (join_with c ws) = ws.
Proof.
  induction ws as [|w ws IH]; intros Hne Hf; [done|].
  apply Forall_cons in Hf as [Hw Hf]. destruct ws as [|w' ws]; simpl.
  - by apply split_on_free_single.
  - rewrite split_on_app_free by done. f_equal. by apply IH.
Qed.

Lemma clean_components_proper cs acc :
  Forall proper_component acc -> Forall (fun c => slash ∉ c) cs ->
  Forall proper_component (clean_components true cs acc).
Proof.
  revert acc; induction cs as [|c cs IH]; intros acc Ha Hc; simpl; [done|].
  apply Forall_cons in Hc as [Hc Hcs].
  destruct (bool_decide_reflect (c = [])), (bool_decide_reflect (c = [dot])); simpl; try (by apply IH).
  destruct (bool_decide_reflect (c = [dot; dot])) as [->|Hdd].
  - destruct acc as [|top below]; [by apply IH|].
    apply Forall_cons in Ha as [Ht Hb].
    destruct (bool_decide_reflect (top = [dot; dot])) as [->|_]; [|by apply IH].
    by destruct Ht as (_ & _ & Ht & _).
  - apply IH; [|done]. constructor; [by unfold proper_component | done].
Qed.

Lemma clean_components_id cs acc :
  Forall proper_component cs -> clean_components true cs acc = reverse cs ++ acc.
Proof.
  revert acc; induction cs as [|c cs IH]; intros acc Hc; simpl; [done|].
  apply Forall_cons in Hc as [(H1 & H2 & H3 & _) Hcs].
  rewrite !bool_decide_eq_false_2 by done. simpl.
  rewrite IH, reverse_cons by done. by rewrite <- (assoc_L (++)).
Qed.

Lemma proper_slash_free ws :
  Forall proper_component ws -> Forall (fun w => slash ∉ w) ws.
Proof. intros H. eapply Forall_impl; [exact H|]. by intros x (_ & _ & _ & ?). Qed.

(** A rooted path is its own clean form exactly when it is a slash followed by
    proper components: no empty one, no dot, no dot-dot. *)
Lemma Clean_rooted_shape s :
  HasPrefix s "/" = true ->
  exists ws, Forall proper_component ws /\ Clean s = of_bytes (slash :: join_with slash ws).
Proof.
  intros Hp. unfold Clean. destruct s as [|a s]; [done|].
  assert (a = slash) as ->.
  { unfold HasPrefix in Hp. cbn [String.prefix] in Hp. by destruct (ascii_dec _ a). }
  simpl.
  eexists; split; [|reflexivity]. apply Forall_reverse, clean_components_proper; [done|].
  apply Forall_forall. intros w Hw. by eapply split_on_free.
Qed.

Lemma Clean_of_proper ws :
  Forall proper_component ws ->
  Clean (of_bytes (slash :: join_with slash ws)) = of_bytes (slash :: join_with slash ws).
Proof.
  intros Hw. unfold Clean. rewrite bytes_of_bytes. simpl. f_equal. f_equal. f_equal.
  destruct ws as [|w ws]; [done|].
  rewrite split_on_join; [|done | by apply proper_slash_free].
  rewrite clean_components_id by done. rewrite app_nil_r. by rewrite reverse_involutive.
Qed.

(** ** ASCII strings *)
Lemma chunks_ascii l :
  Forall (fun a => byte_val a < 128) l -> chunks l = map (fun a => (byte_val a, [a])) l.
Proof.
  unfold chunks. induction l as [|a l IH]; intros Hl; [done|].
  apply Forall_cons in Hl as [Ha Hl]. cbn [length chunks_fuel].
  assert (decode_rune (a :: l) = (byte_val a, 1%nat)) as ->.
  { unfold decode_rune. cbn [firstn map]. by apply Z.ltb_lt in Ha as ->. }
  cbn [firstn skipn map]. by rewrite <- IH.
Qed.

Lemma drop_while_none {A} (f : A -> bool) l :
  Forall (fun x => f x = false) l -> drop_while f l = l.
Proof. destruct l; intros H; [done|]. apply Forall_cons in H as [H _]. simpl. by rewrite H. Qed.

Lemma concat_singletons {A} (l : list A) : concat (map (fun a => [a]) l) = l.
Proof. induction l as [|a l IH]; simpl; [done | by rewrite IH]. Qed.

(** A byte that trimming and lower-casing leave alone. *)
Definition plain_byte (a : ascii) : Prop :=
  byte_val a < 128 /\ IsSpace (byte_val a) = false /\ in_range 65 90 (byte_val a) = false.

Lemma byte_of_val a : byte_of (byte_val a) = a.
Proof. unfold byte_of, byte_val. by rewrite N2Z.id, ascii_N_embedding. Qed.

Lemma TrimSpace_plain s : Forall plain_byte (bytes s) -> TrimSpace s = s.
Proof.
  intros H. unfold TrimSpace. rewrite chunks_ascii.
  2: { eapply Forall_impl; [exact H|]. by intros a (? & _). }
  assert (Hs : Forall (fun c : Z * list ascii => IsSpace c.1 = false)
                 (map (fun a => (byte_val a, [a])) (bytes s))).
  { apply Forall_map. eapply Forall_impl; [exact H|]. by intros a (_ & ? & _). }
  rewrite (drop_while_none _ (map _ _)) by done.
  rewrite drop_while_none by (by apply Forall_reverse).
  rewrite reverse_involutive, map_map. simpl. by rewrite concat_singletons, of_bytes_bytes.
Qed.

Lemma byte_val_nonneg a : 0 <= byte_val a.
Proof. unfold byte_val. lia. Qed.

Lemma ToLower_plain lower_table s : Forall plain_byte (bytes s) -> ToLower lower_table s = s.
Proof.
  intros H. unfold ToLower, runes. rewrite chunks_ascii.
  2: { eapply Forall_impl; [exact H|]. by intros a (? & _). }
  rewrite !map_map. simpl.
  rewrite <- (of_bytes_bytes s) at 2. f_equal.
  rewrite <- (concat_singletons (bytes s)) at 2. f_equal.
  apply map_ext_Forall. eapply Forall_impl; [exact H|]. intros a (Ha & _ & Hu).
  pose proof (byte_val_nonneg a). simpl. unfold ToLowerRune. rewrite Hu.
  rewrite (proj2 (Z.ltb_lt _ _) Ha). unfold encode_rune, in_range.
  rewrite (proj2 (Z.ltb_ge _ _)) by lia. rewrite (proj2 (Z.ltb_ge 1114111 _)) by lia.
  rewrite (proj2 (Z.leb_gt 55296 _)) by lia. simpl.
  rewrite (proj2 (Z.ltb_lt _ _) Ha). by rewrite byte_of_val.
Qed.

(** ** Ancestors *)

(** The components of a rooted path: ["/a/b"] has [a] and [b], ["/"] has one
    empty component. *)
Definition path_components (s : string) : list (list ascii) := tail (split_on slash (bytes s)).

(** [p] is [q] or a directory above it. *)
Definition ancestor (p q : string) : Prop := path_components p `prefix_of` path_components q.

Lemma HasPrefix_spec s p : HasPrefix s p = true <-> exists rest, bytes s = bytes p ++ rest.
Proof.
  unfold HasPrefix. revert s. induction p as [|a p IH]; intros s; simpl.
  - split; [intros _; by exists (bytes s) | by destruct s].
  - destruct s as [|b s]; simpl.
    + split; [done | by intros (? & ?)].
    + destruct (ascii_dec a b) as [->|Hne].
      * rewrite IH. split; intros (rest & Hr); exists rest; [by rewrite Hr | by injection Hr].
      * split; [done|]. intros (rest & [= ? ?]). congruence.
Qed.

Lemma split_on_app_sep c u v : split_on c (u ++ c :: v) = split_on c u ++ split_on c v.
Proof.
  induction u as [|a u IH]; simpl.
  - unfold is_byte. by rewrite Ascii.eqb_refl.
  - destruct (is_byte c a); rewrite IH; [done|].
    destruct (split_on c u) eqn:E; [by apply split_on_not_nil in E | done].
Qed.

Lemma bytes_app s t : bytes (s +:+ t) = bytes s ++ bytes t.
Proof. induction s as [|a s IH]; simpl; [done | by rewrite IH]. Qed.

Lemma bytes_inj s t : bytes s = bytes t -> s = t.
Proof. intros H. by rewrite <- (of_bytes_bytes s), <- (of_bytes_bytes t), H. Qed.

Lemma split_on_inj c u v : split_on c u = split_on c v -> u = v.
Proof.
  revert v; induction u as [|a u IH]; intros [|b v]; simpl; try done.
  - destruct (is_byte c b) eqn:E; [|by destruct (split_on c v)].
    intros [=]. by destruct (split_on_not_nil c v).
  - destruct (is_byte c a) eqn:E; [|by destruct (split_on c u)].
    intros [=]. by destruct (split_on_not_nil c u).
  - unfold is_byte. destruct (Ascii.eqb_spec c a) as [<-|Ha], (Ascii.eqb_spec c b) as [<-|Hb].
    + intros [= ->%IH]. done.
    + destruct (split_on c v); done.
    + destruct (split_on c u); done.
    + destruct (split_on c u) eqn:Eu; [by apply split_on_not_nil in Eu|].
      destruct (split_on c v) eqn:Ev; [by apply split_on_not_nil in Ev|].
      intros [= -> -> ->]. f_equal. by apply IH.
Qed.

Lemma rooted_split s :
  HasPrefix s "/" = true -> split_on slash (bytes s) = [] :: path_components s.
Proof.
  intros (rest & H)%HasPrefix_spec. unfold path_components. rewrite H. done.
Qed.

(** The string test the validators use is the component-wise relation. *)
Lemma ancestor_HasPrefix p q :
  HasPrefix p "/" = true -> HasPrefix q "/" = true ->
  ancestor p q <-> q = p \/ HasPrefix q (p +:+ "/") = true.
Proof.
  intros Hp Hq. unfold ancestor. split.
  - intros [us Hus].
    assert (Hs : split_on slash (bytes q) = split_on slash (bytes p) ++ us).
    { by rewrite !rooted_split, Hus. }
    destruct us as [|u us].
    + left. rewrite app_nil_r in Hs. by apply bytes_inj, (split_on_inj slash).
    + right. apply HasPrefix_spec. exists (join_with slash (u :: us)).
      apply (split_on_inj slash). rewrite bytes_app, <- (assoc_L (++)). simpl.
      rewrite split_on_app_sep, Hs. f_equal. symmetry. apply (split_on_join slash (u :: us)); [done|].
      apply Forall_forall. intros w Hw. apply (split_on_free slash (bytes q)). rewrite Hs.
      by apply elem_of_app; right.
  - intros [->|(rest & Hr)%HasPrefix_spec]; [done|].
    rewrite bytes_app, <- (assoc_L (++)) in Hr. simpl in Hr.
    exists (split_on slash rest). unfold path_components at 1.
    change "/"%char with slash in Hr. by rewrite Hr, split_on_app_sep, rooted_split.
Qed.

Lemma strlen_bytes s : strlen s = Z.of_nat (length (bytes s)).
Proof. unfold strlen. f_equal. induction s as [|a s IH]; simpl; [done | by rewrite IH]. Qed.

Lemma prefix_same_length s p : HasPrefix s p = true -> strlen s <= strlen p -> s = p.
Proof.
  intros (rest & Hr)%HasPrefix_spec. rewrite !strlen_bytes, Hr, length_app. intros Hl.
  destruct rest; simpl in Hl; [|lia]. apply bytes_inj. by rewrite Hr, app_nil_r.
Qed.
