(* ===== verification/JobSpec.v ===== *)
(** * Structural validation of job specifications

    [contract/job_spec.go] and [contract/handoff_owner.go].  A validator that
    mutates its argument returns the normalised value; on an error the caller
    discards the specification, so only the protocol code is kept.  Messages are
    not modelled: every refusal here carries [invalid_request] except the
    runtime-handler one. *)
From S2P Require Import Prelude Contract GoStrings.
From Stdlib Require Import Ascii.
#[local] Open Scope string_scope.
#[local] Open Scope list_scope.
#[local] Open Scope Z_scope.

Definition invalid {A} : result ErrorCode A := Err ErrorInvalidRequest.
Definition ensure (b : bool) : result ErrorCode unit := if b then Ok tt else invalid.

(** ** The image reference pattern *)
Definition byte_in (lo hi : Z) (a : ascii) : bool := in_range lo hi (byte_val a).
Definition lower_alnum (a : ascii) : bool := byte_in 97 122 a || byte_in 48 57 a.
Definition digit (a : ascii) : bool := byte_in 48 57 a.
Definition chr (c : ascii) : re := RSet (is_byte c).
Definition opt (r : re) : re := RAlt REps r.
Definition plus (r : re) : re := RSeq r (RStar r).
Fixpoint upto (n : nat) (r : re) : re :=
  match n with O => REps | S n' => opt (RSeq r (upto n' r)) end.

(** [[a-z0-9]([a-z0-9-]*[a-z0-9])?] *)
Definition re_host_label : re :=
  RSeq (RSet lower_alnum)
       (opt (RSeq (RStar (RSet (fun a => lower_alnum a || is_byte "-" a))) (RSet lower_alnum))).
(** [[a-z0-9]+(([._]|__|-+)[a-z0-9]+)*] *)
Definition re_repository : re :=
  RSeq (plus (RSet lower_alnum))
       (RStar (RSeq (RAlt (RSet (fun a => is_byte "." a || is_byte "_" a))
                          (RAlt (RSeq (chr "_") (chr "_")) (plus (chr "-"))))
                    (plus (RSet lower_alnum)))).
Definition tag_first (a : ascii) : bool :=
  byte_in 65 90 a || lower_alnum a || is_byte "_" a.
Definition tag_rest (a : ascii) : bool := tag_first a || is_byte "." a || is_byte "-" a.

Definition ociImageReferencePattern : re :=
  RSeq (opt (RSeq re_host_label
              (RSeq (RStar (RSeq (chr ".") re_host_label))
                    (RSeq (opt (RSeq (chr ":") (plus (RSet digit)))) (chr "/")))))
 (RSeq re_repository
 (RSeq (RStar (RSeq (chr "/") re_repository))
       (opt (RSeq (chr ":") (RSeq (RSet tag_first) (upto 127 (RSet tag_rest))))))).

(** ** Byte-level checks *)
Definition validEnvironmentStart (value : ascii) : bool :=
  is_byte "_" value || byte_in 65 90 value || byte_in 97 122 value.

Definition validEnvironmentContinue (value : ascii) : bool :=
  validEnvironmentStart value || byte_in 48 57 value.

Definition valid_environment_name (name : string) : bool :=
  match bytes name with
  | [] => false
  | a :: rest => validEnvironmentStart a && forallb validEnvironmentContinue rest
  end.

Definition validateEnvironment (environment : gmap string string) : result ErrorCode unit :=
  ensure (forallb valid_environment_name (map_to_list environment).*1).

Definition containsNonEmpty (values : list string) : bool :=
  existsb (fun value => negb (bool_decide (value = ""))) values.

Definition validNodePath (value : string) : bool :=
  negb (bool_decide (value = "/")) && HasPrefix value "/" && bool_decide (Clean value = value).

Definition validContainerPath (value : string) : bool :=
  HasPrefix value "/" && bool_decide (Clean value = value).

Definition oci_reserved_targets : list string :=
  [OCIContainerHandoffDirectory; OCIContainerServiceDirectory; OCIContainerControlDirectory].

Definition shadowsOCIReservedTarget (value : string) : bool :=
  if bool_decide (value = "/") then true
  else existsb (fun reserved =>
         bool_decide (value = reserved) || HasPrefix value (reserved +:+ "/")
         || HasPrefix reserved (value +:+ "/")) oci_reserved_targets.

(** Ranging over runes and over bytes agree here: a byte of a multi-byte or
    invalid sequence is in neither range. *)
Definition validLowerSHA256 (value : string) : bool :=
  (strlen value =? 64) && forallb (fun a => byte_in 48 57 a || byte_in 97 102 a) (bytes value).

Definition validOCIDigest (value : string) : bool :=
  HasPrefix value "sha256:" && (strlen value =? 7 + 64) && validLowerSHA256 (skip 7 value).

Definition tag_punctuation (a : ascii) : bool :=
  is_byte "." a || is_byte "_" a || is_byte ":" a || is_byte "-" a.

Definition validRoutingTag (tag : string) : bool :=
  match bytes tag with
  | [] => false
  | a :: rest => lower_alnum a && forallb (fun b => lower_alnum b || tag_punctuation b) rest
  end.

Definition ValidateInstanceKey (key : string) : result ErrorCode unit :=
  if (strlen key <? 1) || (255 <? strlen key) then invalid
  else ensure (forallb (byte_in 33 126) (bytes key)).

Definition zeroExecutable (executable : ExecutableSpec) : bool :=
  bool_decide (ex_Path executable = "") && bool_decide (ex_InlineBase64 executable = "")
  && bool_decide (ex_SHA256 executable = "") && bool_decide (ex_Interpreter executable = None)
  && (ex_Mode executable =? 0).

Section Validation.
Context (lower_table : Z -> Z).

Definition normalize_word (s : string) : string := ToLower lower_table (TrimSpace s).

(** ** Placement *)
Definition RequiresPinnedPlacement (spec : JobSpec) : bool :=
  bool_decide (js_Kind spec = JobKindOCI) &&
  match exec_OCI (js_Execution spec) with
  | Some oci => negb (bool_decide (oci_Mounts oci = [])) || IsComputerExecution (js_Execution spec)
  | None => false
  end.

Definition is_node_tag (tag : string) : bool :=
  let tag := normalize_word tag in
  HasPrefix tag StableNodeTagPrefix && (strlen StableNodeTagPrefix <? strlen tag).

Definition validatePinnedRouting (required : bool) (tags : list string) : result ErrorCode unit :=
  if negb required then Ok tt
  else ensure (bool_decide (length (List.filter is_node_tag tags) = 1%nat)).

(** ** The process arm *)
Definition validateProcessExecution (spec : JobSpec) : result ErrorCode unit :=
  let e := js_Execution spec in
  let x := exec_Executable e in
  if negb (bool_decide (js_RuntimeHandler spec = "")) then Err ErrorUnsupportedRuntimeHandler
  else if exec_ociSet e || bool_decide (is_Some (exec_OCI e)) then invalid
  else if bool_decide (exec_WorkingDirectory e = "") || bool_decide (default [] (exec_Argv e) = [])
  then invalid
  else if bool_decide (js_Class spec = JobClassOneShot) && exec_handoffDirSet e
          && bool_decide (exec_HandoffDirectory e = "") then invalid
  else if Bool.eqb (bool_decide (ex_Path x = "")) (bool_decide (ex_InlineBase64 x = "")) then invalid
  else if negb (bool_decide (ex_InlineBase64 x = "")) && negb (validLowerSHA256 (ex_SHA256 x))
  then invalid
  else if 4095 <? ex_Mode x then invalid
  else Ok tt.

(** ** The OCI arm *)
Definition valid_mount (mount : OCIMount) : bool :=
  negb (mnt_readOnlyNull mount) && validNodePath (mnt_NodePath mount)
  && validContainerPath (mnt_ContainerPath mount)
  && negb (shadowsOCIReservedTarget (mnt_ContainerPath mount)).

Definition positive_if_present (v : option Z) : bool :=
  match v with Some n => negb (n <? 1) | None => true end.

Definition valid_oci_limits (limits : OCILimits) : bool :=
  negb (ol_memoryNull limits || ol_cpuNull limits)
  && negb (bool_decide (ol_MemoryBytes limits = None) && bool_decide (ol_CPUMillicores limits = None))
  && positive_if_present (ol_MemoryBytes limits) && positive_if_present (ol_CPUMillicores limits).

Definition valid_computer_trait (spec : JobSpec) (oci : OCIExecutionSpec) (c : OCIComputerSpec) : bool :=
  bool_decide (js_Class spec = JobClassService)
  && negb (bool_decide (is_Some (js_PublishedPort spec)) || js_publishedPortSet spec)
  && bool_decide (comp_DisplayProtocol c = ComputerDisplayProtocolRFBWebSocketV1)
  && negb (comp_DiskBytes c <? 1)
  && match oci_Limits oci ≫= ol_MemoryBytes with Some m => negb (m <? 1) | None => false end
  && forallb mnt_ReadOnly (oci_Mounts oci).

Definition validateOCIExecution (spec : JobSpec) : result ErrorCode unit :=
  let e := js_Execution spec in
  if match js_Limits spec with
     | Some l => lim_idleTimeoutSet l || negb (lim_IdleTimeoutSeconds l =? 0)
     | None => false
     end then invalid
  else match exec_OCI e with
  | None => invalid
  | Some oci =>
      if exec_executableSet e || exec_argvSet e || exec_workingDirSet e || exec_handoffDirSet e
         || negb (zeroExecutable (exec_Executable e)) || bool_decide (is_Some (exec_Argv e))
         || negb (bool_decide (exec_WorkingDirectory e = ""))
         || negb (bool_decide (exec_HandoffDirectory e = "")) then invalid
      else if oci_argvNull oci || oci_workingDirNull oci || oci_mountsNull oci || oci_limitsNull oci
              || oci_computerNull oci then invalid
      else if (2048 <? RuneCountInString (img_Reference (oci_Image oci)))
              || negb (re_match ociImageReferencePattern (bytes (img_Reference (oci_Image oci))))
      then invalid
      else if img_digestNull (oci_Image oci) then invalid
      else if match img_Digest (oci_Image oci) with Some d => negb (validOCIDigest d) | None => false end
      then invalid
      else if negb (bool_decide (js_Class spec = JobClassOneShot))
              && bool_decide (img_Digest (oci_Image oci) = None) then invalid
      else if match oci_Argv oci with
              | Some argv => bool_decide (argv = []) || negb (containsNonEmpty argv)
              | None => false
              end then invalid
      else if match oci_WorkingDirectory oci with
              | Some w => negb (validContainerPath w) | None => false end then invalid
      else if negb (forallb valid_mount (oci_Mounts oci)) then invalid
      else if match oci_Limits oci with Some l => negb (valid_oci_limits l) | None => false end
      then invalid
      else match oci_Computer oci with
           | Some c => ensure (valid_computer_trait spec oci c)
           | None => Ok tt
           end
  end.

(** ** The whole specification *)
Definition validate_instance_key (spec : JobSpec) : result ErrorCode unit :=
  if js_instanceKeySet spec && bool_decide (js_InstanceKey spec = None) then invalid
  else match js_InstanceKey spec with
  | None => Ok tt
  | Some key =>
      let? _ := ValidateInstanceKey key in
      if negb (bool_decide (js_Class spec = JobClassOneShot))
         && negb (bool_decide (js_Class spec = JobClassService)) then invalid
      else ensure (negb (IsComputerExecution (js_Execution spec)))
  end.

(** The loop over the tags: the first invalid or repeated one refuses. *)
Fixpoint validate_tags (seen tags : list string) : result ErrorCode (list string) :=
  match tags with
  | [] => Ok []
  | tag :: rest =>
      if negb (validRoutingTag tag) then invalid
      else if bool_decide (tag ∈ seen) then invalid
      else let? normalized := validate_tags (tag :: seen) rest in
           Ok (normalize_word tag :: normalized)
  end.

Definition validate_limits (limits : option JobLimits) : result ErrorCode unit :=
  match limits with
  | None => Ok tt
  | Some l =>
      let? _ := ValidateLimitSeconds (lim_MaxRuntimeSeconds l) in
      let? _ := ValidateLimitSeconds (lim_IdleTimeoutSeconds l) in
      ValidateLimitSeconds (lim_CompletionTimeoutSeconds l)
  end.

(** The service arm defaults [restart] in place. *)
Definition validate_service (spec : JobSpec) : result ErrorCode JobSpec :=
  if negb (bool_decide (js_Class spec = JobClassService)) then Ok spec
  else if IsComputerExecution (js_Execution spec)
          && negb (bool_decide (js_Restart spec = RestartAlways)) then invalid
  else
    let spec := if bool_decide (js_Restart spec = "") then spec <| js_Restart := RestartAlways |>
                else spec in
    if negb (bool_decide (js_Restart spec ∈ [RestartAlways; RestartOnFailure; RestartNever]))
    then invalid
    else if bool_decide (js_PublishedPort spec = Some SeatFrontDoorPort) then invalid
    else if match js_PublishedPort spec with
            | Some p => (p <? 1) || (65535 <? p) | None => false end then invalid
    else if match js_MaxRestartStreak spec with Some n => n <? 1 | None => false end then invalid
    else Ok spec.

Definition ValidateJobSpec (spec : JobSpec) : result ErrorCode JobSpec :=
  if negb (js_SchemaVersion spec =? SchemaVersionV1) then invalid
  else if bool_decide (TrimSpace (js_DispatchKey spec) = "")
          || bool_decide (TrimSpace (js_Kind spec) = "")
          || bool_decide (TrimSpace (js_Class spec) = "") then invalid
  else if (255 <? RuneCountInString (js_DispatchKey spec)) || (128 <? RuneCountInString (js_Kind spec))
          || (128 <? RuneCountInString (js_Class spec))
          || (128 <? RuneCountInString (js_RuntimeHandler spec)) then invalid
  else
  let? _ := validate_instance_key spec in
  let spec := spec <| js_Kind := normalize_word (js_Kind spec) |>
                   <| js_RuntimeHandler := normalize_word (js_RuntimeHandler spec) |> in
  if contains_space (js_Kind spec) || contains_space (js_RuntimeHandler spec) then invalid
  else if js_Restartable spec && (negb (bool_decide (js_Kind spec = JobKindProcess))
                                  || negb (bool_decide (js_Class spec = JobClassOneShot))) then invalid
  else
  let? _ := validateEnvironment (exec_Env (js_Execution spec)) in
  let? _ := validateEnvironment (exec_SensitiveEnv (js_Execution spec)) in
  let? normalizedTags := validate_tags [] (js_RoutingTags spec) in
  let? _ :=
    if bool_decide (js_Kind spec = JobKindProcess) then validateProcessExecution spec
    else if bool_decide (js_Kind spec = JobKindOCI) then validateOCIExecution spec
    else if exec_ociSet (js_Execution spec) || bool_decide (is_Some (exec_OCI (js_Execution spec)))
    then invalid
    else Ok tt in
  let? _ := validate_limits (js_Limits spec) in
  let? spec := validate_service spec in
  let? _ := validatePinnedRouting (RequiresPinnedPlacement spec) normalizedTags in
  Ok spec.
End Validation.

(** ** Image programs *)
Record ImageProgram := mkImageProgram {
  ip_Reference : string;
  ip_Digest : option string;
  ip_Argv : option (list string);
  ip_WorkingDirectory : option string;
  ip_Mounts : list OCIMount;
  ip_Limits : option OCILimits;
  ip_RuntimeHandler : string;
  ip_digestNull : bool;
  ip_argvNull : bool;
  ip_workingDirNull : bool;
  ip_mountsNull : bool;
  ip_limitsNull : bool
}.

Definition image_program_spec (program : ImageProgram) (class : string) : JobSpec :=
  let oci := {|
    oci_Image := mkOCIImageSpec (ip_Reference program) (ip_Digest program) (ip_digestNull program);
    oci_Argv := ip_Argv program; oci_WorkingDirectory := ip_WorkingDirectory program;
    oci_Mounts := ip_Mounts program; oci_Limits := ip_Limits program; oci_Computer := None;
    oci_argvNull := ip_argvNull program; oci_workingDirNull := ip_workingDirNull program;
    oci_mountsNull := ip_mountsNull program; oci_limitsNull := ip_limitsNull program;
    oci_computerNull := false |} in
  {| js_SchemaVersion := SchemaVersionV1; js_DispatchKey := "validate:image-program";
     js_InstanceKey := None; js_Kind := JobKindOCI; js_Class := class; js_PublishedPort := None;
     js_Restartable := false;
     js_Restart := if bool_decide (class = JobClassService) then RestartAlways else "";
     js_MaxRestartStreak := None; js_RuntimeHandler := ip_RuntimeHandler program;
     js_RoutingTags := [];
     js_Execution := mkExecutionSpec (mkExecutableSpec "" "" "" None 0) None ∅ ∅ "" "" (Some oci)
                       false false false false false;
     js_Limits := None; js_Labels := ∅; js_publishedPortSet := false; js_instanceKeySet := false |}.

Definition ValidateImageProgram (program : ImageProgram) (class : string) : result ErrorCode unit :=
  let spec := image_program_spec program class in
  if 128 <? RuneCountInString (js_RuntimeHandler spec) then invalid
  else validateOCIExecution spec.

Definition ValidatePinnedRouting (lower_table : Z -> Z) (program : ImageProgram) (tags : list string) :
    result ErrorCode unit :=
  validatePinnedRouting lower_table (negb (bool_decide (ip_Mounts program = []))) tags.

(** ** Handoff ownership *)
Definition HandoffOwnerKey (spec : JobSpec) : string :=
  let owner := TrimSpace (label (js_Labels spec) LabelHandoffOwnerRunID) in
  if bool_decide (owner = "") then TrimSpace (label (js_Labels spec) LabelRunID) else owner.

Definition ExecutionHandoffOwnerKey (spec : JobSpec) (jobID : string) : string :=
  let owner := HandoffOwnerKey spec in
  if negb (bool_decide (owner = "")) then owner
  else if bool_decide (js_Class spec = JobClassOneShot)
          && (bool_decide (js_Kind spec = JobKindOCI)
              || (bool_decide (js_Kind spec = JobKindProcess)
                  && bool_decide (exec_HandoffDirectory (js_Execution spec) = "")))
  then jobID else "".

Definition RequiresHandoffOwner (spec : JobSpec) : bool :=
  bool_decide (js_Kind spec = JobKindOCI) && bool_decide (js_Class spec = JobClassOneShot).

Definition ValidateHandoffOwner (spec : JobSpec) : result ErrorCode unit :=
  if negb (RequiresHandoffOwner spec) then Ok tt
  else
    let owner := HandoffOwnerKey spec in
    if MaxHandoffOwnerKeyBytes <? strlen owner then invalid
    else ensure (negb (existsb (is_byte Ascii.zero) (bytes owner))).

Definition RunIdentityLabels (spec : JobSpec) : gmap string string :=
  fold_left (fun named label_name =>
      let value := TrimSpace (label (js_Labels spec) label_name) in
      if bool_decide (value = "") then named else <[label_name := value]> named)
    [LabelRunID; LabelHandoffOwnerRunID] ∅.

(** ** Proof support *)
Lemma ensure_ok b : ensure b = Ok tt <-> b = true.
Proof. by destruct b. Qed.

(** Takes a successful validation apart: every guard that would have refused is
    false, every sub-validation succeeded. *)
Ltac inv_ok H :=
  repeat first
    [ match type of H with
      | result_bind _ _ = Ok _ =>
          let a := fresh "v" in let Ha := fresh "Hv" in
          apply result_bind_ok in H as (a & Ha & H)
      | (if ?b then _ else _) = Ok _ => let E := fresh "Hg" in destruct b eqn:E; [discriminate H|]
      | invalid = Ok _ => discriminate H
      end ].

Lemma byte_in_range lo hi a : byte_in lo hi a = true <-> lo <= byte_val a <= hi.
Proof. unfold byte_in, in_range. rewrite andb_true_iff, !Z.leb_le. tauto. Qed.

Lemma routing_tag_byte_plain a :
  lower_alnum a || tag_punctuation a = true -> plain_byte a.
Proof. destruct a as [[] [] [] [] [] [] [] []]; vm_compute; intuition congruence. Qed.

Lemma validRoutingTag_plain tag : validRoutingTag tag = true -> Forall plain_byte (bytes tag).
Proof.
  unfold validRoutingTag. destruct (bytes tag) as [|a rest]; [done|].
  intros [Ha Hr]%andb_true_iff. constructor.
  - apply routing_tag_byte_plain. by rewrite Ha.
  - apply Forall_forall. intros b Hb%list_elem_of_In.
    apply routing_tag_byte_plain. rewrite forallb_forall in Hr. by apply Hr.
Qed.

Lemma normalize_word_plain lower_table s :
  Forall plain_byte (bytes s) -> normalize_word lower_table s = s.
Proof. intros H. unfold normalize_word. by rewrite TrimSpace_plain, ToLower_plain. Qed.

(** Accepted routing tags are already in normal form and pairwise distinct. *)
Lemma validate_tags_ok lower_table seen tags normalized :
  validate_tags lower_table seen tags = Ok normalized ->
  normalized = tags /\ NoDup tags /\ Forall (fun t => validRoutingTag t = true) tags
  /\ Forall (fun t => t ∉ seen) tags.
Proof.
  revert seen normalized. induction tags as [|tag tags IH]; intros seen normalized H; simpl in H.
  { injection H as <-. split_and!; constructor. }
  inv_ok H. injection H as <-. apply negb_false_iff in Hg. apply bool_decide_eq_false in Hg0.
  apply IH in Hv as (-> & Hnd & Hval & Hseen).
  rewrite normalize_word_plain by (by apply validRoutingTag_plain).
  split_and!; [done | | by constructor | ].
  - constructor; [|done]. intros Hin. rewrite Forall_forall in Hseen.
    by apply (Hseen tag Hin), elem_of_cons; left.
  - constructor; [done|]. eapply Forall_impl; [exact Hseen|].
    intros t Ht Hs. by apply Ht, elem_of_cons; right.
Qed.

Lemma validate_service_frame spec spec' :
  validate_service spec = Ok spec' ->
  spec' = spec \/ (js_Restart spec = "" /\ spec' = spec <| js_Restart := RestartAlways |>).
Proof.
  unfold validate_service. intros H. destruct (negb (bool_decide (js_Class spec = JobClassService))).
  { injection H as <-. by left. }
  destruct (_ && _); [discriminate|].
  destruct (bool_decide_reflect (js_Restart spec = "")) as [E|E]; inv_ok H; injection H as <-; auto.
Qed.

(** What a successful validation establishes about the specification it
    returns, in the order the code checks it. *)
Record validated (lower_table : Z -> Z) (spec : JobSpec) : Prop := {
  validated_version : js_SchemaVersion spec = SchemaVersionV1;
  validated_restartable : js_Restartable spec = true ->
    js_Kind spec = JobKindProcess /\ js_Class spec = JobClassOneShot;
  validated_env : validateEnvironment (exec_Env (js_Execution spec)) = Ok tt
    /\ validateEnvironment (exec_SensitiveEnv (js_Execution spec)) = Ok tt;
  validated_tags : validate_tags lower_table [] (js_RoutingTags spec) = Ok (js_RoutingTags spec);
  validated_process : js_Kind spec = JobKindProcess -> validateProcessExecution spec = Ok tt;
  validated_oci : js_Kind spec = JobKindOCI -> validateOCIExecution spec = Ok tt;
  validated_limits : validate_limits (js_Limits spec) = Ok tt;
  validated_service : validate_service spec = Ok spec;
  validated_pinned : validatePinnedRouting lower_table (RequiresPinnedPlacement spec)
    (js_RoutingTags spec) = Ok tt
}.

Lemma validate_service_idem spec spec' :
  validate_service spec = Ok spec' -> validate_service spec' = Ok spec'.
Proof.
  intros H. destruct (validate_service_frame _ _ H) as [->|[Hr ->]]; [done|].
  revert H. unfold validate_service. cbn. rewrite Hr. cbn.
  destruct (bool_decide (js_Class spec = JobClassService)); cbn; [|done].
  destruct (IsComputerExecution (js_Execution spec)); cbn; [done|]. intros H. exact H.
Qed.

Lemma ValidateJobSpec_validated lower_table spec spec' :
  ValidateJobSpec lower_table spec = Ok spec' -> validated lower_table spec'.
Proof.
  unfold ValidateJobSpec. intros H.
  inv_ok H. injection H as <-.
  pose proof (validate_tags_ok _ _ _ _ Hv2) as (-> & _).
  pose proof (validate_service_idem _ _ Hv5) as Hidem.
  apply negb_false_iff, Z.eqb_eq in Hg.
  destruct (validate_service_frame _ _ Hv5) as [E|[Hr E]]; rewrite E in *; clear E;
    (constructor; cbn in *; [done| |destruct v0, v1; by split|exact Hv2| | |by destruct v4| exact Hidem|by destruct v6]).
  all: try (intros Hk; rewrite ?Hk in *; cbn in *; by destruct v3).
  all: intros Hre; rewrite Hre in Hg3; cbn in Hg3; apply orb_false_iff in Hg3 as [H1 H2];
    split; [by apply negb_false_iff, bool_decide_eq_true in H1
           | by apply negb_false_iff, bool_decide_eq_true in H2].
Qed.

Lemma validateOCIExecution_mounts spec oci mount :
  validateOCIExecution spec = Ok tt -> exec_OCI (js_Execution spec) = Some oci ->
  mount ∈ oci_Mounts oci -> valid_mount mount = true.
Proof.
  unfold validateOCIExecution. intros H Ho Hm. rewrite Ho in H. inv_ok H.
  apply negb_false_iff in Hg8. rewrite forallb_forall in Hg8. by apply Hg8, list_elem_of_In.
Qed.

Lemma validateOCIExecution_computer spec oci c :
  validateOCIExecution spec = Ok tt -> exec_OCI (js_Execution spec) = Some oci ->
  oci_Computer oci = Some c -> valid_computer_trait spec oci c = true.
Proof.
  unfold validateOCIExecution. intros H Ho Hc. rewrite Ho in H. inv_ok H.
  rewrite Hc in H. by apply ensure_ok.
Qed.

Lemma clean_rooted_proper s :
  HasPrefix s "/" = true -> Clean s = s -> s <> "/" -> Forall proper_component (path_components s).
Proof.
  intros Hp Hc Hr. destruct (Clean_rooted_shape s Hp) as (ws & Hw & E). rewrite Hc in E.
  unfold path_components. rewrite E, bytes_of_bytes. simpl.
  destruct ws as [|w ws]; [by rewrite E in Hr|].
  rewrite split_on_join; [done | done | by apply proper_slash_free].
Qed.

Lemma shadows_spec p :
  HasPrefix p "/" = true -> shadowsOCIReservedTarget p = false ->
  p <> "/" /\ Forall (fun reserved => ~ ancestor p reserved /\ ~ ancestor reserved p) oci_reserved_targets.
Proof.
  unfold shadowsOCIReservedTarget. intros Hp H.
  destruct (bool_decide_reflect (p = "/")) as [|Hne]; [done|]. split; [done|].
  apply Forall_forall. intros r Hr.
  assert (Hrr : HasPrefix r "/" = true).
  { unfold oci_reserved_targets in Hr. rewrite !elem_of_cons, elem_of_nil in Hr.
    destruct Hr as [->|[->|[->|[]]]]; reflexivity. }
  rewrite !ancestor_HasPrefix by done.
  rewrite <- not_true_iff_false, existsb_exists in H.
  split; intros Hc; apply H; exists r; rewrite !orb_true_iff, bool_decide_eq_true;
    (split; [by apply list_elem_of_In | destruct Hc as [->|Hc]; auto]).
Qed.

(** ** Properties *)

(** in a validated OCI job every mount target is an absolute path made of
    proper components (none empty, dot or dot-dot), and it neither contains nor
    lies inside the handoff, service or control directory that wefty mounts
    itself, as a relation between path components. *)
Theorem validated_mounts_confined lower_table spec spec' oci mount :
  ValidateJobSpec lower_table spec = Ok spec' ->
  js_Kind spec' = JobKindOCI -> exec_OCI (js_Execution spec') = Some oci ->
  mount ∈ oci_Mounts oci ->
  Forall proper_component (path_components (mnt_ContainerPath mount))
  /\ Forall proper_component (path_components (mnt_NodePath mount))
  /\ Forall (fun reserved => ~ ancestor (mnt_ContainerPath mount) reserved
                             /\ ~ ancestor reserved (mnt_ContainerPath mount)) oci_reserved_targets.
Proof.
  intros Hv Hk Ho Hm. apply ValidateJobSpec_validated in Hv.
  pose proof (validateOCIExecution_mounts _ _ _ (validated_oci _ _ Hv Hk) Ho Hm) as Hmount.
  unfold valid_mount, validNodePath, validContainerPath in Hmount.
  rewrite !andb_true_iff, !negb_true_iff, !bool_decide_eq_true in Hmount.
  destruct Hmount as [[[_ [[Hn1 Hn2] Hn3]] [Hc1 Hc2]] Hs].
  destruct (shadows_spec _ Hc1 Hs) as [Hne Hall].
  split_and!; [by apply clean_rooted_proper | | done].
  apply clean_rooted_proper; [done|done|]. by apply bool_decide_eq_false in Hn1.
Qed.

(** A validated OCI job with operator mounts or the Computer trait names
    exactly one stable node among its routing tags, as they are stored. *)
Theorem validated_placement_pinned lower_table spec spec' :
  ValidateJobSpec lower_table spec = Ok spec' -> RequiresPinnedPlacement spec' = true ->
  exists before tag after, js_RoutingTags spec' = before ++ tag :: after
    /\ HasPrefix tag StableNodeTagPrefix = true /\ tag <> StableNodeTagPrefix
    /\ Forall (fun t => HasPrefix t StableNodeTagPrefix = true -> t = StableNodeTagPrefix) (before ++ after).
Proof.
  intros Hv Hp. apply ValidateJobSpec_validated in Hv.
  pose proof (validated_pinned _ _ Hv) as H. rewrite Hp in H. simpl in H.
  apply ensure_ok, bool_decide_eq_true in H.
  pose proof (validate_tags_ok _ _ _ _ (validated_tags _ _ Hv)) as (_ & _ & Hplain & _).
  set (long t := HasPrefix t StableNodeTagPrefix && (strlen StableNodeTagPrefix <? strlen t)).
  assert (Hone : length (List.filter long (js_RoutingTags spec')) = 1%nat).
  { rewrite <- H. f_equal. apply filter_ext_in. intros t Ht%list_elem_of_In.
    rewrite Forall_forall in Hplain. unfold is_node_tag, long.
    by rewrite normalize_word_plain by (apply validRoutingTag_plain, Hplain, Ht). }
  clear H Hplain.
  destruct (filter_length_one long _ Hone) as (before & tag & after & -> & Ht & Hrest).
  exists before, tag, after. split; [done|].
  unfold long in Ht. apply andb_true_iff in Ht as [Ht1 Ht2]. split_and!; [done| |].
  - intros ->. by rewrite Z.ltb_irrefl in Ht2.
  - eapply Forall_impl; [exact Hrest|]. intros t Hl Hpre. unfold long in Hl. rewrite Hpre in Hl.
    by apply (prefix_same_length _ _ Hpre), Z.ltb_ge.
Qed.

Lemma ValidateLimitSeconds_ok seconds :
  ValidateLimitSeconds seconds = Ok tt <-> 0 <= seconds <= MaxLimitSeconds.
Proof.
  unfold ValidateLimitSeconds. destruct (Z.ltb_spec seconds 0), (Z.ltb_spec MaxLimitSeconds seconds);
    simpl; split; intros; try done; lia.
Qed.

(** Every limit of a validated job converts to a nanosecond duration
    without leaving int64; MaxLimitSeconds is the last value for which that is
    so. *)
Theorem validated_limits_fit_duration lower_table spec spec' limits :
  ValidateJobSpec lower_table spec = Ok spec' -> js_Limits spec' = Some limits ->
  Forall (fun seconds => 0 <= seconds * second <= MaxInt64)
    [lim_MaxRuntimeSeconds limits; lim_IdleTimeoutSeconds limits; lim_CompletionTimeoutSeconds limits]
  /\ MaxInt64 < (MaxLimitSeconds + 1) * second.
Proof.
  intros Hv Hl. apply ValidateJobSpec_validated in Hv. pose proof (validated_limits _ _ Hv) as H.
  rewrite Hl in H. simpl in H. inv_ok H. destruct v, v0.
  rewrite ValidateLimitSeconds_ok in Hv0, Hv1, H.
  split; [|vm_compute; reflexivity].
  change MaxLimitSeconds with 9223372036 in *. rewrite !Forall_cons, Forall_nil.
  unfold MaxInt64, second. lia.
Qed.

(** A validated Computer job is a service that restarts always, carries no
    published port, has a positive disk and an
    explicit positive memory bound, mounts read-only, and is pinned. *)
Theorem validated_computer_contract lower_table spec spec' oci c :
  ValidateJobSpec lower_table spec = Ok spec' -> js_Kind spec' = JobKindOCI ->
  exec_OCI (js_Execution spec') = Some oci -> oci_Computer oci = Some c ->
  js_Class spec' = JobClassService /\ js_Restart spec' = RestartAlways
  /\ js_PublishedPort spec' = None /\ 1 <= comp_DiskBytes c
  /\ (exists l m, oci_Limits oci = Some l /\ ol_MemoryBytes l = Some m /\ 1 <= m)
  /\ Forall (fun m => mnt_ReadOnly m = true) (oci_Mounts oci)
  /\ RequiresPinnedPlacement spec' = true.
Proof.
  intros Hv Hk Ho Hc. apply ValidateJobSpec_validated in Hv.
  pose proof (validateOCIExecution_computer _ _ _ (validated_oci _ _ Hv Hk) Ho Hc) as H.
  assert (Hce : IsComputerExecution (js_Execution spec') = true).
  { unfold IsComputerExecution. by rewrite Ho, Hc. }
  unfold valid_computer_trait in H.
  rewrite !andb_true_iff, !negb_true_iff, orb_false_iff, !bool_decide_eq_true, forallb_forall in H.
  destruct H as [[[[[Hcl [Hp _]] _] Hd] Hmem] Hro]. split_and!.
  - done.
  - pose proof (validated_service _ _ Hv) as Hs. unfold validate_service in Hs.
    rewrite Hcl, Hce in Hs. cbn in Hs.
    destruct (bool_decide_reflect (js_Restart spec' = RestartAlways)); [done | discriminate].
  - apply bool_decide_eq_false in Hp. by apply eq_None_not_Some.
  - by apply Z.ltb_ge.
  - destruct (oci_Limits oci) as [l|] eqn:El; simpl in Hmem; [|done].
    destruct (ol_MemoryBytes l) as [m|] eqn:Em; [|done]. exists l, m. split_and!; try done.
    by apply negb_true_iff, Z.ltb_ge in Hmem.
  - apply Forall_forall. intros m Hm. by apply Hro, list_elem_of_In.
  - unfold RequiresPinnedPlacement. rewrite Hk, Ho, Hce. cbn. by rewrite orb_true_r.
Qed.

(** Validation of a process job is idempotent: what it stores is accepted
    again and left unchanged, whatever the Unicode lower-case table is. *)
Theorem process_validation_stable lower_table spec spec' :
  ValidateJobSpec lower_table spec = Ok spec' -> js_Kind spec' = JobKindProcess ->
  ValidateJobSpec lower_table spec' = Ok spec'.
Proof.
  intros H Hk. pose proof (ValidateJobSpec_validated _ _ _ H) as Hv.
  pose proof (validated_process _ _ Hv Hk) as Hproc.
  assert (Hrh : js_RuntimeHandler spec' = "").
  { unfold validateProcessExecution in Hproc.
    destruct (bool_decide_reflect (js_RuntimeHandler spec' = "")); [done | discriminate]. }
  assert (Hset : spec' <| js_Kind := normalize_word lower_table (js_Kind spec') |>
                 <| js_RuntimeHandler := normalize_word lower_table (js_RuntimeHandler spec') |> = spec').
  { rewrite Hk, Hrh. destruct spec'; cbn in *; by rewrite Hk, Hrh. }
  assert (Hprefix : negb (js_SchemaVersion spec' =? SchemaVersionV1) = false /\
    bool_decide (TrimSpace (js_DispatchKey spec') = "") || bool_decide (TrimSpace (js_Kind spec') = "")
          || bool_decide (TrimSpace (js_Class spec') = "") = false /\
    (255 <? RuneCountInString (js_DispatchKey spec')) || (128 <? RuneCountInString (js_Kind spec'))
          || (128 <? RuneCountInString (js_Class spec'))
          || (128 <? RuneCountInString (js_RuntimeHandler spec')) = false /\
    validate_instance_key spec' = Ok tt).
  { clear Hv Hproc Hset. unfold ValidateJobSpec in H. inv_ok H. injection H as <-. destruct v.
    destruct (validate_service_frame _ _ Hv5) as [E|[_ E]]; rewrite E in *; cbn in *;
      rewrite Hk, Hrh; rewrite !orb_false_iff in *; (split_and!; [done|tauto|reflexivity|tauto|
      tauto|reflexivity|tauto|reflexivity|exact Hv]). }
  destruct Hprefix as (H1 & H2 & H3 & H4).
  destruct (validated_env _ _ Hv) as [He1 He2].
  unfold ValidateJobSpec. rewrite H1, H2, H3, H4. cbv beta zeta delta [result_bind] iota.
  rewrite Hset, He1, He2, (validated_tags _ _ Hv), Hk, Hrh, Hproc, (validated_limits _ _ Hv),
    (validated_service _ _ Hv), (validated_pinned _ _ Hv).
  destruct (js_Restartable spec') eqn:Er; [|done].
  destruct (validated_restartable _ _ Hv Er) as [_ ->]. done.
Qed.

(** ** Witnesses *)
Definition example_digest : string :=
  "sha256:0123456789abcdef0123456789abcdef0123456789abcdef0123456789abcdef".
Definition example_mount : OCIMount := mkOCIMount "/srv/data" "/data" true false.
Definition example_oci : OCIExecutionSpec :=
  mkOCIExecutionSpec (mkOCIImageSpec "registry.example:5000/team/desk:v1" (Some example_digest) false)
    None None [example_mount] (Some (mkOCILimits (Some 1073741824) None false false))
    (Some (mkOCIComputerSpec ComputerDisplayProtocolRFBWebSocketV1 10737418240))
    false false false false false.
Definition example_computer_spec : JobSpec :=
  mkJobSpec 1 "desk-1" None " OCI" JobClassService None false RestartAlways None "" ["wefty:node:n1"]
    (mkExecutionSpec (mkExecutableSpec "" "" "" None 0) None ∅ ∅ "" "" (Some example_oci)
       false false false false true)
    None ∅ false false.
Definition example_computer_stored : JobSpec := example_computer_spec <| js_Kind := JobKindOCI |>.

Definition example_process_spec : JobSpec :=
  mkJobSpec 1 "job-1" None "Process " JobClassOneShot None true "" None "" ["linux"]
    (mkExecutionSpec (mkExecutableSpec "/bin/true" "" "" None 0) (Some ["true"]) {[ "PATH" := "/bin" ]} ∅
       "/tmp" "" None true true true false false)
    (Some (mkJobLimits 3600 60 0 true)) ∅ false false.
Definition example_process_stored : JobSpec := example_process_spec <| js_Kind := JobKindProcess |>.

Lemma validated_mounts_confined_witness :
  Forall (fun reserved => ~ ancestor "/data" reserved /\ ~ ancestor reserved "/data") oci_reserved_targets.
Proof.
  apply (validated_mounts_confined (fun r => r) example_computer_spec example_computer_stored
           example_oci example_mount); [vm_compute; reflexivity | reflexivity | reflexivity |].
  apply elem_of_cons. by left.
Defined.

Lemma validated_placement_pinned_witness :
  exists before tag after, ["wefty:node:n1"] = before ++ tag :: after
    /\ HasPrefix tag StableNodeTagPrefix = true /\ tag <> StableNodeTagPrefix
    /\ Forall (fun t => HasPrefix t StableNodeTagPrefix = true -> t = StableNodeTagPrefix) (before ++ after).
Proof.
  apply (validated_placement_pinned (fun r => r) example_computer_spec example_computer_stored);
    vm_compute; reflexivity.
Defined.

Lemma validated_limits_fit_duration_witness :
  Forall (fun seconds => 0 <= seconds * second <= MaxInt64) [3600; 60; 0]
  /\ MaxInt64 < (MaxLimitSeconds + 1) * second.
Proof.
  apply (validated_limits_fit_duration (fun r => r) example_process_spec example_process_stored
           (mkJobLimits 3600 60 0 true)); vm_compute; reflexivity.
Defined.

Lemma validated_computer_contract_witness : RequiresPinnedPlacement example_computer_stored = true.
Proof.
  apply (validated_computer_contract (fun r => r) example_computer_spec example_computer_stored
           example_oci (mkOCIComputerSpec ComputerDisplayProtocolRFBWebSocketV1 10737418240));
    vm_compute; reflexivity.
Defined.

Lemma process_validation_stable_witness :
  ValidateJobSpec (fun r => r) example_process_stored = Ok example_process_stored.
Proof.
  apply (process_validation_stable (fun r => r) example_process_spec); vm_compute; reflexivity.
Defined.
