(* ===== verification/L1Types.v ===== *)
(** * L1 request and evidence types, and their validation

    The parts of [l1/types.go] the attempt lifecycle carries, with the
    validators of completion and image evidence in [l1/store.go].  A JSON blob
    that the store only keeps and reads back is modelled by the value it
    encodes. *)
From S2P Require Import Prelude States Contract GoStrings JobSpec.
#[local] Open Scope string_scope.
#[local] Open Scope list_scope.
#[local] Open Scope Z_scope.

(** ** Execution results *)
Record StoppedProcess := mkStoppedProcess {
  sp_PID : Z;
  sp_Name : string;
  sp_CWD : string
}.
#[export] Instance StoppedProcess_eta : Eta StoppedProcess := fun r =>
  mkStoppedProcess (sp_PID r) (sp_Name r) (sp_CWD r).

Record ProcessResult := mkProcessResult {
  pr_StoppedProcesses : option (list StoppedProcess);
  pr_LimitReached : string;
  pr_SpawnError : option SpawnFailure;
  pr_RuntimeFailure : option RuntimeFailure;
  pr_OutputError : string;
  pr_ExitCode : option Z;
  pr_Signal : string;
  pr_TerminationCause : string;
  pr_OOM : bool;
  pr_DiskExhausted : bool;
  pr_LogEvidenceIncomplete : bool
}.
#[export] Instance ProcessResult_eta : Eta ProcessResult := fun r =>
  mkProcessResult (pr_StoppedProcesses r) (pr_LimitReached r) (pr_SpawnError r)
    (pr_RuntimeFailure r) (pr_OutputError r) (pr_ExitCode r) (pr_Signal r)
    (pr_TerminationCause r) (pr_OOM r) (pr_DiskExhausted r) (pr_LogEvidenceIncomplete r).

#[export] Instance StoppedProcess_eq_dec : EqDecision StoppedProcess.
Proof. solve_decision. Defined.
#[export] Instance ProcessResult_eq_dec : EqDecision ProcessResult.
Proof. solve_decision. Defined.

Definition RuntimeQuiescenceAttempt : string := "attempt".
Definition RuntimeQuiescenceNoRuntime : string := "no_runtime_resources".
Definition RuntimeQuiescenceOCISweep : string := "oci_sweep".
Definition RuntimeQuiescencePriorBootGuardian : string := "prior_boot_guardian".
Definition RuntimeQuiescencePriorBootOCISweep : string := "prior_boot_oci_sweep".
Definition RuntimeQuiescenceComputerAttemptAbsent : string := "computer_attempt_absent".

Definition InterruptionUpgrade : string := "upgrade".
Definition InterruptionAgentShutdown : string := "agent_shutdown".
Definition InterruptionLeaseExpired : string := "lease_expired".

Definition AttemptDirectiveCancel : string := "cancel".
Definition AttemptDirectiveStop : string := "stop".
Definition AttemptDirectiveRestart : string := "restart".

(** ** Requests *)
Record CompletionRequest := mkCompletionRequest {
  cr_InterruptionReason : string;
  cr_InterruptionRequestKey : string;
  cr_FencingToken : string;
  cr_IdempotencyKey : string;
  cr_Result : ProcessResult;
  cr_RuntimeQuiescenceEvidence : string;
  cr_ProtocolOutputHash : string;
  cr_TerminationInitiator : string
}.
#[export] Instance CompletionRequest_eta : Eta CompletionRequest := fun r =>
  mkCompletionRequest (cr_InterruptionReason r) (cr_InterruptionRequestKey r)
    (cr_FencingToken r) (cr_IdempotencyKey r) (cr_Result r) (cr_RuntimeQuiescenceEvidence r)
    (cr_ProtocolOutputHash r) (cr_TerminationInitiator r).

Record OCIPlatform := mkOCIPlatform {
  pf_OS : string;
  pf_Architecture : string;
  pf_Variant : string
}.

Record OCIImageEvidence := mkOCIImageEvidence {
  ie_SubmittedReference : string;
  ie_TopLevelDigest : string;
  ie_TopLevelMediaType : string;
  ie_IndexDigest : option string;
  ie_PlatformManifestDigest : string;
  ie_Platform : OCIPlatform;
  ie_RuntimeHandler : string;
  ie_Snapshotter : string;
  ie_ResolvedAt : Z;
  ie_StartedAt : option Z
}.
#[export] Instance OCIImageEvidence_eta : Eta OCIImageEvidence := fun r =>
  mkOCIImageEvidence (ie_SubmittedReference r) (ie_TopLevelDigest r) (ie_TopLevelMediaType r)
    (ie_IndexDigest r) (ie_PlatformManifestDigest r) (ie_Platform r) (ie_RuntimeHandler r)
    (ie_Snapshotter r) (ie_ResolvedAt r) (ie_StartedAt r).

Record ImageObservationRequest := mkImageObservationRequest {
  ir_FencingToken : string;
  ir_SubmittedReference : string;
  ir_TopLevelDigest : string;
  ir_TopLevelMediaType : string;
  ir_IndexDigest : option string;
  ir_PlatformManifestDigest : string;
  ir_Platform : OCIPlatform;
  ir_RuntimeHandler : string;
  ir_Snapshotter : string
}.

Record jobImageResolution := mkjobImageResolution {
  jr_TopLevelDigest : string;
  jr_TopLevelMediaType : string;
  jr_IndexDigest : option string;
  jr_ResolvedAt : Z
}.

Record InterruptRestartableAttemptRequest := mkInterruptRestartableAttemptRequest {
  int_JobID : string;
  int_BootSessionID : string;
  int_IntentRevision : Z;
  int_IdempotencyKey : string;
  int_Reason : string
}.

Record PublicationRequest := mkPublicationRequest {
  pub_FencingToken : string;
  pub_Ready : option bool;
  pub_DisplayEndpoint : option string;
  pub_SubmitIntentRevision : option Z
}.

#[export] Instance CompletionRequest_eq_dec : EqDecision CompletionRequest.
Proof. solve_decision. Defined.
#[export] Instance InterruptRequest_eq_dec : EqDecision InterruptRestartableAttemptRequest.
Proof. solve_decision. Defined.

(** What the node was told at renewal or claim. *)
Record AttemptLease := mkAttemptLease {
  al_AttemptID : string;
  al_FencingToken : string;
  al_LeaseExpires : Z;
  al_LeaseTTL : Z;
  al_SleepCreditBoot : string;
  al_Directive : string;
  al_InterruptionReason : string;
  al_InterruptionRequestKey : string
}.

(** Non-authoritative completion evidence kept after an attempt is lost: the
    result, or the marker that it arrived outside the observation window. *)
Inductive LateResultEvidence :=
| LateResultObservation (r : ProcessResult) (ObservedAt AuthorityLostAt : Z)
| LateResultGapKind (ObservedAt AuthorityLostAt : Z).

(** What the [last_failure] column can hold. *)
Inductive failure_doc :=
| FailureResult (r : ProcessResult)
| FailureSpawn (f : SpawnFailure)
| FailurePortOccupied (code message node_id : string) (published_port : Z).

(** ** Validation *)
Definition validTerminationCause (cause : string) : bool :=
  bool_decide (cause ∈ [TerminationCauseSpontaneous; TerminationCauseAgent; TerminationCauseGuardian]).

Definition is_resource_code (code : string) : bool :=
  bool_decide (code = SpawnFailureInsufficientMemory) || bool_decide (code = SpawnFailureInsufficientDisk).

Definition valid_stopped_processes (r : ProcessResult) : bool :=
  match pr_StoppedProcesses r with
  | None => true
  | Some ps =>
      negb (bool_decide (ps = []))
      && forallb (fun p => negb ((sp_PID p <=? 1) || bool_decide (sp_Name p = "") || bool_decide (sp_CWD p = ""))) ps
  end.

Definition valid_spawn_error (f : SpawnFailure) : bool :=
  negb (bool_decide (sf_Code f = "") || bool_decide (TrimSpace (sf_Message f) = ""))
  && if is_resource_code (sf_Code f)
     then negb ((sf_RequestedBytes f <=? 0) || (sf_ObservedAvailableBytes f <? 0)
                || negb (bool_decide (sf_NodeID f = "")))
     else negb (negb (sf_RequestedBytes f =? 0) || negb (sf_ObservedAvailableBytes f =? 0)
                || negb (bool_decide (sf_NodeID f = ""))).

Definition valid_runtime_failure (f : RuntimeFailure) : bool :=
  negb (bool_decide (rf_Code f = "") || bool_decide (TrimSpace (rf_Message f) = "")).

(** The number of mutually exclusive arms a result sets. *)
Definition result_arms (r : ProcessResult) : Z :=
  let one (b : bool) := if b then 1 else 0 in
  one (bool_decide (is_Some (pr_SpawnError r))) + one (bool_decide (is_Some (pr_RuntimeFailure r)))
  + one (negb (bool_decide (pr_OutputError r = ""))) + one (bool_decide (is_Some (pr_ExitCode r)))
  + one (negb (bool_decide (pr_Signal r = ""))).

Definition validateProcessResult (r : ProcessResult) : result ErrorCode unit :=
  if negb (valid_stopped_processes r) then invalid
  else if negb (bool_decide (pr_LimitReached r ∈ [""; LimitReachedMaxRuntime; LimitReachedIdleTimeout]))
  then invalid
  else if negb (bool_decide (pr_LimitReached r = "")) && bool_decide (is_Some (pr_SpawnError r)) then invalid
  else if match pr_SpawnError r with Some f => negb (valid_spawn_error f) | None => false end then invalid
  else if match pr_RuntimeFailure r with Some f => negb (valid_runtime_failure f) | None => false end
  then invalid
  else if negb (bool_decide (pr_Signal r = ""))
          && negb (validTerminationCause (pr_TerminationCause r)) then invalid
  else if bool_decide (pr_Signal r = "") && negb (bool_decide (pr_TerminationCause r = "")) then invalid
  else ensure (result_arms r =? 1).

Definition validateTerminationInitiator (request : CompletionRequest) : result ErrorCode unit :=
  if bool_decide (cr_TerminationInitiator request = "") then Ok tt
  else if negb (bool_decide (cr_TerminationInitiator request ∈ [TerminationCauseAgent; TerminationCauseGuardian]))
  then invalid
  else ensure (bool_decide (is_Some (pr_ExitCode (cr_Result request)))).

Definition validSHA256 (value : string) : bool := validLowerSHA256 value.

Definition valid_observation_digest (value : string) : bool :=
  HasPrefix value "sha256:" && validSHA256 (skip 7 value).

Definition validateImageObservation (request : ImageObservationRequest) : result ErrorCode unit :=
  let blank s := bool_decide (TrimSpace s = "") in
  if bool_decide (ir_FencingToken request = "") || blank (ir_SubmittedReference request)
     || blank (ir_TopLevelMediaType request) || blank (ir_RuntimeHandler request)
     || blank (ir_Snapshotter request) || blank (pf_OS (ir_Platform request))
     || blank (pf_Architecture (ir_Platform request)) then invalid
  else if negb (valid_observation_digest (ir_TopLevelDigest request)
                && valid_observation_digest (ir_PlatformManifestDigest request)) then invalid
  else match ir_IndexDigest request with
       | Some d => ensure (valid_observation_digest d)
       | None => Ok tt
       end.

Definition completionStates (r : ProcessResult) : JobState * AttemptState :=
  if bool_decide (pr_LimitReached r = "") && bool_decide (pr_ExitCode r = Some 0)
  then (JobSucceeded, AttemptSucceeded) else (JobFailed, AttemptFailed).
