(* ===== verification/NodeTypes.v ===== *)
(** * Node generations: the types of their protocol

    [l1/node_generation.go], [node_generation_abort.go] and
    [node_generation_deenroll.go]: the sessions of a node across a rolling
    upgrade, the inventory L1 answers with and the requests of its operations. *)
From S2P Require Import Prelude States Contract.
#[local] Open Scope string_scope.
#[local] Open Scope Z_scope.

Definition NodeGenerationStaged : string := "staged".
Definition NodeGenerationPrimary : string := "primary".
Definition NodeGenerationRetiring : string := "retiring".
Definition NodeGenerationClosed : string := "closed".

Record ResidentAttempt := mkResidentAttempt {
  ra_JobID : string;
  ra_AttemptID : string;
  ra_BootSessionID : string;
  ra_AuthorityGeneration : Z;
  ra_FencingToken : string
}.
#[export] Instance ResidentAttempt_eq_dec : EqDecision ResidentAttempt.
Proof. solve_decision. Defined.

Record NodeGeneration := mkNodeGeneration {
  ng_AgentGenerationID : string;
  ng_BootSessionID : string;
  ng_AuthorityGeneration : Z;
  ng_Role : string;
  ng_Registration : NodeRegistration;
  ng_RetirementProtocolVersions : list Z;
  ng_SelectedProtocol : Z;
  ng_PromotionOperationID : string;
  ng_CreatedAt : Z;
  ng_LastHeartbeatAt : Z;
  ng_RetiringAt : option Z;
  ng_ClosedAt : option Z;
  ng_ResidentAttempts : list ResidentAttempt
}.

Record NodeGenerationInventory := mkNodeGenerationInventory {
  gi_NodeID : string;
  gi_CatalogRevision : Z;
  gi_Generations : list NodeGeneration
}.

Record PromoteNodeGenerationRequest := mkPromoteNodeGenerationRequest {
  pg_OperationID : string;
  pg_ExpectedPrimaryGenerationID : string;
  pg_ExpectedPrimaryBootSessionID : string;
  pg_ExpectedAuthorityGeneration : Z;
  pg_CandidateGenerationID : string;
  pg_CandidateBootSessionID : string;
  pg_ExpectedCatalogRevision : Z;
  pg_CatalogRevision : Z;
  pg_IntentRevision : Z;
  pg_SelectedProtocol : Z;
  pg_RetiringGenerationIDs : list string;
  pg_ResidentAttempts : list ResidentAttempt
}.
#[export] Instance PromoteNodeGenerationRequest_eta : Eta PromoteNodeGenerationRequest := fun r =>
  mkPromoteNodeGenerationRequest (pg_OperationID r) (pg_ExpectedPrimaryGenerationID r) (pg_ExpectedPrimaryBootSessionID r)
    (pg_ExpectedAuthorityGeneration r) (pg_CandidateGenerationID r) (pg_CandidateBootSessionID r)
    (pg_ExpectedCatalogRevision r) (pg_CatalogRevision r) (pg_IntentRevision r) (pg_SelectedProtocol r)
    (pg_RetiringGenerationIDs r) (pg_ResidentAttempts r).
#[export] Instance PromoteNodeGenerationRequest_eq_dec : EqDecision PromoteNodeGenerationRequest.
Proof. solve_decision. Defined.

Record StagedGenerationAbort := mkStagedGenerationAbort {
  sg_OperationID : string;
  sg_PrimaryGenerationID : string;
  sg_PrimaryBootSessionID : string;
  sg_AuthorityGeneration : Z;
  sg_CatalogRevision : Z;
  sg_IntentRevision : Z;
  sg_IntentReason : string
}.
#[export] Instance StagedGenerationAbort_eq_dec : EqDecision StagedGenerationAbort.
Proof. solve_decision. Defined.

Record CloseNodeGenerationRequest := mkCloseNodeGenerationRequest {
  cg_Abort : option StagedGenerationAbort;
  cg_BootSessionID : string;
  cg_PromotionOperationID : string;
  cg_ResidentAttempts : list ResidentAttempt;
  cg_RuntimesReaped : bool;
  cg_EvidenceSettled : bool
}.
#[export] Instance CloseNodeGenerationRequest_eq_dec : EqDecision CloseNodeGenerationRequest.
Proof. solve_decision. Defined.

Record DeEnrollNodeGenerationRequest := mkDeEnrollNodeGenerationRequest {
  dg_OperationID : string;
  dg_PrimaryGenerationID : string;
  dg_PrimaryBootSessionID : string;
  dg_AuthorityGeneration : Z;
  dg_CatalogRevision : Z;
  dg_IntentRevision : Z;
  dg_IntentReason : string;
  dg_RuntimesReaped : bool;
  dg_EvidenceSettled : bool
}.
#[export] Instance DeEnrollNodeGenerationRequest_eq_dec : EqDecision DeEnrollNodeGenerationRequest.
Proof. solve_decision. Defined.

(** A row of [node_generation_promotions]: [request_json] is the request of one of
    three operations, [result_json] the inventory or the recorded refusal. *)
Inductive generation_operation :=
| PromoteOperation (request : PromoteNodeGenerationRequest)
| AbortOperation (generation : string) (request : CloseNodeGenerationRequest)
| DeEnrollOperation (request : DeEnrollNodeGenerationRequest).
#[export] Instance generation_operation_eq_dec : EqDecision generation_operation.
Proof. solve_decision. Defined.

Inductive operation_outcome :=
| OperationInventory (inventory : NodeGenerationInventory)
| OperationRefused.
