(* ===== verification/RestartPolicy.v ===== *)
(** * Restart policy

    [l1/restart_policy.go] and the delay of [l1/oneshot_restart.go]: which
    terminations a service retries, how often, and after what delay.  Durations
    and times are nanoseconds.  The random jitter is an argument; the draw of
    [defaultRestartJitter] is [default_jitter] with its random value made
    explicit. *)
From S2P Require Import Prelude States Contract GoStrings JobSpec L1Types.
#[local] Open Scope string_scope.
#[local] Open Scope list_scope.
#[local] Open Scope Z_scope.

Definition millisecond : Z := 1000000.
Definition MaximumServiceRestartDelay : Z := 30 * second.
Definition minimumServiceRestartDelay : Z := 500 * millisecond.
Definition MaximumOneshotRestarts : Z := 10.
Definition MaximumOneshotRestartDelay : Z := 60 * second.
Definition MinimumOneshotRestartDelay : Z := 11 * second.
Definition RestartLimitReached : string := "restart_limit_reached".

(** ** Failure classification *)
Inductive failureClassification := failureTerminal | failureRestartable | failureInfrastructure.
#[export] Instance failureClassification_eq_dec : EqDecision failureClassification.
Proof. solve_decision. Defined.

Definition failureClassifications : list (string * failureClassification) :=
  [ (SpawnFailureStartupReadinessTimeout, failureRestartable);
    (SpawnFailureServicePortTaken, failureRestartable);
    (SpawnFailurePublishedListener, failureInfrastructure);
    (SpawnFailureRuntimeUnavailable, failureInfrastructure);
    (SpawnFailureImageUnavailable, failureTerminal);
    (SpawnFailureImageNotFound, failureTerminal);
    (SpawnFailureImageManifestInvalid, failureTerminal);
    (SpawnFailureImagePlatformUnsupported, failureTerminal);
    (SpawnFailureInsufficientMemory, failureTerminal);
    (SpawnFailureInsufficientDisk, failureTerminal) ].

Definition runtimeFailureClassifications : list (string * failureClassification) :=
  [ (RuntimeFailureUnavailable, failureInfrastructure) ].

(** A missing map key yields the zero value, [failureTerminal]. *)
Fixpoint classification_lookup (m : list (string * failureClassification)) (code : string) :
    failureClassification :=
  match m with
  | [] => failureTerminal
  | (k, v) :: rest => if bool_decide (code = k) then v else classification_lookup rest code
  end.

Definition classifySpawnFailure (code : string) : failureClassification :=
  classification_lookup failureClassifications code.

Definition IsRestartableSpawnFailure (code : string) : bool :=
  bool_decide (classifySpawnFailure code = failureRestartable).

Definition classifyRuntimeFailure (code : string) : failureClassification :=
  classification_lookup runtimeFailureClassifications code.

(** ** Delays *)

(** The loop body runs while the counter is below the bound and the delay is
    below the maximum; [n] is the number of iterations the counter allows. *)
Fixpoint prestart_loop (n : nat) (delay : Z) : Z :=
  match n with
  | O => delay
  | S n' =>
      if delay <? MaximumServiceRestartDelay then
        let delay := delay * 2 in
        prestart_loop n' (if MaximumServiceRestartDelay <? delay then MaximumServiceRestartDelay else delay)
      else delay
  end.

Definition prestartRetryDelay (retryCount : Z) (jitter : Z -> Z) : Z :=
  let retryCount := if retryCount <? 1 then 1 else retryCount in
  let delay := jitter (prestart_loop (Z.to_nat (retryCount - 1)) second) in
  if MaximumServiceRestartDelay <? delay then MaximumServiceRestartDelay else delay.

Fixpoint service_loop (n : nat) (nominal : Z) : Z :=
  match n with
  | O => nominal
  | S n' =>
      if MaximumServiceRestartDelay / 2 <=? nominal then MaximumServiceRestartDelay
      else service_loop n' (nominal * 2)
  end.

Definition serviceRestartDelay (restartStreak leaseDuration : Z) (jitter : Z -> Z) : Z :=
  let exponent := if restartStreak - 1 <? 0 then 0 else restartStreak - 1 in
  let nominal := service_loop (Z.to_nat exponent) second in
  let nominal := if MaximumServiceRestartDelay <? nominal then MaximumServiceRestartDelay else nominal in
  let nominal := if leaseDuration <? nominal then leaseDuration else nominal in
  let delay := jitter nominal in
  let delay := if leaseDuration <? delay then leaseDuration else delay in
  if delay <? minimumServiceRestartDelay then minimumServiceRestartDelay else delay.

Fixpoint oneshot_loop (n : nat) (delay : Z) : Z :=
  match n with
  | O => delay
  | S n' => if delay <? MaximumOneshotRestartDelay then oneshot_loop n' (delay * 2) else delay
  end.

Definition oneshotRestartDelay (restart : Z) (jitter : option (Z -> Z)) : Z :=
  let delay := oneshot_loop (Z.to_nat (restart - 1)) second in
  let delay := if MaximumOneshotRestartDelay <? delay then MaximumOneshotRestartDelay else delay in
  let delay := match jitter with Some j => j delay | None => delay end in
  let delay := if delay <? MinimumOneshotRestartDelay then MinimumOneshotRestartDelay else delay in
  if MaximumOneshotRestartDelay <? delay then MaximumOneshotRestartDelay else delay.

(** [draw] is the value [rand.Int] returns, uniform in [0, width]. *)
Definition defaultRestartJitter (draw : Z -> Z) (delay : Z) : Z :=
  let minimum := Z.quot (delay * 8) 10 in
  let maximum := Z.quot (delay * 12) 10 in
  let width := maximum - minimum in
  if width <=? 0 then delay else minimum + draw width.

(** ** Completion of a service attempt *)

(** The fields of the Job projection the policy reads. *)
Record service_view := mkservice_view {
  sv_State : JobState;
  sv_Spec : JobSpec;
  sv_DesiredState : ServiceDesiredState;
  sv_RestartStreak : Z;
  sv_LifetimeRestartCount : Z
}.

Record serviceCompletionPolicy := mkserviceCompletionPolicy {
  scp_policyStop : option ProcessResult;
  scp_jobState : JobState;
  scp_attemptState : AttemptState;
  scp_restartStreak : Z;
  scp_lifetimeRestartCount : Z;
  scp_nextRestartNS : option Z;
  scp_lastFailure : option failure_doc;
  scp_updateLastFailure : bool
}.
#[export] Instance serviceCompletionPolicy_eta : Eta serviceCompletionPolicy := fun r =>
  mkserviceCompletionPolicy (scp_policyStop r) (scp_jobState r) (scp_attemptState r)
    (scp_restartStreak r) (scp_lifetimeRestartCount r) (scp_nextRestartNS r) (scp_lastFailure r)
    (scp_updateLastFailure r).

Definition validRuntimeQuiescenceEvidence (evidence : string) : bool :=
  bool_decide (evidence ∈ [RuntimeQuiescenceComputerAttemptAbsent; RuntimeQuiescenceAttempt;
    RuntimeQuiescenceNoRuntime; RuntimeQuiescenceOCISweep; RuntimeQuiescencePriorBootGuardian;
    RuntimeQuiescencePriorBootOCISweep]).

Definition completionStatesAttempt (r : ProcessResult) : AttemptState :=
  if bool_decide (pr_ExitCode r = Some 0) then AttemptSucceeded else AttemptFailed.

(** Which arm of the result switch a termination takes. *)
Inductive service_verdict := VerdictTerminal | VerdictRestartable | VerdictInfrastructure | VerdictPolicyStop.
#[export] Instance service_verdict_eq_dec : EqDecision service_verdict.
Proof. solve_decision. Defined.

Definition service_verdict_of (spec : JobSpec) (completion : CompletionRequest) (restartRequested : bool) :
    service_verdict :=
  let r := cr_Result completion in
  let computer := bool_decide (js_Kind spec = JobKindOCI) && IsComputerExecution (js_Execution spec) in
  if computer && (pr_OOM r || pr_DiskExhausted r) then VerdictTerminal
  else match pr_SpawnError r with
  | Some f =>
      let classification :=
        if bool_decide (sf_Code f = SpawnFailureRuntimeUnavailable)
           && negb (bool_decide (js_Kind spec = JobKindOCI))
        then failureTerminal else classifySpawnFailure (sf_Code f) in
      match classification with
      | failureRestartable => VerdictRestartable
      | failureInfrastructure => VerdictInfrastructure
      | failureTerminal => VerdictTerminal
      end
  | None =>
      if negb (bool_decide (pr_OutputError r = "")) then VerdictTerminal
      else match pr_ExitCode r with
      | Some code =>
          if negb (bool_decide (cr_TerminationInitiator completion = "")) then VerdictInfrastructure
          else if (code =? 0)
                  && (bool_decide (js_Restart spec = RestartOnFailure)
                      || bool_decide (js_Restart spec = RestartNever))
                  && negb restartRequested then VerdictPolicyStop
          else VerdictRestartable
      | None =>
          if negb (bool_decide (pr_Signal r = "")) then
            if bool_decide (pr_TerminationCause r = TerminationCauseSpontaneous)
            then VerdictRestartable else VerdictInfrastructure
          else match pr_RuntimeFailure r with
          | Some f =>
              if bool_decide (js_Kind spec = JobKindOCI)
                 && bool_decide (classifyRuntimeFailure (rf_Code f) = failureInfrastructure)
              then VerdictInfrastructure else VerdictTerminal
          | None => VerdictTerminal
          end
      end
  end.

Definition classifyServiceCompletion (leaseDuration : Z) (jitter : Z -> Z) (job : service_view)
    (completion : CompletionRequest) (lastFailureJSON : failure_doc) (now : Z)
    (started restartRequested : bool) : serviceCompletionPolicy :=
  let r := cr_Result completion in
  let spec := sv_Spec job in
  let policy := mkserviceCompletionPolicy None JobFailed (completionStatesAttempt r)
                  (sv_RestartStreak job) (sv_LifetimeRestartCount job) None None false in
  let latched p := p <| scp_lastFailure := Some lastFailureJSON |> <| scp_updateLastFailure := true |> in
  if bool_decide (sv_DesiredState job = ServiceDesiredStopped) || bool_decide (sv_State job = JobStopping) then
    if negb (validRuntimeQuiescenceEvidence (cr_RuntimeQuiescenceEvidence completion))
    then latched policy
    else policy <| scp_jobState := JobStopped |>
  else match service_verdict_of spec completion restartRequested with
  | VerdictPolicyStop => policy <| scp_jobState := JobStopped |> <| scp_policyStop := Some r |>
  | VerdictInfrastructure =>
      if bool_decide (js_Restart spec = RestartNever) && started && negb restartRequested
      then latched policy
      else
        let count := scp_lifetimeRestartCount policy + 1 in
        policy <| scp_jobState := JobQueued |> <| scp_lifetimeRestartCount := count |>
               <| scp_nextRestartNS := Some (now + prestartRetryDelay count jitter) |>
  | VerdictTerminal => latched policy
  | VerdictRestartable =>
      if bool_decide (js_Restart spec = RestartNever) && negb restartRequested
      then latched (policy <| scp_policyStop := Some r |>)
      else
        let streak := scp_restartStreak policy + 1 in
        let policy := latched (policy <| scp_restartStreak := streak |>) in
        if match js_MaxRestartStreak spec with Some n => n <=? streak | None => false end then policy
        else policy <| scp_jobState := JobQueued |>
                    <| scp_lifetimeRestartCount := scp_lifetimeRestartCount policy + 1 |>
                    <| scp_nextRestartNS := Some (now + serviceRestartDelay streak leaseDuration jitter) |>
  end.

(** ** Closed forms of the loops *)
Lemma clamp_min a b : (if a <? b then a else b) = Z.min a b.
Proof. destruct (Z.ltb_spec a b); lia. Qed.

Lemma clamp_max a b : (if a <? b then b else a) = Z.max b a.
Proof. destruct (Z.ltb_spec a b); lia. Qed.

Lemma pow2_succ n : 2 ^ Z.of_nat (S n) = 2 * 2 ^ Z.of_nat n.
Proof. rewrite Nat2Z.inj_succ, Z.pow_succ_r by lia. done. Qed.

Lemma pow2_pos n : 1 <= 2 ^ Z.of_nat n.
Proof. pose proof (Z.pow_pos_nonneg 2 (Z.of_nat n)). lia. Qed.

Lemma prestart_loop_closed n d :
  0 < d <= MaximumServiceRestartDelay ->
  prestart_loop n d = Z.min MaximumServiceRestartDelay (d * 2 ^ Z.of_nat n).
Proof.
  revert d. induction n as [|n IH]; intros d Hd.
  - simpl. rewrite Z.mul_1_r. lia.
  - cbn [prestart_loop]. rewrite pow2_succ. pose proof (pow2_pos n).
    destruct (Z.ltb_spec d MaximumServiceRestartDelay).
    + rewrite clamp_min, IH by lia. destruct (Z.min_spec MaximumServiceRestartDelay (d * 2)); nia.
    + nia.
Qed.

Lemma service_loop_closed n d :
  0 < d <= MaximumServiceRestartDelay ->
  service_loop n d = Z.min MaximumServiceRestartDelay (d * 2 ^ Z.of_nat n).
Proof.
  revert d. induction n as [|n IH]; intros d Hd.
  - simpl. rewrite Z.mul_1_r. lia.
  - cbn [service_loop]. rewrite pow2_succ. pose proof (pow2_pos n).
    unfold MaximumServiceRestartDelay, second in *.
    change (30 * 1000000000 / 2) with 15000000000.
    destruct (Z.leb_spec 15000000000 d); [nia|]. rewrite IH by lia. f_equal. nia.
Qed.

Lemma oneshot_loop_closed n d :
  0 < d -> Z.min MaximumOneshotRestartDelay (oneshot_loop n d) =
           Z.min MaximumOneshotRestartDelay (d * 2 ^ Z.of_nat n).
Proof.
  revert d. induction n as [|n IH]; intros d Hd.
  - simpl. by rewrite Z.mul_1_r.
  - cbn [oneshot_loop]. rewrite pow2_succ. pose proof (pow2_pos n).
    destruct (Z.ltb_spec d MaximumOneshotRestartDelay); [rewrite IH by lia; f_equal; nia | nia].
Qed.

(** The draw stays within 80% and 120% of the nominal delay. *)
Lemma defaultRestartJitter_range draw delay :
  0 <= delay -> (forall w, 0 <= w -> 0 <= draw w <= w) ->
  delay * 8 / 10 <= defaultRestartJitter draw delay <= delay * 12 / 10.
Proof.
  intros Hd Hdraw. unfold defaultRestartJitter. rewrite !Z.quot_div_nonneg by lia.
  destruct (Z.leb_spec (delay * 12 / 10 - delay * 8 / 10) 0).
  - assert (delay = 0) by (Z.to_euclidean_division_equations; lia). subst. done.
  - specialize (Hdraw (delay * 12 / 10 - delay * 8 / 10)). lia.
Qed.

(** ** Properties *)

(** C40: the service backoff before jitter is the doubling sequence from one
    second, capped at thirty seconds and at the lease; whatever the jitter
    draws, the delay is at least the minimum and never exceeds the lease unless
    the lease itself is shorter than that minimum. *)
Theorem serviceRestartDelay_spec restartStreak leaseDuration jitter :
  serviceRestartDelay restartStreak leaseDuration jitter =
    Z.max minimumServiceRestartDelay
      (Z.min leaseDuration
         (jitter (Z.min leaseDuration
            (Z.min MaximumServiceRestartDelay (second * 2 ^ Z.max 0 (restartStreak - 1)))))).
Proof.
  unfold serviceRestartDelay.
  rewrite service_loop_closed by (unfold MaximumServiceRestartDelay, second; lia).
  rewrite !clamp_min.
  assert (Hexp : Z.of_nat (Z.to_nat (if restartStreak - 1 <? 0 then 0 else restartStreak - 1))
                 = Z.max 0 (restartStreak - 1)).
  { destruct (Z.ltb_spec (restartStreak - 1) 0); rewrite Z2Nat.id; lia. }
  rewrite Hexp.
  rewrite (Z.min_assoc MaximumServiceRestartDelay), Z.min_id.
  apply clamp_max.
Qed.

(** A lost or interrupted restartable one-shot waits between 11 and 60
    seconds whatever the jitter draws, and without jitter exactly the doubling
    sequence clamped to that range. *)
Theorem oneshotRestartDelay_bounds restart jitter :
  MinimumOneshotRestartDelay <= oneshotRestartDelay restart jitter <= MaximumOneshotRestartDelay
  /\ oneshotRestartDelay restart None =
       Z.max MinimumOneshotRestartDelay
         (Z.min MaximumOneshotRestartDelay (second * 2 ^ Z.max 0 (restart - 1))).
Proof.
  unfold oneshotRestartDelay. split.
  - set (d := match jitter with Some j => _ | None => _ end).
    clearbody d. rewrite clamp_max, clamp_min.
    unfold MinimumOneshotRestartDelay, MaximumOneshotRestartDelay, second. lia.
  - rewrite !clamp_min, oneshot_loop_closed by (unfold second; lia).
    replace (Z.of_nat (Z.to_nat (restart - 1))) with (Z.max 0 (restart - 1)) by lia.
    rewrite clamp_max.
    unfold MinimumOneshotRestartDelay, MaximumOneshotRestartDelay, second in *. lia.
Qed.

(** The retry delay before a start or after a lease loss. *)
Lemma prestartRetryDelay_spec retryCount jitter :
  prestartRetryDelay retryCount jitter =
    Z.min MaximumServiceRestartDelay
      (jitter (Z.min MaximumServiceRestartDelay (second * 2 ^ Z.max 0 (retryCount - 1)))).
Proof.
  unfold prestartRetryDelay. rewrite clamp_min.
  rewrite prestart_loop_closed by (unfold MaximumServiceRestartDelay, second; lia).
  do 3 f_equal. f_equal. f_equal. destruct (Z.ltb_spec retryCount 1); lia.
Qed.

Lemma prestartRetryDelay_max retryCount jitter :
  prestartRetryDelay retryCount jitter <= MaximumServiceRestartDelay.
Proof. rewrite prestartRetryDelay_spec. lia. Qed.

(** The intent of the operator forbids a restart. *)
Definition stop_intended (job : service_view) : bool :=
  bool_decide (sv_DesiredState job = ServiceDesiredStopped) || bool_decide (sv_State job = JobStopping).

(** The terminations a service is requeued after. *)
Definition requeues (job : service_view) (completion : CompletionRequest) (started restartRequested : bool) :
    bool :=
  let spec := sv_Spec job in
  let never := bool_decide (js_Restart spec = RestartNever) in
  match service_verdict_of spec completion restartRequested with
  | VerdictInfrastructure => negb (never && started && negb restartRequested)
  | VerdictRestartable =>
      negb (never && negb restartRequested)
      && match js_MaxRestartStreak spec with Some n => sv_RestartStreak job + 1 <? n | None => true end
  | VerdictTerminal | VerdictPolicyStop => false
  end.

(** A completed service attempt puts the job back in the queue exactly when
    no stop is intended and the termination is retried: an infrastructure loss
    unless the policy is never and the payload had started, or a payload failure
    unless the policy is never or the streak reaches its configured maximum.
    Exactly then a restart time is set and the lifetime count grows by one; the
    streak grows by one only for a payload failure. *)
Theorem classifyServiceCompletion_requeues leaseDuration jitter job completion doc now started restartRequested :
  let p := classifyServiceCompletion leaseDuration jitter job completion doc now started restartRequested in
  let requeued := negb (stop_intended job) && requeues job completion started restartRequested in
  bool_decide (scp_jobState p = JobQueued) = requeued
  /\ bool_decide (is_Some (scp_nextRestartNS p)) = requeued
  /\ scp_lifetimeRestartCount p = sv_LifetimeRestartCount job + (if requeued then 1 else 0)
  /\ sv_RestartStreak job <= scp_restartStreak p <= sv_RestartStreak job + 1
  /\ (scp_jobState p = JobQueued \/ scp_jobState p = JobStopped \/ scp_jobState p = JobFailed)
  /\ (scp_attemptState p = AttemptSucceeded \/ scp_attemptState p = AttemptFailed).
Proof.
  cbv zeta. unfold classifyServiceCompletion, requeues. fold (stop_intended job).
  assert (Ha : completionStatesAttempt (cr_Result completion) = AttemptSucceeded \/
               completionStatesAttempt (cr_Result completion) = AttemptFailed).
  { unfold completionStatesAttempt. case_match; auto. }
  destruct (stop_intended job); cbn [negb andb].
  { destruct (validRuntimeQuiescenceEvidence _); cbn; split_and!; try done; try lia; auto. }
  destruct (service_verdict_of _ _ _); cbn; try (split_and!; try done; try lia; auto; fail).
  - destruct (bool_decide (js_Restart (sv_Spec job) = RestartNever)), restartRequested; cbn;
      try (split_and!; try done; try lia; auto; fail);
      (destruct (js_MaxRestartStreak (sv_Spec job)) as [n|];
       [destruct (Z.leb_spec n (sv_RestartStreak job + 1)), (Z.ltb_spec (sv_RestartStreak job + 1) n)|]);
      cbn; try lia; split_and!; try done; try lia; auto.
  - destruct (bool_decide (js_Restart (sv_Spec job) = RestartNever)), started, restartRequested; cbn;
      split_and!; try done; try lia; auto.
Qed.
