(* ===== verification/Database.v ===== *)
(** * The L1 database

    The tables of [l1/store.go] that the attempt lifecycle reads and writes, one
    record per row and one finite map per primary key, with the triggers the
    schema installs.  Times are Unix nanoseconds; a nullable column is an option;
    a JSON column holds the value it encodes.  A statement that changes rows is a
    function on the database; statements that set [jobs.state] go through
    [exec_job_state], which also fires the secret-scrub trigger. *)
From S2P Require Import Prelude States Contract GoStrings JobSpec L1Types NodeTypes.
#[local] Open Scope string_scope.
#[local] Open Scope list_scope.
#[local] Open Scope Z_scope.

(** ** Rows *)
Record JobRow := mkJobRow {
  j_dispatch_key : string;
  j_request_hash : string;
  j_spec : JobSpec;
  j_state : JobState;
  j_outcome : string;
  j_cancel_settle_by_ns : option Z;
  j_current_attempt_id : option string;
  j_completion_replay_attempt_id : option string;
  j_fence_counter : Z;
  j_prestart_retry_count : Z;
  j_prestart_budget_deadline_ns : option Z;
  j_prestart_next_retry_at_ns : option Z;
  j_prestart_terminal_reason : option string;
  j_image_resolution : option jobImageResolution;
  j_image_resolution_hash : option string;
  j_parent_job_id : option string;
  j_parent_attempt_id : option string;
  j_originating_submitter : string;
  j_submitted_by_run_ledger : bool;
  j_spawn_depth : Z;
  j_instance_namespace : string;
  j_instance_key : option string;
  j_instance_class : string;
  j_restart_count : Z;
  j_next_restart_at_ns : option Z;
  j_restart_terminal_reason : option string;
  j_restart_last_reason : option string;
  j_restart_previous_attempt_id : option string;
  j_secrets_scrubbed_ns : option Z;
  j_created_ns : Z;
  j_updated_ns : Z
}.
#[export] Instance JobRow_eta : Eta JobRow := fun r =>
  mkJobRow (j_dispatch_key r) (j_request_hash r) (j_spec r) (j_state r) (j_outcome r)
    (j_cancel_settle_by_ns r) (j_current_attempt_id r) (j_completion_replay_attempt_id r)
    (j_fence_counter r) (j_prestart_retry_count r) (j_prestart_budget_deadline_ns r)
    (j_prestart_next_retry_at_ns r) (j_prestart_terminal_reason r) (j_image_resolution r)
    (j_image_resolution_hash r) (j_parent_job_id r) (j_parent_attempt_id r)
    (j_originating_submitter r) (j_submitted_by_run_ledger r) (j_spawn_depth r)
    (j_instance_namespace r) (j_instance_key r) (j_instance_class r) (j_restart_count r)
    (j_next_restart_at_ns r) (j_restart_terminal_reason r) (j_restart_last_reason r)
    (j_restart_previous_attempt_id r) (j_secrets_scrubbed_ns r) (j_created_ns r)
    (j_updated_ns r).

Record AttemptRow := mkAttemptRow {
  a_job_id : string;
  a_node_id : string;
  a_boot_session_id : string;
  a_state : AttemptState;
  a_fencing_token : string;
  a_lease_expires_ns : Z;
  a_lease_boot_id : string;
  a_lease_deadline_ns : Z;
  a_authority_generation : Z;
  a_completion_key : option string;
  a_completion_hash : option string;
  a_result : option ProcessResult;
  a_termination_initiator : option string;
  a_interruption_reason : option string;
  a_interruption_request_key : option string;
  a_interruption_request : option InterruptRestartableAttemptRequest;
  a_interruption_request_reason : option string;
  a_interruption_requested_ns : option Z;
  a_image_observation : option OCIImageEvidence;
  a_image_observation_hash : option string;
  a_started_ns : option Z;
  a_late_result : option LateResultEvidence;
  a_late_result_observed_ns : option Z;
  a_late_result_authority_lost_ns : option Z;
  a_late_result_is_late : bool;
  a_last_renewal_ns : option Z;
  a_created_ns : Z;
  a_updated_ns : Z
}.
#[export] Instance AttemptRow_eta : Eta AttemptRow := fun r =>
  mkAttemptRow (a_job_id r) (a_node_id r) (a_boot_session_id r) (a_state r) (a_fencing_token r)
    (a_lease_expires_ns r) (a_lease_boot_id r) (a_lease_deadline_ns r)
    (a_authority_generation r) (a_completion_key r) (a_completion_hash r) (a_result r)
    (a_termination_initiator r) (a_interruption_reason r) (a_interruption_request_key r)
    (a_interruption_request r) (a_interruption_request_reason r) (a_interruption_requested_ns r)
    (a_image_observation r) (a_image_observation_hash r) (a_started_ns r) (a_late_result r)
    (a_late_result_observed_ns r) (a_late_result_authority_lost_ns r) (a_late_result_is_late r)
    (a_last_renewal_ns r) (a_created_ns r) (a_updated_ns r).

(** A member of a condition's details. *)
Inductive detail :=
| DetailText (s : string)
| DetailNumber (z : Z)
| DetailFlag (b : bool)
| DetailTexts (l : list string).

Record NodeCondition := mkNodeCondition {
  nc_code : string;
  nc_source : string;
  nc_at : Z;
  nc_details : list (string * detail)
}.

Record NodeRow := mkNodeRow {
  n_identity_node_id : string;
  n_boot_session_id : string;
  n_connect_host : string;
  n_root_instance_id : string;
  n_os : string;
  n_architecture : string;
  n_agent_version : string;
  n_capabilities : gmap string bool;
  n_capability_revision : Z;
  n_capability_observed_ns : Z;
  n_missing_capabilities : list string;
  n_capability_reason_code : string;
  n_state : NodeState;
  n_last_heartbeat_ns : Z;
  n_heartbeat_sleep_ns : Z;
  n_max_oneshot_slots : Z;
  n_max_service_slots : Z;
  n_authority_generation : Z;
  n_claims_enabled : bool;
  n_automatically_admitted : bool;
  n_intent_revision : Z;
  n_intent_reason : string;
  n_intent_updated_at : option Z;
  n_intent_actor : string;
  n_last_condition : option NodeCondition
}.
#[export] Instance NodeRow_eta : Eta NodeRow := fun r =>
  mkNodeRow (n_identity_node_id r) (n_boot_session_id r) (n_connect_host r) (n_root_instance_id r)
    (n_os r) (n_architecture r) (n_agent_version r) (n_capabilities r) (n_capability_revision r) (n_capability_observed_ns r)
    (n_missing_capabilities r) (n_capability_reason_code r) (n_state r) (n_last_heartbeat_ns r)
    (n_heartbeat_sleep_ns r) (n_max_oneshot_slots r) (n_max_service_slots r)
    (n_authority_generation r) (n_claims_enabled r) (n_automatically_admitted r) (n_intent_revision r) (n_intent_reason r)
    (n_intent_updated_at r) (n_intent_actor r) (n_last_condition r).

Record ServiceRow := mkServiceRow {
  s_desired_state : ServiceDesiredState;
  s_bound_node_id : option string;
  s_restart_streak : Z;
  s_lifetime_restart_count : Z;
  s_lease_loss_count : Z;
  s_next_restart_at : option Z;
  s_published_port : option Z;
  s_last_failure : option failure_doc;
  s_healthy_since_ns : option Z;
  s_published_attempt_id : option string;
  s_display_endpoint : option string;
  s_policy_stop : option ProcessResult
}.
#[export] Instance ServiceRow_eta : Eta ServiceRow := fun r =>
  mkServiceRow (s_desired_state r) (s_bound_node_id r) (s_restart_streak r)
    (s_lifetime_restart_count r) (s_lease_loss_count r) (s_next_restart_at r)
    (s_published_port r) (s_last_failure r) (s_healthy_since_ns r) (s_published_attempt_id r)
    (s_display_endpoint r) (s_policy_stop r).

Record ComputerRow := mkComputerRow {
  c_placement_node_id : string;
  c_bound_node_id : option string;
  c_storage_id : string;
  c_storage_generation : Z;
  c_desired_disk_bytes : Z;
  c_desired_state : ServiceDesiredState;
  c_intent_revision : Z;
  c_current_job_id : string;
  c_reconfiguration_phase : string;
  c_submit_enabled : bool;
  c_submit_intent_revision : Z;
  c_submit_max_inflight : Z;
  c_submit_policy_revision : Z;
  c_seat_limit : Z;
  c_idle_action : string;
  c_network : string;
  c_seat_request_made : bool;
  c_updated_ns : Z
}.
#[export] Instance ComputerRow_eta : Eta ComputerRow := fun r =>
  mkComputerRow (c_placement_node_id r) (c_bound_node_id r) (c_storage_id r)
    (c_storage_generation r) (c_desired_disk_bytes r) (c_desired_state r) (c_intent_revision r)
    (c_current_job_id r) (c_reconfiguration_phase r) (c_submit_enabled r)
    (c_submit_intent_revision r) (c_submit_max_inflight r) (c_submit_policy_revision r)
    (c_seat_limit r) (c_idle_action r) (c_network r) (c_seat_request_made r) (c_updated_ns r).

(** [computer_job_projections], keyed by the unique [job_id]. *)
Record ProjectionRow := mkProjectionRow {
  p_computer_id : string;
  p_spec_revision : Z;
  p_current : bool;
  p_chown : bool
}.
#[export] Instance ProjectionRow_eta : Eta ProjectionRow := fun r =>
  mkProjectionRow (p_computer_id r) (p_spec_revision r) (p_current r) (p_chown r).

Record StorageGenerationRow := mkStorageGenerationRow {
  sg_computer_id : string;
  sg_generation : Z;
  sg_phase : string
}.

Record RestartRequestRow := mkRestartRequestRow {
  rr_job_id : string;
  rr_idempotency_key : string;
  rr_request_hash : string;
  rr_created_ns : Z
}.

Record CredentialRow := mkCredentialRow {
  cred_attempt_id : string;
  cred_job_id : string;
  cred_node_id : string;
  cred_originating_submitter : string;
  cred_spawn_depth : Z;
  cred_created_ns : Z
}.

(** [node_generations]. *)
Record GenerationRow := mkGenerationRow {
  g_node_id : string;
  g_generation_id : string;
  g_boot_session_id : string;
  g_authority_generation : Z;
  g_role : string;
  g_registration : NodeRegistration;
  g_protocols : list Z;
  g_selected_protocol : Z;
  g_promotion_operation_id : string;
  g_created_ns : Z;
  g_heartbeat_ns : Z;
  g_retiring_ns : option Z;
  g_closed_ns : option Z
}.
#[export] Instance GenerationRow_eta : Eta GenerationRow := fun r =>
  mkGenerationRow (g_node_id r) (g_generation_id r) (g_boot_session_id r) (g_authority_generation r) (g_role r)
    (g_registration r) (g_protocols r) (g_selected_protocol r) (g_promotion_operation_id r) (g_created_ns r)
    (g_heartbeat_ns r) (g_retiring_ns r) (g_closed_ns r).

(** [json_extract(registration_json, '$.system_boot_id')], empty when absent. *)
Definition g_system_boot_id (g : GenerationRow) : string := reg_SystemBootID (g_registration g).

Record ResidentRow := mkResidentRow {
  r_node_id : string;
  r_generation_id : string;
  r_attempt_id : string;
  r_job_id : string;
  r_boot_session_id : string;
  r_authority_generation : Z;
  r_fencing_token : string
}.

(** The columns of [service_tombstones] that submission and cancellation read. *)
Record TombstoneRow := mkTombstoneRow {
  tb_dispatch_key_hash : string;
  tb_request_hash : string;
  tb_originating_submitter : string;
  tb_parent_job_id : string
}.

Record OwedRevocationRow := mkOwedRevocationRow {
  or_computer_id : string;
  or_host_node_id : string;
  or_verb : string;
  or_reason : string;
  or_scope : string;
  or_attempt_id : string;
  or_recorded_attempt_ids : list string;
  or_created_ns : Z;
  or_settlement : string;
  or_settled_ns : option Z
}.
#[export] Instance OwedRevocationRow_eta : Eta OwedRevocationRow := fun r =>
  mkOwedRevocationRow (or_computer_id r) (or_host_node_id r) (or_verb r) (or_reason r)
    (or_scope r) (or_attempt_id r) (or_recorded_attempt_ids r) (or_created_ns r)
    (or_settlement r) (or_settled_ns r).

(** Calls into the Seat component made inside a transaction; its tables are not
    part of this model. *)
Inductive seat_call :=
| EndComputerSeats (computer attempt reason : string) (now : Z)
| CleanComputerSeatAttempt (computer attempt : string) (now : Z)
| ReleaseAbsentComputerAttemptRoom (computer attempt : string)
| AdmitSeatRun (jobID : string) (trusted : bool) (now : Z)
| RefuseLostSeatDialogs (node boot : string) (now : Z)
| ArmIdleNodeSeatDeadlines (node : string).

(** [l_event] is the stored document, without its payload. *)
Record LogRow := mkLogRow {
  l_ordinal : Z;
  l_job_id : string;
  l_attempt_id : string;
  l_stream : string;
  l_sequence : Z;
  l_sequence_end : Z;
  l_timestamp_ns : Z;
  l_bytes : string;
  l_event : LogEvent
}.

Record TruncationRow := mkTruncationRow {
  t_bound_kind : string;
  t_evicted_event_count : Z;
  t_evicted_byte_count : Z;
  t_evicted_through_ordinal : Z;
  t_earliest_retained_ns : option Z;
  t_updated_ns : Z
}.
#[export] Instance TruncationRow_eta : Eta TruncationRow := fun r =>
  mkTruncationRow (t_bound_kind r) (t_evicted_event_count r) (t_evicted_byte_count r)
    (t_evicted_through_ordinal r) (t_earliest_retained_ns r) (t_updated_ns r).

Record SleepClockRow := mkSleepClockRow {
  sc_boot_id : string;
  sc_offset_lo_ns : Z;
  sc_offset_hi_ns : Z
}.

(** The database.  [log_events] is kept in insertion order. *)
Record DB := mkDB {
  db_jobs : gmap string JobRow;
  db_attempts : gmap string AttemptRow;
  db_nodes : gmap string NodeRow;
  db_service_jobs : gmap string ServiceRow;
  db_job_tags : gmap string (gset string);
  db_job_required_capabilities : gmap string (gset string);
  db_node_tags : gmap string (gset string);
  db_computers : gmap string ComputerRow;
  db_projections : gmap string ProjectionRow;
  db_storage_generations : list StorageGenerationRow;
  db_restart_requests : list RestartRequestRow;
  db_credentials : gmap string CredentialRow;
  db_generation_catalog : gmap string Z;
  db_generations : list GenerationRow;
  db_residents : list ResidentRow;
  db_generation_operations : gmap (string * string) (generation_operation * operation_outcome);
  db_service_removals : gset string;
  db_service_tombstones : gmap string TombstoneRow;
  db_owed_revocations : list OwedRevocationRow;
  db_seat_calls : list seat_call;
  db_log_events : list LogRow;
  db_next_ordinal : Z;
  db_log_continuity : gmap (string * string) Z;
  db_log_usage : gmap string Z;
  db_log_usage_total : Z;
  db_log_truncations : gmap string TruncationRow;
  db_lease_sleep_clock : option SleepClockRow;
  db_scrub_generation : Z
}.
#[export] Instance DB_eta : Eta DB := fun r =>
  mkDB (db_jobs r) (db_attempts r) (db_nodes r) (db_service_jobs r) (db_job_tags r)
    (db_job_required_capabilities r) (db_node_tags r) (db_computers r) (db_projections r)
    (db_storage_generations r) (db_restart_requests r) (db_credentials r)
    (db_generation_catalog r) (db_generations r) (db_residents r) (db_generation_operations r)
    (db_service_removals r)
    (db_service_tombstones r) (db_owed_revocations r) (db_seat_calls r) (db_log_events r)
    (db_next_ordinal r) (db_log_continuity r) (db_log_usage r) (db_log_usage_total r)
    (db_log_truncations r) (db_lease_sleep_clock r) (db_scrub_generation r).

(** ** Statements *)
Definition active_attempt (s : AttemptState) : bool :=
  bool_decide (s = AttemptClaimed) || bool_decide (s = AttemptRunning) || bool_decide (s = AttemptAwaitingInput).

(** [UPDATE t SET ... WHERE key=?], a no-op when the row is absent. *)
Definition exec_job (id : string) (f : JobRow -> JobRow) (db : DB) : DB :=
  db <| db_jobs := alter f id (db_jobs db) |>.
Definition exec_attempt (id : string) (f : AttemptRow -> AttemptRow) (db : DB) : DB :=
  db <| db_attempts := alter f id (db_attempts db) |>.
Definition exec_node (id : string) (f : NodeRow -> NodeRow) (db : DB) : DB :=
  db <| db_nodes := alter f id (db_nodes db) |>.
Definition exec_service (id : string) (f : ServiceRow -> ServiceRow) (db : DB) : DB :=
  db <| db_service_jobs := alter f id (db_service_jobs db) |>.

(** [scrubbedOneShotSpecSQL] on the decoded specification. *)
Definition scrub_spec (spec : JobSpec) : JobSpec :=
  let e := js_Execution spec in
  spec <| js_Execution := e <| exec_SensitiveEnv := ∅ |>
                            <| exec_Executable := (exec_Executable e) <| ex_InlineBase64 := "" |> |> |>
       <| js_Labels := delete LabelRunParams (js_Labels spec) |>.

(** The guard of [jobs_scrub_terminal_one_shot_secrets]. *)
Definition scrub_due (j : JobRow) : bool :=
  (bool_decide (j_state j = JobSucceeded) || bool_decide (j_state j = JobFailed))
  && bool_decide (j_secrets_scrubbed_ns j = None)
  && bool_decide (js_Class (j_spec j) = JobClassOneShot).

Definition scrub_row (j : JobRow) : JobRow :=
  if scrub_due j
  then j <| j_spec := scrub_spec (j_spec j) |> <| j_secrets_scrubbed_ns := Some (j_updated_ns j) |>
  else j.

(** An update of one job that sets its state, with the trigger. *)
Definition exec_job_state (id : string) (f : JobRow -> JobRow) (db : DB) : DB :=
  match db_jobs db !! id with
  | None => db
  | Some j =>
      let db := db <| db_jobs := <[id := scrub_row (f j)]> (db_jobs db) |> in
      if scrub_due (f j) then db <| db_scrub_generation := db_scrub_generation db + 1 |> else db
  end.

(** ** Sample rows for the witnesses *)
Definition empty_db : DB :=
  mkDB ∅ ∅ ∅ ∅ ∅ ∅ ∅ ∅ ∅ [] [] ∅ ∅ [] [] ∅ ∅ ∅ [] [] [] 1 ∅ ∅ 0 ∅ None 0.

Definition sample_job (spec : JobSpec) (state : JobState) (current : option string) (fence : Z) : JobRow :=
  mkJobRow (js_DispatchKey spec) "hash" spec state "" None current None fence 0 None None None None None
    None None "client" false 0 "" None "" 0 None None None None None 100 100.

Definition sample_attempt (job node boot : string) (state : AttemptState) (token : string) (expires : Z) : AttemptRow :=
  mkAttemptRow job node boot state token expires "host-boot" expires 1 None None None None None None None None None
    None None None None None None false None 100 100.

Definition sample_node (identity boot : string) : NodeRow :=
  mkNodeRow identity boot "" "root" "linux" "amd64" "1.0" {[ "kind:process" := true ]} 1 0 [] "" NodeAlive 1000 0 4 2 1 true false
    0 "" None "" None.

Definition sample_service (bound : option string) : ServiceRow :=
  mkServiceRow ServiceDesiredRunning bound 0 0 0 None None None None None None None.

(** A node [n1] that runs attempt [a1] of [j1], with [j2] waiting and the
    credential of [a1] stored under its digest. *)
Definition sample_db : DB :=
  empty_db
    <| db_jobs := {[ "j1" := sample_job example_process_stored JobRunning (Some "a1") 1;
                     "j2" := sample_job (example_process_stored <| js_DispatchKey := "second" |>) JobQueued None 0 ]} |>
    <| db_attempts := {[ "a1" := sample_attempt "j1" "n1" "b1" AttemptRunning "1" 900 ]} |>
    <| db_nodes := {[ "n1" := sample_node "id1" "b1" ]} |>
    <| db_credentials := {[ "digest" := mkCredentialRow "a1" "j1" "n1" "client" 0 100 ]} |>.
