(* ===== verification/LeaseClock.v ===== *)
(** * Attempt leases and the host clock

    [l1/attempt_time.go] and [l1/lease_sleep.go].  A transaction pins a wall
    timestamp and one sample of the host's boot-relative clock.  A lease is
    compared with the boot-relative clock when both belong to the same boot and
    with the wall clock otherwise; time the host spent asleep is credited to
    every active lease, in the transaction that notices it. *)
From S2P Require Import Prelude States Contract GoStrings JobSpec L1Types Database.
#[local] Open Scope string_scope.
#[local] Open Scope list_scope.
#[local] Open Scope Z_scope.

(** ** The pinned clock *)
(** [ac_err]: the sample failed.  [ac_sleepOffset] bounds boot time minus awake time. *)
Record attemptClock := mkattemptClock {
  ac_boot : string;
  ac_ns : Z;
  ac_err : bool;
  ac_sleepOffset : option (Z * Z);
  ac_sleepGap : Z;
  ac_sleepUncertainty : Z
}.
#[export] Instance attemptClock_eta : Eta attemptClock := fun r =>
  mkattemptClock (ac_boot r) (ac_ns r) (ac_err r) (ac_sleepOffset r) (ac_sleepGap r)
    (ac_sleepUncertainty r).

(** What the pausing clock answered: the platform has none, a read failed, or a
    reading. *)
Inductive awake_reading := AwakeUnavailable | AwakeFailed | AwakeAt (elapsed : Z).

(** [withAttemptClock]: [boot], [ns] and [err] come from the boot clock, read
    between the two readings of the pausing clock (None: not measured). *)
Definition withAttemptClock (boot : string) (ns : Z) (err : bool)
    (readings : option (awake_reading * awake_reading)) : attemptClock :=
  let sample := mkattemptClock boot ns err None 0 0 in
  match readings with
  | None | Some (AwakeUnavailable, _) => sample
  | Some (AwakeAt before, AwakeAt after) =>
      if after <? before then sample <| ac_err := true |>
      else if err then sample
      else sample <| ac_sleepOffset := Some (ns - after, ns - before) |>
  | Some (_, _) => sample <| ac_err := true |>
  end.

Definition withAttemptExpiryClock (clock : attemptClock) : attemptClock :=
  clock <| ac_ns := ac_ns clock - ac_sleepUncertainty clock |>
        <| ac_sleepGap := ac_sleepGap clock + ac_sleepUncertainty clock |>
        <| ac_sleepUncertainty := 0 |>.

Definition sqlBoot (clock : attemptClock) : option string :=
  if ac_err clock then None else Some (ac_boot clock).

Definition leaseWallTime (clock : attemptClock) (now : Z) : Z := now - ac_sleepGap clock.

Definition leaseExpiryWallTime (clock : attemptClock) (now : Z) : Z :=
  now - ac_sleepGap clock - ac_sleepUncertainty clock.

Definition leaseSleepCreditBoot (digest : string -> string) (clock : attemptClock) : string :=
  if ac_err clock || bool_decide (ac_sleepOffset clock = None) then ""
  else if bool_decide (ac_boot clock = "") then "" else digest (ac_boot clock).

(** ** Sleep credit at the start of a transaction *)
Definition credit_attempt (boot : string) (gap : Z) (a : AttemptRow) : AttemptRow :=
  if active_attempt (a_state a) then
    a <| a_lease_deadline_ns :=
           if bool_decide (a_lease_boot_id a = boot) && (0 <? a_lease_deadline_ns a)
           then a_lease_deadline_ns a + gap else a_lease_deadline_ns a |>
      <| a_lease_expires_ns := a_lease_expires_ns a + gap |>
  else a.

Definition credit_node (gap : Z) (n : NodeRow) : NodeRow :=
  match n_state n with
  | NodeAlive | NodeStale | NodeDraining => n <| n_heartbeat_sleep_ns := n_heartbeat_sleep_ns n + gap |>
  | NodeDead => n
  end.

(** The credit and the possible credit a sample proves against the anchor. *)
Definition sleep_gap (anchor : option SleepClockRow) (boot : string) (lower upper : Z) : Z * Z :=
  match anchor with
  | Some row =>
      if bool_decide (sc_boot_id row = boot)
      then (Z.max 0 (lower - sc_offset_hi_ns row), Z.max 0 (upper - sc_offset_lo_ns row))
      else (0, 0)
  | None => (0, 0)
  end.

(** The anchor a write transaction leaves behind. *)
Definition next_anchor (anchor : option SleepClockRow) (boot : string) (lower upper gap : Z) :
    option SleepClockRow :=
  match anchor with
  | Some row =>
      if bool_decide (sc_boot_id row = boot) then
        let tighten := (gap =? 0) && (upper <? sc_offset_hi_ns row) in
        if (0 <? gap) || tighten then
          Some (mkSleepClockRow boot (sc_offset_lo_ns row + gap)
                  (if tighten then Z.min (sc_offset_hi_ns row) upper else sc_offset_hi_ns row + gap))
        else anchor
      else Some (mkSleepClockRow boot lower upper)
  | None => Some (mkSleepClockRow boot lower upper)
  end.

Definition withLeaseSleepGap (write : bool) (sample : attemptClock) (db : DB) : attemptClock * DB :=
  match ac_sleepOffset sample with
  | None => (sample, db)
  | Some (lower, upper) =>
      let '(gap, possible) := sleep_gap (db_lease_sleep_clock db) (ac_boot sample) lower upper in
      let sample := sample <| ac_sleepUncertainty := possible - gap |> in
      if negb write then
        (sample <| ac_ns := ac_ns sample - gap |> <| ac_sleepGap := gap |>, db)
      else
        let db1 :=
          if 0 <? gap then
            db <| db_attempts := credit_attempt (ac_boot sample) gap <$> db_attempts db |>
               <| db_nodes := credit_node gap <$> db_nodes db |>
          else db in
        (sample,
         db1 <| db_lease_sleep_clock :=
                  next_anchor (db_lease_sleep_clock db) (ac_boot sample) lower upper gap |>)
  end.

(** The instant a transaction runs at: its wall timestamp and its raw sample. *)
Record instant := mkinstant {
  at_now : Z;
  at_sample : attemptClock
}.

(** [beginWriteTransaction]: the pinned clock, with the sleep credit applied. *)
Definition beginWriteTransaction {R} (at_ : instant) : tx DB ErrorCode R attemptClock :=
  fun db => let '(clock, db') := withLeaseSleepGap true (at_sample at_) db in Next clock db'.

(** ** The attempt with the authority it is checked against *)
Record attemptAuthority := mkattemptAuthority {
  aa_retiringSessionAuthorized : bool;
  aa_attemptID : string;
  aa_jobID : string;
  aa_nodeID : string;
  aa_identityNodeID : string;
  aa_bootSessionID : string;
  aa_currentBootSessionID : string;
  aa_authorityGeneration : Z;
  aa_currentAuthorityGeneration : Z;
  aa_state : AttemptState;
  aa_fencingToken : string;
  aa_leaseExpires : Z;
  aa_leaseBootID : string;
  aa_leaseDeadlineNS : Z;
  aa_updatedAt : Z;
  aa_currentAttempt : option string;
  aa_completionReplayAttempt : option string;
  aa_completionKey : option string;
  aa_completionHash : option string;
  aa_spec : JobSpec;
  aa_imageObservation : option OCIImageEvidence;
  aa_imageObservationHash : option string;
  aa_jobImageResolutionHash : option string;
  aa_startedNS : option Z
}.
#[export] Instance attemptAuthority_eta : Eta attemptAuthority := fun r =>
  mkattemptAuthority (aa_retiringSessionAuthorized r) (aa_attemptID r) (aa_jobID r)
    (aa_nodeID r) (aa_identityNodeID r) (aa_bootSessionID r) (aa_currentBootSessionID r)
    (aa_authorityGeneration r) (aa_currentAuthorityGeneration r) (aa_state r)
    (aa_fencingToken r) (aa_leaseExpires r) (aa_leaseBootID r) (aa_leaseDeadlineNS r)
    (aa_updatedAt r) (aa_currentAttempt r) (aa_completionReplayAttempt r) (aa_completionKey r)
    (aa_completionHash r) (aa_spec r) (aa_imageObservation r) (aa_imageObservationHash r)
    (aa_jobImageResolutionHash r) (aa_startedNS r).

(** [retiringAttemptAuthoritySQL]: the attempt is a resident of a retiring
    session of its node that runs on the same system boot as the primary. *)
Definition primary_system_boot (db : DB) (node : string) : string :=
  match List.find (fun g => bool_decide (g_node_id g = node) && bool_decide (g_role g = "primary"))
          (db_generations db) with
  | Some g => g_system_boot_id g
  | None => ""
  end.

Definition resident_of (attempt_id : string) (a : AttemptRow) (r : ResidentRow) : bool :=
  bool_decide (r_attempt_id r = attempt_id) && bool_decide (r_node_id r = a_node_id a)
  && bool_decide (r_job_id r = a_job_id a) && bool_decide (r_boot_session_id r = a_boot_session_id a)
  && (r_authority_generation r =? a_authority_generation a)
  && bool_decide (r_fencing_token r = a_fencing_token a).

Definition retiring_session (db : DB) (a : AttemptRow) (r : ResidentRow) (g : GenerationRow) : bool :=
  bool_decide (g_node_id g = r_node_id r) && bool_decide (g_generation_id g = r_generation_id r)
  && bool_decide (g_role g = "retiring") && bool_decide (g_boot_session_id g = a_boot_session_id a)
  && (g_authority_generation g =? a_authority_generation a)
  && bool_decide (g_system_boot_id g = primary_system_boot db (g_node_id g)).

Definition retiringAttemptAuthority (db : DB) (attempt_id : string) (a : AttemptRow) : bool :=
  existsb (fun r => resident_of attempt_id a r && existsb (retiring_session db a r) (db_generations db))
    (db_residents db).

Definition authority_of (db : DB) (id : string) (a : AttemptRow) (j : JobRow) (n : NodeRow) : attemptAuthority :=
  {| aa_retiringSessionAuthorized := retiringAttemptAuthority db id a;
     aa_attemptID := id; aa_jobID := a_job_id a; aa_nodeID := a_node_id a;
     aa_identityNodeID := n_identity_node_id n; aa_bootSessionID := a_boot_session_id a;
     aa_currentBootSessionID := n_boot_session_id n; aa_authorityGeneration := a_authority_generation a;
     aa_currentAuthorityGeneration := n_authority_generation n; aa_state := a_state a;
     aa_fencingToken := a_fencing_token a; aa_leaseExpires := a_lease_expires_ns a;
     aa_leaseBootID := a_lease_boot_id a; aa_leaseDeadlineNS := a_lease_deadline_ns a;
     aa_updatedAt := a_updated_ns a; aa_currentAttempt := j_current_attempt_id j;
     aa_completionReplayAttempt := j_completion_replay_attempt_id j;
     aa_completionKey := a_completion_key a; aa_completionHash := a_completion_hash a;
     aa_spec := j_spec j; aa_imageObservation := a_image_observation a;
     aa_imageObservationHash := a_image_observation_hash a;
     aa_jobImageResolutionHash := j_image_resolution_hash j; aa_startedNS := a_started_ns a |}.

(** The three-way join; a missing row of any table is no row. *)
Definition read_authority (id : string) (db : DB) : option attemptAuthority :=
  match db_attempts db !! id with
  | Some a =>
      match db_jobs db !! a_job_id a, db_nodes db !! a_node_id a with
      | Some j, Some n => Some (authority_of db id a j n)
      | _, _ => None
      end
  | None => None
  end.

Definition readAttemptAuthority {R} (id : string) : tx DB ErrorCode R attemptAuthority :=
  need (read_authority id) ErrorAttemptNotFound.

(** ** Lease liveness *)
Definition same_boot_deadline (clock : attemptClock) (a : attemptAuthority) : bool :=
  negb (bool_decide (ac_boot clock = "")) && bool_decide (aa_leaseBootID a = ac_boot clock)
  && (0 <? aa_leaseDeadlineNS a).

(** [attemptLeaseExpired]; the error arm is the internal error of a failed or
    inconclusive clock sample. *)
Definition attemptLeaseExpired (clock : attemptClock) (now : Z) (a : attemptAuthority) : result ErrorCode bool :=
  let active := active_attempt (aa_state a) in
  if ac_err clock then
    if active then Err ErrorInternal else Ok (negb (now <? aa_leaseExpires a))
  else if same_boot_deadline clock a then
    let expired := aa_leaseDeadlineNS a <=? ac_ns clock in
    if expired && active && (ac_ns clock - ac_sleepUncertainty clock <? aa_leaseDeadlineNS a)
    then Err ErrorInternal else Ok expired
  else
    let comparison := if active then leaseWallTime clock now else now in
    let expired := negb (comparison <? aa_leaseExpires a) in
    if expired && active && (leaseExpiryWallTime clock now <? aa_leaseExpires a)
    then Err ErrorInternal else Ok expired.

Definition attemptLeaseLive (clock : attemptClock) (now : Z) (a : attemptAuthority) : result ErrorCode bool :=
  if active_attempt (aa_state a) then
    let? expired := attemptLeaseExpired clock now a in Ok (negb expired)
  else Ok false.

(** The predicate [attemptLeaseLiveSQL] builds over an attempt row. *)
Definition attemptLeaseLiveSQL (a : AttemptRow) (boot : option string) (elapsed wall : Z) : bool :=
  match boot with
  | None => false
  | Some boot =>
      if negb (bool_decide (a_lease_boot_id a = "")) && bool_decide (a_lease_boot_id a = boot)
         && (0 <? a_lease_deadline_ns a)
      then elapsed <? a_lease_deadline_ns a
      else wall <? a_lease_expires_ns a
  end.

Definition lease_live_row (clock : attemptClock) (now : Z) (a : AttemptRow) : bool :=
  attemptLeaseLiveSQL a (sqlBoot clock) (ac_ns clock) (leaseWallTime clock now).

Definition attemptLeaseDeadline (clock : attemptClock) (now expires : Z) : string * Z :=
  if ac_err clock || bool_decide (ac_boot clock = "") then ("", 0)
  else (ac_boot clock, ac_ns clock + (expires - now)).

(** ** Properties *)

Lemma same_boot_agree clock db id a j n :
  same_boot_deadline clock (authority_of db id a j n) =
  negb (bool_decide (a_lease_boot_id a = "")) && bool_decide (a_lease_boot_id a = ac_boot clock)
    && (0 <? a_lease_deadline_ns a).
Proof.
  unfold same_boot_deadline. cbn.
  destruct (bool_decide_reflect (a_lease_boot_id a = ac_boot clock)) as [->|]; cbn;
    [done | by rewrite !andb_false_r].
Qed.

(** For an active attempt the Go liveness check grants authority in exactly
    the states of the row in which the SQL predicate of the same transaction
    does; a failed or inconclusive clock sample grants nothing in either. *)
Theorem lease_live_go_sql clock now db id a j n :
  active_attempt (a_state a) = true ->
  attemptLeaseLive clock now (authority_of db id a j n) = Ok true <-> lease_live_row clock now a = true.
Proof.
  intros Ha. unfold attemptLeaseLive, lease_live_row, attemptLeaseExpired, attemptLeaseLiveSQL, sqlBoot.
  rewrite same_boot_agree. cbn. rewrite Ha. destruct (ac_err clock); cbn; [done|].
  rewrite !andb_true_r.
  destruct (negb _ && _ && _).
  - destruct (Z.leb_spec (a_lease_deadline_ns a) (ac_ns clock)), (Z.ltb_spec (ac_ns clock) (a_lease_deadline_ns a));
      cbn; try lia; try done. destruct (_ <? _); cbn; split; done.
  - destruct (Z.ltb_spec (leaseWallTime clock now) (a_lease_expires_ns a)); cbn; [done|].
    destruct (_ <? _); cbn; split; done.
Qed.

(** A handler treats the lease of an active attempt as expired exactly when the
    row is not live by the conservative clock of the sweep. *)
Lemma lease_expired_go_sweep clock now db id a j n :
  active_attempt (a_state a) = true -> 0 <= ac_sleepUncertainty clock ->
  attemptLeaseExpired clock now (authority_of db id a j n) = Ok true <->
  ac_err clock = false /\ lease_live_row (withAttemptExpiryClock clock) now a = false.
Proof.
  intros Ha Hu. unfold attemptLeaseExpired, lease_live_row, attemptLeaseLiveSQL, sqlBoot.
  rewrite same_boot_agree. cbn. rewrite Ha. destruct (ac_err clock); cbn; [intuition congruence|].
  unfold leaseWallTime, leaseExpiryWallTime. rewrite !andb_true_r. cbn.
  destruct (negb _ && _ && _).
  - destruct (Z.leb_spec (a_lease_deadline_ns a) (ac_ns clock)),
      (Z.ltb_spec (ac_ns clock - ac_sleepUncertainty clock) (a_lease_deadline_ns a)); cbn; try lia; intuition congruence.
  - destruct (Z.ltb_spec (now - ac_sleepGap clock) (a_lease_expires_ns a)); cbn;
      destruct (Z.ltb_spec (now - ac_sleepGap clock - ac_sleepUncertainty clock) (a_lease_expires_ns a)); cbn;
      destruct (Z.ltb_spec (now - (ac_sleepGap clock + ac_sleepUncertainty clock)) (a_lease_expires_ns a));
      cbn; try lia; intuition congruence.
Qed.

(** The anchor bounds the sleep that deadlines already account for. *)
Definition anchor_bounds (anchor : SleepClockRow) (accounted : Z) : Prop :=
  sc_offset_lo_ns anchor <= accounted <= sc_offset_hi_ns anchor.


(** ** Opening a write transaction *)
Lemma ends_begin {R} at_ Q K (X : result ErrorCode R -> Prop) db :
  Q (withLeaseSleepGap true (at_sample at_) db).1 (withLeaseSleepGap true (at_sample at_) db).2 ->
  ends (beginWriteTransaction at_) Q K X db.
Proof. unfold ends, beginWriteTransaction. by destruct (withLeaseSleepGap true (at_sample at_) db). Qed.

(** It credits leases and heartbeats and touches nothing else. *)
Lemma sleep_gap_frame write sample db :
  exists attempts nodes clock, (withLeaseSleepGap write sample db).2
    = db <| db_attempts := attempts |> <| db_nodes := nodes |> <| db_lease_sleep_clock := clock |>.
Proof.
  assert (Hid : db = db <| db_attempts := db_attempts db |> <| db_nodes := db_nodes db |>
                        <| db_lease_sleep_clock := db_lease_sleep_clock db |>) by by destruct db.
  unfold withLeaseSleepGap. destruct (ac_sleepOffset sample) as [[lower upper]|]; [|eauto].
  destruct (sleep_gap _ _ _ _) as [gap possible]. destruct write; [|eauto]. simpl.
  destruct (0 <? gap); simpl; [eauto|]. exists (db_attempts db), (db_nodes db). eexists. by destruct db.
Qed.

(** Crediting moves the lease of an attempt and the slept time of a node. *)
Lemma sleep_gap_rows write sample db :
  exists credit_a credit_n, db_attempts (withLeaseSleepGap write sample db).2 = credit_a <$> db_attempts db
    /\ db_nodes (withLeaseSleepGap write sample db).2 = credit_n <$> db_nodes db
    /\ (forall a, exists d e, credit_a a = a <| a_lease_deadline_ns := d |> <| a_lease_expires_ns := e |>)
    /\ (forall n, exists s, credit_n n = n <| n_heartbeat_sleep_ns := s |>).
Proof.
  assert (Hid : exists credit_a credit_n, db_attempts db = credit_a <$> db_attempts db
    /\ db_nodes db = credit_n <$> db_nodes db
    /\ (forall a, exists d e, credit_a a = a <| a_lease_deadline_ns := d |> <| a_lease_expires_ns := e |>)
    /\ (forall n, exists s, credit_n n = n <| n_heartbeat_sleep_ns := s |>)).
  { exists id, id. rewrite !map_fmap_id. split_and!; [done..| |].
    - intros a. exists (a_lease_deadline_ns a), (a_lease_expires_ns a). by destruct a.
    - intros n. exists (n_heartbeat_sleep_ns n). by destruct n. }
  unfold withLeaseSleepGap. destruct (ac_sleepOffset sample) as [[lower upper]|]; [|exact Hid].
  destruct (sleep_gap _ _ _ _) as [gap possible]. destruct write; [|exact Hid]. simpl.
  destruct (0 <? gap); simpl; [|exact Hid]. eexists _, _. split_and!; [done..| |].
  - intros a. unfold credit_attempt. case_match; eauto. exists (a_lease_deadline_ns a), (a_lease_expires_ns a). by destruct a.
  - intros n. unfold credit_node. case_match; eauto. exists (n_heartbeat_sleep_ns n). by destruct n.
Qed.

(** It keeps an attempt's identity, state and fence. *)
Lemma sleep_gap_lookup write sample db id a :
  db_attempts db !! id = Some a ->
  exists a', db_attempts (withLeaseSleepGap write sample db).2 !! id = Some a' /\ a_job_id a' = a_job_id a
    /\ a_node_id a' = a_node_id a /\ a_state a' = a_state a /\ a_fencing_token a' = a_fencing_token a.
Proof.
  intros Ha. destruct (sleep_gap_rows write sample db) as (f & _ & -> & _ & Hf & _).
  rewrite lookup_fmap, Ha. eexists. split; [done|]. destruct (Hf a) as (d & e & ->). done.
Qed.

(** ** Witnesses *)
Definition sample_clock (ns uncertainty : Z) : attemptClock :=
  mkattemptClock "host-boot" ns false (Some (0, 0)) 0 uncertainty.

Definition sample_instant (t : Z) : instant := mkinstant t (sample_clock t 0).

Lemma lease_live_go_sql_witness :
  attemptLeaseLive (sample_clock 500 0) 500
    (authority_of empty_db "a1" (sample_attempt "j1" "n1" "b1" AttemptRunning "1" 900)
       (sample_job example_process_stored JobRunning (Some "a1") 1) (sample_node "id1" "b1")) = Ok true.
Proof.
  apply (lease_live_go_sql (sample_clock 500 0) 500 empty_db "a1"
           (sample_attempt "j1" "n1" "b1" AttemptRunning "1" 900)); vm_compute; reflexivity.
Defined.

