(* ===== verification/Authority.v ===== *)
(** * Attempt authority, health, and settlement

    [l1/attempt_authority.go], the restart decisions of
    [l1/oneshot_restart.go], [cancellationDeadline] of [l1/cancel.go] and the
    settlement of a lost lease, [expireAttempt], of [l1/store.go].  Reads of rows
    that the caller has just joined cannot fail and are plain lookups here. *)
From S2P Require Import Prelude States Contract GoStrings JobSpec L1Types RestartPolicy Database LeaseClock.
#[local] Open Scope string_scope.
#[local] Open Scope list_scope.
#[local] Open Scope Z_scope.

(** ** Who may act for an attempt *)
Definition validateAttemptAuthority (identityNodeID jobID attemptID fencingToken : string)
    (a : attemptAuthority) : result ErrorCode unit :=
  if negb (bool_decide (aa_identityNodeID a = identityNodeID)) then Err ErrorAttemptNotOwned
  else if negb (bool_decide (aa_jobID a = jobID)) || negb (bool_decide (aa_attemptID a = attemptID))
  then Err ErrorAttemptMismatch
  else if negb (bool_decide (aa_currentAttempt a = Some attemptID)) then Err ErrorAttemptMismatch
  else if negb (bool_decide (aa_fencingToken a = fencingToken)) then Err ErrorStaleFence
  else if negb (aa_retiringSessionAuthorized a)
          && (negb (bool_decide (aa_bootSessionID a = aa_currentBootSessionID a))
              || negb (aa_authorityGeneration a =? aa_currentAuthorityGeneration a))
  then Err ErrorNodeSessionReplaced
  else Ok tt.

Definition validateAttemptEvidence (identityNodeID jobID attemptID fencingToken : string)
    (a : attemptAuthority) : result ErrorCode unit :=
  if negb (bool_decide (aa_identityNodeID a = identityNodeID)) then Err ErrorAttemptNotOwned
  else if negb (bool_decide (aa_jobID a = jobID)) || negb (bool_decide (aa_attemptID a = attemptID))
  then Err ErrorAttemptMismatch
  else if negb (bool_decide (aa_fencingToken a = fencingToken)) then Err ErrorStaleFence
  else Ok tt.

Definition validateCompletionReplayBinding (attemptID : string) (a : attemptAuthority) : result ErrorCode unit :=
  if bool_decide (aa_state a = AttemptInterrupted) && js_Restartable (aa_spec a)
     && bool_decide (is_Some (aa_completionKey a)) then Ok tt
  else match aa_currentAttempt a with
  | Some current => if bool_decide (current = attemptID) then Ok tt else Err ErrorAttemptMismatch
  | None =>
      if bool_decide (aa_completionReplayAttempt a = Some attemptID) then Ok tt
      else Err ErrorAttemptMismatch
  end.

(** ** Cancellation intent *)
Definition OutcomeCanceled : string := "canceled".
Definition CancelSettlementTimeout : Z := 30 * second.

(** The canceled flag and the settlement deadline; a null deadline is time 0. *)
Definition cancellationDeadline (j : JobRow) : bool * Z :=
  (bool_decide (j_outcome j = OutcomeCanceled), default 0 (j_cancel_settle_by_ns j)).

(** [cancellationDeadline] of a job the caller has read. *)
Definition read_cancellation {R} (jobID : string) : tx DB ErrorCode R (bool * Z) :=
  need (fun db => cancellationDeadline <$> db_jobs db !! jobID) ErrorInternal.

(** ** Lifecycle intent delivered to the payload *)
Definition restart_requested (db : DB) (jobID : string) (a : AttemptRow) : bool :=
  existsb (fun rr => bool_decide (rr_job_id rr = jobID) && (a_created_ns a <=? rr_created_ns rr))
    (db_restart_requests db).

Definition readAttemptDirective (db : DB) (jobID attemptID : string) : string :=
  match db_jobs db !! jobID, db_attempts db !! attemptID with
  | Some j, Some a =>
      if (cancellationDeadline j).1 then AttemptDirectiveCancel
      else if bool_decide (is_Some (a_interruption_request_key a)) then AttemptDirectiveRestart
      else match db_service_jobs db !! jobID with
      | None => ""
      | Some s =>
          if bool_decide (s_desired_state s = ServiceDesiredStopped) then AttemptDirectiveStop
          else if bool_decide (s_desired_state s = ServiceDesiredRunning) && restart_requested db jobID a
          then AttemptDirectiveRestart
          else ""
      end
  | _, _ => ""
  end.

(** ** Health *)
Inductive healthCause := healthFromStarted | healthFromRenewal | healthFromLogs | healthFromPublication.

(** The [WHERE] of the health update. *)
Definition health_holds (clock : attemptClock) (now : Z) (attemptID jobID : string) (s : ServiceRow) (db : DB) :
    bool :=
  bool_decide (s_healthy_since_ns s = None) &&
  match db_jobs db !! jobID, db_attempts db !! attemptID with
  | Some j, Some a =>
      bool_decide (j_current_attempt_id j = Some attemptID) && active_attempt (a_state a)
      && lease_live_row clock now a
      && negb (bool_decide (j_outcome j = OutcomeCanceled))
      && ((bool_decide (s_published_port s = None) && bool_decide (db_projections db !! jobID = None))
          || bool_decide (s_published_attempt_id s = j_current_attempt_id j))
      && bool_decide (s_bound_node_id s = Some (a_node_id a))
      && match db_nodes db !! a_node_id a with
         | Some n => bool_decide (n_state n = NodeAlive)
                     && bool_decide (a_boot_session_id a = n_boot_session_id n)
                     && (a_authority_generation a =? n_authority_generation n)
         | None => false
         end
  | _, _ => false
  end.

(** Whether a cause can establish health for an attempt of this kind. *)
Definition health_cause_applies (cause : healthCause) (kind : string) (startedNS : option Z) : bool :=
  match cause with
  | healthFromRenewal => negb (bool_decide (kind = JobKindOCI) && bool_decide (startedNS = None))
  | healthFromLogs => negb (bool_decide (kind = JobKindOCI))
  | healthFromStarted | healthFromPublication => true
  end.

Definition establishHealth (clock : attemptClock) (now : Z) (attemptID : string) (cause : healthCause) (db : DB) : DB :=
  match db_attempts db !! attemptID with
  | None => db
  | Some a =>
      match db_jobs db !! a_job_id a with
      | None => db
      | Some j =>
          if health_cause_applies cause (js_Kind (j_spec j)) (a_started_ns a) then
            exec_service (a_job_id a)
              (fun s => if health_holds clock now attemptID (a_job_id a) s db
                        then s <| s_healthy_since_ns := Some now |> else s) db
          else db
      end
  end.

Definition promoteExecution (now : Z) (attemptID : string) (db : DB) : DB :=
  match db_attempts db !! attemptID with
  | None => db
  | Some a =>
      match db_jobs db !! a_job_id a with
      | Some j =>
          if bool_decide (j_current_attempt_id j = Some attemptID) && bool_decide (j_state j = JobClaimed)
          then exec_job_state (a_job_id a) (fun j => j <| j_state := JobRunning |> <| j_updated_ns := now |>) db
          else db
      | None => db
      end
  end.

(** [serviceHealthLost]: a healthy service whose current attempt's node is no
    longer recorded alive with that attempt's registration. *)
Definition serviceHealthLost (db : DB) (jobID : string) (s : ServiceRow) : bool :=
  bool_decide (is_Some (s_healthy_since_ns s)) &&
  match db_jobs db !! jobID ≫= j_current_attempt_id with
  | Some attemptID =>
      match db_attempts db !! attemptID with
      | Some a =>
          bool_decide (s_bound_node_id s = Some (a_node_id a)) &&
          match db_nodes db !! a_node_id a with
          | Some n => negb (bool_decide (n_state n = NodeAlive))
                      || negb (bool_decide (a_boot_session_id a = n_boot_session_id n))
                      || negb (a_authority_generation a =? n_authority_generation n)
          | None => false
          end
      | None => false
      end
  | None => false
  end.

Definition interruptEveryServiceStability (db : DB) : DB :=
  db <| db_service_jobs :=
       map_imap (fun id s => Some (if serviceHealthLost db id s then s <| s_healthy_since_ns := None |> else s))
         (db_service_jobs db) |>.

(** [interruptNodeServiceStabilitySQL] for one node. *)
Definition interruptNodeServiceStability (nodeID : string) (db : DB) : DB :=
  db <| db_service_jobs :=
       map_imap (fun id s => Some (if bool_decide (s_bound_node_id s = Some nodeID) && serviceHealthLost db id s
                                   then s <| s_healthy_since_ns := None |> else s))
         (db_service_jobs db) |>.

(** ** The bounded stability pass *)
Record nodeLivenessKey := mknodeLivenessKey {
  nlk_state : NodeState;
  nlk_bootSessionID : string;
  nlk_authorityGeneration : Z
}.
#[export] Instance nodeLivenessKey_eq_dec : EqDecision nodeLivenessKey.
Proof. solve_decision. Defined.

Definition readNodeLivenessKeys (db : DB) : gmap string nodeLivenessKey :=
  (fun n => mknodeLivenessKey (n_state n) (n_boot_session_id n) (n_authority_generation n)) <$> db_nodes db.

(** A node whose services the pass must read: not alive, new, or changed. *)
Definition node_to_visit (seen : gmap string nodeLivenessKey) (nodeID : string) (key : nodeLivenessKey) : bool :=
  negb (bool_decide (nlk_state key = NodeAlive)) || negb (bool_decide (seen !! nodeID = Some key)).

(** The order of the visits does not matter for the result; the code sorts the
    identifiers, here they come in map order. *)
Definition interruptServiceStability (seen : option (gmap string nodeLivenessKey)) (db : DB) :
    DB * gmap string nodeLivenessKey :=
  let current := readNodeLivenessKeys db in
  match seen with
  | None => (interruptEveryServiceStability db, current)
  | Some seen =>
      let nodeIDs := (List.filter (fun p => node_to_visit seen p.1 p.2) (map_to_list current)).*1 in
      (fold_left (fun db nodeID => interruptNodeServiceStability nodeID db) nodeIDs db, current)
  end.

(** The [WHERE] of [serviceStabilityResetSQL]. *)
Definition stability_due (clock : attemptClock) (now window : Z) (db : DB) (jobID : string) (s : ServiceRow) : bool :=
  (0 <? s_restart_streak s) && bool_decide (s_desired_state s = ServiceDesiredRunning)
  && match s_healthy_since_ns s with Some h => h <=? now - window | None => false end
  && match db_jobs db !! jobID with
     | Some j =>
         bool_decide (j_state j = JobRunning) &&
         match j_current_attempt_id j ≫= (fun id => db_attempts db !! id) with
         | Some a =>
             bool_decide (a_state a = AttemptRunning) && lease_live_row clock now a
             && bool_decide (s_bound_node_id s = Some (a_node_id a))
             && match db_nodes db !! a_node_id a with
                | Some n => bool_decide (n_state n = NodeAlive)
                            && bool_decide (a_boot_session_id a = n_boot_session_id n)
                            && (a_authority_generation a =? n_authority_generation n)
                | None => false
                end
         | None => false
         end
     | None => false
     end.

Definition reconcileServiceStability (clock : attemptClock) (now window : Z) (db : DB) : DB :=
  db <| db_service_jobs :=
       map_imap (fun id s => Some (if stability_due clock now window db id s then s <| s_restart_streak := 0 |> else s))
         (db_service_jobs db) |>.

(** ** Detaching and invalidating attempts *)
Inductive detachCause :=
| detachQueuedComputerStop | detachComputerAbort | detachImageLatch
| detachCompletion (completedAttemptID : string)
| detachStorageDestination | detachOneshotRecovery.

Definition detachAttempt (jobID : string) (cause : detachCause) (db : DB) : DB :=
  exec_job jobID (fun j =>
    let j' := j <| j_current_attempt_id := None |> in
    match cause with
    | detachQueuedComputerStop | detachComputerAbort | detachImageLatch =>
        j' <| j_completion_replay_attempt_id :=
               match j_current_attempt_id j with
               | Some id => Some id
               | None => j_completion_replay_attempt_id j
               end |>
    | detachCompletion id => j' <| j_completion_replay_attempt_id := Some id |>
    | detachStorageDestination | detachOneshotRecovery => j'
    end) db.

Inductive invalidationCause :=
| invalidateComputerAbort | invalidateComputerRemoval | invalidateServiceRemoval
| invalidateImageLatch | invalidateLeaseSettlement.

(** The attempts a cause selects, before the active-state condition. *)
Definition invalidation_target (db : DB) (targetID : string) (cause : invalidationCause) (id : string) (a : AttemptRow) :
    bool :=
  match cause with
  | invalidateComputerAbort | invalidateServiceRemoval => bool_decide (a_job_id a = targetID)
  | invalidateComputerRemoval =>
      bool_decide (p_computer_id <$> db_projections db !! a_job_id a = Some targetID)
  | invalidateImageLatch => bool_decide (db_jobs db !! targetID ≫= j_current_attempt_id = Some id)
  | invalidateLeaseSettlement => bool_decide (id = targetID)
  end.

Definition lose_attempt (clock : attemptClock) (now : Z) (cause : invalidationCause) (a : AttemptRow) : AttemptRow :=
  let lost := a <| a_state := AttemptLost |> <| a_updated_ns := now |> in
  match cause with
  | invalidateLeaseSettlement => lost
  | _ =>
      let capped := lost <| a_lease_expires_ns := Z.min (a_lease_expires_ns a) now |> in
      if ac_err clock then capped <| a_lease_boot_id := "" |> <| a_lease_deadline_ns := 0 |>
      else capped <| a_lease_deadline_ns :=
                      if bool_decide (a_lease_boot_id a = ac_boot clock) && (0 <? a_lease_deadline_ns a)
                      then Z.min (a_lease_deadline_ns a) (ac_ns clock) else ac_ns clock |>
                  <| a_lease_boot_id := ac_boot clock |>
  end.

Definition invalidateAttempts (clock : attemptClock) (now : Z) (targetID : string) (cause : invalidationCause)
    (db : DB) : DB :=
  db <| db_attempts :=
       map_imap (fun id a => Some (if invalidation_target db targetID cause id a && active_attempt (a_state a)
                                   then lose_attempt clock now cause a else a))
         (db_attempts db) |>.

(** ** One-shot recovery *)
Definition recoverOneshot (jitter : Z -> Z) (now : Z) (attempt : attemptAuthority) (reason : string) (db : DB) :
    JobState * DB :=
  let count := match db_jobs db !! aa_jobID attempt with Some j => j_restart_count j | None => 0 end in
  let '(state, next, terminal) :=
    if MaximumOneshotRestarts <=? count then (JobFailed, None, Some RestartLimitReached)
    else if bool_decide (reason = InterruptionLeaseExpired)
    then (JobQueued, Some (now + oneshotRestartDelay (count + 1) (Some jitter)), None)
    else (JobQueued, Some now, None) in
  (state,
   exec_job (aa_jobID attempt) (fun j =>
     j <| j_next_restart_at_ns := next |> <| j_restart_terminal_reason := terminal |>
       <| j_restart_last_reason := Some reason |>
       <| j_restart_previous_attempt_id := Some (aa_attemptID attempt) |>) db).

Definition restartable_process_oneshot (spec : JobSpec) : bool :=
  js_Restartable spec && bool_decide (js_Kind spec = JobKindProcess)
  && bool_decide (js_Class spec = JobClassOneShot).

Definition initiated_by_agent (request : CompletionRequest) : bool :=
  let by_agent c := bool_decide (c = TerminationCauseAgent) || bool_decide (c = TerminationCauseGuardian) in
  by_agent (cr_TerminationInitiator request) || by_agent (pr_TerminationCause (cr_Result request)).

(** The accepted interruption reason, or "" for an ordinary verdict. *)
Definition classifyOneshotInterruption (db : DB) (attempt : attemptAuthority) (request : CompletionRequest) :
    result ErrorCode string :=
  let reason := cr_InterruptionReason request in
  let key := cr_InterruptionRequestKey request in
  if bool_decide (reason = "") then
    if bool_decide (key = "") then Ok "" else Err ErrorInvalidRequest
  else if negb (restartable_process_oneshot (aa_spec attempt)) then Err ErrorInvalidRequest
  else
    let? _ :=
      if bool_decide (reason = InterruptionUpgrade) then
        match db_attempts db !! aa_attemptID attempt with
        | Some a =>
            if bool_decide (a_interruption_request_key a = Some key)
               && bool_decide (default "" (a_interruption_request_reason a) = reason)
            then Ok tt else Err ErrorConflict
        | None => Err ErrorInternal
        end
      else if bool_decide (reason = InterruptionAgentShutdown) then
        if bool_decide (key = "") then Ok tt else Err ErrorInvalidRequest
      else Err ErrorInvalidRequest in
    let r := cr_Result request in
    if negb (initiated_by_agent request) || negb (bool_decide (pr_LimitReached r = ""))
       || bool_decide (is_Some (pr_SpawnError r)) || bool_decide (is_Some (pr_RuntimeFailure r))
       || pr_OOM r || pr_DiskExhausted r then Ok ""
    else if bool_decide (cr_RuntimeQuiescenceEvidence request ∈ [RuntimeQuiescenceAttempt; RuntimeQuiescenceNoRuntime])
    then Ok reason
    else Err ErrorInvalidRequest.

(** ** Settlement of a lost lease *)

(** The state an expired attempt leaves its job in, before one-shot recovery. *)
Definition expiry_state (db : DB) (attempt : attemptAuthority) (j : JobRow) (desired : option ServiceDesiredState) :
    JobState :=
  if negb (cancellationDeadline j).1 && bool_decide (desired = Some ServiceDesiredRunning)
     && (bool_decide (j_state j = JobClaimed) || bool_decide (j_state j = JobRunning))
     && (negb (bool_decide (js_Restart (aa_spec attempt) = RestartNever))
         || bool_decide (aa_startedNS attempt = None)
         || bool_decide (readAttemptDirective db (aa_jobID attempt) (aa_attemptID attempt) = AttemptDirectiveRestart))
  then JobQueued else JobFailed.

Definition expire_service (jitter : Z -> Z) (now : Z) (queued : bool) (s : ServiceRow) : ServiceRow :=
  s <| s_lease_loss_count := s_lease_loss_count s + 1 |>
    <| s_next_restart_at :=
         if queued then Some (now + prestartRetryDelay (s_lease_loss_count s + 1) jitter) else None |>
    <| s_healthy_since_ns := None |> <| s_published_attempt_id := None |>.

(** The settlement of the job of an attempt just marked lost. *)
Definition settle_expired (jitter : Z -> Z) (now : Z) (attempt : attemptAuthority) (j : JobRow) (db : DB) : DB :=
  let id := aa_attemptID attempt in
  let jobID := aa_jobID attempt in
  let desired := s_desired_state <$> db_service_jobs db !! jobID in
  let '(nextState, db) :=
    if negb (cancellationDeadline j).1 && js_Restartable (aa_spec attempt) && bool_decide (desired = None) then
      let '(state, db) := recoverOneshot jitter now attempt InterruptionLeaseExpired db in
      (state, exec_attempt id (fun a => a <| a_interruption_reason := Some InterruptionLeaseExpired |>) db)
    else (expiry_state db attempt j desired, db) in
  let db := exec_job_state jobID (fun j => j <| j_state := nextState |> <| j_updated_ns := now |>) db in
  let queued := bool_decide (nextState = JobQueued) in
  let db := if js_Restartable (aa_spec attempt) && queued then detachAttempt jobID detachOneshotRecovery db else db in
  if bool_decide (is_Some desired) then exec_service jobID (expire_service jitter now queued) db else db.

Definition expireAttempt (clock : attemptClock) (jitter : Z -> Z) (now : Z) (attempt : attemptAuthority) (db : DB) : DB :=
  let id := aa_attemptID attempt in
  match db_attempts db !! id with
  | Some a =>
      if active_attempt (a_state a) then
        let db := invalidateAttempts clock now id invalidateLeaseSettlement db in
        match db_jobs db !! aa_jobID attempt with
        | Some j => if bool_decide (j_current_attempt_id j = Some id) then settle_expired jitter now attempt j db else db
        | None => db
        end
      else db
  | None => db
  end.
