(* ===== verification/Credentials.v ===== *)
(** * Attempt credentials

    [l1/attempt_credential.go]: the bearer a workload holds.  Only its digest is
    stored; every use reads the live attempt.  The digest function is an
    argument. *)
From S2P Require Import Prelude States Contract GoStrings JobSpec L1Types RestartPolicy Database LeaseClock.
From S2P Require Import Authority.
#[local] Open Scope string_scope.
#[local] Open Scope list_scope.
#[local] Open Scope Z_scope.

Record AttemptCredentialScope := mkAttemptCredentialScope {
  acs_AttemptID : string;
  acs_JobID : string;
  acs_NodeID : string;
  acs_OriginatingSubmitter : string;
  acs_SpawnDepth : Z;
  acs_IdentityNodeID : string
}.

Definition validateAttemptCredentialAuthority (clock : attemptClock) (now : Z) (identityNodeID : string)
    (scope : AttemptCredentialScope) (a : attemptAuthority) : result ErrorCode unit :=
  if negb (bool_decide (aa_identityNodeID a = identityNodeID)) then Err ErrorForbidden
  else if negb (bool_decide (aa_jobID a = acs_JobID scope))
          || negb (bool_decide (aa_attemptID a = acs_AttemptID scope)) then Err ErrorUnauthorized
  else if negb (bool_decide (aa_currentAttempt a = Some (acs_AttemptID scope))) then Err ErrorUnauthorized
  else if negb (aa_retiringSessionAuthorized a)
          && (negb (bool_decide (aa_bootSessionID a = aa_currentBootSessionID a))
              || negb (aa_authorityGeneration a =? aa_currentAuthorityGeneration a))
  then Err ErrorUnauthorized
  else if negb (active_attempt (aa_state a)) then Err ErrorUnauthorized
  else let? expired := attemptLeaseExpired clock now a in
       if expired then Err ErrorUnauthorized else Ok tt.

Definition revalidateAttemptCredential (clock : attemptClock) (now : Z) (scope : AttemptCredentialScope) (db : DB) :
    result ErrorCode unit :=
  match read_authority (acs_AttemptID scope) db with
  | None => Err ErrorUnauthorized
  | Some a => validateAttemptCredentialAuthority clock now (acs_IdentityNodeID scope) scope a
  end.

Section Bearer.
Context (hashAttemptCredential : string -> string).

Definition resolveCredential (clock : attemptClock) (now : Z) (token identityNodeID : string) (db : DB) :
    result ErrorCode AttemptCredentialScope :=
  let token := TrimSpace token in
  if bool_decide (token = "") || bool_decide (TrimSpace identityNodeID = "") then Err ErrorUnauthorized
  else match db_credentials db !! hashAttemptCredential token with
  | None => Err ErrorUnauthorized
  | Some c =>
      let scope := mkAttemptCredentialScope (cred_attempt_id c) (cred_job_id c) (cred_node_id c)
                     (cred_originating_submitter c) (cred_spawn_depth c) "" in
      match read_authority (cred_attempt_id c) db with
      | None => Err ErrorUnauthorized
      | Some a =>
          let? _ := validateAttemptCredentialAuthority clock now identityNodeID scope a in
          Ok (mkAttemptCredentialScope (cred_attempt_id c) (cred_job_id c) (cred_node_id c)
                (cred_originating_submitter c) (cred_spawn_depth c) identityNodeID)
      end
  end.
End Bearer.

(** [token_hash] is the primary key: a collision fails the insert. *)
Definition insertAttemptCredential {R} (hash : string) (scope : AttemptCredentialScope) (createdNS : Z) :
    tx DB ErrorCode R unit :=
  fun db =>
    match db_credentials db !! hash with
    | Some _ => Abort (Err ErrorInternal)
    | None =>
        Next tt (db <| db_credentials :=
          <[hash := mkCredentialRow (acs_AttemptID scope) (acs_JobID scope) (acs_NodeID scope)
                      (acs_OriginatingSubmitter scope) (acs_SpawnDepth scope) createdNS]> (db_credentials db) |>)
    end.

(** Whether some job's current attempt is this one. *)
Definition is_current_attempt (db : DB) (id : string) : bool :=
  existsb (fun j => bool_decide (j_current_attempt_id j = Some id)) (map_to_list (db_jobs db)).*2.

Definition pruneAttemptCredentials (db : DB) : DB :=
  db <| db_credentials := filter (fun p => is_current_attempt db (cred_attempt_id p.2) = true) (db_credentials db) |>.

Definition credential_ended (db : DB) (c : CredentialRow) : bool :=
  match db_attempts db !! cred_attempt_id c with
  | None => true
  | Some a => negb (active_attempt (a_state a))
  end.

(** At most [limit] ended rows go; which ones the database does not say, here
    the first in map order. *)
Definition pruneEndedAttemptCredentials (limit : nat) (db : DB) : DB :=
  let doomed := firstn limit
    (List.filter (fun p => credential_ended db p.2) (map_to_list (db_credentials db))).*1 in
  db <| db_credentials := fold_left (fun m h => delete h m) doomed (db_credentials db) |>.

(** ** Properties *)

(** A bearer is honoured for an attempt exactly when a request carrying that
    attempt's own fencing token would pass the write-authority checks and the
    attempt is active with a live lease. *)
Theorem credential_iff_write_authority clock now identity scope a :
  validateAttemptCredentialAuthority clock now identity scope a = Ok tt <->
  validateAttemptAuthority identity (acs_JobID scope) (acs_AttemptID scope) (aa_fencingToken a) a = Ok tt
  /\ attemptLeaseLive clock now a = Ok true.
Proof.
  unfold validateAttemptCredentialAuthority, validateAttemptAuthority, attemptLeaseLive.
  rewrite (bool_decide_eq_true_2 (aa_fencingToken a = aa_fencingToken a)) by done.
  destruct (bool_decide (aa_identityNodeID a = identity)); cbn; [|intuition congruence].
  destruct (_ || _); cbn; [intuition congruence|].
  destruct (bool_decide (aa_currentAttempt a = _)); cbn; [|intuition congruence].
  destruct (_ && _); cbn; [intuition congruence|].
  destruct (active_attempt (aa_state a)); cbn; [|intuition congruence].
  destruct (attemptLeaseExpired clock now a) as [[]|e]; cbn; intuition congruence.
Qed.

Lemma lookup_fold_delete {V} (ks : list string) (m : gmap string V) k :
  k ∉ ks -> fold_left (fun m h => delete h m) ks m !! k = m !! k.
Proof.
  revert m. induction ks as [|h ks IH]; intros m Hk; simpl; [done|].
  apply not_elem_of_cons in Hk as [Hne Hk]. rewrite IH by done. by rewrite lookup_delete_ne.
Qed.

Lemma credential_authority_active clock now identity scope a :
  validateAttemptCredentialAuthority clock now identity scope a = Ok tt -> active_attempt (aa_state a) = true.
Proof.
  unfold validateAttemptCredentialAuthority. intros H.
  repeat (destruct (negb _ || _) || destruct (negb _ && _)); try discriminate;
    repeat match type of H with (if ?b then _ else _) = _ => destruct b eqn:?; [discriminate|] end;
    by apply negb_false_iff.
Qed.

Lemma read_authority_state id db a :
  read_authority id db = Some a -> exists row, db_attempts db !! id = Some row /\ a_state row = aa_state a.
Proof.
  unfold read_authority. destruct (db_attempts db !! id) as [row|]; [|done].
  destruct (db_jobs db !! a_job_id row), (db_nodes db !! a_node_id row); try done.
  intros [= <-]. by exists row.
Qed.

(** The reconcile sweep of credential rows never takes a bearer away that
    would still be honoured: a token that resolves before the sweep resolves to
    the same scope after it. *)
Theorem credential_sweep_keeps_live hash clock now token identity limit db scope :
  resolveCredential hash clock now token identity db = Ok scope ->
  resolveCredential hash clock now token identity (pruneEndedAttemptCredentials limit db) = Ok scope.
Proof.
  unfold resolveCredential. intros H.
  destruct (bool_decide (TrimSpace token = "") || bool_decide (TrimSpace identity = "")); [discriminate|].
  destruct (db_credentials db !! hash (TrimSpace token)) as [c|] eqn:Hc; [|discriminate].
  destruct (read_authority (cred_attempt_id c) db) as [a|] eqn:Ha; [|discriminate].
  apply result_bind_ok in H as ([] & Hv & H).
  assert (Hkeep : db_credentials (pruneEndedAttemptCredentials limit db) !! hash (TrimSpace token) = Some c).
  { unfold pruneEndedAttemptCredentials. cbn. rewrite lookup_fold_delete; [done|].
    intros Hin. apply elem_of_take in Hin as (i & Hi & _). apply list_elem_of_lookup_2 in Hi.
    apply list_elem_of_fmap in Hi as ([k c'] & Hk & Hf). cbn in Hk. rewrite Hk in Hc.
    apply list_elem_of_In, filter_In in Hf as [Hf He]. apply list_elem_of_In, elem_of_map_to_list in Hf.
    assert (c' = c) as -> by congruence.
    apply credential_authority_active in Hv. apply read_authority_state in Ha as (row & Hrow & Hs).
    unfold credential_ended in He. cbn in He. rewrite Hrow, Hs, Hv in He. done. }
  rewrite Hkeep. change (read_authority (cred_attempt_id c) (pruneEndedAttemptCredentials limit db))
    with (read_authority (cred_attempt_id c) db). rewrite Ha, Hv. exact H.
Qed.

Lemma credential_sweep_keeps_live_witness :
  resolveCredential (fun _ => "digest") (sample_clock 500 0) 500 "secret" "id1"
    (pruneEndedAttemptCredentials 10 sample_db)
  = Ok (mkAttemptCredentialScope "a1" "j1" "n1" "client" 0 "id1").
Proof. apply credential_sweep_keeps_live. vm_compute. reflexivity. Defined.
