(* ===== verification/Lifecycle.v ===== *)
(** * The attempt lifecycle handlers

    The store methods a node agent calls while it executes an attempt:
    [RenewLease], [ObserveAttemptImage], [StartAttempt] and
    [SetAttemptPublication] of [l1/store.go], [InterruptRestartableAttempt] of
    [l1/oneshot_restart.go], [CancelJob] of [l1/cancel.go] and
    [LatchServiceImageReconciliationFailure] of [l1/service_jobs.go].  Each is one
    immediate transaction.  Where the code answers with a Job projection the model
    answers with the job's row after the transaction. *)
From S2P Require Import Prelude States Contract GoStrings JobSpec L1Types RestartPolicy Database LeaseClock.
From S2P Require Import Authority Credentials.
#[local] Open Scope string_scope.
#[local] Open Scope list_scope.
#[local] Open Scope Z_scope.

(** What [url.Parse] yields, as far as the publication check reads it. *)
Record parsed_url := mkparsed_url {
  url_Scheme : string;
  url_Host : string;
  url_Path : string;
  url_RawQuery : string;
  url_Fragment : string;
  url_has_User : bool
}.

(** The configuration of a [Store] and the functions outside the package. *)
Record config := mkconfig {
  cfg_leaseDuration : Z;
  cfg_lateEvidenceWindow : Z;
  cfg_prestartInfrastructureBudget : Z;
  cfg_nodeStaleAfter : Z;
  cfg_nodeDeadAfter : Z;
  cfg_serviceStabilityWindow : Z;
  cfg_restartJitter : Z -> Z;
  cfg_completion_digest : CompletionRequest -> string;
  cfg_observation_digest : ImageObservationRequest -> string;
  cfg_image_digest : string * string * option string -> string;
  cfg_boot_digest : string -> string;
  cfg_url_parse : string -> option parsed_url
}.

Section Handlers.
Context (cfg : config).

Abbreviation txn R A := (tx DB ErrorCode R A).

(** Settle a lost lease, commit, and refuse. *)
Definition expire_and_refuse {R A} (clock : attemptClock) (now : Z) (attempt : attemptAuthority) : txn R A :=
  let! _ := writes (expireAttempt clock (cfg_restartJitter cfg) now attempt) in
  commit (Err ErrorLeaseExpired).

Definition read_job {R} (jobID : string) : txn R JobRow :=
  need (fun db => db_jobs db !! jobID) ErrorInternal.

(** ** RenewLease *)
Definition RenewLease (at_ : instant) (identityNodeID jobID attemptID fencingToken : string) :
    txn AttemptLease AttemptLease :=
  let! clock := beginWriteTransaction at_ in
  let now := at_now at_ in
  let! attempt := readAttemptAuthority attemptID in
  let! _ := lift (validateAttemptAuthority identityNodeID jobID attemptID fencingToken attempt) in
  let! (canceled, settleBy) := read_cancellation jobID in
  if bool_decide (aa_state attempt = AttemptLost) then fail ErrorLeaseExpired
  else if negb (active_attempt (aa_state attempt)) then fail ErrorConflict
  else
  let! leaseExpired := lift (attemptLeaseExpired clock now attempt) in
  if leaseExpired || (canceled && negb (now <? settleBy)) then expire_and_refuse clock now attempt
  else
  let! directive := reads (fun db => readAttemptDirective db jobID attemptID) in
  let! row := need (fun db => db_attempts db !! attemptID) ErrorInternal in
  let restart_identity := bool_decide (directive = AttemptDirectiveRestart) && js_Restartable (aa_spec attempt) in
  let interruptionReason := if restart_identity then default "" (a_interruption_request_reason row) else "" in
  let interruptionKey := if restart_identity then default "" (a_interruption_request_key row) else "" in
  let expires := now + cfg_leaseDuration cfg in
  let expires := if canceled && (settleBy <? expires) then settleBy else expires in
  let promoting := bool_decide (aa_state attempt = AttemptClaimed)
                   && negb (bool_decide (js_Kind (aa_spec attempt) = JobKindOCI)) && negb canceled in
  let nextState := if promoting then AttemptRunning else aa_state attempt in
  let '(leaseBoot, leaseDeadline) := attemptLeaseDeadline clock now expires in
  let! _ := writes (exec_attempt attemptID (fun a =>
    a <| a_state := nextState |> <| a_lease_expires_ns := expires |> <| a_lease_boot_id := leaseBoot |>
      <| a_lease_deadline_ns := leaseDeadline |> <| a_updated_ns := now |> <| a_last_renewal_ns := Some now |>)) in
  let! _ := if promoting then writes (promoteExecution now attemptID) else pure tt in
  let! _ := writes (establishHealth clock now attemptID healthFromRenewal) in
  pure (mkAttemptLease attemptID fencingToken expires (expires - now)
          (leaseSleepCreditBoot (cfg_boot_digest cfg) clock) directive interruptionReason interruptionKey).

(** ** ObserveAttemptImage *)
Definition jobImageIdentity (request : ImageObservationRequest) : string * string * option string :=
  (ir_TopLevelDigest request, ir_TopLevelMediaType request, ir_IndexDigest request).

Definition image_evidence (request : ImageObservationRequest) (resolvedAt : Z) : OCIImageEvidence :=
  mkOCIImageEvidence (ir_SubmittedReference request) (ir_TopLevelDigest request) (ir_TopLevelMediaType request)
    (ir_IndexDigest request) (ir_PlatformManifestDigest request) (ir_Platform request)
    (ir_RuntimeHandler request) (ir_Snapshotter request) resolvedAt None.

Definition ObserveAttemptImage (at_ : instant) (identityNodeID jobID attemptID : string)
    (request : ImageObservationRequest) : txn JobRow JobRow :=
  let! _ := lift (validateImageObservation request) in
  let observationHash := cfg_observation_digest cfg request in
  let jobObservationHash := cfg_image_digest cfg (jobImageIdentity request) in
  let! clock := beginWriteTransaction at_ in
  let now := at_now at_ in
  let! attempt := readAttemptAuthority attemptID in
  let! _ := lift (validateAttemptEvidence identityNodeID jobID attemptID (ir_FencingToken request) attempt) in
  match exec_OCI (js_Execution (aa_spec attempt)) with
  | None => fail ErrorConflict
  | Some oci =>
      let! _ := check (bool_decide (js_Kind (aa_spec attempt) = JobKindOCI)) ErrorConflict in
      let! _ := check (bool_decide (ir_SubmittedReference request = img_Reference (oci_Image oci)))
                  ErrorInvalidRequest in
      let! _ := check (match img_Digest (oci_Image oci) with
                       | Some d => bool_decide (ir_TopLevelDigest request = d) | None => true end)
                  ErrorInvalidRequest in
      match aa_imageObservationHash attempt with
      | Some accepted =>
          if negb (bool_decide (accepted = observationHash)) then fail ErrorIdempotencyConflict
          else let! job := read_job jobID in answer job
      | None =>
          let! (canceled, _) := read_cancellation jobID in
          let! _ := check (negb canceled) ErrorConflict in
          let! _ := lift (validateAttemptAuthority identityNodeID jobID attemptID (ir_FencingToken request) attempt) in
          let! leaseExpired := lift (attemptLeaseExpired clock now attempt) in
          if leaseExpired then expire_and_refuse clock now attempt
          else
          let! _ := check (bool_decide (aa_state attempt = AttemptClaimed)) ErrorConflict in
          let! _ := check (match aa_jobImageResolutionHash attempt with
                           | Some h => bool_decide (h = jobObservationHash) | None => true end)
                      ErrorIdempotencyConflict in
          let! job := read_job jobID in
          let! resolvedAt :=
            match aa_jobImageResolutionHash attempt with
            | Some _ => match j_image_resolution job with
                        | Some r => pure (jr_ResolvedAt r) | None => fail ErrorInternal end
            | None => pure now
            end in
          let! _ :=
            match aa_jobImageResolutionHash attempt with
            | Some _ => pure tt
            | None =>
                writes (exec_job jobID (fun j =>
                  j <| j_image_resolution := Some (mkjobImageResolution (ir_TopLevelDigest request)
                         (ir_TopLevelMediaType request) (ir_IndexDigest request) resolvedAt) |>
                    <| j_image_resolution_hash := Some jobObservationHash |>))
            end in
          let! _ := writes (exec_attempt attemptID (fun a =>
            a <| a_image_observation := Some (image_evidence request resolvedAt) |>
              <| a_image_observation_hash := Some observationHash |> <| a_updated_ns := now |>)) in
          read_job jobID
      end
  end.

(** ** StartAttempt *)
Definition clear_chown (jobID : string) (db : DB) : DB :=
  db <| db_projections := alter (fun p => if p_current p && p_chown p then p <| p_chown := false |> else p)
                            jobID (db_projections db) |>.

Definition StartAttempt (at_ : instant) (identityNodeID jobID attemptID fencingToken : string) : txn JobRow JobRow :=
  if bool_decide (fencingToken = "") then fail ErrorInvalidRequest
  else
  let! clock := beginWriteTransaction at_ in
  let now := at_now at_ in
  let! attempt := readAttemptAuthority attemptID in
  let! _ := lift (validateAttemptAuthority identityNodeID jobID attemptID fencingToken attempt) in
  let kind := js_Kind (aa_spec attempt) in
  if negb (bool_decide (kind = JobKindOCI)) && negb (bool_decide (kind = JobKindProcess)) then fail ErrorConflict
  else
  let! leaseExpired := lift (attemptLeaseExpired clock now attempt) in
  if leaseExpired then expire_and_refuse clock now attempt
  else if bool_decide (is_Some (aa_startedNS attempt)) then let! job := read_job jobID in answer job
  else
  let! (canceled, _) := read_cancellation jobID in
  if canceled then fail ErrorConflict
  else if negb (bool_decide (aa_state attempt = AttemptClaimed))
          && negb (bool_decide (kind = JobKindProcess) && bool_decide (aa_state attempt = AttemptRunning))
  then fail ErrorConflict
  else
  let! (startedAt, image) :=
    if bool_decide (kind = JobKindOCI) then
      match aa_imageObservation attempt with
      | None => fail ErrorConflict
      | Some image =>
          let startedAt := if ie_ResolvedAt image <? now then now else ie_ResolvedAt image + 1 in
          pure (startedAt, Some (image <| ie_StartedAt := Some startedAt |>))
      end
    else pure (now, aa_imageObservation attempt) in
  let! _ := writes (exec_attempt attemptID (fun a =>
    a <| a_state := AttemptRunning |> <| a_started_ns := Some startedAt |>
      <| a_image_observation := image |> <| a_updated_ns := now |>)) in
  let! _ := writes (promoteExecution now attemptID) in
  let! _ := writes (establishHealth clock now attemptID healthFromStarted) in
  let! _ := writes (clear_chown jobID) in
  read_job jobID.

(** ** SetAttemptPublication *)
Definition ComputerDisplayWebSocketPath : string := "/websockify".

Definition validComputerDisplayEndpoint (value : string) : bool :=
  match cfg_url_parse cfg value with
  | None => false
  | Some u =>
      bool_decide (url_Scheme u = "ws") && negb (bool_decide (url_Host u = ""))
      && bool_decide (url_Path u = ComputerDisplayWebSocketPath) && bool_decide (url_RawQuery u = "")
      && bool_decide (url_Fragment u = "") && negb (url_has_User u)
  end.

(** The endpoint rules of a publication. *)
Definition publication_endpoint_ok (computer ready : bool) (endpoint : option string) : bool :=
  if computer then
    if ready then match endpoint with Some e => validComputerDisplayEndpoint e | None => false end
    else bool_decide (endpoint = None)
  else bool_decide (endpoint = None).

Definition SetAttemptPublication (at_ : instant) (identityNodeID jobID attemptID : string)
    (request : PublicationRequest) : txn JobRow JobRow :=
  match pub_Ready request with
  | None => fail ErrorInvalidRequest
  | Some ready =>
  if bool_decide (pub_FencingToken request = "") then fail ErrorInvalidRequest
  else
  let! clock := beginWriteTransaction at_ in
  let now := at_now at_ in
  let! attempt := readAttemptAuthority attemptID in
  let! _ := lift (validateAttemptAuthority identityNodeID jobID attemptID (pub_FencingToken request) attempt) in
  let! _ := check (active_attempt (aa_state attempt)) ErrorConflict in
  let! leaseExpired := lift (attemptLeaseExpired clock now attempt) in
  if leaseExpired then expire_and_refuse clock now attempt
  else
  let! service := need (fun db => db_service_jobs db !! jobID) ErrorConflict in
  let! projection := reads (fun db => db_projections db !! jobID) in
  let computer := bool_decide (is_Some projection) in
  let! _ := check (bool_decide (is_Some (s_published_port service)) || computer) ErrorConflict in
  let! _ := check (publication_endpoint_ok computer ready (pub_DisplayEndpoint request)) ErrorInvalidRequest in
  let! _ :=
    match pub_SubmitIntentRevision request with
    | None => pure tt
    | Some revision =>
        if negb computer || negb ready || (revision <? 0) then fail ErrorInvalidRequest
        else
        let! current := need (fun db => p ← db_projections db !! jobID; c ← db_computers db !! p_computer_id p;
                                        Some (c_submit_intent_revision c)) ErrorInternal in
        check (current =? revision) ErrorStalePolicyRevision
    end in
  let target := if ready then Some attemptID else None in
  let endpoint := if ready then pub_DisplayEndpoint request else None in
  let changes := negb (bool_decide (s_published_attempt_id service = target))
                 || negb (bool_decide (s_display_endpoint service = endpoint)) in
  let! _ :=
    if changes then
      let! _ := writes (exec_service jobID (fun s =>
        s <| s_published_attempt_id := target |>
          <| s_healthy_since_ns := if ready then s_healthy_since_ns s else None |>
          <| s_display_endpoint := endpoint |>)) in
      writes (exec_job jobID (fun j => j <| j_updated_ns := now |>))
    else pure tt in
  let! _ := if ready then writes (establishHealth clock now attemptID healthFromPublication) else pure tt in
  read_job jobID
  end.

(** ** InterruptRestartableAttempt *)
Definition InterruptRestartableAttempt (at_ : instant) (nodeID attemptID : string)
    (request : InterruptRestartableAttemptRequest) : txn (JobRow * bool) (JobRow * bool) :=
  if bool_decide (TrimSpace (int_JobID request) = "") || bool_decide (TrimSpace (int_BootSessionID request) = "")
     || bool_decide (TrimSpace (int_IdempotencyKey request) = "") || (int_IntentRevision request <? 0)
     || negb (bool_decide (int_Reason request = InterruptionUpgrade)) then fail ErrorInvalidRequest
  else
  let jobID := int_JobID request in
  let! clock := beginWriteTransaction at_ in
  let now := at_now at_ in
  let! attempt := readAttemptAuthority attemptID in
  if negb (bool_decide (aa_nodeID attempt = nodeID)) || negb (bool_decide (aa_jobID attempt = jobID))
     || negb (bool_decide (aa_bootSessionID attempt = int_BootSessionID request)) then fail ErrorAttemptMismatch
  else if negb (restartable_process_oneshot (aa_spec attempt)) then fail ErrorConflict
  else
  let! row := need (fun db => db_attempts db !! attemptID) ErrorInternal in
  match a_interruption_request row with
  | Some prior =>
      if negb (bool_decide (prior = request)) then fail ErrorIdempotencyConflict
      else let! job := read_job jobID in answer (job, true)
  | None =>
      let! node := need (fun db => db_nodes db !! nodeID) ErrorInternal in
      if negb (n_intent_revision node =? int_IntentRevision request) then fail ErrorStaleIntentRevision
      else if n_claims_enabled node then fail ErrorConflict
      else
      let! _ := lift (validateAttemptAuthority (aa_identityNodeID attempt) jobID attemptID (aa_fencingToken attempt)
                        attempt) in
      let! _ := check (active_attempt (aa_state attempt)) ErrorConflict in
      let! (canceled, _) := read_cancellation jobID in
      let! _ := check (negb canceled) ErrorConflict in
      let! leaseExpired := lift (attemptLeaseExpired clock now attempt) in
      if leaseExpired then expire_and_refuse clock now attempt
      else
      let! _ := writes (exec_attempt attemptID (fun a =>
        a <| a_interruption_request_key := Some (int_IdempotencyKey request) |>
          <| a_interruption_request := Some request |>
          <| a_interruption_request_reason := Some (int_Reason request) |>
          <| a_interruption_requested_ns := Some now |>)) in
      let! job := read_job jobID in
      pure (job, false)
  end.

(** ** CancelJob *)

(** The authority a cancellation arrives with.  [CancelPerson] carries the
    answer of the admin check ([requireCurrentAdmin]). *)
Inductive JobCancelCaller :=
| CancelParent (scope : AttemptCredentialScope)
| CancelPerson (admin : result ErrorCode unit)
| CancelSubmitter (submitter : string).

(** Whether the caller may see the job; an unexpected admin-check error is
    returned to the caller. *)
Definition cancel_allowed (caller : JobCancelCaller) (parent_job_id originating_submitter : string) :
    result ErrorCode bool :=
  match caller with
  | CancelParent scope => Ok (bool_decide (parent_job_id = acs_JobID scope))
  | CancelPerson (Ok _) => Ok true
  | CancelPerson (Err e) =>
      if bool_decide (e = ErrorAdminRequired) || bool_decide (e = ErrorPersonIdentityRequired)
      then Ok false else Err e
  | CancelSubmitter submitter =>
      Ok (negb (bool_decide (submitter = "")) && bool_decide (submitter = originating_submitter))
  end.

Definition cancel_queued (now : Z) (j : JobRow) : JobRow :=
  j <| j_state := JobFailed |> <| j_outcome := OutcomeCanceled |> <| j_current_attempt_id := None |>
    <| j_prestart_terminal_reason := None |> <| j_prestart_next_retry_at_ns := None |>
    <| j_next_restart_at_ns := None |> <| j_updated_ns := now |>.

Definition CancelJob (at_ : instant) (jobID : string) (caller : JobCancelCaller) : txn JobRow JobRow :=
  let! clock := beginWriteTransaction at_ in
  let now := at_now at_ in
  let! _ := match caller with
            | CancelParent scope =>
                let! verdict := reads (revalidateAttemptCredential clock now scope) in lift verdict
            | _ => pure tt
            end in
  let! found := reads (fun db => db_jobs db !! jobID) in
  match found with
  | None =>
      let! tombstone := need (fun db => db_service_tombstones db !! jobID) ErrorNotFound in
      let! allowed := lift (cancel_allowed caller (tb_parent_job_id tombstone) (tb_originating_submitter tombstone)) in
      if negb allowed then fail ErrorNotFound else fail ErrorCancelService
  | Some job =>
      let! allowed := lift (cancel_allowed caller (default "" (j_parent_job_id job)) (j_originating_submitter job)) in
      if negb allowed then fail ErrorNotFound
      else if bool_decide (js_Class (j_spec job) = JobClassService) then fail ErrorCancelService
      else
      let oneshot := bool_decide (js_Class (j_spec job) = JobClassOneShot) in
      match j_state job with
      | JobSucceeded | JobFailed => pure job
      | JobQueued =>
          let! _ := check oneshot ErrorCancelNotQueued in
          let! _ := writes (exec_job_state jobID (cancel_queued now)) in
          read_job jobID
      | JobClaimed | JobRunning | JobAwaitingInput =>
          let! _ := check oneshot ErrorCancelNotQueued in
          if bool_decide (j_outcome job = OutcomeCanceled) then pure job
          else
          let! _ := writes (exec_job jobID (fun j =>
            j <| j_outcome := OutcomeCanceled |>
              <| j_cancel_settle_by_ns := Some (now + CancelSettlementTimeout) |> <| j_updated_ns := now |>)) in
          read_job jobID
      | _ => fail ErrorCancelNotQueued
      end
  end.

(** ** Service transitions *)
Definition validServiceStatePair (desired : ServiceDesiredState) (state : JobState) (policyStopped : bool) : bool :=
  match desired with
  | ServiceDesiredRunning =>
      match state with
      | JobStopped => policyStopped
      | JobQueued | JobClaimed | JobRunning | JobFailed => true
      | _ => false
      end
  | ServiceDesiredStopped =>
      match state with JobStopping | JobStopped | JobFailed => true | _ => false end
  | ServiceDesiredRemoved => false
  end.

Definition transitionServiceJob {R} (jobID : string) (desired : ServiceDesiredState) (next : JobState) (now : Z) :
    txn R unit :=
  let! (current, service) := need (fun db => j ← db_jobs db !! jobID; s ← db_service_jobs db !! jobID;
                                             Some (j_state j, s)) ErrorNotFound in
  if negb (CanTransition ServiceJobTransitions current next) then fail ErrorConflict
  else if negb (validServiceStatePair desired next (bool_decide (is_Some (s_policy_stop service))))
  then fail ErrorConflict
  else
  let clear := bool_decide (next ∈ [JobQueued; JobStopping; JobStopped; JobFailed]) in
  let! _ := writes (exec_service jobID (fun s =>
    s <| s_desired_state := desired |>
      <| s_published_attempt_id := if clear then None else s_published_attempt_id s |>
      <| s_healthy_since_ns := if clear then None else s_healthy_since_ns s |>)) in
  writes (exec_job_state jobID (fun j => j <| j_state := next |> <| j_updated_ns := now |>)).

Definition validateImagePinNodeSession (db : DB) (identityNodeID nodeID bootSessionID : string) :
    result ErrorCode unit :=
  match db_nodes db !! nodeID with
  | None => Err ErrorNodeNotRegistered
  | Some n =>
      if negb (bool_decide (n_identity_node_id n = identityNodeID)) then Err ErrorAttemptNotOwned
      else if negb (bool_decide (n_boot_session_id n = bootSessionID)) then Err ErrorNodeSessionReplaced
      else Ok tt
  end.

Definition LatchServiceImageReconciliationFailure (at_ : instant)
    (identityNodeID jobID nodeID bootSessionID : string) (failure : SpawnFailure) : txn JobRow JobRow :=
  if bool_decide (jobID = "") || bool_decide (nodeID = "") || bool_decide (bootSessionID = "")
     || bool_decide (sf_Code failure = "") || bool_decide (sf_Message failure = "") then fail ErrorInvalidRequest
  else
  let r := mkProcessResult None "" (Some failure) None "" None "" "" false false false in
  let! _ := lift (validateProcessResult r) in
  let! clock := beginWriteTransaction at_ in
  let now := at_now at_ in
  let! session := reads (fun db => validateImagePinNodeSession db identityNodeID nodeID bootSessionID) in
  let! _ := lift session in
  let! job := need (fun db => db_jobs db !! jobID) ErrorNotFound in
  let! service := reads (fun db => db_service_jobs db !! jobID) in
  match service with
  | None => fail ErrorAttemptNotOwned
  | Some s =>
      if negb (bool_decide (s_bound_node_id s = Some nodeID)) then fail ErrorAttemptNotOwned
      else
      let! _ := if negb (bool_decide (j_state job = JobFailed))
                then transitionServiceJob jobID (s_desired_state s) JobFailed now else pure tt in
      let! _ := writes (invalidateAttempts clock now jobID invalidateImageLatch) in
      let! _ := writes (detachAttempt jobID detachImageLatch) in
      let! _ := writes (exec_job jobID (fun j => j <| j_updated_ns := now |>)) in
      let! _ := writes (exec_service jobID (fun s =>
        s <| s_policy_stop := None |> <| s_next_restart_at := None |> <| s_last_failure := Some (FailureResult r) |>
          <| s_healthy_since_ns := None |> <| s_published_attempt_id := None |>)) in
      read_job jobID
  end.

End Handlers.

(** A configuration for the witnesses. *)
Definition sample_config : config :=
  mkconfig (30 * second) (300 * second) (600 * second) (60 * second) (300 * second) (60 * second) (fun d => d)
    cr_IdempotencyKey (fun _ => "observation") (fun p => p.1.1) (fun b => b) (fun _ => None).
