(* ===== verification/Summaries.v ===== *)
(** * Attempt-summary retention

    [pruneServiceAttemptSummaries] of [l1/log_retention.go] and the queries it
    shares with the reconcile sweep in [l1/retention_sweep.go].  A service keeps
    its newest non-current attempts as summaries; what lies below that floor is
    deleted when nothing can still refer to it.  Each call reads a bounded number
    of rows at either end of the history below the floor. *)
From S2P Require Import Prelude Order States Contract L1Types Database.
#[local] Open Scope string_scope.
#[local] Open Scope list_scope.
#[local] Open Scope Z_scope.

Definition DefaultServiceAttemptSummaries : nat := 32.
Definition hotPathSummaryRows : nat := 32.
Definition MinInt64 : Z := - 2 ^ 63.

(** The primary-index entry of an attempt: [created_ns], [attempt_id]. *)
Abbreviation attemptKey := (Z * string)%type.

Definition attempt_keys (db : DB) (p : string -> AttemptRow -> bool) : list attemptKey :=
  map (fun r => (a_created_ns r.2, r.1)) (List.filter (fun r => p r.1 r.2) (map_to_list (db_attempts db))).

(** [COALESCE((SELECT current_attempt_id FROM jobs WHERE job_id=?), '')]. *)
Definition current_or_empty (db : DB) (jobID : string) : string :=
  default "" (db_jobs db !! jobID ≫= j_current_attempt_id).

Definition jobIsService (db : DB) (jobID : string) : bool := bool_decide (is_Some (db_service_jobs db !! jobID)).

(** [ORDER BY created_ns, attempt_id] and its reverse. *)
Definition ascending (l : list attemptKey) : list attemptKey := sort_by id l.
Definition descending (l : list attemptKey) : list attemptKey := rev (sort_by id l).

Definition attemptSummaryFloor (db : DB) (jobID : string) : option attemptKey :=
  descending (attempt_keys db (fun id a =>
    bool_decide (a_job_id a = jobID) && negb (bool_decide (id = current_or_empty db jobID))))
  !! (DefaultServiceAttemptSummaries - 1)%nat.

(** [floor] as the bound of a history query. *)
Definition before_floor (floor k : attemptKey) : bool := (k.1 <? floor.1) || str_ltb k.2 floor.2.

(** [walk] is the position the sweep resumes from; [None] starts at the beginning. *)
Definition attemptHistoryKeys (db : DB) (jobID : string) (walk : option attemptKey) (floor : attemptKey)
    (limit : nat) : list attemptKey :=
  let mine := attempt_keys db (fun _ a => bool_decide (a_job_id a = jobID)) in
  let later from n :=
    firstn n (ascending (List.filter (fun k => (from <=? k.1) && (k.1 <=? floor.1) && before_floor floor k) mine)) in
  match walk with
  | None => later MinInt64 limit
  | Some w =>
      let rest := firstn limit (ascending (List.filter (fun k =>
                    (k.1 =? w.1) && str_ltb w.2 k.2 && before_floor floor k) mine)) in
      if (length rest =? limit)%nat || (w.1 =? MaxInt64) then rest
      else rest ++ later (w.1 + 1) (limit - length rest)%nat
  end.

Definition attemptKeysBelowFloor (db : DB) (jobID : string) (floor : attemptKey) (limit : nat) : list attemptKey :=
  let mine := attempt_keys db (fun _ a => bool_decide (a_job_id a = jobID)) in
  let keys := firstn limit (descending (List.filter (fun k => (k.1 =? floor.1) && str_ltb k.2 floor.2) mine)) in
  if (length keys =? limit)%nat || (floor.1 =? MinInt64) then keys
  else keys ++ firstn (limit - length keys)%nat (descending (List.filter (fun k => k.1 <? floor.1) mine)).

(** [DELETE FROM attempts] with the referential actions of the schema on the
    modelled tables; the pruned attempts have no log rows. *)
Definition delete_attempts (p : string -> AttemptRow -> bool) (db : DB) : DB :=
  let gone (id : string) : bool := match db_attempts db !! id with Some a => p id a | None => false end in
  db <| db_attempts := filter (fun r => p r.1 r.2 = false) (db_attempts db) |>
     <| db_service_jobs :=
          (fun s => if match s_published_attempt_id s with Some id => gone id | None => false end
                    then s <| s_published_attempt_id := None |> else s) <$> db_service_jobs db |>
     <| db_log_continuity := filter (fun r => gone (r.1.1) = false) (db_log_continuity db) |>.

(** The [WHERE] of [pruneListedAttemptSummariesSQL]. *)
Definition summary_prunable (db : DB) (jobID : string) (cutoff : Z) (ids : list string) (id : string) (a : AttemptRow) :
    bool :=
  bool_decide (id ∈ ids) && bool_decide (a_job_id a = jobID) && jobIsService db (a_job_id a)
  && negb (bool_decide (id = current_or_empty db jobID))
  && negb (active_attempt (a_state a))
  && negb (bool_decide (a_state a = AttemptLost) && (cutoff <=? a_updated_ns a))
  && negb (existsb (fun l => bool_decide (l_attempt_id l = id)) (db_log_events db)).

Definition pruneListedAttemptSummaries (lateEvidenceWindow now : Z) (jobID : string) (keys : list attemptKey) (db : DB) :
    DB :=
  if bool_decide (keys = []) then db
  else delete_attempts (summary_prunable db jobID (now - lateEvidenceWindow) keys.*2) db.

Definition pruneServiceAttemptSummaries (lateEvidenceWindow now : Z) (jobID : string) (db : DB) : DB :=
  if negb (jobIsService db jobID) then db
  else match attemptSummaryFloor db jobID with
  | None => db
  | Some floor =>
      let oldest := attemptHistoryKeys db jobID None floor hotPathSummaryRows in
      let newest := attemptKeysBelowFloor db jobID floor hotPathSummaryRows in
      let keys := oldest ++ List.filter (fun k => negb (bool_decide (k.2 ∈ oldest.*2))) newest in
      pruneListedAttemptSummaries lateEvidenceWindow now jobID keys db
  end.

(** ** The bounded walks are the plain range queries *)
#[local] Instance id_key_trans : Transitive (by_key (@id attemptKey)).
Proof. intros a b c. apply key_le_trans. Qed.
#[local] Instance id_key_antisym : AntiSymm (=) (by_key (@id attemptKey)).
Proof. intros a b. apply key_le_antisym. Qed.

Lemma ascending_unique l k : StronglySorted (by_key id) k -> k ≡ₚ l -> ascending l = k.
Proof.
  intros Hk Hp. apply (Sorted_unique (by_key id)).
  - apply StronglySorted_Sorted, sort_by_sorted.
  - by apply StronglySorted_Sorted.
  - unfold ascending. by rewrite sort_by_perm, Hp.
Qed.

Lemma StronglySorted_app {A} (R : relation A) l k :
  StronglySorted R l -> StronglySorted R k -> (forall x y, x ∈ l -> y ∈ k -> R x y) -> StronglySorted R (l ++ k).
Proof.
  induction 1 as [|x l Hl IH Hx]; intros Hk Hlk; simpl; [done|]. constructor.
  - apply IH; [done|]. intros; apply Hlk; [by right | done].
  - apply Forall_app. split; [done|]. apply Forall_forall. intros y Hy. apply Hlk; [by left | done].
Qed.

(** Splitting a range query at a key: the lower part comes first. *)
Lemma ascending_split (p q r : attemptKey -> bool) l :
  (forall k, k ∈ l -> r k = p k || q k) ->
  (forall k, k ∈ l -> p k = true -> q k = true -> False) ->
  (forall a b, p a = true -> q b = true -> by_key id a b) ->
  ascending (List.filter r l) = ascending (List.filter p l) ++ ascending (List.filter q l).
Proof.
  intros Hr Hd Hord. apply ascending_unique.
  - apply StronglySorted_app; [apply sort_by_sorted..|]. intros a b. unfold ascending.
    rewrite !elem_of_sort_by, !list_elem_of_In, !filter_In. intros [_ ?] [_ ?]. by apply Hord.
  - unfold ascending. rewrite !sort_by_perm. clear Hord. induction l as [|k l IH]; simpl; [done|].
    rewrite Hr by (by left).
    specialize (IH (fun k' H => Hr k' (list_elem_of_further _ _ _ H)) (fun k' H => Hd k' (list_elem_of_further _ _ _ H))).
    assert (Hdk := Hd k (list_elem_of_here _ _)).
    destruct (p k), (q k); simpl; try (exfalso; by apply Hdk); rewrite <- ?IH; try done.
    by rewrite <- Permutation_middle, IH.
Qed.

Lemma firstn_split {A} n (l k : list A) :
  firstn n (l ++ k) =
  (let rest := firstn n l in if (length rest =? n)%nat then rest else rest ++ firstn (n - length rest)%nat k).
Proof.
  cbn zeta. rewrite firstn_app, length_firstn. destruct (Nat.eqb_spec (n `min` length l) n) as [E|E].
  - replace (n - length l)%nat with 0%nat by lia. by rewrite app_nil_r.
  - f_equal. f_equal. lia.
Qed.

Lemma key_ltb_eq (a b : attemptKey) : key_ltb a b = (a.1 <? b.1) || ((a.1 =? b.1) && str_ltb a.2 b.2).
Proof.
  unfold key_ltb, key_leb, str_ltb. destruct (str_leb b.2 a.2);
    destruct (Z.ltb_spec b.1 a.1), (Z.eqb_spec b.1 a.1), (Z.ltb_spec a.1 b.1), (Z.eqb_spec a.1 b.1); simpl; lia || done.
Qed.

Lemma before_floor_eq (floor k : attemptKey) : (k.1 <=? floor.1) && before_floor floor k = key_ltb k floor.
Proof.
  rewrite key_ltb_eq. unfold before_floor.
  destruct (Z.leb_spec k.1 floor.1), (Z.ltb_spec k.1 floor.1), (Z.eqb_spec k.1 floor.1), (str_ltb k.2 floor.2);
    simpl; lia || done.
Qed.

(** The keys of one job's attempts. *)
Definition job_keys (db : DB) (jobID : string) : list attemptKey :=
  attempt_keys db (fun _ a => bool_decide (a_job_id a = jobID)).

Definition after_walk (walk : option attemptKey) (k : attemptKey) : bool :=
  match walk with Some w => key_ltb w k | None => true end.

Lemma filter_ext_in' {A} (f g : A -> bool) l : (forall x, x ∈ l -> f x = g x) -> List.filter f l = List.filter g l.
Proof. intros H. apply filter_ext_in. intros x Hx. apply H. by apply list_elem_of_In. Qed.

(** The resumable walk over a service's attempt history, which seeks each
    part of its key separately, returns exactly the first [limit] attempts
    after its position and before the summary floor, oldest first, whenever its
    position is not past the floor's timestamp and timestamps are 64-bit. *)
Theorem attemptHistoryKeys_spec db jobID walk floor limit :
  (forall k, k ∈ job_keys db jobID -> MinInt64 <= k.1 <= MaxInt64) ->
  (forall w, walk = Some w -> w.1 <= floor.1) ->
  attemptHistoryKeys db jobID walk floor limit =
  firstn limit (ascending (List.filter (fun k => after_walk walk k && key_ltb k floor) (job_keys db jobID))).
Proof.
  intros Hr Hw. unfold attemptHistoryKeys. fold (job_keys db jobID). destruct walk as [w|]; simpl.
  - specialize (Hw w eq_refl).
    rewrite (ascending_split (fun k => (k.1 =? w.1) && str_ltb w.2 k.2 && before_floor floor k)
               (fun k => (w.1 + 1 <=? k.1) && (k.1 <=? floor.1) && before_floor floor k)
               (fun k => key_ltb w k && key_ltb k floor)).
    + rewrite firstn_split. cbn zeta. destruct (_ =? limit)%nat; [done|]. cbn [orb].
      destruct (Z.eqb_spec w.1 MaxInt64) as [E|E]; [|done].
      rewrite (filter_ext_in' (fun k => (w.1 + 1 <=? k.1) && (k.1 <=? floor.1) && before_floor floor k) (fun _ => false)).
      * assert (Hnil : forall l : list attemptKey, List.filter (fun _ => false) l = []) by (by induction l).
        rewrite Hnil. change (ascending []) with (@nil attemptKey). by rewrite firstn_nil, app_nil_r.
      * intros k Hk%Hr. destruct (Z.leb_spec (w.1 + 1) k.1); [lia | done].
    + intros k _. rewrite <- !andb_assoc, before_floor_eq, !key_ltb_eq. unfold before_floor.
      destruct (Z.ltb_spec w.1 k.1), (Z.eqb_spec w.1 k.1), (Z.eqb_spec k.1 w.1), (Z.ltb_spec k.1 floor.1),
        (Z.eqb_spec k.1 floor.1), (Z.leb_spec (w.1 + 1) k.1), (str_ltb w.2 k.2), (str_ltb k.2 floor.2); simpl; lia || done.
    + intros k _ [[?%Z.eqb_eq _]%andb_true_iff _]%andb_true_iff [[?%Z.leb_le _]%andb_true_iff _]%andb_true_iff. lia.
    + intros a b [[?%Z.eqb_eq _]%andb_true_iff _]%andb_true_iff [[?%Z.leb_le _]%andb_true_iff _]%andb_true_iff.
      unfold by_key, key_le. rewrite key_leb_iff. left. simpl. lia.
  - f_equal. f_equal. apply filter_ext_in'. intros k Hk%Hr.
    rewrite <- before_floor_eq. destruct (Z.leb_spec MinInt64 k.1); [done | lia].
Qed.

(** Three ended attempts of one service, all created at time 100. *)
Definition history_db : DB :=
  let ended token := sample_attempt "svc" "node" "boot" AttemptFailed token 100 in
  empty_db <| db_attempts := {[ "a1" := ended "1"; "a2" := ended "2"; "a3" := ended "3" ]} |>
           <| db_service_jobs := {[ "svc" := sample_service (Some "node") ]} |>.

Lemma attemptHistoryKeys_spec_witness :
  attemptHistoryKeys history_db "svc" (Some (100, "a1")) (100, "a3") 5 = [(100, "a2")] /\
  attemptHistoryKeys history_db "svc" (Some (100, "a1")) (100, "a3") 5 =
  firstn 5 (ascending (List.filter (fun k => after_walk (Some (100, "a1")) k && key_ltb k (100, "a3"))
              (job_keys history_db "svc"))).
Proof.
  split; [vm_compute; reflexivity|]. apply attemptHistoryKeys_spec.
  - assert (H : forallb (fun k => (MinInt64 <=? k.1) && (k.1 <=? MaxInt64)) (job_keys history_db "svc") = true)
      by (vm_compute; reflexivity).
    rewrite forallb_forall in H. intros k [?%Z.leb_le ?%Z.leb_le]%list_elem_of_In%H%andb_true_iff. done.
  - intros w [= <-]. simpl. lia.
Defined.

Lemma attemptKeysBelowFloor_spec db jobID floor limit :
  (forall k, k ∈ job_keys db jobID -> MinInt64 <= k.1) ->
  attemptKeysBelowFloor db jobID floor limit =
  firstn limit (descending (List.filter (fun k => key_ltb k floor) (job_keys db jobID))).
Proof.
  intros Hr. unfold attemptKeysBelowFloor, descending. fold (job_keys db jobID).
  change (sort_by id) with ascending.
  rewrite (ascending_split (fun k => k.1 <? floor.1) (fun k => (k.1 =? floor.1) && str_ltb k.2 floor.2)
             (fun k => key_ltb k floor)).
  - rewrite rev_app_distr, firstn_split. cbn zeta. destruct (_ =? limit)%nat; [done|]. cbn [orb].
    destruct (Z.eqb_spec floor.1 MinInt64) as [E|E]; [|done].
    rewrite (filter_ext_in' (fun k => k.1 <? floor.1) (fun _ => false)).
    + assert (Hnil : forall l : list attemptKey, List.filter (fun _ => false) l = []) by (by induction l).
      rewrite Hnil. change (rev (ascending [])) with (@nil attemptKey). by rewrite firstn_nil, app_nil_r.
    + intros k Hk%Hr. destruct (Z.ltb_spec k.1 floor.1); [lia | done].
  - intros k _. apply key_ltb_eq.
  - intros k _ ?%Z.ltb_lt [?%Z.eqb_eq _]%andb_true_iff. lia.
  - intros a b ?%Z.ltb_lt [?%Z.eqb_eq _]%andb_true_iff. unfold by_key, key_le. rewrite key_leb_iff. left. simpl. lia.
Qed.

(** ** What pruning may delete *)
Definition non_current_keys (db : DB) (jobID : string) : list attemptKey :=
  attempt_keys db (fun id a =>
    bool_decide (a_job_id a = jobID) && negb (bool_decide (id = current_or_empty db jobID))).

Lemma StronglySorted_split {A} (R : relation A) l x k : StronglySorted R (l ++ x :: k) -> Forall (R x) k.
Proof. induction l as [|y l IH]; simpl; intros [? ?]%StronglySorted_inv; auto. Qed.

Lemma length_filter_forall {A} (p : A -> bool) l : Forall (fun x => p x = true) l -> length (List.filter p l) = length l.
Proof. induction 1 as [|x l Hx _ IH]; simpl; [done|]. rewrite Hx. simpl. by rewrite IH. Qed.

Lemma key_lt_le_trans (a b c : attemptKey) : key_ltb a b = true -> key_le b c -> key_ltb a c = true.
Proof.
  unfold key_ltb. intros Hab Hbc. destruct (key_leb c a) eqn:E; [|done].
  assert (Hba : key_le b a) by (by apply (key_le_trans _ c)). unfold key_le in Hba. by rewrite Hba in Hab.
Qed.

(** At least the floor's worth of other attempts is newer than a key below the floor. *)
Lemma below_floor_count db jobID floor k :
  attemptSummaryFloor db jobID = Some floor -> key_ltb k floor = true ->
  (DefaultServiceAttemptSummaries <= length (List.filter (key_ltb k) (non_current_keys db jobID)))%nat.
Proof.
  unfold attemptSummaryFloor. fold (non_current_keys db jobID). unfold descending.
  intros (newer & older & Hsplit & Hlen)%list_elem_of_split_length Hk.
  assert (Hasc : sort_by id (non_current_keys db jobID) = rev older ++ floor :: rev newer).
  { rewrite <- (rev_involutive (sort_by _ _)), Hsplit, rev_app_distr. simpl. by rewrite <- app_assoc. }
  assert (Hs := sort_by_sorted id (non_current_keys db jobID)). rewrite Hasc in Hs.
  apply StronglySorted_split in Hs.
  rewrite <- (length_filter_perm _ _ _ (sort_by_perm id _)), Hasc, List.filter_app, length_app.
  cut (length (List.filter (key_ltb k) (floor :: rev newer)) = DefaultServiceAttemptSummaries); [lia|].
  rewrite length_filter_forall; [simpl; rewrite length_rev, <- Hlen; done|].
  apply Forall_cons. split; [done|]. eapply Forall_impl; [exact Hs|]. intros x Hx. by eapply key_lt_le_trans.
Qed.

(** Every attempt a call lists lies below the floor. *)
Lemma listed_below_floor db jobID floor limit k :
  k ∈ attemptHistoryKeys db jobID None floor limit \/ k ∈ attemptKeysBelowFloor db jobID floor limit ->
  k ∈ job_keys db jobID /\ key_ltb k floor = true.
Proof.
  assert (Hfirst : forall n (l : list attemptKey), k ∈ firstn n l -> k ∈ l).
  { intros n l Hk. rewrite <- (firstn_skipn n l). apply elem_of_app. by left. }
  unfold attemptHistoryKeys, attemptKeysBelowFloor. fold (job_keys db jobID). intros [Hk|Hk].
  - apply Hfirst in Hk. unfold ascending in Hk. rewrite elem_of_sort_by, list_elem_of_In, filter_In in Hk.
    destruct Hk as [Hk Hp]. rewrite <- andb_assoc, andb_true_iff, before_floor_eq in Hp.
    rewrite list_elem_of_In. tauto.
  - assert (Hk' : k ∈ List.filter (fun k => (k.1 =? floor.1) && str_ltb k.2 floor.2) (job_keys db jobID) \/
                  k ∈ List.filter (fun k => k.1 <? floor.1) (job_keys db jobID)).
    { revert Hk. unfold descending. case_match; rewrite ?elem_of_app; intros Hk; [left | destruct Hk as [Hk|Hk]; [left|right]];
        apply Hfirst in Hk; rewrite list_elem_of_In, <- in_rev, <- list_elem_of_In, elem_of_sort_by in Hk; done. }
    rewrite !list_elem_of_In, !filter_In, <- !list_elem_of_In in Hk'. rewrite key_ltb_eq.
    destruct Hk' as [[? ->]|[? ->]]; split; try done. by rewrite orb_true_r.
Qed.

Lemma prune_jobs window now jobID db : db_jobs (pruneServiceAttemptSummaries window now jobID db) = db_jobs db.
Proof. unfold pruneServiceAttemptSummaries, pruneListedAttemptSummaries. repeat case_match; done. Qed.

Lemma delete_attempts_lookup p db id a :
  db_attempts (delete_attempts p db) !! id = Some a <-> db_attempts db !! id = Some a /\ p id a = false.
Proof. unfold delete_attempts. simpl. by rewrite map_lookup_filter_Some. Qed.

(** Pruning either changes nothing or deletes listed, prunable attempts. *)
Lemma prune_cases window now jobID db :
  pruneServiceAttemptSummaries window now jobID db = db \/
  exists floor ids,
    jobIsService db jobID = true /\ attemptSummaryFloor db jobID = Some floor
    /\ (forall id, id ∈ ids -> exists k, k ∈ job_keys db jobID /\ k.2 = id /\ key_ltb k floor = true)
    /\ pruneServiceAttemptSummaries window now jobID db =
       delete_attempts (summary_prunable db jobID (now - window) ids) db.
Proof.
  unfold pruneServiceAttemptSummaries, pruneListedAttemptSummaries.
  destruct (jobIsService db jobID); [|by left]. destruct (attemptSummaryFloor db jobID) as [floor|]; [|by left].
  cbn [negb]. case_bool_decide; [by left|]. right. eexists floor, _. split_and!; [done | done | | reflexivity].
  intros id (k & -> & Hk)%list_elem_of_fmap. exists k.
  destruct (listed_below_floor db jobID floor hotPathSummaryRows k) as [? ?]; [|done].
  apply elem_of_app in Hk as [Hk|Hk]; [by left|]. right.
  rewrite list_elem_of_In, filter_In, <- list_elem_of_In in Hk. tauto.
Qed.

Lemma prune_lookup window now jobID db id a :
  db_attempts (pruneServiceAttemptSummaries window now jobID db) !! id = Some a -> db_attempts db !! id = Some a.
Proof.
  destruct (prune_cases window now jobID db) as [->|(floor & ids & _ & _ & _ & ->)]; [done|].
  by intros [? _]%delete_attempts_lookup.
Qed.

Lemma job_keys_lookup db jobID k a :
  k ∈ job_keys db jobID -> db_attempts db !! k.2 = Some a -> k = (a_created_ns a, k.2).
Proof.
  unfold job_keys, attempt_keys. intros ([id b] & Hk & Hin)%list_elem_of_In%in_map_iff Ha.
  apply filter_In in Hin as [Hin _]. apply list_elem_of_In, elem_of_map_to_list in Hin. subst k. simpl in *.
  by rewrite Hin in Ha; simplify_eq.
Qed.

(** A claim, completion or log append that prunes a service's attempt
    history deletes an attempt only if it belongs to that service, is not its
    current attempt, has ended, is not a lost attempt whose late-evidence
    window is open, has no retained log row, and at least 32 other non-current
    attempts of the service are newer. *)
Theorem prune_deletes_only_old_summaries window now jobID db id a :
  db_attempts db !! id = Some a ->
  db_attempts (pruneServiceAttemptSummaries window now jobID db) !! id = None ->
  a_job_id a = jobID /\ is_Some (db_service_jobs db !! jobID)
  /\ db_jobs db !! jobID ≫= j_current_attempt_id <> Some id
  /\ active_attempt (a_state a) = false
  /\ ~ (a_state a = AttemptLost /\ now - window <= a_updated_ns a)
  /\ (forall l, l ∈ db_log_events db -> l_attempt_id l <> id)
  /\ (32 <= length (List.filter (key_ltb (a_created_ns a, id)) (non_current_keys db jobID)))%nat.
Proof.
  intros Ha Hgone.
  destruct (prune_cases window now jobID db) as [E|(floor & ids & Hs & Hf & Hids & E)]; rewrite E in Hgone; [by simplify_eq|].
  destruct (summary_prunable db jobID (now - window) ids id a) eqn:Hp.
  2:{ by rewrite (proj2 (delete_attempts_lookup _ _ _ _) (conj Ha Hp)) in Hgone. }
  unfold summary_prunable in Hp. rewrite !andb_true_iff, !negb_true_iff in Hp.
  destruct Hp as ((((((Hid & Hjob) & _) & Hcur) & Hact) & Hlost) & Hlog).
  apply bool_decide_eq_true in Hid, Hjob. apply bool_decide_eq_false in Hcur.
  destruct (Hids id Hid) as (k & Hk & <- & Hlt).
  split_and!; [done | by apply bool_decide_eq_true in Hs | | done | | | ].
  - intros Hc. apply Hcur. unfold current_or_empty. by rewrite Hc.
  - intros [Hl Hw]. rewrite Hl, bool_decide_true in Hlost by done. simpl in Hlost. by apply Z.leb_gt in Hlost; lia.
  - intros l Hl Heq.
    assert (Hx : existsb (fun l => bool_decide (l_attempt_id l = k.2)) (db_log_events db) = true); [|congruence].
    apply existsb_exists. exists l. by rewrite <- list_elem_of_In, bool_decide_eq_true.
  - rewrite <- (job_keys_lookup _ _ _ _ Hk Ha). by eapply below_floor_count.
Qed.

(** A service with 32 ended attempts and an older one, which is pruned. *)
Definition long_history_db : DB :=
  let ended := sample_attempt "svc" "node" "boot" AttemptFailed "1" 100 in
  empty_db <| db_attempts := <[ "old" := ended <| a_created_ns := 50 |> ]>
                (list_to_map (map (fun n : nat => ("new-" +:+ pretty n, ended)) (seq 0 32))) |>
           <| db_service_jobs := {[ "svc" := sample_service (Some "node") ]} |>.

Lemma prune_deletes_only_old_summaries_witness :
  let a := sample_attempt "svc" "node" "boot" AttemptFailed "1" 100 <| a_created_ns := 50 |> in
  a_job_id a = "svc" /\ is_Some (db_service_jobs long_history_db !! "svc")
  /\ db_jobs long_history_db !! "svc" ≫= j_current_attempt_id <> Some "old"
  /\ active_attempt (a_state a) = false
  /\ ~ (a_state a = AttemptLost /\ 1000 - 60 <= a_updated_ns a)
  /\ (forall l, l ∈ db_log_events long_history_db -> l_attempt_id l <> "old")
  /\ (32 <= length (List.filter (key_ltb (a_created_ns a, "old")) (non_current_keys long_history_db "svc")))%nat.
Proof. apply (prune_deletes_only_old_summaries 60 1000); vm_compute; reflexivity. Defined.
