(* ===== verification/LogRetention.v ===== *)
(** * Log retention

    [l1/log_retention.go]: the usage counters the triggers of [log_events] keep,
    oldest-first eviction under a budget, the per-job byte cap and the ceiling over
    all jobs.  A row of [log_events] holds the full event; the split of the stored
    document into payload and rest is the representation of that value. *)
From S2P Require Import Prelude Order States Contract GoStrings JobSpec L1Types RestartPolicy Database.
From S2P Require Import LeaseClock Authority Summaries.
#[local] Open Scope string_scope.
#[local] Open Scope list_scope.
#[local] Open Scope Z_scope.

Definition logEvictionBatch : Z := 512.
Definition MaxLogBatchEvents : Z := 256.
Definition MaxLogEventBytes : Z := Z.shiftl 4 20.
Definition MaxLogUploadBodyBytes : Z := Z.shiftl 20 20.
Definition sweepEvictionEvents : Z := 4096.
Definition sweepEvictionBytes : Z := Z.shiftl 64 20.
Definition appendEvictionEvents : Z := 2 * MaxLogBatchEvents.
Definition appendEvictionBytes : Z := 2 * MaxLogUploadBodyBytes.

Definition LogRetentionAge : string := "age".
Definition LogRetentionBytes : string := "bytes".
Definition LogRetentionTotal : string := "total".

(** The bounds a store is opened with. *)
Record log_bounds := mklog_bounds {
  lb_oneshotBytes : Z;
  lb_oneshotAge : Z;
  lb_totalBytes : Z;
  lb_serviceBytes : Z;
  lb_serviceAge : Z
}.

(** ** Rows and their usage counters *)
Definition row_bytes (r : LogRow) : Z := strlen (l_bytes r).

(** [INSERT INTO log_events] with the trigger [log_events_usage_insert]; the
    ordinal is the next of an AUTOINCREMENT key. *)
Definition insert_log_event (jobID attemptID stream : string) (sequence end_ timestamp : Z) (payload : string)
    (event : LogEvent) (db : DB) : DB :=
  let r := mkLogRow (db_next_ordinal db) jobID attemptID stream sequence end_ timestamp payload event in
  db <| db_log_events := db_log_events db ++ [r] |>
     <| db_next_ordinal := db_next_ordinal db + 1 |>
     <| db_log_usage := <[jobID := default 0 (db_log_usage db !! jobID) + row_bytes r]> (db_log_usage db) |>
     <| db_log_usage_total := db_log_usage_total db + row_bytes r |>.

(** The trigger [log_events_usage_delete] for one deleted row. *)
Definition usage_delete (r : LogRow) (db : DB) : DB :=
  db <| db_log_usage := alter (fun u => Z.max (u - row_bytes r) 0) (l_job_id r) (db_log_usage db) |>
     <| db_log_usage_total := Z.max (db_log_usage_total db - row_bytes r) 0 |>.

(** [DELETE FROM log_events WHERE ordinal=?] *)
Definition delete_log_row (ordinal : Z) (db : DB) : DB :=
  let gone := List.filter (fun r => l_ordinal r =? ordinal) (db_log_events db) in
  fold_left (fun db r => usage_delete r db) gone
    (db <| db_log_events := List.filter (fun r => negb (l_ordinal r =? ordinal)) (db_log_events db) |>).

(** ** Budgets and statistics *)
Record evictionBudget := mkevictionBudget { eb_events : Z; eb_bytes : Z }.
#[export] Instance evictionBudget_eta : Eta evictionBudget := fun r => mkevictionBudget (eb_events r) (eb_bytes r).

Definition sweepEvictionBudget : evictionBudget := mkevictionBudget sweepEvictionEvents sweepEvictionBytes.
Definition appendEvictionBudget : evictionBudget := mkevictionBudget appendEvictionEvents appendEvictionBytes.

Definition exhausted (budget : evictionBudget) : bool := (eb_events budget <=? 0) || (eb_bytes budget <=? 0).

Record logRetentionStats := mklogRetentionStats { st_events : Z; st_bytes : Z; st_throughOrdinal : Z }.
#[export] Instance logRetentionStats_eta : Eta logRetentionStats := fun r =>
  mklogRetentionStats (st_events r) (st_bytes r) (st_throughOrdinal r).
Definition no_stats : logRetentionStats := mklogRetentionStats 0 0 0.

Definition stats_add (stats other : logRetentionStats) : logRetentionStats :=
  mklogRetentionStats (st_events stats + st_events other) (st_bytes stats + st_bytes other)
    (Z.max (st_throughOrdinal stats) (st_throughOrdinal other)).

(** The state of one eviction: what is left, what is gone, and the store. *)
Record eviction := mkeviction {
  ev_budget : evictionBudget;
  ev_freed : Z;
  ev_perJob : gmap string logRetentionStats;
  ev_db : DB
}.
#[export] Instance eviction_eta : Eta eviction := fun r =>
  mkeviction (ev_budget r) (ev_freed r) (ev_perJob r) (ev_db r).

(** [deleteLogEvent]: the row goes and its job's statistics count it. *)
Definition deleteLogEvent (candidate : LogRow) (stats : logRetentionStats) (db : DB) : logRetentionStats * DB :=
  let changed := Z.of_nat (length (List.filter (fun r => l_ordinal r =? l_ordinal candidate) (db_log_events db))) in
  if changed =? 0 then (stats, db)
  else (mklogRetentionStats (st_events stats + changed) (st_bytes stats + row_bytes candidate)
          (Z.max (st_throughOrdinal stats) (l_ordinal candidate)),
        delete_log_row (l_ordinal candidate) db).

(** Evict one candidate that fits. *)
Definition evict_row (candidate : LogRow) (e : eviction) : bool * eviction :=
  let stats := default no_stats (ev_perJob e !! l_job_id candidate) in
  let '(stats', db) := deleteLogEvent candidate stats (ev_db e) in
  let e := e <| ev_perJob := <[l_job_id candidate := stats']> (ev_perJob e) |> <| ev_db := db |> in
  if st_events stats <? st_events stats'
  then (true, e <| ev_freed := ev_freed e + row_bytes candidate |>
                <| ev_budget := mkevictionBudget (eb_events (ev_budget e) - 1)
                                  (eb_bytes (ev_budget e) - row_bytes candidate) |>)
  else (false, e).

Definition eviction_done (byteTarget : Z) (e : eviction) : bool :=
  exhausted (ev_budget e) || ((0 <=? byteTarget) && (byteTarget <=? ev_freed e)).

(** The inner loop over one batch; [true] first means the routine returned. *)
Fixpoint evict_batch (byteTarget : Z) (candidates : list LogRow) (deleted : Z) (e : eviction) : bool * Z * eviction :=
  match candidates with
  | [] => (false, deleted, e)
  | c :: candidates =>
      if eviction_done byteTarget e then (true, deleted, e)
      else if eb_bytes (ev_budget e) <? row_bytes c
      then (true, deleted, e <| ev_budget := (ev_budget e) <| eb_bytes := 0 |> |>)
      else let '(gone, e) := evict_row c e in
           evict_batch byteTarget candidates (if gone then deleted + 1 else deleted) e
  end.

(** Rows by event timestamp, then insertion. *)
Definition age_le (a b : LogRow) : Prop :=
  l_timestamp_ns a < l_timestamp_ns b \/ (l_timestamp_ns a = l_timestamp_ns b /\ l_ordinal a <= l_ordinal b).
#[export] Instance age_le_dec a b : Decision (age_le a b).
Proof. unfold age_le. apply _. Defined.
#[export] Instance age_le_trans : Transitive age_le.
Proof. intros a b c. unfold age_le. lia. Qed.
#[export] Instance age_le_total : Total age_le.
Proof. intros a b. unfold age_le. lia. Qed.

(** [logEvictionCandidates] without its limit: one job in insertion order, or
    every job by event timestamp.  No caller passes an extra predicate. *)
Definition eviction_order (jobID : string) (db : DB) : list LogRow :=
  if bool_decide (jobID = "") then merge_sort age_le (db_log_events db)
  else List.filter (fun r => bool_decide (l_job_id r = jobID)) (db_log_events db).

Definition logEvictionCandidates (jobID : string) (limit : Z) (db : DB) : list LogRow :=
  firstn (Z.to_nat limit) (eviction_order jobID db).

(** [evictLogEvents], its outer loop on fuel: every further round deletes a row. *)
Fixpoint evict_rounds (fuel : nat) (jobID : string) (byteTarget : Z) (e : eviction) : eviction :=
  match fuel with
  | O => e
  | S fuel =>
      if eviction_done byteTarget e then e
      else
      let limit := Z.min (eb_events (ev_budget e)) logEvictionBatch in
      let candidates := logEvictionCandidates jobID limit (ev_db e) in
      let '(returned, deleted, e) := evict_batch byteTarget candidates 0 e in
      if returned then e
      else if (Z.of_nat (length candidates) <? limit) || (deleted =? 0) then e
      else evict_rounds fuel jobID byteTarget e
  end.

Definition evictLogEvents (jobID : string) (budget : evictionBudget) (byteTarget : Z) (db : DB) : eviction :=
  evict_rounds (S (length (db_log_events db))) jobID byteTarget (mkeviction budget 0 ∅ db).

(** ** Truncation markers *)
Definition earliest_retained (jobID : string) (db : DB) : option Z :=
  match map l_timestamp_ns (List.filter (fun r => bool_decide (l_job_id r = jobID)) (db_log_events db)) with
  | [] => None
  | t :: ts => Some (fold_left Z.min ts t)
  end.

Definition refreshLogTruncation (jobID : string) (now : Z) (db : DB) : DB :=
  db <| db_log_truncations :=
       alter (fun t => if bool_decide (t_earliest_retained_ns t = earliest_retained jobID db) then t
                       else t <| t_earliest_retained_ns := earliest_retained jobID db |> <| t_updated_ns := now |>)
         jobID (db_log_truncations db) |>.

Definition recordLogTruncation (jobID bound : string) (stats : logRetentionStats) (now : Z) (db : DB) : DB :=
  if st_events stats =? 0 then db
  else
  let earliest := earliest_retained jobID db in
  let row := match db_log_truncations db !! jobID with
             | None => mkTruncationRow bound (st_events stats) (st_bytes stats) (st_throughOrdinal stats) earliest now
             | Some t => mkTruncationRow bound (t_evicted_event_count t + st_events stats)
                           (t_evicted_byte_count t + st_bytes stats)
                           (Z.max (t_evicted_through_ordinal t) (st_throughOrdinal stats)) earliest now
             end in
  db <| db_log_truncations := <[jobID := row]> (db_log_truncations db) |>.

Definition recordLogTruncations (perJob : gmap string logRetentionStats) (bound : string) (now : Z) (db : DB) :
    logRetentionStats * DB :=
  let jobIDs := sort_by (fun id => (0, id)) (map_to_list perJob).*1 in
  fold_left (fun '(total, db) jobID =>
    let stats := default no_stats (perJob !! jobID) in
    (stats_add total stats, recordLogTruncation jobID bound stats now db)) jobIDs (no_stats, db).

(** ** The bounds *)
Section Bounds.
Context (bounds : log_bounds).

Definition enforceJobLogByteRetention (jobID : string) (now : Z) (budget : evictionBudget) (db : DB) :
    logRetentionStats * evictionBudget * DB :=
  let limit := if jobIsService db jobID then lb_serviceBytes bounds else lb_oneshotBytes bounds in
  let retainedBytes := default 0 (db_log_usage db !! jobID) in
  if retainedBytes <=? limit then (no_stats, budget, refreshLogTruncation jobID now db)
  else
  let e := evictLogEvents jobID budget (retainedBytes - limit) db in
  let '(stats, db) := recordLogTruncations (ev_perJob e) LogRetentionBytes now (ev_db e) in
  (stats, ev_budget e, db).

Definition enforceLogRetentionTotal (now : Z) (budget : evictionBudget) (db : DB) :
    logRetentionStats * evictionBudget * DB :=
  let excess := db_log_usage_total db - lb_totalBytes bounds in
  if excess <=? 0 then (no_stats, budget, db)
  else
  let e := evictLogEvents "" budget excess db in
  let '(stats, db) := recordLogTruncations (ev_perJob e) LogRetentionTotal now (ev_db e) in
  (stats, ev_budget e, db).
End Bounds.

(** ** What the table keeps

    Ordinals grow with insertion, and the counters count the retained bytes. *)
Definition total_bytes (rows : list LogRow) : Z := fold_right (fun r n => row_bytes r + n) 0 rows.
Definition of_job (jobID : string) (r : LogRow) : bool := bool_decide (l_job_id r = jobID).

Record log_ok (db : DB) : Prop := {
  ok_ordinals : StronglySorted Z.lt (map l_ordinal (db_log_events db));
  ok_next : Forall (fun r => l_ordinal r < db_next_ordinal db) (db_log_events db);
  ok_usage : forall jobID, default 0 (db_log_usage db !! jobID) = total_bytes (List.filter (of_job jobID) (db_log_events db));
  ok_total : db_log_usage_total db = total_bytes (db_log_events db)
}.

Lemma total_bytes_app l k : total_bytes (l ++ k) = total_bytes l + total_bytes k.
Proof. induction l as [|r l IH]; simpl; [done | rewrite IH; lia]. Qed.

Lemma row_bytes_nonneg r : 0 <= row_bytes r.
Proof. unfold row_bytes, strlen. lia. Qed.

Lemma total_bytes_nonneg l : 0 <= total_bytes l.
Proof. induction l as [|r l IH]; simpl; [lia|]. assert (H := row_bytes_nonneg r). lia. Qed.

Lemma sorted_lt_nodup l : StronglySorted Z.lt l -> NoDup l.
Proof.
  induction 1 as [|x l _ IH Hx]; constructor; [|done]. intros Hin. rewrite Forall_forall in Hx. specialize (Hx x Hin). lia.
Qed.

(** Removing one ordinal from rows with distinct ordinals. *)
Lemma remove_ordinal l1 r l2 :
  NoDup (map l_ordinal (l1 ++ r :: l2)) ->
  List.filter (fun x => negb (l_ordinal x =? l_ordinal r)) (l1 ++ r :: l2) = l1 ++ l2
  /\ List.filter (fun x => l_ordinal x =? l_ordinal r) (l1 ++ r :: l2) = [r].
Proof.
  rewrite map_app. simpl. intros (_ & Hd & Hn)%NoDup_app. apply NoDup_cons in Hn as [Hr _].
  assert (N : forall x, x ∈ l1 \/ x ∈ l2 -> (l_ordinal x =? l_ordinal r) = false).
  { intros x Hx. apply Z.eqb_neq. intros E. destruct Hx as [Hx|Hx].
    - apply (Hd (l_ordinal x)); [apply list_elem_of_In, in_map, list_elem_of_In, Hx | rewrite E; by left].
    - apply Hr. rewrite <- E. by apply list_elem_of_In, in_map, list_elem_of_In. }
  assert (F1 : Forall (fun x => (l_ordinal x =? l_ordinal r) = false) l1) by (apply Forall_forall; auto).
  assert (F2 : Forall (fun x => (l_ordinal x =? l_ordinal r) = false) l2) by (apply Forall_forall; auto).
  rewrite !List.filter_app. simpl. rewrite Z.eqb_refl. simpl.
  rewrite (list_filter_false _ l1 F1), (list_filter_false _ l2 F2). split; [|done].
  rewrite !list_filter_true; [done|..]; eapply Forall_impl; eauto; simpl; by intros x ->.
Qed.

Lemma log_ok_nodup db : log_ok db -> NoDup (map l_ordinal (db_log_events db)).
Proof. intros H. apply sorted_lt_nodup, H. Qed.

Lemma StronglySorted_remove {A} (R : A -> A -> Prop) l1 x l2 :
  StronglySorted R (l1 ++ x :: l2) -> StronglySorted R (l1 ++ l2).
Proof.
  induction l1 as [|y l1 IH]; simpl; intros H; apply StronglySorted_inv in H as [H Hf]; [done|].
  constructor; [by apply IH|]. rewrite Forall_app in *. destruct Hf as [? Hf]. split; [done|]. by inversion Hf.
Qed.

(** Deleting a retained row keeps the counters exact. *)
Lemma delete_row_ok r db :
  log_ok db -> r ∈ db_log_events db ->
  exists l1 l2, db_log_events db = l1 ++ r :: l2 /\ db_log_events (delete_log_row (l_ordinal r) db) = l1 ++ l2
    /\ log_ok (delete_log_row (l_ordinal r) db)
    /\ length (List.filter (fun x => l_ordinal x =? l_ordinal r) (db_log_events db)) = 1%nat.
Proof.
  intros H Hr. apply list_elem_of_split in Hr as (l1 & l2 & E). exists l1, l2.
  assert (Hn := log_ok_nodup _ H). rewrite E in Hn. destruct (remove_ordinal _ _ _ Hn) as [E1 E2].
  destruct H as [Hs Hx Hu Ht]. rewrite E in Hs, Hx, Hu, Ht. unfold delete_log_row. rewrite E, E1, E2. simpl.
  split_and!; try done. split; simpl.
  - rewrite map_app in *. simpl in Hs. by eapply StronglySorted_remove.
  - rewrite Forall_app, Forall_cons in Hx. rewrite Forall_app. tauto.
  - intros jobID. specialize (Hu jobID). rewrite List.filter_app in Hu |- *. simpl in Hu. rewrite total_bytes_app in Hu |- *.
    assert (P1 := total_bytes_nonneg (List.filter (of_job jobID) l1)).
    assert (P2 := total_bytes_nonneg (List.filter (of_job jobID) l2)). assert (P3 := row_bytes_nonneg r).
    unfold of_job at 2 in Hu. destruct (decide (l_job_id r = jobID)) as [<-|Ne].
    + rewrite bool_decide_eq_true_2 in Hu by done. simpl in Hu. rewrite lookup_alter_eq.
      destruct (db_log_usage db !! l_job_id r); simpl in *; lia.
    + rewrite bool_decide_eq_false_2 in Hu by done. rewrite lookup_alter_ne by done. exact Hu.
  - rewrite Ht, !total_bytes_app. simpl. assert (P1 := total_bytes_nonneg l1). assert (P2 := total_bytes_nonneg l2). lia.
Qed.

(** ** Eviction order *)
Lemma eviction_order_perm jobID db x : x ∈ eviction_order jobID db -> x ∈ db_log_events db.
Proof.
  unfold eviction_order. case_bool_decide; [by rewrite merge_sort_Permutation|].
  rewrite !list_elem_of_In, filter_In. tauto.
Qed.

Lemma ordinal_inj rows a b :
  NoDup (map l_ordinal rows) -> a ∈ rows -> b ∈ rows -> l_ordinal a = l_ordinal b -> a = b.
Proof.
  intros Hn (l1 & l2 & ->)%list_elem_of_split Hb E. rewrite elem_of_app, elem_of_cons in Hb.
  rewrite map_app in Hn. simpl in Hn. apply NoDup_app in Hn as (_ & Hd & Hn). apply NoDup_cons in Hn as [Hr _].
  destruct Hb as [Hb|[->|Hb]]; [|done|].
  - exfalso. apply (Hd (l_ordinal b)); [by apply list_elem_of_In, in_map, list_elem_of_In | rewrite <- E; by left].
  - exfalso. apply Hr. rewrite E. by apply list_elem_of_In, in_map, list_elem_of_In.
Qed.

Lemma merge_sort_filter (p : LogRow -> bool) rows :
  NoDup (map l_ordinal rows) -> merge_sort age_le (List.filter p rows) = List.filter p (merge_sort age_le rows).
Proof.
  intros Hn. eapply (StronglySorted_unique_strong age_le).
  - intros a b Ha Hb H1 H2. rewrite merge_sort_Permutation, list_elem_of_In, filter_In in Ha.
    rewrite list_elem_of_In, filter_In in Hb. destruct Ha as [Ha _], Hb as [Hb _].
    apply list_elem_of_In in Ha, Hb. rewrite merge_sort_Permutation in Hb.
    apply (ordinal_inj rows); try done. unfold age_le in *. lia.
  - apply StronglySorted_merge_sort; apply _.
  - apply sorted_filter, StronglySorted_merge_sort; apply _.
  - rewrite merge_sort_Permutation. apply list_filter_perm. by rewrite merge_sort_Permutation.
Qed.

(** The first row of the order goes, and the rest keeps its order. *)
Lemma eviction_order_delete jobID r rest db :
  log_ok db -> eviction_order jobID db = r :: rest ->
  eviction_order jobID (delete_log_row (l_ordinal r) db) = rest.
Proof.
  intros H E. assert (Hr : r ∈ db_log_events db) by (apply (eviction_order_perm jobID); rewrite E; by left).
  destruct (delete_row_ok r db H Hr) as (l1 & l2 & E0 & E1 & _).
  assert (Hn := log_ok_nodup _ H).
  assert (E2 : db_log_events (delete_log_row (l_ordinal r) db)
               = List.filter (fun x => negb (l_ordinal x =? l_ordinal r)) (db_log_events db)).
  { rewrite E1, E0. rewrite E0 in Hn. by rewrite (proj1 (remove_ordinal _ _ _ Hn)). }
  assert (Hno : NoDup (map l_ordinal (eviction_order jobID db))).
  { unfold eviction_order. case_bool_decide.
    - by rewrite (Permutation_map l_ordinal (merge_sort_Permutation age_le _)).
    - apply sorted_lt_nodup. destruct H as [Hs _ _ _]. clear -Hs. induction (db_log_events db) as [|x l IH]; simpl; [constructor|].
      simpl in Hs. apply StronglySorted_inv in Hs as [Hs Hf]. case_match; simpl; [|by apply IH].
      constructor; [by apply IH|]. rewrite Forall_forall in *. intros y Hy. apply Hf.
      apply list_elem_of_In, in_map_iff in Hy as (z & <- & [Hz _]%filter_In). by apply list_elem_of_In, in_map. }
  rewrite E in Hno. apply (remove_ordinal [] r rest) in Hno as [Hrest _]. simpl app in Hrest. rewrite <- Hrest, <- E.
  unfold eviction_order. case_bool_decide; rewrite E2.
  - by apply merge_sort_filter.
  - apply filter_filter_comm.
Qed.

(** ** The batched loop is one pass over the order *)
Lemma evict_row_present c e :
  log_ok (ev_db e) -> c ∈ db_log_events (ev_db e) ->
  exists stats, evict_row c e
    = (true, mkeviction (mkevictionBudget (eb_events (ev_budget e) - 1) (eb_bytes (ev_budget e) - row_bytes c))
               (ev_freed e + row_bytes c) (<[l_job_id c := stats]> (ev_perJob e)) (delete_log_row (l_ordinal c) (ev_db e)))
    /\ let old := default no_stats (ev_perJob e !! l_job_id c) in
       stats = mklogRetentionStats (st_events old + 1) (st_bytes old + row_bytes c) (Z.max (st_throughOrdinal old) (l_ordinal c)).
Proof.
  intros H Hc. destruct (delete_row_ok c _ H Hc) as (_ & _ & _ & _ & _ & Hone). eexists. split; [|reflexivity].
  unfold evict_row, deleteLogEvent. rewrite Hone. generalize (default no_stats (ev_perJob e !! l_job_id c)). intros old.
  change (Z.of_nat 1) with 1. simpl. rewrite (proj2 (Z.ltb_lt (st_events old) (st_events old + 1))) by lia. reflexivity.
Qed.

Lemma evict_batch_app target l1 l2 deleted e :
  evict_batch target (l1 ++ l2) deleted e
  = let '(returned, deleted', e') := evict_batch target l1 deleted e in
    if returned then (returned, deleted', e') else evict_batch target l2 deleted' e'.
Proof.
  revert deleted e. induction l1 as [|c l1 IH]; intros deleted e; simpl; [done|].
  repeat (case_match; try done).
Qed.

Lemma evict_batch_done target l deleted e :
  eviction_done target e = true -> (evict_batch target l deleted e).2 = e.
Proof. destruct l; simpl; [done|]. by intros ->. Qed.

(** A batch that runs to its end has deleted exactly its rows. *)
Lemma evict_batch_all jobID target l1 l2 deleted e deleted' e' :
  log_ok (ev_db e) -> eviction_order jobID (ev_db e) = l1 ++ l2 ->
  evict_batch target l1 deleted e = (false, deleted', e') ->
  log_ok (ev_db e') /\ eviction_order jobID (ev_db e') = l2 /\ deleted' = deleted + Z.of_nat (length l1)
  /\ length (db_log_events (ev_db e)) = (length l1 + length (db_log_events (ev_db e')))%nat.
Proof.
  revert deleted e. induction l1 as [|c l1 IH]; intros deleted e H E Hb; simpl in Hb.
  { simplify_eq. split_and!; try done. simpl. lia. }
  destruct (eviction_done target e); [done|]. destruct (_ <? _); [done|].
  assert (Hc : c ∈ db_log_events (ev_db e)) by (apply (eviction_order_perm jobID); rewrite E; by left).
  destruct (evict_row_present c e H Hc) as (stats & Hrow & _). rewrite Hrow in Hb.
  destruct (delete_row_ok c _ H Hc) as (k1 & k2 & E0 & E1 & H1 & _).
  apply IH in Hb as (H2 & E2 & -> & Hlen); [|done|by apply eviction_order_delete].
  split_and!; try done; [simpl; lia|]. simpl in Hlen. rewrite E0, E1, !length_app in *. simpl. lia.
Qed.

Lemma evict_rounds_one_pass fuel jobID target e :
  log_ok (ev_db e) -> (length (db_log_events (ev_db e)) < fuel)%nat ->
  evict_rounds fuel jobID target e = (evict_batch target (eviction_order jobID (ev_db e)) 0 e).2.
Proof.
  revert e. induction fuel as [|fuel IH]; intros e H Hf; [lia|]. simpl.
  destruct (eviction_done target e) eqn:Hd; [by rewrite evict_batch_done|].
  set (limit := Z.min (eb_events (ev_budget e)) logEvictionBatch).
  assert (Hl : 0 < limit).
  { unfold eviction_done, exhausted in Hd. apply orb_false_iff in Hd as [[Hd _]%orb_false_iff _].
    apply Z.leb_gt in Hd. unfold limit, logEvictionBatch. lia. }
  unfold logEvictionCandidates. set (order := eviction_order jobID (ev_db e)).
  rewrite <- (firstn_skipn (Z.to_nat limit) order) at 2. rewrite evict_batch_app.
  destruct (evict_batch target (firstn (Z.to_nat limit) order) 0 e) as [[returned deleted] e'] eqn:Hb.
  destruct returned; [done|].
  destruct (evict_batch_all jobID _ _ (skipn (Z.to_nat limit) order) _ _ _ _ H ltac:(by rewrite firstn_skipn) Hb)
    as (H' & E' & -> & Hlen).
  destruct (Z.ltb_spec (Z.of_nat (length (firstn (Z.to_nat limit) order))) limit) as [Hs|Hs]; simpl.
  - rewrite skipn_all2; [done|]. rewrite length_firstn in Hs. lia.
  - destruct (Z.eqb_spec (0 + Z.of_nat (length (firstn (Z.to_nat limit) order))) 0); [lia|].
    rewrite IH; [|done|lia]. rewrite E'. 
    assert (Hdel : forall l d1 d2 x, (evict_batch target l d1 x).2 = (evict_batch target l d2 x).2).
    { clear. induction l as [|c l IH]; intros d1 d2 x; simpl; [done|]. repeat (case_match; try done); apply IH. }
    apply Hdel.
Qed.

(** How many rows one pass removes. *)
Fixpoint evict_count (byteTarget freed events bytes : Z) (rows : list LogRow) : nat :=
  match rows with
  | [] => O
  | r :: rows =>
      if (events <=? 0) || (bytes <=? 0) || ((0 <=? byteTarget) && (byteTarget <=? freed)) || (bytes <? row_bytes r) then O
      else S (evict_count byteTarget (freed + row_bytes r) (events - 1) (bytes - row_bytes r) rows)
  end.

(** What one pass over the order leaves behind. *)
Definition stats_of (e : eviction) (jobID : string) : logRetentionStats := default no_stats (ev_perJob e !! jobID).

Record evicted (jobID : string) (e : eviction) (rows : list LogRow) (k : nat) (e' : eviction) : Prop := {
  evicted_ok : log_ok (ev_db e');
  evicted_order : eviction_order jobID (ev_db e') = drop k rows;
  evicted_freed : ev_freed e' = ev_freed e + total_bytes (take k rows);
  evicted_rows : db_log_events (ev_db e')
    = List.filter (fun r => negb (bool_decide (l_ordinal r ∈ map l_ordinal (take k rows)))) (db_log_events (ev_db e));
  evicted_frame : exists rows' usage total,
    ev_db e' = ev_db e <| db_log_events := rows' |> <| db_log_usage := usage |> <| db_log_usage_total := total |>;
  evicted_counts : forall id,
    st_events (stats_of e' id) = st_events (stats_of e id) + Z.of_nat (length (List.filter (of_job id) (take k rows)))
    /\ st_bytes (stats_of e' id) = st_bytes (stats_of e id) + total_bytes (List.filter (of_job id) (take k rows))
}.

Lemma evicted_none jobID e rows : log_ok (ev_db e) -> eviction_order jobID (ev_db e) = rows ->
  forall b, evicted jobID e rows 0 (e <| ev_budget := b |>).
Proof.
  intros H E b. split; simpl; try done; try lia.
  - rewrite list_filter_true; [done|]. by apply Forall_forall.
  - exists (db_log_events (ev_db e)), (db_log_usage (ev_db e)), (db_log_usage_total (ev_db e)). by destruct (ev_db e).
  - intros id. unfold stats_of. simpl. split; lia.
Qed.

Lemma evicted_refl jobID e rows : log_ok (ev_db e) -> eviction_order jobID (ev_db e) = rows -> evicted jobID e rows 0 e.
Proof. intros H E. assert (He := evicted_none jobID e rows H E (ev_budget e)). by destruct e. Qed.

Lemma evicted_cons jobID e c rows k e' stats budget :
  log_ok (ev_db e) -> eviction_order jobID (ev_db e) = c :: rows ->
  stats = mklogRetentionStats (st_events (stats_of e (l_job_id c)) + 1) (st_bytes (stats_of e (l_job_id c)) + row_bytes c)
            (Z.max (st_throughOrdinal (stats_of e (l_job_id c))) (l_ordinal c)) ->
  evicted jobID (mkeviction budget (ev_freed e + row_bytes c) (<[l_job_id c := stats]> (ev_perJob e))
                   (delete_log_row (l_ordinal c) (ev_db e))) rows k e' ->
  evicted jobID e (c :: rows) (S k) e'.
Proof.
  intros H E Hst [Hok Ho Hf Hr (rows' & usage & total & Hfr) Hc].
  assert (Hin : c ∈ db_log_events (ev_db e)) by (apply (eviction_order_perm jobID); rewrite E; by left).
  destruct (delete_row_ok c _ H Hin) as (l1 & l2 & E0 & E1 & _).
  split; simpl in *; try done; try lia.
  - rewrite Hr, E1. assert (Hn := log_ok_nodup _ H). rewrite E0 in Hn |- *.
    rewrite map_app in Hn. simpl in Hn. apply NoDup_app in Hn as (_ & Hd & Hn). apply NoDup_cons in Hn as [Hc' _].
    rewrite !List.filter_app. simpl. rewrite (bool_decide_eq_true_2 (l_ordinal c ∈ _)) by (by left). simpl.
    assert (P : forall l, (forall x, x ∈ l -> l_ordinal x <> l_ordinal c) ->
      List.filter (fun r => negb (bool_decide (l_ordinal r ∈ map l_ordinal (take k rows)))) l
      = List.filter (fun r => negb (bool_decide (l_ordinal r ∈ l_ordinal c :: map l_ordinal (take k rows)))) l).
    { intros l Hl. apply filter_ext_in. intros x Hx%list_elem_of_In. f_equal. apply bool_decide_ext.
      rewrite elem_of_cons. split; [auto|]. intros [?|?]; [by destruct (Hl x)|done]. }
    rewrite (P l1), (P l2); [done| |].
    + intros x Hx Ex. apply Hc'. rewrite <- Ex. by apply list_elem_of_In, in_map, list_elem_of_In.
    + intros x Hx Ex. apply (Hd (l_ordinal x)); [by apply list_elem_of_In, in_map, list_elem_of_In | rewrite Ex; by left].
  - exists rows', usage, total. rewrite Hfr. unfold delete_log_row. 
    set (gone := List.filter _ _). clear. induction gone as [|g gone IH] using rev_ind; simpl; [done|].
    rewrite fold_left_app. simpl. exact IH.
  - intros id. destruct (Hc id) as [C1 C2]. rewrite C1, C2. clear Hc C1 C2 Hfr. unfold stats_of in *. simpl.
    destruct (decide (l_job_id c = id)) as [<-|Ne].
    + rewrite lookup_insert_eq. replace (of_job (l_job_id c) c) with true by (unfold of_job; by rewrite bool_decide_eq_true_2).
      subst stats. simpl length. simpl total_bytes. simpl default. simpl. lia.
    + rewrite lookup_insert_ne by done.
      replace (of_job id c) with false by (unfold of_job; by rewrite bool_decide_eq_false_2). lia.
Qed.

Lemma evict_pass jobID target d e rows :
  log_ok (ev_db e) -> eviction_order jobID (ev_db e) = rows ->
  let e' := (evict_batch target rows d e).2 in
  let k := evict_count target (ev_freed e) (eb_events (ev_budget e)) (eb_bytes (ev_budget e)) rows in
  evicted jobID e rows k e'
  /\ (k = length rows \/ exhausted (ev_budget e') = true \/ (0 <= target /\ target <= ev_freed e')).
Proof.
  revert d e. induction rows as [|c rows IH]; intros d e H E; simpl.
  { split; [by apply evicted_refl | by left]. }
  assert (Hcond : (eb_events (ev_budget e) <=? 0) || (eb_bytes (ev_budget e) <=? 0)
                  || (0 <=? target) && (target <=? ev_freed e) = eviction_done target e) by done.
  rewrite Hcond. clear Hcond. destruct (eviction_done target e) eqn:Hd; simpl.
  { split; [by apply evicted_refl | right].
    apply orb_true_iff in Hd as [Hd|[? ?]%andb_true_iff]; [left; exact Hd | right; lia]. }
  destruct (eb_bytes (ev_budget e) <? row_bytes c) eqn:Hfit; simpl.
  { split; [by apply evicted_none|]. right; left. unfold exhausted. simpl. by rewrite orb_true_r. }
  assert (Hin : c ∈ db_log_events (ev_db e)) by (apply (eviction_order_perm jobID); rewrite E; by left).
  destruct (evict_row_present c e H Hin) as (stats & Hrow & Hst). rewrite Hrow.
  destruct (delete_row_ok c _ H Hin) as (_ & _ & _ & _ & H1 & _).
  match goal with |- context [evict_batch target rows _ ?e1] =>
    destruct (IH (d + 1) e1 H1 (eviction_order_delete _ _ _ _ H E)) as [Hev Hstop] end. simpl in Hev, Hstop.
  split; [by eapply evicted_cons|]. destruct Hstop as [-> | Hstop]; auto.
Qed.

Lemma evictLogEvents_spec jobID budget target db :
  log_ok db ->
  let rows := eviction_order jobID db in
  let e := evictLogEvents jobID budget target db in
  let k := evict_count target 0 (eb_events budget) (eb_bytes budget) rows in
  evicted jobID (mkeviction budget 0 ∅ db) rows k e
  /\ (k = length rows \/ exhausted (ev_budget e) = true \/ (0 <= target /\ target <= ev_freed e)).
Proof.
  intros H. unfold evictLogEvents. rewrite evict_rounds_one_pass; [|done|simpl; lia].
  by apply (evict_pass jobID target 0 (mkeviction budget 0 ∅ db)).
Qed.

Lemma evict_count_minimal target freed events bytes rows :
  0 <= target -> freed < target \/ evict_count target freed events bytes rows = O ->
  evict_count target freed events bytes rows <> O ->
  freed + total_bytes (take (pred (evict_count target freed events bytes rows)) rows) < target.
Proof.
  intros Ht. revert freed events bytes. induction rows as [|r rows IH]; intros freed events bytes Hs Hk; [done|].
  simpl in *. destruct (_ || _ || _ || _) eqn:Hc; [done|]. simpl.
  set (k := evict_count target (freed + row_bytes r) (events - 1) (bytes - row_bytes r) rows) in *.
  destruct k as [|k'] eqn:Ek; simpl; [destruct Hs; [lia | done]|].
  assert (Hlt : freed + row_bytes r < target).
  { destruct (Z.ltb_spec (freed + row_bytes r) target); [done|]. subst k. exfalso. destruct rows as [|r' rows]; [done|]. simpl in Ek.
    rewrite (proj2 (Z.leb_le 0 target)) in Ek by done. rewrite (proj2 (Z.leb_le target (freed + row_bytes r))) in Ek by done.
    simpl in Ek. rewrite orb_true_r in Ek. done. }
  specialize (IH (freed + row_bytes r) (events - 1) (bytes - row_bytes r) (or_introl Hlt)). fold k in IH. rewrite Ek in IH.
  specialize (IH ltac:(done)). simpl in IH. lia.
Qed.

(** ** Truncation markers count what went *)
Definition evicted_counts_of (db : DB) (jobID : string) : Z * Z :=
  match db_log_truncations db !! jobID with
  | Some t => (t_evicted_event_count t, t_evicted_byte_count t)
  | None => (0, 0)
  end.

Lemma record_one_counts jobID bound stats now db id :
  (st_events stats = 0 -> st_bytes stats = 0) ->
  evicted_counts_of (recordLogTruncation jobID bound stats now db) id
  = if bool_decide (id = jobID)
    then ((evicted_counts_of db id).1 + st_events stats, (evicted_counts_of db id).2 + st_bytes stats)
    else evicted_counts_of db id.
Proof.
  intros H0. unfold recordLogTruncation, evicted_counts_of. destruct (Z.eqb_spec (st_events stats) 0) as [E|E].
  - rewrite E, (H0 E). case_bool_decide; [|done]. case_match; simpl; f_equal; lia.
  - simpl. case_bool_decide as Hid.
    + subst. rewrite lookup_insert_eq. destruct (db_log_truncations db !! jobID); simpl; f_equal; lia.
    + by rewrite lookup_insert_ne.
Qed.

Lemma record_counts perJob bound now db :
  (forall id stats, perJob !! id = Some stats -> st_events stats = 0 -> st_bytes stats = 0) ->
  let db' := (recordLogTruncations perJob bound now db).2 in
  (exists truncations, db' = db <| db_log_truncations := truncations |>)
  /\ forall id, evicted_counts_of db' id
       = ((evicted_counts_of db id).1 + st_events (default no_stats (perJob !! id)),
          (evicted_counts_of db id).2 + st_bytes (default no_stats (perJob !! id))).
Proof.
  intros H0. unfold recordLogTruncations. set (ids := sort_by (fun id => (0, id)) (map_to_list perJob).*1).
  assert (Hn : NoDup ids) by (unfold ids; rewrite sort_by_perm; apply NoDup_fst_map_to_list).
  assert (Hd : forall id, id ∈ ids <-> is_Some (perJob !! id)).
  { intros id. unfold ids. rewrite elem_of_sort_by, list_elem_of_fmap. split.
    - intros ([k v] & -> & Hk%elem_of_map_to_list). by exists v.
    - intros [v Hv]. exists (id, v). split; [done | by apply elem_of_map_to_list]. }
  enough (G : forall total db,
    let db' := (fold_left (fun '(total, db) jobID =>
      let stats := default no_stats (perJob !! jobID) in
      (stats_add total stats, recordLogTruncation jobID bound stats now db)) ids (total, db)).2 in
    (exists truncations, db' = db <| db_log_truncations := truncations |>)
    /\ forall id, evicted_counts_of db' id
         = if bool_decide (id ∈ ids)
           then ((evicted_counts_of db id).1 + st_events (default no_stats (perJob !! id)),
                 (evicted_counts_of db id).2 + st_bytes (default no_stats (perJob !! id)))
           else evicted_counts_of db id).
  { destruct (G no_stats db) as [G1 G2]. split; [done|]. intros id. rewrite G2. case_bool_decide as Hid; [done|].
    rewrite Hd in Hid. destruct (perJob !! id); [by destruct Hid|]. simpl. destruct (evicted_counts_of db id); simpl; f_equal; lia. }
  clear Hd db. induction Hn as [|jobID ids Hni _ IH]; intros total db; simpl.
  { split; [|done]. exists (db_log_truncations db). by destruct db. }
  destruct (IH (stats_add total (default no_stats (perJob !! jobID)))
              (recordLogTruncation jobID bound (default no_stats (perJob !! jobID)) now db)) as [(tr & G1) G2].
  simpl in G1, G2. split.
  - exists tr. rewrite G1. unfold recordLogTruncation. case_match; done.
  - intros id. rewrite G2. rewrite record_one_counts.
    2: { destruct (perJob !! jobID) eqn:E; simpl; [by eapply H0 | done]. }
    destruct (decide (id = jobID)) as [->|Ne].
    + rewrite (bool_decide_eq_false_2 (jobID ∈ ids)), !bool_decide_eq_true_2 by (done || by left). done.
    + rewrite (bool_decide_eq_false_2 (id = jobID)) by done. 
      destruct (decide (id ∈ ids)).
      * rewrite !bool_decide_eq_true_2 by (done || by right). done.
      * rewrite !bool_decide_eq_false_2; [done | | done]. by intros [|]%elem_of_cons.
Qed.

(** ** What the bounds do *)
Definition retained (db : DB) (jobID : string) : Z := total_bytes (List.filter (of_job jobID) (db_log_events db)).

Lemma log_ok_frame db db' :
  db_log_events db' = db_log_events db -> db_next_ordinal db' = db_next_ordinal db ->
  db_log_usage db' = db_log_usage db -> db_log_usage_total db' = db_log_usage_total db -> log_ok db -> log_ok db'.
Proof. intros E1 E2 E3 E4 [H1 H2 H3 H4]. split; rewrite ?E1, ?E2, ?E3, ?E4; auto. Qed.

Lemma insert_log_ok jobID id s q n t bytes e db : log_ok db -> log_ok (insert_log_event jobID id s q n t bytes e db).
Proof.
  intros [H1 H2 H3 H4]. split; unfold insert_log_event; simpl.
  - rewrite map_app. simpl. apply StronglySorted_app_2; [|done|repeat constructor].
    intros x y Hx ->%list_elem_of_singleton. apply list_elem_of_In, in_map_iff in Hx as (r & <- & Hr).
    apply list_elem_of_In in Hr. rewrite Forall_forall in H2. simpl. by apply H2.
  - apply Forall_app. split; [|repeat constructor; simpl; lia]. eapply Forall_impl; [exact H2|]. simpl. intros; lia.
  - intros id'. rewrite List.filter_app, total_bytes_app, <- H3. simpl. unfold of_job at 1. simpl.
    destruct (decide (jobID = id')) as [->|]; [rewrite bool_decide_eq_true_2, lookup_insert_eq by done; simpl; lia|].
    rewrite bool_decide_eq_false_2, lookup_insert_ne by done. simpl. lia.
  - rewrite total_bytes_app, <- H4. simpl. lia.
Qed.

(** The rows of another job are not in the order of this one. *)
Lemma evicted_other jobID e k e' other :
  log_ok (ev_db e) -> jobID <> "" -> evicted jobID e (eviction_order jobID (ev_db e)) k e' -> other <> jobID ->
  List.filter (of_job other) (db_log_events (ev_db e')) = List.filter (of_job other) (db_log_events (ev_db e)).
Proof.
  intros H Hj Hev Ho. rewrite (evicted_rows _ _ _ _ _ Hev), filter_filter_comm. apply list_filter_true, Forall_forall.
  intros r [Hr Hro]%list_elem_of_In%filter_In. apply negb_true_iff, bool_decide_eq_false. intros Hin.
  apply list_elem_of_In, in_map_iff in Hin as (x & Ex & Hx). apply list_elem_of_In in Hr, Hx.
  assert (Hxo : x ∈ eviction_order jobID (ev_db e)).
  { rewrite <- (take_drop k). apply elem_of_app. by left. }
  assert (x = r) as -> by (eapply ordinal_inj; [by apply log_ok_nodup | by eapply eviction_order_perm | done | done]).
  unfold eviction_order in Hxo. rewrite bool_decide_eq_false_2 in Hxo by done.
  apply list_elem_of_In, filter_In in Hxo as [_ E%bool_decide_eq_true]. unfold of_job in Hro.
  apply bool_decide_eq_true in Hro. congruence.
Qed.

Lemma eviction_order_job jobID db : jobID <> "" -> eviction_order jobID db = List.filter (of_job jobID) (db_log_events db).
Proof. intros H. unfold eviction_order. by rewrite bool_decide_eq_false_2. Qed.

Lemma counts_zero jobID e rows k e' :
  ev_perJob e = ∅ -> evicted jobID e rows k e' ->
  forall id stats, ev_perJob e' !! id = Some stats -> st_events stats = 0 -> st_bytes stats = 0.
Proof.
  intros Hp Hev id stats Hs H0. destruct (evicted_counts _ _ _ _ _ Hev id) as [C1 C2]. unfold stats_of in C1, C2.
  rewrite Hs, Hp, lookup_empty in C1, C2. simpl in C1, C2. rewrite H0 in C1.
  destruct (List.filter (of_job id) (take k rows)); simpl in *; lia.
Qed.

(** C26: the byte cap of a job evicts its oldest events, and no more of them than
    needed.  What stays is a suffix of the job's events in upload order; no
    other job loses anything; the cap holds afterwards unless the pass's budget
    ran out; the usage counters still equal the bytes retained; and the
    truncation marker has counted exactly the events and bytes that went. *)
Theorem job_byte_cap_evicts_oldest bounds jobID now budget db stats budget' db' :
  let limit := if jobIsService db jobID then lb_serviceBytes bounds else lb_oneshotBytes bounds in
  let mine := List.filter (of_job jobID) (db_log_events db) in
  log_ok db -> jobID <> "" -> 0 <= limit ->
  enforceJobLogByteRetention bounds jobID now budget db = (stats, budget', db') ->
  exists k,
    List.filter (of_job jobID) (db_log_events db') = drop k mine
    /\ (forall other, other <> jobID ->
          List.filter (of_job other) (db_log_events db') = List.filter (of_job other) (db_log_events db))
    /\ (k = O \/ total_bytes (take (pred k) mine) < retained db jobID - limit)
    /\ (retained db' jobID <= limit \/ exhausted budget' = true)
    /\ log_ok db'
    /\ evicted_counts_of db' jobID
       = ((evicted_counts_of db jobID).1 + Z.of_nat (length (take k mine)),
          (evicted_counts_of db jobID).2 + total_bytes (take k mine)).
Proof.
  intros limit mine H Hj Hl. unfold enforceJobLogByteRetention. fold limit. rewrite (ok_usage _ H). fold mine.
  change (total_bytes mine) with (retained db jobID).
  destruct (Z.leb_spec (retained db jobID) limit) as [Hle|Hgt].
  { intros [= <- <- <-]. exists O. split_and!; try done; [by left | by left | by apply (log_ok_frame db) |].
    unfold evicted_counts_of, refreshLogTruncation. simpl. rewrite lookup_alter_eq.
    destruct (db_log_truncations db !! jobID); simpl; [|done]. case_match; simpl; f_equal; lia. }
  destruct (evictLogEvents_spec jobID budget (retained db jobID - limit) db H) as [Hev Hstop].
  set (e := evictLogEvents jobID budget (retained db jobID - limit) db) in *.
  rewrite (eviction_order_job jobID db Hj) in Hev, Hstop. fold mine in Hev, Hstop.
  set (k := evict_count _ _ _ _ mine) in *.
  assert (Hz := counts_zero jobID (mkeviction budget 0 ∅ db) _ _ _ eq_refl Hev).
  destruct (record_counts (ev_perJob e) LogRetentionBytes now (ev_db e) Hz) as [(tr & Hfr) Hcounts].
  destruct (recordLogTruncations (ev_perJob e) LogRetentionBytes now (ev_db e)) as [stats0 db0]. simpl in Hfr, Hcounts.
  intros [= <- <- <-]. exists k.
  assert (Ho : List.filter (of_job jobID) (db_log_events (ev_db e)) = drop k mine).
  { rewrite <- eviction_order_job by done. by apply (evicted_order _ _ _ _ _ Hev). }
  assert (Hsum : total_bytes mine = total_bytes (take k mine) + total_bytes (drop k mine))
    by (by rewrite <- total_bytes_app, take_drop).
  split_and!.
  - by rewrite Hfr.
  - intros other Hoth. rewrite Hfr. simpl. subst mine. rewrite <- (eviction_order_job jobID db Hj) in Hev.
    by apply (evicted_other jobID (mkeviction budget 0 ∅ db) k e other H Hj Hev Hoth).
  - destruct (decide (k = O)); [by left | right].
    apply (evict_count_minimal (retained db jobID - limit) 0 (eb_events budget) (eb_bytes budget) mine); [lia | left; lia | done].
  - unfold retained at 1. rewrite Hfr. simpl. rewrite Ho.
    destruct Hstop as [Hk|[Hx|[_ Ht]]]; [left | by right | left].
    + rewrite Hk, drop_all. simpl. lia.
    + rewrite (evicted_freed _ _ _ _ _ Hev) in Ht. simpl in Ht. unfold retained in *. fold mine in Ht. lia.
  - rewrite Hfr. apply (log_ok_frame (ev_db e)); [done..|]. apply Hev.
  - rewrite Hcounts. destruct (evicted_counts _ _ _ _ _ Hev jobID) as [C1 C2]. unfold stats_of in C1, C2. rewrite C1, C2.
    simpl. rewrite lookup_empty. simpl.
    assert (Hall : List.filter (of_job jobID) (take k mine) = take k mine).
    { apply list_filter_true, Forall_forall. intros x Hx. assert (Hm : x ∈ mine) by (rewrite <- (take_drop k); apply elem_of_app; by left).
      subst mine. by apply list_elem_of_In, filter_In in Hm as [_ ?]. }
    rewrite Hall. destruct (evicted_frame _ _ _ _ _ Hev) as (r1 & r2 & r3 & Hf). unfold evicted_counts_of. rewrite Hf. simpl.
    f_equal; lia.
Qed.

Lemma total_bytes_perm l k : l ≡ₚ k -> total_bytes l = total_bytes k.
Proof. unfold total_bytes. induction 1; simpl; lia. Qed.

Lemma total_order db : total_bytes (eviction_order "" db) = total_bytes (db_log_events db).
Proof.
  unfold eviction_order. rewrite bool_decide_eq_true_2 by done. apply total_bytes_perm, merge_sort_Permutation.
Qed.

(** The fleet-wide ceiling evicts the oldest events of any job, by timestamp
    and then by insertion.  What stays is what was there without a prefix of
    that order, the prefix is no longer than needed, and the total counter is
    within the ceiling afterwards unless the pass's budget ran out. *)
Theorem total_ceiling_evicts_oldest bounds now budget db stats budget' db' :
  let order := eviction_order "" db in
  log_ok db -> 0 <= lb_totalBytes bounds ->
  enforceLogRetentionTotal bounds now budget db = (stats, budget', db') ->
  exists k,
    eviction_order "" db' = drop k order
    /\ Forall (fun r => Forall (age_le r) (eviction_order "" db')) (take k order)
    /\ (k = O \/ total_bytes (take (pred k) order) < db_log_usage_total db - lb_totalBytes bounds)
    /\ (db_log_usage_total db' <= lb_totalBytes bounds \/ exhausted budget' = true)
    /\ log_ok db'.
Proof.
  intros order H Hl. unfold enforceLogRetentionTotal.
  destruct (Z.leb_spec (db_log_usage_total db - lb_totalBytes bounds) 0) as [Hle|Hgt].
  { intros [= <- <- <-]. exists O. split_and!; try done; [by left | left; lia]. }
  destruct (evictLogEvents_spec "" budget (db_log_usage_total db - lb_totalBytes bounds) db H) as [Hev Hstop].
  fold order in Hev, Hstop. set (e := evictLogEvents _ _ _ _) in *. set (k := evict_count _ _ _ _ order) in *.
  assert (Hz := counts_zero "" (mkeviction budget 0 ∅ db) _ _ _ eq_refl Hev).
  destruct (record_counts (ev_perJob e) LogRetentionTotal now (ev_db e) Hz) as [(tr & Hfr) _].
  destruct (recordLogTruncations (ev_perJob e) LogRetentionTotal now (ev_db e)) as [stats0 db0]. simpl in Hfr.
  intros [= <- <- <-]. exists k. rewrite Hfr.
  assert (Ho := evicted_order _ _ _ _ _ Hev). assert (Hok := evicted_ok _ _ _ _ _ Hev).
  split_and!; [exact Ho | | | | by apply (log_ok_frame (ev_db e))].
  - change (eviction_order "" _) with (eviction_order "" (ev_db e)). rewrite Ho.
    assert (Hs : StronglySorted age_le order) by (apply (StronglySorted_merge_sort _)).
    rewrite <- (take_drop k order) in Hs. apply Forall_forall. intros x Hx. apply Forall_forall. intros y Hy.
    by eapply StronglySorted_app_1_elem_of.
  - destruct (decide (k = O)); [by left | right].
    apply (evict_count_minimal _ 0 (eb_events budget) (eb_bytes budget) order); [lia | left; lia | done].
  - simpl. destruct Hstop as [Hk|[Hx|[_ Ht]]]; [left | by right | left]; rewrite (ok_total _ Hok).
    + rewrite <- total_order, Ho, Hk, drop_all. simpl. lia.
    + rewrite (evicted_freed _ _ _ _ _ Hev) in Ht. simpl in Ht. rewrite (ok_total _ H) in Ht.
      rewrite <- total_order, Ho. rewrite <- (total_order db) in Ht. fold order in Ht.
      assert (Hsum := total_bytes_app (take k order) (drop k order)). rewrite take_drop in Hsum. lia.
Qed.

(** C27: the eviction loop ends by itself.  Every round that goes on deletes a row,
    so as many rounds as there are rows are enough: more of them change nothing,
    and batching by [logEvictionBatch] is invisible, the result being the one of
    a single pass over all candidates. *)
Theorem eviction_loop_terminates jobID byteTarget e fuel :
  log_ok (ev_db e) -> (length (db_log_events (ev_db e)) < fuel)%nat ->
  evict_rounds fuel jobID byteTarget e = evict_rounds (S (length (db_log_events (ev_db e)))) jobID byteTarget e
  /\ evict_rounds fuel jobID byteTarget e = (evict_batch byteTarget (eviction_order jobID (ev_db e)) 0 e).2.
Proof. intros H Hf. rewrite !evict_rounds_one_pass by (done || lia). done. Qed.

(** ** Witnesses *)
Definition sample_row (jobID : string) (sequence timestamp : Z) (payload : string) (db : DB) : DB :=
  insert_log_event jobID ("a-" +:+ jobID) LogStdout sequence sequence timestamp payload
    (mkLogEvent ("a-" +:+ jobID) LogStdout sequence timestamp payload None) db.

(** Three events of [j1], the second with an old timestamp, and one of [j2]. *)
Definition logged_db : DB :=
  sample_row "j1" 2 30 "cccc" (sample_row "j2" 0 25 "dd" (sample_row "j1" 1 5 "bbbb" (sample_row "j1" 0 20 "aaaa" empty_db))).

Lemma logged_ok : log_ok logged_db.
Proof. repeat apply insert_log_ok. split; try done; by constructor. Qed.

Definition tight_bounds : log_bounds := mklog_bounds 5 1000 7 5 1000.

Lemma job_byte_cap_evicts_oldest_witness :
  exists k, map l_sequence (List.filter (of_job "j1") (db_log_events
              (enforceJobLogByteRetention tight_bounds "j1" 100 sweepEvictionBudget logged_db).2)) = drop k [0; 1; 2]
  /\ retained (enforceJobLogByteRetention tight_bounds "j1" 100 sweepEvictionBudget logged_db).2 "j1" <= 5.
Proof.
  destruct (enforceJobLogByteRetention tight_bounds "j1" 100 sweepEvictionBudget logged_db) as [[stats budget'] db'] eqn:E.
  destruct (job_byte_cap_evicts_oldest tight_bounds "j1" 100 sweepEvictionBudget logged_db stats budget' db' logged_ok
              ltac:(discriminate) ltac:(vm_compute; discriminate) E) as (k & Hk & _ & _ & Hcap & _).
  exists k. split.
  - simpl. rewrite Hk, <- skipn_map. reflexivity.
  - destruct Hcap as [Hcap|Hcap]; [exact Hcap|]. vm_compute in E. injection E as _ <- _. discriminate.
Defined.

Lemma total_ceiling_evicts_oldest_witness :
  map l_bytes (db_log_events (enforceLogRetentionTotal tight_bounds 100 sweepEvictionBudget logged_db).2) = ["dd"; "cccc"]
  /\ log_ok (enforceLogRetentionTotal tight_bounds 100 sweepEvictionBudget logged_db).2.
Proof.
  split; [vm_compute; reflexivity|].
  destruct (enforceLogRetentionTotal tight_bounds 100 sweepEvictionBudget logged_db) as [[stats budget'] db'] eqn:E.
  destruct (total_ceiling_evicts_oldest tight_bounds 100 sweepEvictionBudget logged_db stats budget' db' logged_ok
              ltac:(vm_compute; discriminate) E) as (k & _ & _ & _ & _ & Hok).
  exact Hok.
Defined.

Lemma eviction_loop_terminates_witness :
  evict_rounds 9 "j1" 6 (mkeviction sweepEvictionBudget 0 ∅ logged_db)
  = (evict_batch 6 (eviction_order "j1" logged_db) 0 (mkeviction sweepEvictionBudget 0 ∅ logged_db)).2.
Proof.
  apply (eviction_loop_terminates "j1" 6 (mkeviction sweepEvictionBudget 0 ∅ logged_db) 9 logged_ok).
  apply Nat.ltb_lt. vm_compute. reflexivity.
Defined.
