(* ===== verification/Logs.v ===== *)
(** * Log ingestion

    [AppendLogs] of [l1/store.go] with the continuity record of
    [l1/log_continuity.go].  Two encodings of an event are equal exactly when the
    events are, so the JSON documents the code compares are the events
    themselves; [source_digest] is the hexadecimal SHA-256 of that encoding. *)
From S2P Require Import Prelude Order States Contract GoStrings JobSpec L1Types RestartPolicy Database.
From S2P Require Import LeaseClock Authority Credentials Summaries Lifecycle LogRetention.
#[local] Open Scope string_scope.
#[local] Open Scope list_scope.
#[local] Open Scope Z_scope.

(** The conversion of an integer to Go's [int64]. *)
Definition int64 (z : Z) : Z := (z + 2 ^ 63) `mod` 2 ^ 64 - 2 ^ 63.

(** [time.Time{}] and the years [encoding/json] can write, in Unix nanoseconds. *)
Definition zero_time : Z := -62135596800 * second.
Definition json_time_ok (t : Z) : bool := (-62167219200 * second <=? t) && (t <? 253402300800 * second).

Record AppendLogsRequest := mkAppendLogsRequest {
  lr_FencingToken : string;
  lr_Events : list LogEvent
}.

Record AppendLogsResponse := mkAppendLogsResponse {
  lp_Acknowledged : gmap string Z;
  lp_AttemptState : AttemptState
}.

(** ** Events *)
Definition validateLogEvent (attemptID : string) (event : LogEvent) : result ErrorCode unit :=
  if negb (bool_decide (le_AttemptID event = attemptID)) then Err ErrorAttemptMismatch
  else if negb (bool_decide (le_Stream event = LogStdout)) && negb (bool_decide (le_Stream event = LogStderr))
  then Err ErrorInvalidRequest
  else if (MaxInt64 <? le_Sequence event)
          || match le_Gap event with Some gap => MaxInt64 <? gap_ThroughSequence gap | None => false end
  then Err ErrorInvalidRequest
  else if le_Timestamp event =? zero_time then Err ErrorInvalidRequest
  else match le_Gap event with
  | None =>
      if (strlen (le_Bytes event) =? 0) || (MaxLogEventBytes <? strlen (le_Bytes event))
      then Err ErrorInvalidRequest else Ok tt
  | Some gap =>
      if negb (strlen (le_Bytes event) =? 0) then Err ErrorInvalidRequest
      else if (gap_ThroughSequence gap <? le_Sequence event)
              || negb (gap_LostEventCount gap =? gap_ThroughSequence gap - le_Sequence event + 1)
              || (gap_LostByteCount gap =? 0)
      then Err ErrorInvalidRequest
      else if negb (LogGapReason_Valid (gap_Reason gap)) then Err ErrorInvalidRequest
      else if negb (bool_decide (gap_SourceEventSHA256 gap = "")) && negb (validSHA256 (gap_SourceEventSHA256 gap))
      then Err ErrorInvalidRequest
      else if bool_decide (gap_Reason gap = LogGapLateEvidenceWindowExpired)
              && bool_decide (gap_SourceEventSHA256 gap = "")
      then Err ErrorInvalidRequest
      else Ok tt
  end.

Definition logEventEndSequence (event : LogEvent) : Z :=
  match le_Gap event with Some gap => gap_ThroughSequence gap | None => le_Sequence event end.

(** ** The continuity record *)
Definition readLogContinuity (db : DB) (attemptID stream : string) : Z :=
  default (-1) (db_log_continuity db !! (attemptID, stream)).

Definition recordLogContinuity (attemptID stream : string) (through : Z) (db : DB) : DB :=
  db <| db_log_continuity :=
    <[(attemptID, stream) := match db_log_continuity db !! (attemptID, stream) with
                             | Some accepted => Z.max accepted through | None => through end]>
    (db_log_continuity db) |>.

(** ** Replays *)
Definition stream_rows (db : DB) (attemptID stream : string) : list LogRow :=
  List.filter (fun r => bool_decide (l_attempt_id r = attemptID) && bool_decide (l_stream r = stream)) (db_log_events db).

(** The row with the greatest sequence below [sequence]. *)
Definition row_before (sequence : Z) (rows : list LogRow) : option LogRow :=
  fold_left (fun best r =>
    if negb (l_sequence r <? sequence) then best
    else match best with
         | Some b => if l_sequence b <? l_sequence r then Some r else best
         | None => Some r
         end) rows None.

Definition sequence_le (a b : LogRow) : Prop := l_sequence a <= l_sequence b.
#[export] Instance sequence_le_dec a b : Decision (sequence_le a b).
Proof. unfold sequence_le. apply _. Defined.

Definition checkRetainedLogReplay (db : DB) (attemptID : string) (event : LogEvent) (end_ : Z)
    (original converted : LogEvent) : result ErrorCode unit :=
  let rows := stream_rows db attemptID (le_Stream event) in
  let overlaps := match row_before (le_Sequence event) rows with
                  | Some r => le_Sequence event <=? l_sequence_end r | None => false end in
  if overlaps then Err ErrorIdempotencyConflict
  else
  let inside := firstn 2 (merge_sort sequence_le
    (List.filter (fun r => (le_Sequence event <=? l_sequence r) && (l_sequence r <=? end_)) rows)) in
  let matched r := (l_sequence r =? le_Sequence event) && (l_sequence_end r =? end_)
                   && (bool_decide (l_event r = original) || bool_decide (l_event r = converted)) in
  match inside with
  | [] => Ok tt
  | [r] => if matched r then Ok tt else Err ErrorIdempotencyConflict
  | _ => Err ErrorIdempotencyConflict
  end.

(** ** Preparing a batch *)
Record preparedEvent := mkpreparedEvent {
  pe_event : LogEvent;
  pe_endSequence : Z
}.

Record batch := mkbatch {
  bt_seen : gmap (string * Z) LogEvent;
  bt_recorded : gmap string Z;
  bt_next : gmap string Z;
  bt_newEvents : list preparedEvent
}.
#[export] Instance batch_eta : Eta batch := fun r =>
  mkbatch (bt_seen r) (bt_recorded r) (bt_next r) (bt_newEvents r).

Definition empty_batch : batch := mkbatch ∅ ∅ ∅ [].

Section Append.
Context (cfg : config) (bounds : log_bounds) (source_digest : LogEvent -> string).

Definition lateEvidenceGap (event source : LogEvent) : LogEvent :=
  let '(through, events, bytes) :=
    match le_Gap event with
    | Some gap => (gap_ThroughSequence gap, gap_LostEventCount gap, gap_LostByteCount gap)
    | None => (le_Sequence event, 1, strlen (le_Bytes event))
    end in
  event <| le_Bytes := "" |>
        <| le_Gap := Some (mkLogGap through events bytes LogGapLateEvidenceWindowExpired (source_digest source)) |>.

(** The event as the store would accept it. *)
Definition accepted_form (late : bool) (event : LogEvent) : LogEvent :=
  if late then lateEvidenceGap event event else event.

(** One turn of the loop over the batch. *)
Definition prepare_event (late : bool) (db : DB) (attemptID : string) (original : LogEvent) (b : batch) :
    result ErrorCode batch :=
  let? _ := validateLogEvent attemptID original in
  if negb (json_time_ok (le_Timestamp original)) then Err ErrorInternal
  else
  let event := accepted_form late original in
  let key := (le_Stream event, le_Sequence event) in
  match bt_seen b !! key with
  | Some prior => if bool_decide (prior = event) then Ok b else Err ErrorIdempotencyConflict
  | None =>
      let through := match bt_recorded b !! le_Stream event with
                     | Some through => through | None => readLogContinuity db attemptID (le_Stream event) end in
      let b := b <| bt_seen := <[key := event]> (bt_seen b) |>
                 <| bt_recorded := <[le_Stream event := through]> (bt_recorded b) |> in
      let end_ := logEventEndSequence event in
      if le_Sequence event <=? through then
        if through <? end_ then Err ErrorConflict
        else let? _ := checkRetainedLogReplay db attemptID event end_ original event in Ok b
      else
        let expected := match bt_next b !! le_Stream event with
                        | Some next => next | None => int64 (through + 1) end in
        if negb (le_Sequence event =? expected) then Err ErrorConflict
        else Ok (b <| bt_next := <[le_Stream event := int64 (end_ + 1)]> (bt_next b) |>
                   <| bt_newEvents := bt_newEvents b ++ [mkpreparedEvent event end_] |>)
  end.

Fixpoint prepare_events (late : bool) (db : DB) (attemptID : string) (events : list LogEvent) (b : batch) :
    result ErrorCode batch :=
  match events with
  | [] => Ok b
  | event :: events => let? b := prepare_event late db attemptID event b in prepare_events late db attemptID events b
  end.

(** The answer's high-water marks. *)
Definition acknowledged (b : batch) : gmap string Z :=
  map_imap (fun stream through => Some match bt_next b !! stream with
    | Some following => int64 (following - 1) | None => through end) (bt_recorded b).

(** ** Storing a batch *)
Definition store_event {R} (jobID attemptID : string) (p : preparedEvent) : tx DB ErrorCode R unit :=
  let event := pe_event p in
  let! duplicate := reads (fun db => existsb (fun r => l_sequence r =? le_Sequence event)
                                       (stream_rows db attemptID (le_Stream event))) in
  let! _ := check (negb duplicate) ErrorInternal in
  writes (insert_log_event jobID attemptID (le_Stream event) (le_Sequence event) (pe_endSequence p)
            (int64 (le_Timestamp event)) (match le_Gap event with Some _ => "" | None => le_Bytes event end) event).

Fixpoint store_events {R} (jobID attemptID : string) (events : list preparedEvent) : tx DB ErrorCode R unit :=
  match events with
  | [] => pure tt
  | p :: events => let! _ := store_event jobID attemptID p in store_events jobID attemptID events
  end.

Definition record_marks (attemptID : string) (next : gmap string Z) (db : DB) : DB :=
  map_fold (fun stream following db => recordLogContinuity attemptID stream (int64 (following - 1)) db) db next.

(** The writes of an accepted batch, and the attempt's state after it. *)
Definition append_batch (clock : attemptClock) (now : Z) (jobID attemptID : string) (attempt : attemptAuthority)
    (hasAuthority canceled : bool) (b : batch) : tx DB ErrorCode AppendLogsResponse AttemptState :=
  let state := aa_state attempt in
  let! _ := check (bool_decide (state = AttemptLost) || active_attempt state) ErrorConflict in
  let! _ := store_events jobID attemptID (bt_newEvents b) in
  let! _ := writes (record_marks attemptID (bt_next b)) in
  let promoting := bool_decide (state = AttemptClaimed) && hasAuthority
                   && negb (bool_decide (js_Kind (aa_spec attempt) = JobKindOCI)) && negb canceled in
  let! _ := if promoting
            then let! _ := writes (exec_attempt attemptID (fun a => a <| a_state := AttemptRunning |> <| a_updated_ns := now |>)) in
                 writes (promoteExecution now attemptID)
            else pure tt in
  let! _ := if hasAuthority then writes (establishHealth clock now attemptID healthFromLogs) else pure tt in
  let! _ := writes (fun db => (enforceJobLogByteRetention bounds jobID now appendEvictionBudget db).2) in
  let! _ := writes (pruneServiceAttemptSummaries (cfg_lateEvidenceWindow cfg) now jobID) in
  pure (if promoting then AttemptRunning else state).

(** What the checks before the loop establish. *)
Record admission := mkadmission {
  ad_clock : attemptClock;
  ad_attempt : attemptAuthority;
  ad_hasAuthority : bool;
  ad_canceled : bool;
  ad_late : bool
}.

Definition admit_upload (at_ : instant) (identityNodeID jobID attemptID : string) (request : AppendLogsRequest) :
    tx DB ErrorCode AppendLogsResponse admission :=
  let! _ := check (negb (bool_decide (lr_FencingToken request = ""))) ErrorInvalidRequest in
  let count := Z.of_nat (length (lr_Events request)) in
  let! _ := check (negb (count =? 0) && (count <=? MaxLogBatchEvents)) ErrorInvalidRequest in
  let! clock := beginWriteTransaction at_ in
  let now := at_now at_ in
  let! attempt := readAttemptAuthority attemptID in
  let! removalExists := reads (fun db => bool_decide (jobID ∈ db_service_removals db)) in
  let! _ := check (negb removalExists) ErrorConflict in
  let! _ := lift (validateAttemptEvidence identityNodeID jobID attemptID (lr_FencingToken request) attempt) in
  let! (canceled, _) := read_cancellation jobID in
  let hasAuthority :=
    match validateAttemptAuthority identityNodeID jobID attemptID (lr_FencingToken request) attempt with
    | Ok _ => true | Err _ => false end in
  let! leaseExpired := lift (attemptLeaseExpired clock now attempt) in
  let! _ := if leaseExpired then writes (expireAttempt clock (cfg_restartJitter cfg) now attempt) else pure tt in
  let attempt := if leaseExpired && active_attempt (aa_state attempt)
                 then attempt <| aa_state := AttemptLost |> <| aa_updatedAt := now |> else attempt in
  let late := bool_decide (aa_state attempt = AttemptLost)
              && (aa_updatedAt attempt + cfg_lateEvidenceWindow cfg <? now) in
  pure (mkadmission clock attempt hasAuthority canceled late).

Definition AppendLogs (at_ : instant) (identityNodeID jobID attemptID : string) (request : AppendLogsRequest) :
    tx DB ErrorCode AppendLogsResponse AppendLogsResponse :=
  let! ad := admit_upload at_ identityNodeID jobID attemptID request in
  let! db := reads (fun db => db) in
  let! b := lift (prepare_events (ad_late ad) db attemptID (lr_Events request) empty_batch) in
  match bt_newEvents b with
  | [] => pure (mkAppendLogsResponse (acknowledged b) (aa_state (ad_attempt ad)))
  | _ :: _ =>
      let! state := append_batch (ad_clock ad) (at_now at_) jobID attemptID (ad_attempt ad) (ad_hasAuthority ad)
                      (ad_canceled ad) b in
      pure (mkAppendLogsResponse (acknowledged b) state)
  end.
End Append.
