(* ===== verification/LogStreams.v ===== *)
(** * What log ingestion promises

    The invariant of the log tables, what the loop over an upload establishes,
    what storing, eviction and pruning do to the streams, and when the replay
    check accepts an event. *)
From S2P Require Import Prelude Order States Contract GoStrings JobSpec L1Types RestartPolicy Database.
From S2P Require Import LeaseClock Authority Credentials Summaries Lifecycle LogRetention Logs.
#[local] Open Scope string_scope.
#[local] Open Scope list_scope.
#[local] Open Scope Z_scope.

Lemma int64_id z : - 2 ^ 63 <= z < 2 ^ 63 -> int64 z = z.
Proof. intros H. unfold int64. rewrite Z.mod_small; lia. Qed.

Lemma int64_pred_succ z : - 2 ^ 63 <= z < 2 ^ 63 -> int64 (int64 (z + 1) - 1) = z.
Proof.
  intros H. destruct (decide (z = MaxInt64)) as [->|N]; [done|]. unfold MaxInt64 in N.
  rewrite (int64_id (z + 1)) by lia. rewrite int64_id; lia.
Qed.

(** ** The stored streams *)
Record row_sound (db : DB) (r : LogRow) : Prop := {
  row_start : 0 <= l_sequence r;
  row_range : l_sequence r <= l_sequence_end r;
  row_accepted : l_sequence_end r <= readLogContinuity db (l_attempt_id r) (l_stream r);
  row_event : l_attempt_id r = le_AttemptID (l_event r) /\ l_stream r = le_Stream (l_event r)
              /\ l_sequence r = le_Sequence (l_event r) /\ l_sequence_end r = logEventEndSequence (l_event r)
}.

Definition precedes (a b : LogRow) : Prop := l_sequence_end a < l_sequence b.

Record streams_ok (db : DB) : Prop := {
  streams_rows : Forall (row_sound db) (db_log_events db);
  streams_sorted : forall attemptID stream, StronglySorted precedes (stream_rows db attemptID stream);
  streams_marks : forall k through, db_log_continuity db !! k = Some through -> 0 <= through <= MaxInt64
}.

Lemma continuity_range db attemptID stream : streams_ok db -> -1 <= readLogContinuity db attemptID stream <= MaxInt64.
Proof.
  intros H. unfold readLogContinuity. destruct (db_log_continuity db !! _) eqn:E; simpl; [|done].
  apply (streams_marks _ H) in E. lia.
Qed.

(** ** Gapless runs of events *)
Fixpoint chain (start : Z) (events : list preparedEvent) (last : Z) : Prop :=
  match events with
  | [] => last = start - 1
  | p :: events => le_Sequence (pe_event p) = start /\ start <= pe_endSequence p /\ chain (pe_endSequence p + 1) events last
  end.

Definition of_stream (stream : string) (p : preparedEvent) : bool := bool_decide (le_Stream (pe_event p) = stream).

Lemma chain_snoc start events last p :
  chain start events last -> le_Sequence (pe_event p) = last + 1 -> last + 1 <= pe_endSequence p ->
  chain start (events ++ [p]) (pe_endSequence p).
Proof.
  revert start. induction events as [|q events IH]; intros start; simpl.
  - intros -> E Hle. split_and!; lia.
  - intros (E & Hs & Hc) E' Hle. split_and!; [done..|]. by apply IH.
Qed.

Lemma chain_last start events last : chain start events last -> start - 1 <= last.
Proof.
  revert start. induction events as [|q events IH]; intros start; simpl; [lia|]. intros (E & Hs & Hc). apply IH in Hc. lia.
Qed.

Lemma chain_bounds start events last p :
  chain start events last -> p ∈ events -> start <= le_Sequence (pe_event p) <= pe_endSequence p /\ pe_endSequence p <= last.
Proof.
  revert start. induction events as [|q events IH]; intros start; simpl; [by intros _ ?%elem_of_nil|].
  intros (E & Hs & Hc) [->|Hp]%elem_of_cons.
  - apply chain_last in Hc. lia.
  - apply (IH _ Hc) in Hp. lia.
Qed.

(** ** What the loop over a batch establishes *)
Definition uint64_event (e : LogEvent) : Prop := 0 <= le_Sequence e.

Lemma validated_event attemptID e u :
  validateLogEvent attemptID e = Ok u -> uint64_event e ->
  le_AttemptID e = attemptID /\ 0 <= le_Sequence e <= logEventEndSequence e /\ logEventEndSequence e <= MaxInt64.
Proof.
  unfold validateLogEvent, logEventEndSequence, uint64_event. intros H Hu.
  repeat (case_match; try done).
  all: repeat match goal with
    | H : negb _ = false |- _ => apply negb_false_iff in H
    | H : bool_decide _ = true |- _ => apply bool_decide_eq_true in H
    | H : _ || _ = false |- _ => apply orb_false_iff in H as [? ?] end; split_and!; try done; lia.
Qed.

Section Streams.
Context (source_digest : LogEvent -> string).
Abbreviation accepted_form := (accepted_form source_digest).
Abbreviation prepare_event := (prepare_event source_digest).
Abbreviation prepare_events := (prepare_events source_digest).

Lemma accepted_form_fields late e :
  le_AttemptID (accepted_form late e) = le_AttemptID e /\ le_Stream (accepted_form late e) = le_Stream e
  /\ le_Sequence (accepted_form late e) = le_Sequence e
  /\ logEventEndSequence (accepted_form late e) = logEventEndSequence e.
Proof.
  unfold Logs.accepted_form, lateEvidenceGap, logEventEndSequence. destruct late; [|done]. by destruct (le_Gap e).
Qed.

(** The mark a stream reaches with the batch. *)
Definition mark (db : DB) (attemptID : string) (b : batch) (stream : string) : Z :=
  match bt_next b !! stream with
  | Some following => int64 (following - 1)
  | None => readLogContinuity db attemptID stream
  end.

Record batch_sound (db : DB) (attemptID : string) (b : batch) : Prop := {
  sound_recorded : forall s t, bt_recorded b !! s = Some t -> t = readLogContinuity db attemptID s;
  sound_domain : forall s n, bt_next b !! s = Some n -> is_Some (bt_recorded b !! s);
  sound_next : forall s n, bt_next b !! s = Some n ->
    exists last, n = int64 (last + 1) /\ readLogContinuity db attemptID s < last <= MaxInt64;
  sound_chain : forall s,
    chain (readLogContinuity db attemptID s + 1) (List.filter (of_stream s) (bt_newEvents b)) (mark db attemptID b s);
  sound_events : Forall (fun p => le_AttemptID (pe_event p) = attemptID
                                  /\ pe_endSequence p = logEventEndSequence (pe_event p)) (bt_newEvents b)
}.

Lemma mark_next db attemptID b s n last :
  bt_next b !! s = Some n -> n = int64 (last + 1) -> -1 <= last <= MaxInt64 -> mark db attemptID b s = last.
Proof. intros E -> H. unfold mark. rewrite E. apply int64_pred_succ. unfold MaxInt64 in H. lia. Qed.

Lemma acknowledged_mark db attemptID b s :
  batch_sound db attemptID b -> acknowledged b !! s = (fun _ => mark db attemptID b s) <$> bt_recorded b !! s.
Proof.
  intros Hb. unfold acknowledged, mark. rewrite map_lookup_imap. destruct (bt_recorded b !! s) as [t|] eqn:E; simpl; [|done].
  rewrite (sound_recorded _ _ _ Hb _ _ E). by destruct (bt_next b !! s).
Qed.

Lemma batch_sound_empty db attemptID : batch_sound db attemptID empty_batch.
Proof.
  split; try (intros s ? H; simpl in H; by rewrite lookup_empty in H); try done.
  intros s. unfold mark. simpl. rewrite lookup_empty. lia.
Qed.

(** The three ways an event passes the loop. *)
Inductive passes (late : bool) (db : DB) (attemptID : string) (e : LogEvent) (b : batch) : batch -> Prop :=
| PassDuplicate :
    bt_seen b !! (le_Stream e, le_Sequence e) = Some (accepted_form late e) -> passes late db attemptID e b b
| PassReplay b' :
    bt_seen b !! (le_Stream e, le_Sequence e) = None ->
    b' = b <| bt_seen := <[(le_Stream e, le_Sequence e) := accepted_form late e]> (bt_seen b) |>
           <| bt_recorded := <[le_Stream e := readLogContinuity db attemptID (le_Stream e)]> (bt_recorded b) |> ->
    logEventEndSequence e <= readLogContinuity db attemptID (le_Stream e) ->
    checkRetainedLogReplay db attemptID (accepted_form late e) (logEventEndSequence e) e (accepted_form late e) = Ok tt ->
    passes late db attemptID e b b'
| PassNew b' :
    bt_seen b !! (le_Stream e, le_Sequence e) = None ->
    le_Sequence e = mark db attemptID b (le_Stream e) + 1 ->
    b' = mkbatch (<[(le_Stream e, le_Sequence e) := accepted_form late e]> (bt_seen b))
           (<[le_Stream e := readLogContinuity db attemptID (le_Stream e)]> (bt_recorded b))
           (<[le_Stream e := int64 (logEventEndSequence e + 1)]> (bt_next b))
           (bt_newEvents b ++ [mkpreparedEvent (accepted_form late e) (logEventEndSequence e)]) ->
    passes late db attemptID e b b'.

Lemma prepare_event_passes late db attemptID e b b' :
  streams_ok db -> uint64_event e -> batch_sound db attemptID b -> prepare_event late db attemptID e b = Ok b' ->
  validateLogEvent attemptID e = Ok tt /\ json_time_ok (le_Timestamp e) = true /\ passes late db attemptID e b b'.
Proof.
  intros Hs Hu Hb. unfold Logs.prepare_event. destruct (validateLogEvent attemptID e) as [[]|] eqn:Hv; [|done]. simpl.
  destruct (json_time_ok _) eqn:Hj; [|done]. simpl.
  destruct (validated_event _ _ _ Hv Hu) as (_ & [Hseq Hend] & Hmax).
  destruct (accepted_form_fields late e) as (_ & -> & -> & ->).
  assert (Ht : match bt_recorded b !! le_Stream e with
               | Some through => through | None => readLogContinuity db attemptID (le_Stream e) end
               = readLogContinuity db attemptID (le_Stream e)).
  { destruct (bt_recorded b !! _) eqn:E; [|done]. by apply (sound_recorded _ _ _ Hb). }
  rewrite Ht. clear Ht. assert (Hr := continuity_range db attemptID (le_Stream e) Hs).
  destruct (bt_seen b !! _) eqn:Hseen.
  { case_bool_decide; [|done]. intros [= <-]. subst. split_and!; [done..|]. by constructor 1. }
  destruct (Z.leb_spec (le_Sequence e) (readLogContinuity db attemptID (le_Stream e))) as [Hle|Hgt]; simpl.
  - destruct (Z.ltb_spec (readLogContinuity db attemptID (le_Stream e)) (logEventEndSequence e)); [done|].
    destruct (checkRetainedLogReplay _ _ _ _ _ _) as [[]|] eqn:Hc; [|done]. simpl. intros [= <-].
    split_and!; [done..|]. by eapply PassReplay.
  - set (expected := match bt_next b !! le_Stream e with Some next => next | None => _ end).
    destruct (Z.eqb_spec (le_Sequence e) expected) as [He|]; [|done]. simpl. intros [= <-]. split_and!; [done..|].
    eapply PassNew; [done| |done]. rewrite He. subst expected. unfold mark. destruct (bt_next b !! le_Stream e) as [n|] eqn:En.
    + destruct (sound_next _ _ _ Hb _ _ En) as (last & -> & Hlast). rewrite int64_pred_succ by (unfold MaxInt64 in *; lia).
      destruct (decide (last = MaxInt64)) as [->|]; [exfalso; rewrite He in Hseq; by apply Hseq|].
      apply int64_id. unfold MaxInt64 in *. lia.
    + apply int64_id. unfold MaxInt64 in *. lia.
Qed.

Lemma passes_sound late db attemptID e b b' :
  streams_ok db -> uint64_event e -> batch_sound db attemptID b -> validateLogEvent attemptID e = Ok tt ->
  passes late db attemptID e b b' -> batch_sound db attemptID b'.
Proof.
  intros Hs Hu Hb Hv Hp. destruct (validated_event _ _ _ Hv Hu) as (Hid & [Hseq Hend] & Hmax).
  destruct Hp as [|b' _ -> _ _|b' _ Hm ->]; [done| |].
  { destruct Hb as [H1 H2 H3 H4 H5]. split; simpl; try done.
    - intros s t. destruct (decide (s = le_Stream e)) as [->|]; [rewrite lookup_insert_eq; by intros [= <-]|].
      rewrite lookup_insert_ne by done. apply H1.
    - intros s n Hn. destruct (decide (s = le_Stream e)) as [->|]; [by rewrite lookup_insert_eq|].
      rewrite lookup_insert_ne by done. by eapply H2. }
  assert (Hr := continuity_range db attemptID (le_Stream e) Hs).
  assert (Hlast := chain_last _ _ _ (sound_chain _ _ _ Hb (le_Stream e))).
  destruct Hb as [H1 H2 H3 H4 H5]. split; simpl.
  - intros s t. destruct (decide (s = le_Stream e)) as [->|]; [rewrite lookup_insert_eq; by intros [= <-]|].
    rewrite lookup_insert_ne by done. apply H1.
  - intros s n. destruct (decide (s = le_Stream e)) as [->|]; [by rewrite !lookup_insert_eq|].
    rewrite !lookup_insert_ne by done. apply H2.
  - intros s n. destruct (decide (s = le_Stream e)) as [->|]; [|rewrite lookup_insert_ne by done; apply H3].
    rewrite lookup_insert_eq. intros [= <-]. exists (logEventEndSequence e). split; [done|lia].
  - intros s. destruct (accepted_form_fields late e) as (_ & Es & Eq & Ee). rewrite List.filter_app. simpl.
    unfold of_stream at 2. simpl. rewrite Es. unfold mark. simpl. destruct (decide (s = le_Stream e)) as [->|N].
    + rewrite bool_decide_eq_true_2, lookup_insert_eq by done. rewrite int64_pred_succ by (unfold MaxInt64 in *; lia).
      specialize (H4 (le_Stream e)).
      apply (chain_snoc _ _ _ (mkpreparedEvent (accepted_form late e) (logEventEndSequence e)) H4); simpl; lia.
    + rewrite bool_decide_eq_false_2, lookup_insert_ne, app_nil_r by done. apply H4.
  - apply Forall_app. split; [done|]. constructor; [|done]. simpl.
    destruct (accepted_form_fields late e) as (-> & _ & _ & ->). done.
Qed.

Lemma prepare_events_sound late db attemptID events b b' :
  streams_ok db -> Forall uint64_event events -> batch_sound db attemptID b ->
  prepare_events late db attemptID events b = Ok b' -> batch_sound db attemptID b'.
Proof.
  intros Hs Hu. revert b. induction Hu as [|e events He _ IH]; intros b Hb; simpl; [by intros [= <-]|].
  intros (b1 & H1 & H2)%result_bind_ok. destruct (prepare_event_passes _ _ _ _ _ _ Hs He Hb H1) as (Hv & _ & Hp).
  eapply IH; [|exact H2]. by eapply passes_sound.
Qed.
End Streams.

(** ** Storing the rows *)
Definition row_of (jobID attemptID : string) (ordinal : Z) (p : preparedEvent) : LogRow :=
  let event := pe_event p in
  mkLogRow ordinal jobID attemptID (le_Stream event) (le_Sequence event) (pe_endSequence p) (int64 (le_Timestamp event))
    (match le_Gap event with Some _ => "" | None => le_Bytes event end) event.

Definition store_one (jobID attemptID : string) (db : DB) (p : preparedEvent) : DB :=
  let event := pe_event p in
  insert_log_event jobID attemptID (le_Stream event) (le_Sequence event) (pe_endSequence p) (int64 (le_Timestamp event))
    (match le_Gap event with Some _ => "" | None => le_Bytes event end) event db.

Fixpoint new_rows (jobID attemptID : string) (ordinal : Z) (events : list preparedEvent) : list LogRow :=
  match events with
  | [] => []
  | p :: events => row_of jobID attemptID ordinal p :: new_rows jobID attemptID (ordinal + 1) events
  end.

Lemma stream_rows_insert db attemptID stream jobID id s q n t bytes e :
  stream_rows (insert_log_event jobID id s q n t bytes e db) attemptID stream
  = stream_rows db attemptID stream
    ++ (if bool_decide (id = attemptID) && bool_decide (s = stream)
        then [mkLogRow (db_next_ordinal db) jobID id s q n t bytes e] else []).
Proof. unfold stream_rows, insert_log_event. simpl. by rewrite List.filter_app. Qed.

(** No event of a gapless batch meets a stored row. *)
Lemma store_events_total {R} jobID attemptID events db (c m : string -> Z) :
  (forall s, chain (c s + 1) (List.filter (of_stream s) events) (m s)) ->
  (forall s r, r ∈ stream_rows db attemptID s -> l_sequence r <= c s) ->
  @store_events R jobID attemptID events db = Next tt (fold_left (store_one jobID attemptID) events db).
Proof.
  revert db c. induction events as [|p events IH]; intros db c Hc Hr; [done|].
  cbn [store_events fold_left]. unfold bind, store_event. cbn [bind reads]. unfold bind, reads, check, writes.
  set (s := le_Stream (pe_event p)). assert (Hp := Hc s). simpl in Hp. unfold of_stream at 1 in Hp.
  rewrite bool_decide_eq_true_2 in Hp by done. simpl in Hp. destruct Hp as (Hq & Hle & Hp).
  replace (existsb _ _) with false.
  2: { symmetry. apply not_true_iff_false. intros (r & Hin & E)%existsb_exists. apply list_elem_of_In, Hr in Hin.
       apply Z.eqb_eq in E. lia. }
  simpl. change (match _ with Next a s => _ a s | Return r s => Return r s | Abort r => Abort r end)
    with (@store_events R jobID attemptID events (store_one jobID attemptID db p)).
  apply (IH _ (fun t => if bool_decide (t = s) then pe_endSequence p else c t)).
  - intros t. case_bool_decide as Et; [by subst|]. specialize (Hc t). simpl in Hc. unfold of_stream at 1 in Hc.
    rewrite bool_decide_eq_false_2 in Hc; [done|]. intros E. by apply Et.
  - intros t r. unfold store_one. rewrite stream_rows_insert. intros [Hin|Hin]%elem_of_app.
    + apply Hr in Hin. case_bool_decide; [subst t|]; lia.
    + rewrite bool_decide_eq_true_2 in Hin by done. simpl in Hin. case_bool_decide as Et; [|by apply elem_of_nil in Hin].
      apply list_elem_of_singleton in Hin as ->. simpl. rewrite bool_decide_eq_true_2 by done. lia.
Qed.

(** Only the log tables change. *)
Definition log_only (db db' : DB) : Prop :=
  exists rows next marks usage total truncations,
    db' = db <| db_log_events := rows |> <| db_next_ordinal := next |> <| db_log_continuity := marks |>
             <| db_log_usage := usage |> <| db_log_usage_total := total |> <| db_log_truncations := truncations |>.

Lemma log_only_intro db db' :
  db' = db <| db_log_events := db_log_events db' |> <| db_next_ordinal := db_next_ordinal db' |>
           <| db_log_continuity := db_log_continuity db' |> <| db_log_usage := db_log_usage db' |>
           <| db_log_usage_total := db_log_usage_total db' |> <| db_log_truncations := db_log_truncations db' |> ->
  log_only db db'.
Proof. intros E. by do 6 eexists. Qed.

#[export] Instance log_only_preorder : PreOrder log_only.
Proof.
  split.
  - intros db. apply log_only_intro. by destruct db.
  - intros a b c (? & ? & ? & ? & ? & ? & ->) (? & ? & ? & ? & ? & ? & ->). by apply log_only_intro.
Qed.

Lemma stored_rows jobID attemptID events db :
  let db' := fold_left (store_one jobID attemptID) events db in
  db_log_events db' = db_log_events db ++ new_rows jobID attemptID (db_next_ordinal db) events
  /\ db_log_continuity db' = db_log_continuity db /\ log_only db db'.
Proof.
  revert db. induction events as [|p events IH]; intros db; simpl; [by rewrite app_nil_r|].
  destruct (IH (store_one jobID attemptID db p)) as (-> & -> & H). split_and!; [|done|].
  - unfold store_one, insert_log_event. simpl. by rewrite <- app_assoc.
  - etrans; [|exact H]. apply log_only_intro. by destruct db.
Qed.

Lemma stored_log_ok jobID attemptID events db : log_ok db -> log_ok (fold_left (store_one jobID attemptID) events db).
Proof. revert db. induction events as [|p events IH]; intros db H; [done|]. simpl. by apply IH, insert_log_ok. Qed.

(** ** Recording the marks *)
Definition raised (attemptID : string) (next : gmap string Z) (db : DB) (a s : string) : option Z :=
  match next !! s with
  | Some n => if bool_decide (a = attemptID)
              then Some (match db_log_continuity db !! (a, s) with
                         | Some accepted => Z.max accepted (int64 (n - 1)) | None => int64 (n - 1) end)
              else db_log_continuity db !! (a, s)
  | None => db_log_continuity db !! (a, s)
  end.

Lemma record_marks_spec attemptID next db :
  let db' := record_marks attemptID next db in
  db_log_events db' = db_log_events db /\ (log_ok db -> log_ok db') /\ log_only db db'
  /\ forall a s, db_log_continuity db' !! (a, s) = raised attemptID next db a s.
Proof.
  unfold record_marks. apply (map_fold_weak_ind (fun db' next =>
    db_log_events db' = db_log_events db /\ (log_ok db -> log_ok db') /\ log_only db db'
    /\ forall a s, db_log_continuity db' !! (a, s) = raised attemptID next db a s)).
  - split_and!; done.
  - intros s n m db' Hs (E & Hok & Hl & IH). split_and!; [done|..].
    + intros H. apply Hok in H. by apply (log_ok_frame db').
    + etrans; [exact Hl|]. apply log_only_intro. by destruct db'.
    + intros a t. unfold raised in *. simpl. destruct (decide (t = s)) as [->|Ns].
      * rewrite lookup_insert_eq. case_bool_decide as Ea.
        -- subst a. rewrite lookup_insert_eq, IH, Hs. done.
        -- rewrite lookup_insert_ne by congruence. by rewrite IH, Hs.
      * rewrite !lookup_insert_ne by congruence. apply IH.
Qed.

Definition in_stream (attemptID stream : string) (r : LogRow) : bool :=
  bool_decide (l_attempt_id r = attemptID) && bool_decide (l_stream r = stream).

Lemma new_rows_elem jobID attemptID ordinal events r :
  r ∈ new_rows jobID attemptID ordinal events ->
  exists p o, p ∈ events /\ r = row_of jobID attemptID o p /\ ordinal <= o.
Proof.
  revert ordinal. induction events as [|p events IH]; intros ordinal; simpl; [by intros ?%elem_of_nil|].
  intros [->|(q & o & Hq & -> & Ho)%IH]%elem_of_cons; [exists p, ordinal; split_and!; [by left|done|lia]|].
  exists q, o. split_and!; [by right|done|lia].
Qed.

Lemma chain_rows jobID attemptID ordinal events s start last :
  chain start (List.filter (of_stream s) events) last ->
  StronglySorted precedes (List.filter (in_stream attemptID s) (new_rows jobID attemptID ordinal events))
  /\ Forall (fun r => start <= l_sequence r) (List.filter (in_stream attemptID s) (new_rows jobID attemptID ordinal events)).
Proof.
  revert ordinal start. induction events as [|p events IH]; intros ordinal start; simpl; [split; constructor|].
  assert (Ei : in_stream attemptID s (row_of jobID attemptID ordinal p) = of_stream s p).
  { unfold in_stream. simpl. by rewrite bool_decide_eq_true_2. }
  rewrite Ei. destruct (of_stream s p); [|apply IH]. simpl. intros (Eq & Hle & Hc). destruct (IH (ordinal + 1) _ Hc) as [H1 H2]. split.
  - constructor; [done|]. eapply Forall_impl; [exact H2|]. unfold precedes. simpl. intros; lia.
  - constructor; [simpl; lia|]. eapply Forall_impl; [exact H2|]. simpl. intros; lia.
Qed.

Lemma new_rows_has jobID attemptID ordinal events p :
  p ∈ events -> exists o, row_of jobID attemptID o p ∈ new_rows jobID attemptID ordinal events.
Proof.
  revert ordinal. induction events as [|q events IH]; intros ordinal; simpl; [by intros ?%elem_of_nil|].
  intros [->|Hp]%elem_of_cons; [exists ordinal; by left|]. destruct (IH (ordinal + 1) Hp) as [o Ho]. exists o. by right.
Qed.

(** The store with a prepared batch in it. *)
Definition stored (jobID attemptID : string) (b : batch) (db : DB) : DB :=
  record_marks attemptID (bt_next b) (fold_left (store_one jobID attemptID) (bt_newEvents b) db).

Section Stored.
Context (jobID attemptID : string) (b : batch) (db : DB).
Context (Hs : streams_ok db) (Hb : batch_sound db attemptID b).
Abbreviation db' := (stored jobID attemptID b db).

Lemma stored_events : db_log_events db' = db_log_events db ++ new_rows jobID attemptID (db_next_ordinal db) (bt_newEvents b).
Proof.
  unfold stored. destruct (record_marks_spec attemptID (bt_next b) (fold_left (store_one jobID attemptID) (bt_newEvents b) db))
    as (-> & _). apply stored_rows.
Qed.

Lemma stored_has p :
  p ∈ bt_newEvents b -> exists o, row_of jobID attemptID o p ∈ stream_rows db' attemptID (le_Stream (pe_event p)).
Proof.
  intros Hp. destruct (new_rows_has jobID attemptID (db_next_ordinal db) _ _ Hp) as [o Ho]. exists o.
  apply list_elem_of_In, filter_In. split; [|simpl; by rewrite !bool_decide_eq_true_2].
  apply list_elem_of_In. rewrite stored_events. apply elem_of_app. by right.
Qed.

Lemma stored_continuity a s :
  readLogContinuity db' a s = if bool_decide (a = attemptID) then mark db attemptID b s else readLogContinuity db a s.
Proof.
  unfold stored, readLogContinuity, mark.
  destruct (record_marks_spec attemptID (bt_next b) (fold_left (store_one jobID attemptID) (bt_newEvents b) db))
    as (_ & _ & _ & ->).
  unfold raised. destruct (stored_rows jobID attemptID (bt_newEvents b) db) as (_ & -> & _).
  destruct (bt_next b !! s) as [n|] eqn:En; [|by case_bool_decide; subst].
  case_bool_decide; [subst a|done]. simpl. destruct (sound_next _ _ _ Hb _ _ En) as (last & -> & Hlast).
  assert (Hr := continuity_range db attemptID s Hs). rewrite int64_pred_succ by (unfold MaxInt64 in *; lia).
  unfold readLogContinuity in *. destruct (db_log_continuity db !! _); simpl in *; lia.
Qed.

Lemma mark_range s : readLogContinuity db attemptID s <= mark db attemptID b s <= MaxInt64.
Proof.
  assert (Hr := continuity_range db attemptID s Hs). destruct (bt_next b !! s) as [n|] eqn:En.
  - destruct (sound_next _ _ _ Hb _ _ En) as (last & Hn & Hlast). rewrite (mark_next _ _ _ _ _ last En Hn) by lia. lia.
  - unfold mark. rewrite En. lia.
Qed.

Lemma stored_ok : streams_ok db'.
Proof.
  split.
  - rewrite stored_events. apply Forall_app. split; apply Forall_forall.
    + intros r Hr. assert (H := streams_rows _ Hs). rewrite Forall_forall in H. destruct (H r Hr) as [H1 H2 H3 H4].
      split; try done. rewrite stored_continuity. case_bool_decide as E; [|done]. rewrite E in H3.
      assert (Hm := mark_range (l_stream r)). lia.
    + intros r (p & o & Hp & -> & Ho)%new_rows_elem. assert (He := sound_events _ _ _ Hb). rewrite Forall_forall in He.
      destruct (He p Hp) as [Ha Hend]. set (s := le_Stream (pe_event p)).
      assert (Hin : p ∈ List.filter (of_stream s) (bt_newEvents b)).
      { apply list_elem_of_In, filter_In. split; [by apply list_elem_of_In|]. by apply bool_decide_eq_true. }
      destruct (chain_bounds _ _ _ _ (sound_chain _ _ _ Hb s) Hin) as [[H1 H2] H3].
      assert (Hr := continuity_range db attemptID s Hs).
      split; simpl; [lia|lia| |done]. rewrite stored_continuity, bool_decide_eq_true_2 by done. exact H3.
  - intros a s. unfold stream_rows. rewrite stored_events, List.filter_app. apply StronglySorted_app_2.
    + intros r1 r2 H1 H2. apply list_elem_of_In, filter_In in H1 as [H1 E1].
      assert (H2' := H2). apply list_elem_of_In, filter_In in H2' as [H2' E2]. apply list_elem_of_In in H1, H2'.
      apply new_rows_elem in H2' as (p & o & Hp & -> & _). simpl in E2. apply andb_true_iff in E2 as [E2 E3], E1 as [E1 E4].
      apply bool_decide_eq_true in E1, E2, E3, E4. rewrite <- E2 in H2.
      destruct (chain_rows jobID attemptID (db_next_ordinal db) _ _ _ _ (sound_chain _ _ _ Hb s)) as [_ Hf].
      rewrite Forall_forall in Hf. apply Hf in H2. assert (H := streams_rows _ Hs). rewrite Forall_forall in H.
      destruct (H r1 H1) as [_ _ H3 _]. rewrite E1, E4, <- E2 in H3. unfold precedes. lia.
    + apply (streams_sorted _ Hs).
    + destruct (decide (a = attemptID)) as [->|N].
      * apply (chain_rows jobID attemptID (db_next_ordinal db) _ _ _ _ (sound_chain _ _ _ Hb s)).
      * rewrite list_filter_false; [constructor|]. apply Forall_forall. intros r (p & o & _ & -> & _)%new_rows_elem.
        simpl. by rewrite bool_decide_eq_false_2.
  - intros [a s] through. unfold stored.
    destruct (record_marks_spec attemptID (bt_next b) (fold_left (store_one jobID attemptID) (bt_newEvents b) db))
      as (_ & _ & _ & ->). unfold raised. destruct (stored_rows jobID attemptID (bt_newEvents b) db) as (_ & -> & _).
    destruct (bt_next b !! s) as [n|] eqn:En; [|apply (streams_marks _ Hs)].
    case_bool_decide; [subst a|apply (streams_marks _ Hs)]. destruct (sound_next _ _ _ Hb _ _ En) as (last & -> & Hlast).
    assert (Hr := continuity_range db attemptID s Hs). rewrite int64_pred_succ by (unfold MaxInt64 in *; lia).
    destruct (db_log_continuity db !! _) eqn:Ec; intros [= <-]; [apply (streams_marks _ Hs) in Ec|]; lia.
Qed.

Lemma stored_counts : log_ok db -> log_ok db'.
Proof. intros H. unfold stored. by apply record_marks_spec, stored_log_ok. Qed.

Lemma stored_only : log_only db db'.
Proof.
  unfold stored. etrans; [apply (stored_rows jobID attemptID (bt_newEvents b) db)|]. apply record_marks_spec.
Qed.
End Stored.

(** ** What a prepared batch covers *)
Section Covers.
Context (source_digest : LogEvent -> string).
Abbreviation accepted_form := (accepted_form source_digest).
Abbreviation prepare_events := (prepare_events source_digest).
Abbreviation passes := (passes source_digest).

Lemma passes_mono late db attemptID e b b' :
  uint64_event e -> batch_sound db attemptID b -> validateLogEvent attemptID e = Ok tt ->
  passes late db attemptID e b b' ->
  (forall p, p ∈ bt_newEvents b -> p ∈ bt_newEvents b') /\ forall s, mark db attemptID b s <= mark db attemptID b' s.
Proof.
  intros Hu Hb Hv Hp. destruct (validated_event _ _ _ Hv Hu) as (_ & [Hseq Hend] & Hmax).
  destruct Hp as [|b' _ -> _ _|b' _ Hm ->]; [done|done|]. simpl. split; [set_solver|]. intros s. unfold mark at 2. simpl.
  destruct (decide (s = le_Stream e)) as [->|]; [rewrite lookup_insert_eq|rewrite lookup_insert_ne by done; reflexivity].
  rewrite int64_pred_succ by (unfold MaxInt64 in *; lia). lia.
Qed.

(** An event is acknowledged with the batch. *)
Definition covered (db : DB) (attemptID : string) (b : batch) (e : LogEvent) : Prop :=
  is_Some (bt_recorded b !! le_Stream e) /\ logEventEndSequence e <= mark db attemptID b (le_Stream e).

Lemma passes_covers late db attemptID e b b' :
  streams_ok db -> uint64_event e -> batch_sound db attemptID b -> validateLogEvent attemptID e = Ok tt ->
  passes late db attemptID e b b' -> (forall k v, bt_seen b !! k = Some v -> covered db attemptID b v) ->
  covered db attemptID b' e /\ (forall k v, bt_seen b' !! k = Some v -> covered db attemptID b' v)
  /\ (forall x, covered db attemptID b x -> covered db attemptID b' x)
  /\ (forall p, p ∈ bt_newEvents b' ->
        p ∈ bt_newEvents b \/ p = mkpreparedEvent (accepted_form late e) (logEventEndSequence e)).
Proof.
  intros Hs Hu Hb Hv Hp Hseen. destruct (accepted_form_fields source_digest late e) as (_ & Es & Eq & Ee).
  assert (Hmono := passes_mono late db attemptID e b b' Hu Hb Hv Hp). destruct Hmono as [_ Hmark].
  assert (Hrec : forall s, is_Some (bt_recorded b !! s) -> is_Some (bt_recorded b' !! s)).
  { intros s Hr. destruct Hp as [|? _ -> _ _|? _ _ ->]; simpl; [done|..];
      (destruct (decide (s = le_Stream e)) as [->|]; [by rewrite lookup_insert_eq|by rewrite lookup_insert_ne]). }
  assert (Hkeep : forall x, covered db attemptID b x -> covered db attemptID b' x).
  { intros x [H1 H2]. split; [auto|]. specialize (Hmark (le_Stream x)). lia. }
  assert (He : covered db attemptID b' e).
  { destruct Hp as [Hd|? _ -> Hle _|? _ _ ->].
    - apply Hseen in Hd. unfold covered in *. by rewrite Es, Ee in Hd.
    - split; simpl; [by rewrite lookup_insert_eq|]. unfold mark. simpl. specialize (Hmark (le_Stream e)).
      assert (Hr := mark_range attemptID b db Hs Hb (le_Stream e)). unfold mark in Hr. lia.
    - destruct (validated_event _ _ _ Hv Hu) as (_ & [Hseq Hend] & Hmax). split; simpl; [by rewrite lookup_insert_eq|].
      unfold mark. simpl. rewrite lookup_insert_eq, int64_pred_succ by (unfold MaxInt64 in *; lia). lia. }
  split_and!; [done| |done|].
  - intros k v Hk. destruct (decide (k = (le_Stream e, le_Sequence e))) as [->|Nk].
    + assert (v = accepted_form late e) as ->; [|unfold covered in *; by rewrite Es, Ee].
      destruct Hp as [Hd|? _ -> _ _|? _ _ ->]; simpl in Hk; [congruence|..]; rewrite lookup_insert_eq in Hk; congruence.
    + apply Hkeep, (Hseen k). destruct Hp as [Hd|? _ -> _ _|? _ _ ->]; simpl in Hk; [done|..]; by rewrite lookup_insert_ne in Hk.
  - intros p Hin. destruct Hp as [Hd|? _ -> _ _|? _ _ ->]; simpl in Hin; [by left|by left|].
    apply elem_of_app in Hin as [?| ->%list_elem_of_singleton]; auto.
Qed.

(** Every event of an accepted batch is acknowledged, and nothing else is stored. *)
Lemma prepare_covers late db attemptID events b b' :
  streams_ok db -> Forall uint64_event events -> batch_sound db attemptID b ->
  (forall k v, bt_seen b !! k = Some v -> covered db attemptID b v) ->
  prepare_events late db attemptID events b = Ok b' ->
  (forall e, e ∈ events \/ covered db attemptID b e -> covered db attemptID b' e)
  /\ (forall p, p ∈ bt_newEvents b' -> p ∈ bt_newEvents b
        \/ exists e, e ∈ events /\ p = mkpreparedEvent (accepted_form late e) (logEventEndSequence e)).
Proof.
  intros Hs Hu. revert b. induction Hu as [|x events Hx _ IH]; intros b Hb Hseen; simpl.
  { intros [= <-]. split; [|auto]. by intros e [?%elem_of_nil|?]. }
  intros (b1 & H1 & H2)%result_bind_ok. destruct (prepare_event_passes _ _ _ _ _ _ _ Hs Hx Hb H1) as (Hv & _ & Hp).
  destruct (passes_covers _ _ _ _ _ _ Hs Hx Hb Hv Hp Hseen) as (C1 & C2 & C3 & C4).
  destruct (IH b1) as [I1 I2]; [by eapply passes_sound|done|done|]. split.
  - intros e [[->|He]%elem_of_cons|He]; apply I1; auto.
  - intros p [[?| ->]%C4|(e & He & ->)]%I2; [by left|right; exists x; split; [by left|done]|].
    right. exists e. split; [by right|done].
Qed.
End Covers.

(** ** Evictions *)
Record shrinks (db db' : DB) : Prop := {
  shrinks_rows : exists keep, db_log_events db' = List.filter keep (db_log_events db);
  shrinks_marks : db_log_continuity db' = db_log_continuity db;
  shrinks_counts : log_ok db';
  shrinks_only : log_only db db'
}.

Lemma evict_shrinks jobID budget target bound now db :
  log_ok db ->
  let e := evictLogEvents jobID budget target db in
  shrinks db (recordLogTruncations (ev_perJob e) bound now (ev_db e)).2.
Proof.
  intros H e. destruct (evictLogEvents_spec jobID budget target db H) as [Hev _]. fold e in Hev.
  assert (Hz := counts_zero jobID (mkeviction budget 0 ∅ db) _ _ _ eq_refl Hev).
  destruct (record_counts (ev_perJob e) bound now (ev_db e) Hz) as [(tr & Hfr) _]. simpl in Hfr.
  destruct (evicted_frame _ _ _ _ _ Hev) as (r1 & r2 & r3 & Hf). simpl in Hf. rewrite Hfr. split.
  - eexists. exact (evicted_rows _ _ _ _ _ Hev).
  - by rewrite Hf.
  - apply (log_ok_frame (ev_db e)); [done..|]. apply Hev.
  - rewrite Hf. apply log_only_intro. by destruct db.
Qed.

Lemma shrinks_refl db : log_ok db -> shrinks db db.
Proof.
  intros H. split; try done. exists (fun _ => true). symmetry. apply list_filter_true. by apply Forall_forall.
Qed.

Lemma cap_shrinks bounds jobID now budget db :
  log_ok db -> shrinks db (enforceJobLogByteRetention bounds jobID now budget db).2.
Proof.
  intros H. unfold enforceJobLogByteRetention. cbv zeta. destruct (_ <=? _).
  - destruct (shrinks_refl db H) as [H1 H2 H3 _]. split; simpl; try done; [by apply (log_ok_frame db)|].
    apply log_only_intro. by destruct db.
  - assert (He := evict_shrinks jobID budget (default 0 (db_log_usage db !! jobID)
      - (if jobIsService db jobID then lb_serviceBytes bounds else lb_oneshotBytes bounds)) LogRetentionBytes now db H).
    simpl in He. by destruct (recordLogTruncations _ _ _ _).
Qed.

Lemma ceiling_shrinks bounds now budget db : log_ok db -> shrinks db (enforceLogRetentionTotal bounds now budget db).2.
Proof.
  intros H. unfold enforceLogRetentionTotal. cbv zeta. destruct (_ <=? _); [by apply shrinks_refl|].
  assert (He := evict_shrinks "" budget (db_log_usage_total db - lb_totalBytes bounds) LogRetentionTotal now db H).
  simpl in He. by destruct (recordLogTruncations _ _ _ _).
Qed.

(** Rows may go, and the marks of attempts without rows. *)
Lemma streams_shrink db db' keep :
  db_log_events db' = List.filter keep (db_log_events db) ->
  (forall k through, db_log_continuity db' !! k = Some through -> db_log_continuity db !! k = Some through) ->
  (forall r, r ∈ db_log_events db' ->
     readLogContinuity db (l_attempt_id r) (l_stream r) <= readLogContinuity db' (l_attempt_id r) (l_stream r)) ->
  streams_ok db -> streams_ok db'.
Proof.
  intros E Hm Hc [H1 H2 H3]. split.
  - apply Forall_forall. intros r Hr. specialize (Hc r Hr). rewrite E in Hr. apply list_elem_of_In, filter_In in Hr as [Hr _].
    apply list_elem_of_In in Hr. rewrite Forall_forall in H1. destruct (H1 r Hr) as [? ? ? ?]. split; try done. lia.
  - intros a s. unfold stream_rows. rewrite E, filter_filter_comm. apply sorted_filter, H2.
  - intros k through Hk. by eapply H3, Hm.
Qed.

Lemma shrinks_streams db db' : shrinks db db' -> streams_ok db -> streams_ok db'.
Proof.
  intros [[keep E] Hm _ _]. apply (streams_shrink db db' keep E); [by rewrite Hm|]. intros r _.
  unfold readLogContinuity. by rewrite Hm.
Qed.

(** Pruning a summary takes the marks of an attempt that has no rows. *)
Lemma prune_logs window now jobID db :
  let db' := pruneServiceAttemptSummaries window now jobID db in
  db_log_events db' = db_log_events db /\ db_next_ordinal db' = db_next_ordinal db
  /\ db_log_usage db' = db_log_usage db /\ db_log_usage_total db' = db_log_usage_total db
  /\ (forall k through, db_log_continuity db' !! k = Some through -> db_log_continuity db !! k = Some through)
  /\ (forall id s, is_Some (db_attempts db' !! id) \/ (exists r, r ∈ db_log_events db /\ l_attempt_id r = id) ->
        readLogContinuity db' id s = readLogContinuity db id s).
Proof.
  unfold pruneServiceAttemptSummaries, pruneListedAttemptSummaries. cbv zeta.
  destruct (negb _); [by split_and!|]. destruct (attemptSummaryFloor _ _); [|by split_and!].
  case_bool_decide; [by split_and!|]. split_and!; try done.
  - intros k through Hk. simpl in Hk. by apply map_lookup_filter_Some in Hk as [? _].
  - intros id s Hid. unfold readLogContinuity. simpl. f_equal.
    match goal with |- ?x = ?y => destruct y as [v|] eqn:Ev end; [apply map_lookup_filter_Some | apply map_lookup_filter_None; by left].
    split; [done|]. simpl. destruct (db_attempts db !! id) as [a|] eqn:Ea; [|done].
    destruct Hid as [[a' Ha']|(r & Hr & El)].
    + apply delete_attempts_lookup in Ha' as [Ha' Hp].
      assert (a' = a) as -> by congruence. exact Hp.
    + unfold summary_prunable. rewrite andb_false_iff. right. apply negb_false_iff, existsb_exists. exists r.
      split; [by apply list_elem_of_In | by apply bool_decide_eq_true].
Qed.

(** ** Replays *)
Definition compatible (e converted : LogEvent) (r : LogRow) : Prop :=
  l_sequence_end r < le_Sequence e \/ logEventEndSequence e < l_sequence r
  \/ (l_sequence r = le_Sequence e /\ l_sequence_end r = logEventEndSequence e /\ (l_event r = e \/ l_event r = converted)).

Lemma row_before_spec q rows :
  match row_before q rows with
  | Some b => b ∈ rows /\ l_sequence b < q /\ forall r, r ∈ rows -> l_sequence r < q -> l_sequence r <= l_sequence b
  | None => forall r, r ∈ rows -> q <= l_sequence r
  end.
Proof.
  unfold row_before. induction rows as [|x rows IH] using rev_ind; simpl; [by intros ? ?%elem_of_nil|].
  rewrite fold_left_app. simpl. set (best := fold_left _ rows None) in *.
  destruct (Z.ltb_spec (l_sequence x) q) as [Hx|Hx]; simpl.
  - destruct best as [b|].
    + destruct IH as (Hb & Hq & Hmax). destruct (Z.ltb_spec (l_sequence b) (l_sequence x)).
      * split_and!; [set_solver|lia|]. intros r [Hr| ->%list_elem_of_singleton]%elem_of_app Hlt; [apply Hmax in Hr; lia|lia].
      * split_and!; [set_solver|lia|]. intros r [Hr| ->%list_elem_of_singleton]%elem_of_app Hlt; [by apply Hmax|lia].
    + split_and!; [set_solver|lia|]. intros r [Hr| ->%list_elem_of_singleton]%elem_of_app Hlt; [apply IH in Hr; lia|lia].
  - destruct best as [b|].
    + destruct IH as (Hb & Hq & Hmax). split_and!; [set_solver|lia|].
      intros r [Hr| ->%list_elem_of_singleton]%elem_of_app Hlt; [by apply Hmax|lia].
    + intros r [Hr| ->%list_elem_of_singleton]%elem_of_app; [by apply IH|lia].
Qed.

Lemma sorted_unique_sequence rows r1 r2 :
  StronglySorted precedes rows -> Forall (fun r => l_sequence r <= l_sequence_end r) rows ->
  r1 ∈ rows -> r2 ∈ rows -> l_sequence r1 = l_sequence r2 -> r1 = r2.
Proof.
  induction 1 as [|x rows _ IH Hx]; intros Hf; [by intros ?%elem_of_nil|]. apply Forall_cons in Hf as [Hr Hf].
  rewrite Forall_forall in Hx. intros [->|H1]%elem_of_cons [->|H2]%elem_of_cons E; [done|..|by apply IH].
  - apply Hx in H2. unfold precedes in H2. lia.
  - apply Hx in H1. unfold precedes in H1. lia.
Qed.

Lemma sorted_precedes rows r1 r2 :
  StronglySorted precedes rows -> r1 ∈ rows -> r2 ∈ rows -> r1 = r2 \/ precedes r1 r2 \/ precedes r2 r1.
Proof.
  induction 1 as [|x rows _ IH Hx]; [by intros ?%elem_of_nil|]. rewrite Forall_forall in Hx.
  intros [->|H1]%elem_of_cons [->|H2]%elem_of_cons; eauto.
Qed.

Lemma precedes_nodup rows :
  StronglySorted precedes rows -> Forall (fun r => l_sequence r <= l_sequence_end r) rows -> NoDup rows.
Proof.
  induction 1 as [|x rows _ IH Hx]; intros Hf; [constructor|]. apply Forall_cons in Hf as [Hr Hf]. constructor; [|by apply IH].
  intros Hin. rewrite Forall_forall in Hx. apply Hx in Hin. unfold precedes in Hin. lia.
Qed.

Lemma stream_rows_range db a s :
  streams_ok db -> Forall (fun r => l_sequence r <= l_sequence_end r) (stream_rows db a s).
Proof.
  intros H. apply Forall_forall. intros r [Hr _]%list_elem_of_In%filter_In. apply list_elem_of_In in Hr.
  assert (Hs := streams_rows _ H). rewrite Forall_forall in Hs. apply (Hs r Hr).
Qed.

Lemma overlap_spec rows q :
  StronglySorted precedes rows -> Forall (fun r => l_sequence r <= l_sequence_end r) rows ->
  match row_before q rows with Some r => q <=? l_sequence_end r | None => false end = true
  <-> exists r, r ∈ rows /\ l_sequence r < q /\ q <= l_sequence_end r.
Proof.
  intros Hsort Hrange. assert (Hb := row_before_spec q rows). destruct (row_before _ _) as [b|].
  - destruct Hb as (Hin & Hq & Hmax). rewrite Z.leb_le. split; [by exists b|]. intros (r & Hr & H1 & H2).
    assert (Hm := Hmax r Hr H1). destruct (sorted_precedes rows r b Hsort Hr Hin) as [->|[Hp|Hp]]; [done|..];
      unfold precedes in Hp; rewrite Forall_forall in Hrange; apply Hrange in Hin; lia.
  - split; [done|]. intros (r & Hr & H1 & _). apply Hb in Hr. lia.
Qed.

(** The rows inside a range, in sequence order. *)
Definition inside (q n : Z) (rows : list LogRow) : list LogRow :=
  merge_sort sequence_le (List.filter (fun r => (q <=? l_sequence r) && (l_sequence r <=? n)) rows).

Lemma inside_elem q n rows r : r ∈ inside q n rows <-> r ∈ rows /\ q <= l_sequence r <= n.
Proof.
  unfold inside. rewrite merge_sort_Permutation, !list_elem_of_In, filter_In, andb_true_iff, !Z.leb_le. done.
Qed.

Lemma inside_nodup q n rows :
  StronglySorted precedes rows -> Forall (fun r => l_sequence r <= l_sequence_end r) rows -> NoDup (inside q n rows).
Proof.
  intros. unfold inside. rewrite merge_sort_Permutation.
  apply NoDup_ListNoDup, List.NoDup_filter, NoDup_ListNoDup. by apply precedes_nodup.
Qed.

(** The replay check looks at one neighbour and two rows; that decides whether
    every retained row of the stream is compatible with the event. *)
Lemma replay_check db attemptID event e :
  streams_ok db -> le_Stream event = le_Stream e -> le_Sequence event = le_Sequence e ->
  le_Sequence e <= logEventEndSequence e ->
  checkRetainedLogReplay db attemptID event (logEventEndSequence e) e event = Ok tt
  <-> forall r, r ∈ stream_rows db attemptID (le_Stream e) -> compatible e event r.
Proof.
  intros H Es Eq Hle. unfold checkRetainedLogReplay. rewrite Es, Eq. set (rows := stream_rows db attemptID (le_Stream e)).
  assert (Hsort := streams_sorted _ H attemptID (le_Stream e)). assert (Hrange := stream_rows_range _ attemptID (le_Stream e) H).
  fold rows in Hsort, Hrange. assert (Ho := overlap_spec rows (le_Sequence e) Hsort Hrange).
  assert (Hnd := inside_nodup (le_Sequence e) (logEventEndSequence e) rows Hsort Hrange).
  assert (Hin := inside_elem (le_Sequence e) (logEventEndSequence e) rows).
  cbv zeta. fold (inside (le_Sequence e) (logEventEndSequence e) rows). rewrite Forall_forall in Hrange.
  destruct (match row_before _ _ with Some _ => _ | None => _ end).
  { split; [done|]. intros Hc. destruct (proj1 Ho eq_refl) as (r & Hr & H1 & H2). specialize (Hc r Hr). unfold compatible in Hc. lia. }
  assert (Hout : forall r, r ∈ rows -> compatible e event r \/ r ∈ inside (le_Sequence e) (logEventEndSequence e) rows).
  { intros r Hr. rewrite Hin. unfold compatible. destruct (Z.ltb_spec (logEventEndSequence e) (l_sequence r)); [auto|].
    destruct (Z.ltb_spec (l_sequence r) (le_Sequence e)) as [Hlt|]; [|auto].
    destruct (Z.ltb_spec (l_sequence_end r) (le_Sequence e)); [auto|]. assert (false = true) by (apply Ho; eauto). done. }
  assert (Hmatch : forall r, r ∈ inside (le_Sequence e) (logEventEndSequence e) rows -> compatible e event r ->
    l_sequence r = le_Sequence e /\ l_sequence_end r = logEventEndSequence e /\ (l_event r = e \/ l_event r = event)).
  { intros r [Hr Hq]%Hin [?|[?|?]]; [apply Hrange in Hr; lia | lia | done]. }
  clear Ho Hin. destruct (inside _ _ rows) as [|r1 [|r2 rest]] eqn:Em; simpl.
  - split; [intros _ r Hr|done]. by destruct (Hout r Hr) as [?|?%elem_of_nil].
  - assert (H1 : compatible e event r1 <-> l_sequence r1 = le_Sequence e /\ l_sequence_end r1 = logEventEndSequence e
                                           /\ (l_event r1 = e \/ l_event r1 = event)).
    { split; [apply Hmatch; by left | by right; right]. }
    assert (H2 : (forall r, r ∈ rows -> compatible e event r) <-> compatible e event r1).
    { split; [intros Hc; apply Hc; apply (inside_elem (le_Sequence e) (logEventEndSequence e)); rewrite Em; by left|].
      intros Hc r Hr. by destruct (Hout r Hr) as [?| ->%list_elem_of_singleton]. }
    rewrite H2, H1. destruct (_ && _ && _) eqn:Ec.
    + apply andb_true_iff in Ec as [[?%Z.eqb_eq ?%Z.eqb_eq]%andb_true_iff E3%orb_true_iff]. by rewrite !bool_decide_eq_true in E3.
    + split; [done|]. intros (E1 & E2 & E3). rewrite E1, E2, !Z.eqb_refl in Ec. simpl in Ec.
      apply orb_false_iff in Ec as [?%bool_decide_eq_false ?%bool_decide_eq_false]. tauto.
  - split; [done|]. intros Hc. exfalso.
    assert (I1 : r1 ∈ rows) by (apply (inside_elem (le_Sequence e) (logEventEndSequence e)); rewrite Em; by left).
    assert (I2 : r2 ∈ rows) by (apply (inside_elem (le_Sequence e) (logEventEndSequence e)); rewrite Em; right; by left).
    destruct (Hmatch r1) as [E1 _]; [by left|by apply Hc|]. destruct (Hmatch r2) as [E2 _]; [right; by left|by apply Hc|].
    assert (r1 = r2); [|subst r2; apply NoDup_cons in Hnd as [[] _]; by left].
    apply (sorted_unique_sequence rows); [done| |done|done|congruence]. by apply Forall_forall.
Qed.

(** A batch in which everything is a replay, run beside the batch that was
    accepted. *)
Section Replay.
Context (source_digest : LogEvent -> string) (late1 late2 : bool) (db0 db2 : DB) (jobID attemptID : string) (bf : batch).
Context (Hlate : late1 = true -> late2 = true).
Context (Hs0 : streams_ok db0) (Hs2 : streams_ok db2) (Hbf : batch_sound db0 attemptID bf).
Context (Hmarks : forall s, mark db0 attemptID bf s <= readLogContinuity db2 attemptID s).
Context (Hrows : forall r, r ∈ db_log_events db2 -> l_attempt_id r = attemptID ->
  r ∈ db_log_events (stored jobID attemptID bf db0) \/ mark db0 attemptID bf (l_stream r) < l_sequence r).
Abbreviation accepted_form := (accepted_form source_digest).

Record replaying (b1 b2 : batch) : Prop := {
  replaying_seen : forall k,
    (bt_seen b1 !! k = None /\ bt_seen b2 !! k = None)
    \/ exists e, bt_seen b1 !! k = Some (accepted_form late1 e) /\ bt_seen b2 !! k = Some (accepted_form late2 e);
  replaying_recorded : forall s, bt_recorded b2 !! s = (fun _ => readLogContinuity db2 attemptID s) <$> bt_recorded b1 !! s;
  replaying_next : bt_next b2 = ∅;
  replaying_new : bt_newEvents b2 = []
}.

(** Later events of the batch keep the marks and the new events. *)
Definition leads (b : batch) : Prop :=
  (forall p, p ∈ bt_newEvents b -> p ∈ bt_newEvents bf) /\ forall s, mark db0 attemptID b s <= mark db0 attemptID bf s.

Lemma prepare_leads events b :
  Forall uint64_event events -> batch_sound db0 attemptID b ->
  prepare_events source_digest late1 db0 attemptID events b = Ok bf -> leads b.
Proof.
  intros Hu. revert b. induction Hu as [|e events He _ IH]; intros b Hb; simpl; [intros [= ->]; split; [done|reflexivity]|].
  intros (b1 & H1 & H2)%result_bind_ok. destruct (prepare_event_passes _ _ _ _ _ _ _ Hs0 He Hb H1) as (Hv & _ & Hp).
  destruct (passes_mono _ _ _ _ _ _ _ He Hb Hv Hp) as [M1 M2].
  destruct (IH b1) as [L1 L2]; [by eapply passes_sound|done|]. split; [auto|]. intros s. etrans; [apply M2|apply L2].
Qed.

(** An event that was accepted or replayed then is compatible with what is
    retained now. *)
Lemma still_compatible e b b' :
  uint64_event e -> batch_sound db0 attemptID b -> validateLogEvent attemptID e = Ok tt -> leads b' ->
  bt_seen b !! (le_Stream e, le_Sequence e) = None -> passes source_digest late1 db0 attemptID e b b' ->
  logEventEndSequence e <= mark db0 attemptID bf (le_Stream e)
  /\ forall r, r ∈ stream_rows db2 attemptID (le_Stream e) ->
       l_sequence_end r < le_Sequence e \/ logEventEndSequence e < l_sequence r
       \/ (l_sequence r = le_Sequence e /\ l_sequence_end r = logEventEndSequence e
           /\ (l_event r = e \/ l_event r = accepted_form late1 e)).
Proof.
  intros Hu Hb Hv [L1 L2] Hn Hp. destruct (validated_event _ _ _ Hv Hu) as (_ & [Hseq Hend] & Hmax).
  assert (Hsplit : logEventEndSequence e <= mark db0 attemptID bf (le_Stream e)
    /\ forall r, r ∈ stream_rows (stored jobID attemptID bf db0) attemptID (le_Stream e) -> compatible e (accepted_form late1 e) r).
  { destruct (accepted_form_fields source_digest late1 e) as (_ & Es & Eq & Ee).
    destruct Hp as [Hd|b' _ -> Hle Hc|b' _ Hm ->]; [congruence|..].
    - assert (Hr := mark_range attemptID bf db0 Hs0 Hbf (le_Stream e)). split; [lia|].
      intros r Hr'. unfold stream_rows in Hr'. rewrite stored_events, List.filter_app in Hr'.
      apply elem_of_app in Hr' as [Hr'|Hr'].
      + by apply (replay_check db0 attemptID (accepted_form late1 e) e Hs0 Es Eq Hend).
      + destruct (chain_rows jobID attemptID (db_next_ordinal db0) _ _ _ _ (sound_chain _ _ _ Hbf (le_Stream e))) as [_ Hf].
        rewrite Forall_forall in Hf. apply Hf in Hr'. right; left. lia.
    - set (p := mkpreparedEvent (accepted_form late1 e) (logEventEndSequence e)) in *.
      assert (Hp : p ∈ bt_newEvents bf) by (apply L1; simpl; set_solver).
      split.
      { specialize (L2 (le_Stream e)). unfold mark at 1 in L2. simpl in L2. rewrite lookup_insert_eq in L2.
        rewrite int64_pred_succ in L2 by (unfold MaxInt64 in *; lia). lia. }
      destruct (stored_has jobID attemptID bf db0 p Hp) as (o & Ho).
      assert (Hok := stored_ok jobID attemptID bf db0 Hs0 Hbf). intros r Hr.
      destruct (sorted_precedes _ r (row_of jobID attemptID o p) (streams_sorted _ Hok attemptID (le_Stream e)) Hr) as [->|[Hpr|Hpr]].
      + subst p. simpl in Ho. by rewrite Es in Ho.
      + right; right. simpl. rewrite Eq. auto.
      + left. unfold precedes in Hpr. simpl in Hpr. lia.
      + right; left. unfold precedes in Hpr. simpl in Hpr. lia. }
  destruct Hsplit as [Hm Hc]. split; [done|]. intros r Hr. assert (Hr' := Hr).
  apply list_elem_of_In, filter_In in Hr' as [Hr1 E]. apply list_elem_of_In in Hr1. apply andb_true_iff in E as [E1 E2].
  apply bool_decide_eq_true in E1, E2. destruct (Hrows r Hr1 E1) as [Hin|Hlt]; [|rewrite E2 in Hlt; right; left; lia].
  apply Hc. apply list_elem_of_In, filter_In. split; [by apply list_elem_of_In|].
  rewrite E1, E2. by rewrite !bool_decide_eq_true_2.
Qed.
Lemma accepted_form_later e1 e2 : accepted_form late1 e1 = accepted_form late1 e2 -> accepted_form late2 e1 = accepted_form late2 e2.
Proof. destruct late1; [by rewrite (Hlate eq_refl)|]. unfold Logs.accepted_form at 1 2. by intros ->. Qed.

Lemma replay_event e b1 b1' b2 :
  uint64_event e -> batch_sound db0 attemptID b1 -> prepare_event source_digest late1 db0 attemptID e b1 = Ok b1' ->
  leads b1' -> replaying b1 b2 ->
  exists b2', prepare_event source_digest late2 db2 attemptID e b2 = Ok b2' /\ replaying b1' b2'.
Proof.
  intros Hu Hb1 H1 Hl [R1 R2 R3 R4]. destruct (prepare_event_passes _ _ _ _ _ _ _ Hs0 Hu Hb1 H1) as (Hv & Hj & Hp).
  destruct (validated_event _ _ _ Hv Hu) as (_ & [Hseq Hend] & Hmax).
  unfold Logs.prepare_event. rewrite Hv, Hj. simpl.
  destruct (accepted_form_fields source_digest late2 e) as (_ & Es & Eq & Ee). rewrite Es, Eq, Ee.
  destruct (R1 (le_Stream e, le_Sequence e)) as [[N1 N2]|(e0 & S1 & S2)].
  2: { exists b2. rewrite S2. destruct Hp as [Hd|? N _ _ _|? N _ _]; [|congruence..].
       rewrite bool_decide_eq_true_2; [by split|]. rewrite S1 in Hd. by injection Hd as Hd%accepted_form_later. }
  destruct (still_compatible e b1 b1' Hu Hb1 Hv Hl N1 Hp) as [Hm Hc]. specialize (Hmarks (le_Stream e)).
  rewrite N2. replace (match bt_recorded b2 !! _ with Some through => through | None => _ end)
    with (readLogContinuity db2 attemptID (le_Stream e)) by (rewrite R2; by destruct (bt_recorded b1 !! _)).
  rewrite (proj2 (Z.leb_le _ _)), (proj2 (Z.ltb_ge _ _)) by lia.
  rewrite (proj2 (replay_check db2 attemptID (accepted_form late2 e) e Hs2 Es Eq Hend)).
  2: { intros r Hr. destruct (Hc r Hr) as [?|[?|(E1 & E2 & E3)]]; [by left|by right; left|right; right; split_and!; [done..|]].
       clear -E3 Hlate. destruct late1; [by rewrite (Hlate eq_refl)|]. unfold Logs.accepted_form in E3 at 1. tauto. }
  simpl. eexists. split; [done|].
  assert (Hseen : forall late b b', bt_seen b' = <[(le_Stream e, le_Sequence e) := accepted_form late e]> (bt_seen b) ->
    bt_seen b' !! (le_Stream e, le_Sequence e) = Some (accepted_form late e)
    /\ forall k, k <> (le_Stream e, le_Sequence e) -> bt_seen b' !! k = bt_seen b !! k).
  { intros late b b' ->. split; [by rewrite lookup_insert_eq|]. intros k Hk. by rewrite lookup_insert_ne. }
  assert (H1' : bt_seen b1' = <[(le_Stream e, le_Sequence e) := accepted_form late1 e]> (bt_seen b1)
    /\ bt_recorded b1' = <[le_Stream e := readLogContinuity db0 attemptID (le_Stream e)]> (bt_recorded b1)).
  { destruct Hp as [Hd|? _ -> _ _|? _ _ ->]; [congruence|done|done]. }
  destruct H1' as [E1 E2]. destruct (Hseen _ _ _ E1) as [K1 K2]. split; simpl; [|intros s|done|done].
  - intros k. destruct (decide (k = (le_Stream e, le_Sequence e))) as [->|Hk].
    + right. exists e. by rewrite lookup_insert_eq.
    + rewrite K2, lookup_insert_ne by done. apply R1.
  - rewrite E2. destruct (decide (s = le_Stream e)) as [->|]; [by rewrite !lookup_insert_eq|].
    rewrite !lookup_insert_ne by done. apply R2.
Qed.

Lemma replay_events events b1 b2 :
  Forall uint64_event events -> batch_sound db0 attemptID b1 ->
  prepare_events source_digest late1 db0 attemptID events b1 = Ok bf -> replaying b1 b2 ->
  exists b2', prepare_events source_digest late2 db2 attemptID events b2 = Ok b2' /\ replaying bf b2'.
Proof.
  intros Hu. revert b1 b2. induction Hu as [|e events He Hu IH]; intros b1 b2 Hb; cbn [prepare_events].
  { intros [= ->] Hr. by exists b2. }
  intros (b1' & H1 & H2)%result_bind_ok Hr. destruct (prepare_event_passes _ _ _ _ _ _ _ Hs0 He Hb H1) as (Hv & _ & Hp).
  assert (Hb' : batch_sound db0 attemptID b1') by (by eapply passes_sound).
  destruct (replay_event e b1 b1' b2 He Hb H1 (prepare_leads _ _ Hu Hb' H2) Hr) as (b2' & E2 & Hr').
  rewrite E2. simpl. by eapply IH.
Qed.

Lemma replaying_empty : replaying empty_batch empty_batch.
Proof. split; try done. intros k. left. split; apply lookup_empty. Qed.

Lemma replay_acknowledged b2 s :
  replaying bf b2 -> acknowledged b2 !! s = (fun _ => readLogContinuity db2 attemptID s) <$> bt_recorded bf !! s.
Proof.
  intros [_ R2 R3 _]. unfold acknowledged. rewrite map_lookup_imap, R2, R3.
  destruct (bt_recorded bf !! s) as [t|] eqn:E; simpl; [|done]. by rewrite lookup_empty.
Qed.
End Replay.
