(* ===== verification/Ingestion.v ===== *)
(** * Uploads end to end

    [AppendLogs] as a function of its checks and its prepared batch; an accepted
    upload extends every stream without a gap, and can be replayed after any
    number of further uploads and evictions. *)
From S2P Require Import Prelude Order States Contract GoStrings JobSpec L1Types RestartPolicy Database.
From S2P Require Import LeaseClock Authority Credentials Summaries Lifecycle LogRetention Logs LogStreams.
#[local] Open Scope string_scope.
#[local] Open Scope list_scope.
#[local] Open Scope Z_scope.

(** ** The handler *)
Definition log_tables (db : DB) :=
  (db_log_events db, db_next_ordinal db, db_log_continuity db, db_log_usage db, db_log_usage_total db).

Definition logs_sound (db : DB) : Prop := log_ok db /\ streams_ok db.

Lemma logs_sound_tables db db' : log_tables db' = log_tables db -> logs_sound db -> logs_sound db'.
Proof.
  intros [= E1 E2 E3 E4 E5] [H1 [H2 H3 H4]]. split; [by apply (log_ok_frame db)|]. split.
  - rewrite E1. eapply Forall_impl; [exact H2|]. intros r [? ? ? ?]. split; try done. unfold readLogContinuity in *. by rewrite E3.
  - intros a s. unfold stream_rows. rewrite E1. apply H3.
  - rewrite E3. apply H4.
Qed.

Lemma expire_logs clock jitter now att db : log_tables (expireAttempt clock jitter now att db) = log_tables db.
Proof.
  unfold expireAttempt, settle_expired, recoverOneshot, exec_job_state. cbv zeta.
  repeat (case_match; simplify_eq/=; try reflexivity).
Qed.

Lemma begin_logs at_ db :
  log_tables (withLeaseSleepGap true (at_sample at_) db).2 = log_tables db
  /\ forall id, is_Some (db_attempts (withLeaseSleepGap true (at_sample at_) db).2 !! id) <-> is_Some (db_attempts db !! id).
Proof.
  destruct (sleep_gap_frame true (at_sample at_) db) as (A & N & C & E).
  destruct (sleep_gap_rows true (at_sample at_) db) as (f & _ & Ea & _). split; [by rewrite E|].
  intros id. rewrite Ea, lookup_fmap. apply fmap_is_Some.
Qed.

Lemma settle_attempts jitter now att j db id :
  is_Some (db_attempts (settle_expired jitter now att j db) !! id) <-> is_Some (db_attempts db !! id).
Proof.
  unfold settle_expired, recoverOneshot, exec_job_state. cbv zeta.
  repeat (case_match; simplify_eq/=; try reflexivity); by rewrite lookup_alter_is_Some.
Qed.

Lemma expire_attempts clock jitter now att db id :
  is_Some (db_attempts (expireAttempt clock jitter now att db) !! id) <-> is_Some (db_attempts db !! id).
Proof.
  assert (Hi : forall d, is_Some (db_attempts (invalidateAttempts clock now d invalidateLeaseSettlement db) !! id)
                         <-> is_Some (db_attempts db !! id)).
  { intros d. unfold invalidateAttempts. simpl. rewrite map_lookup_imap. destruct (db_attempts db !! id); simpl; [|done].
    split; by eexists. }
  unfold expireAttempt. cbv zeta. repeat (case_match; try done); rewrite ?settle_attempts; apply Hi.
Qed.

Lemma prune_attempts window now jobID db id :
  is_Some (db_attempts (pruneServiceAttemptSummaries window now jobID db) !! id) -> is_Some (db_attempts db !! id).
Proof.
  unfold pruneServiceAttemptSummaries, pruneListedAttemptSummaries. cbv zeta. repeat (case_match; try done).
  intros [a [Ha _]%delete_attempts_lookup]. by exists a.
Qed.

Section Handler.
Context (cfg : config) (bounds : log_bounds) (source_digest : LogEvent -> string).

(** The checks before the loop never touch the log. *)
Lemma admit_frame at_ identity jobID attemptID request db :
  ends (admit_upload cfg at_ identity jobID attemptID request)
    (fun _ db0 => log_tables db0 = log_tables db
                  /\ (forall id, is_Some (db_attempts db0 !! id) <-> is_Some (db_attempts db !! id))
                  /\ is_Some (db_attempts db !! attemptID))
    (fun _ _ => False) (fun r => exists e, r = Err e) db.
Proof.
  unfold admit_upload, readAttemptAuthority, read_cancellation. destruct (begin_logs at_ db) as [HT HA].
  apply ends_bind, ends_check; [intros _|by eexists]. apply ends_bind, ends_check; [intros _|by eexists].
  apply ends_bind, ends_begin. set (db1 := (withLeaseSleepGap _ _ _).2) in *.
  wp; eauto.
  all: split_and!; [by rewrite ?expire_logs | intros id; rewrite ?expire_attempts; apply HA | apply HA].
  all: match goal with Hr : read_authority _ _ = Some _ |- _ => unfold read_authority in Hr end; by case_match.
Qed.

(** The store after a batch with new events. *)
Definition appended (ad : admission) (now : Z) (jobID attemptID : string) (b : batch) (db : DB) : DB :=
  let attempt := ad_attempt ad in
  let promoting := bool_decide (aa_state attempt = AttemptClaimed) && ad_hasAuthority ad
                   && negb (bool_decide (js_Kind (aa_spec attempt) = JobKindOCI)) && negb (ad_canceled ad) in
  let db := stored jobID attemptID b db in
  let db := if promoting
            then promoteExecution now attemptID
                   (exec_attempt attemptID (fun a => a <| a_state := AttemptRunning |> <| a_updated_ns := now |>) db)
            else db in
  let db := if ad_hasAuthority ad then establishHealth (ad_clock ad) now attemptID healthFromLogs db else db in
  pruneServiceAttemptSummaries (cfg_lateEvidenceWindow cfg) now jobID
    (enforceJobLogByteRetention bounds jobID now appendEvictionBudget db).2.

Definition appended_state (ad : admission) : AttemptState :=
  let attempt := ad_attempt ad in
  if bool_decide (aa_state attempt = AttemptClaimed) && ad_hasAuthority ad
     && negb (bool_decide (js_Kind (aa_spec attempt) = JobKindOCI)) && negb (ad_canceled ad)
  then AttemptRunning else aa_state attempt.

Definition may_append (ad : admission) : bool :=
  bool_decide (aa_state (ad_attempt ad) = AttemptLost) || active_attempt (aa_state (ad_attempt ad)).

Lemma row_below_mark db a s r : streams_ok db -> r ∈ stream_rows db a s -> l_sequence r <= readLogContinuity db a s.
Proof.
  intros H [Hr E]%list_elem_of_In%filter_In. apply andb_true_iff in E as [E1%bool_decide_eq_true E2%bool_decide_eq_true].
  assert (Hs := streams_rows _ H). rewrite Forall_forall in Hs. apply list_elem_of_In in Hr. destruct (Hs r Hr) as [_ H1 H2 _].
  rewrite E1, E2 in H2. lia.
Qed.

(** The handler after its checks, as a function of the prepared batch. *)
Lemma append_spec at_ identity jobID attemptID request db ad db0 :
  logs_sound db -> Forall uint64_event (lr_Events request) ->
  admit_upload cfg at_ identity jobID attemptID request db = Next ad db0 ->
  AppendLogs cfg bounds source_digest at_ identity jobID attemptID request db
  = match prepare_events source_digest (ad_late ad) db0 attemptID (lr_Events request) empty_batch with
    | Err e => Abort (Err e)
    | Ok b =>
        match bt_newEvents b with
        | [] => Next (mkAppendLogsResponse (acknowledged b) (aa_state (ad_attempt ad))) db0
        | _ :: _ =>
            if may_append ad
            then Next (mkAppendLogsResponse (acknowledged b) (appended_state ad))
                   (appended ad (at_now at_) jobID attemptID b db0)
            else Abort (Err ErrorConflict)
        end
    end.
Proof.
  intros Hs Hu Ha. assert (Hf := admit_frame at_ identity jobID attemptID request db). unfold ends in Hf. rewrite Ha in Hf.
  destruct Hf as (HT & _). destruct (logs_sound_tables db db0 HT Hs) as [_ Hs0].
  unfold AppendLogs. unfold bind at 1. rewrite Ha. unfold bind at 1, reads at 1. unfold bind at 1, lift at 1.
  destruct (prepare_events _ _ _ _ _ _) as [b|e] eqn:Hp; [|done]. simpl.
  destruct (bt_newEvents b) as [|p rest] eqn:En; [done|]. unfold append_batch, bind at 1 2. unfold check. fold (may_append ad).
  destruct (may_append ad); [|done]. simpl. unfold bind at 1.
  assert (Hb := prepare_events_sound _ _ _ _ _ _ _ Hs0 Hu (batch_sound_empty db0 attemptID) Hp).
  rewrite (store_events_total jobID attemptID (bt_newEvents b) db0 (readLogContinuity db0 attemptID) (mark db0 attemptID b));
    [|apply (sound_chain _ _ _ Hb) | intros s r; by apply row_below_mark].
  unfold appended, appended_state, stored. destruct (_ && negb (ad_canceled ad)), (ad_hasAuthority ad); reflexivity.
Qed.

(** The tables after the writes between the batch and its retention. *)
Lemma promoted_logs now id db : log_tables (promoteExecution now id db) = log_tables db.
Proof. unfold promoteExecution, exec_job_state. repeat case_match; reflexivity. Qed.

Lemma promoted_attempts now id db : db_attempts (promoteExecution now id db) = db_attempts db.
Proof. unfold promoteExecution, exec_job_state. repeat case_match; reflexivity. Qed.

Lemma health_logs clock now id cause db :
  log_tables (establishHealth clock now id cause db) = log_tables db
  /\ db_attempts (establishHealth clock now id cause db) = db_attempts db.
Proof. unfold establishHealth. repeat case_match; split; reflexivity. Qed.

Record appends (jobID attemptID : string) (b : batch) (db0 db1 : DB) : Prop := {
  appends_rows : exists keep, db_log_events db1 = List.filter keep (db_log_events (stored jobID attemptID b db0));
  appends_sound : logs_sound db1;
  appends_attempts : forall id, is_Some (db_attempts db1 !! id) -> is_Some (db_attempts db0 !! id);
  appends_marks : forall id s, is_Some (db_attempts db1 !! id) ->
    readLogContinuity db1 id s = readLogContinuity (stored jobID attemptID b db0) id s
}.

Lemma appended_spec ad now jobID attemptID b db0 :
  logs_sound db0 -> batch_sound db0 attemptID b -> appends jobID attemptID b db0 (appended ad now jobID attemptID b db0).
Proof.
  intros [Hok Hs] Hb. unfold appended. cbv zeta. set (db1 := stored jobID attemptID b db0).
  match goal with |- context [enforceJobLogByteRetention _ _ _ _ ?d] => set (db2 := d) end.
  assert (H2 : log_tables db2 = log_tables db1 /\ forall id, is_Some (db_attempts db2 !! id) <-> is_Some (db_attempts db1 !! id)).
  { subst db2. destruct (_ && negb (ad_canceled ad)), (ad_hasAuthority ad);
      rewrite ?(proj1 (health_logs _ _ _ _ _)), ?(proj2 (health_logs _ _ _ _ _)), ?promoted_logs, ?promoted_attempts;
      split; try done; intros id; simpl; by rewrite lookup_alter_is_Some. }
  destruct H2 as [T2 A2].
  assert (S2 : logs_sound db2).
  { apply (logs_sound_tables db1 db2 T2). split; [by apply stored_counts | by apply stored_ok]. }
  destruct (cap_shrinks bounds jobID now appendEvictionBudget db2 (proj1 S2)) as [[keep E3] M3 C3 O3] eqn:Hsh. clear Hsh.
  assert (S3 := shrinks_streams _ _ (cap_shrinks bounds jobID now appendEvictionBudget db2 (proj1 S2)) (proj2 S2)).
  set (db3 := (enforceJobLogByteRetention _ _ _ _ _).2) in *.
  destruct (prune_logs (cfg_lateEvidenceWindow cfg) now jobID db3) as (E4 & N4 & U4 & V4 & M4 & C4).
  set (db4 := pruneServiceAttemptSummaries _ _ _ _) in *.
  assert (A3 : db_attempts db3 = db_attempts db2) by (destruct O3 as (? & ? & ? & ? & ? & ? & ->); done).
  assert (A1 : db_attempts db1 = db_attempts db0).
  { destruct (stored_only jobID attemptID b db0) as (? & ? & ? & ? & ? & ? & E). unfold db1. by rewrite E. }
  assert (A4 : forall id, is_Some (db_attempts db4 !! id) -> is_Some (db_attempts db0 !! id)).
  { intros id. rewrite <- A1, <- A2, <- A3. apply prune_attempts. }
  injection T2 as T21 T22 T23 T24 T25. split.
  - exists keep. by rewrite E4, E3, T21.
  - split; [by apply (log_ok_frame db3)|]. apply (streams_shrink db3 db4 (fun _ => true)); [|done| |done].
    + rewrite E4. symmetry. apply list_filter_true. by apply Forall_forall.
    + intros r Hr. rewrite C4; [done|]. right. exists r. by rewrite <- E4.
  - done.
  - intros id s Hid. rewrite C4 by (by left). unfold readLogContinuity. by rewrite M3, T23.
Qed.

(** ** What other work does to the streams of an attempt *)
Record log_later (id : string) (db db' : DB) : Prop := {
  later_exists : is_Some (db_attempts db' !! id) -> is_Some (db_attempts db !! id);
  later_marks : is_Some (db_attempts db' !! id) -> forall s, readLogContinuity db id s <= readLogContinuity db' id s;
  later_rows : is_Some (db_attempts db' !! id) -> forall r, r ∈ db_log_events db' -> l_attempt_id r = id ->
    r ∈ db_log_events db \/ readLogContinuity db id (l_stream r) < l_sequence r
}.

#[local] Instance log_later_preorder id : PreOrder (log_later id).
Proof.
  split; [split; auto; reflexivity|]. intros a b c [H1 H2 H3] [K1 K2 K3]. split.
  - auto.
  - intros Hc s. etrans; [by apply H2, K1 | by apply K2].
  - intros Hc r Hr E. destruct (K3 Hc r Hr E) as [Hb|Hb]; [apply H3; auto|]. right.
    specialize (H2 (K1 Hc) (l_stream r)). lia.
Qed.

Lemma tables_later id db db' :
  log_tables db' = log_tables db -> (is_Some (db_attempts db' !! id) -> is_Some (db_attempts db !! id)) -> log_later id db db'.
Proof.
  intros [= E1 E2 E3 E4 E5] H. split; [done|..].
  - intros _ s. unfold readLogContinuity. by rewrite E3.
  - intros _ r Hr _. left. by rewrite <- E1.
Qed.

Lemma shrinks_later id db db' : shrinks db db' -> log_later id db db'.
Proof.
  intros [[keep E] M _ (? & ? & ? & ? & ? & ? & O)]. split.
  - by rewrite O.
  - intros _ s. unfold readLogContinuity. by rewrite M.
  - intros _ r Hr _. left. rewrite E in Hr. by apply list_elem_of_In, filter_In in Hr as [?%list_elem_of_In _].
Qed.

Lemma appends_later id jobID attemptID b db0 db1 :
  logs_sound db0 -> batch_sound db0 attemptID b -> appends jobID attemptID b db0 db1 -> log_later id db0 db1.
Proof.
  intros [_ Hs] Hb [[keep E] _ A M]. split; [apply A|..].
  - intros Hid s. rewrite M, stored_continuity by done. case_bool_decide; [subst|done]. by apply mark_range.
  - intros _ r Hr El. rewrite E in Hr. apply list_elem_of_In, filter_In in Hr as [Hr%list_elem_of_In _].
    rewrite stored_events in Hr. apply elem_of_app in Hr as [Hr|Hr]; [by left | right].
    destruct (new_rows_elem _ _ _ _ _ Hr) as (p & o & Hp & -> & _). simpl in El. subst id. simpl.
    set (s := le_Stream (pe_event p)).
    assert (Hin : p ∈ List.filter (of_stream s) (bt_newEvents b)).
    { apply list_elem_of_In, filter_In. split; [by apply list_elem_of_In|]. by apply bool_decide_eq_true. }
    destruct (chain_bounds _ _ _ _ (sound_chain _ _ _ Hb s) Hin) as [[H1 _] _]. lia.
Qed.

(** One upload, whatever it answers. *)
Lemma append_later id at_ identity jobID attemptID request db :
  logs_sound db -> Forall uint64_event (lr_Events request) ->
  let db' := (run (AppendLogs cfg bounds source_digest at_ identity jobID attemptID request) db).1 in
  logs_sound db' /\ log_later id db db'.
Proof.
  intros Hs Hu. assert (Hf := admit_frame at_ identity jobID attemptID request db). unfold ends in Hf.
  destruct (admit_upload cfg at_ identity jobID attemptID request db) as [ad db0|r db0|r] eqn:Ha; [|done|].
  2: { destruct Hf as [e ->]. assert (E : AppendLogs cfg bounds source_digest at_ identity jobID attemptID request db = Abort (Err e))
         by (unfold AppendLogs, bind at 1; by rewrite Ha).
       unfold run. rewrite E. split; [done|reflexivity]. }
  destruct Hf as (HT & HA & _). assert (Hs0 := logs_sound_tables db db0 HT Hs). unfold run.
  rewrite (append_spec at_ identity jobID attemptID request db ad db0 Hs Hu Ha).
  assert (H0 : log_later id db db0) by (apply tables_later; [done|]; apply HA).
  destruct (prepare_events _ _ _ _ _ _) as [b|e] eqn:Hp; [|split; [done|reflexivity]].
  assert (Hb := prepare_events_sound _ _ _ _ _ _ _ (proj2 Hs0) Hu (batch_sound_empty db0 attemptID) Hp).
  destruct (bt_newEvents b); [done|]. destruct (may_append ad); [|split; [done|reflexivity]]. simpl.
  assert (Happ := appended_spec ad (at_now at_) jobID attemptID b db0 Hs0 Hb).
  split; [apply Happ|]. etrans; [exact H0|]. by eapply appends_later.
Qed.

(** The transactions that may run between two uploads of an attempt's log:
    uploads of any attempt, retention, and work that leaves the log alone. *)
Inductive log_step (id : string) (db : DB) : DB -> Prop :=
| LogAppend at_ identity jobID attemptID request :
    Forall uint64_event (lr_Events request) ->
    log_step id db (run (AppendLogs cfg bounds source_digest at_ identity jobID attemptID request) db).1
| LogJobCap jobID now budget : log_step id db (enforceJobLogByteRetention bounds jobID now budget db).2
| LogCeiling now budget : log_step id db (enforceLogRetentionTotal bounds now budget db).2
| LogOther db' :
    log_tables db' = log_tables db -> (is_Some (db_attempts db' !! id) -> is_Some (db_attempts db !! id)) ->
    log_step id db db'.

Lemma log_steps_later id db db' : rtc (log_step id) db db' -> logs_sound db -> logs_sound db' /\ log_later id db db'.
Proof.
  induction 1 as [db|db db1 db' Hstep _ IH]; intros Hs; [done|].
  enough (H1 : logs_sound db1 /\ log_later id db db1).
  { destruct H1 as [H1 L1]. destruct (IH H1) as [H2 L2]. split; [done|]. by etrans. }
  destruct Hstep as [at_ identity jobID attemptID request Hu|jobID now budget|now budget|db1 HT HA].
  - by apply append_later.
  - assert (H := cap_shrinks bounds jobID now budget db (proj1 Hs)).
    split; [split; [apply H | by eapply shrinks_streams; [|apply Hs]] | by apply shrinks_later].
  - assert (H := ceiling_shrinks bounds now budget db (proj1 Hs)).
    split; [split; [apply H | by eapply shrinks_streams; [|apply Hs]] | by apply shrinks_later].
  - split; [by apply (logs_sound_tables db) | by apply tables_later].
Qed.

(** ** The claims *)
Lemma seen_empty db attemptID k v : bt_seen empty_batch !! k = Some v -> covered db attemptID empty_batch v.
Proof. simpl. by rewrite lookup_empty. Qed.

Lemma accepted_upload at_ identity jobID attemptID request db db1 resp :
  logs_sound db -> Forall uint64_event (lr_Events request) ->
  run (AppendLogs cfg bounds source_digest at_ identity jobID attemptID request) db = (db1, Ok resp) ->
  exists ad db0 b,
    admit_upload cfg at_ identity jobID attemptID request db = Next ad db0 /\ log_tables db0 = log_tables db
    /\ prepare_events source_digest (ad_late ad) db0 attemptID (lr_Events request) empty_batch = Ok b
    /\ batch_sound db0 attemptID b /\ lp_Acknowledged resp = acknowledged b
    /\ ((bt_newEvents b = [] /\ db1 = db0) \/ appends jobID attemptID b db0 db1).
Proof.
  intros Hs Hu Hrun. assert (Hf := admit_frame at_ identity jobID attemptID request db). unfold ends in Hf.
  unfold run in Hrun. destruct (admit_upload cfg at_ identity jobID attemptID request db) as [ad db0|r db0|r] eqn:Ha; [|done|].
  2: { destruct Hf as [e ->]. unfold AppendLogs, bind at 1 in Hrun. by rewrite Ha in Hrun. }
  destruct Hf as (HT & HA & _). assert (Hs0 := logs_sound_tables db db0 HT Hs).
  rewrite (append_spec at_ identity jobID attemptID request db ad db0 Hs Hu Ha) in Hrun. exists ad, db0.
  destruct (prepare_events _ _ _ _ _ _) as [b|e] eqn:Hp; [|done]. exists b.
  assert (Hb := prepare_events_sound _ _ _ _ _ _ _ (proj2 Hs0) Hu (batch_sound_empty db0 attemptID) Hp).
  destruct (bt_newEvents b); [injection Hrun as <- <-; split_and!; auto|]. destruct (may_append ad); [|done].
  injection Hrun as <- <-. split_and!; auto. right. by apply appended_spec.
Qed.

(** A batch without new events raises no mark. *)
Lemma unchanged_marks db attemptID b s :
  streams_ok db -> batch_sound db attemptID b -> bt_newEvents b = [] -> readLogContinuity db attemptID s = mark db attemptID b s.
Proof.
  intros Hs Hb En. assert (Hc := sound_chain _ _ _ Hb s). rewrite En in Hc. simpl in Hc. lia.
Qed.


(** an accepted upload can be repeated.  Whatever uploads, evictions and
    other work follow, as long as the attempt passes the same checks again the
    identical request is accepted again: it writes nothing, and acknowledges at
    least what it acknowledged the first time.  (A request that was accepted
    late is repeated late: time does not run backwards past the window.) *)
Theorem accepted_upload_replays at1 at2 identity jobID attemptID request db ad1 db0 db1 resp db2 ad2 db2' :
  logs_sound db -> Forall uint64_event (lr_Events request) ->
  admit_upload cfg at1 identity jobID attemptID request db = Next ad1 db0 ->
  run (AppendLogs cfg bounds source_digest at1 identity jobID attemptID request) db = (db1, Ok resp) ->
  rtc (log_step attemptID) db1 db2 ->
  admit_upload cfg at2 identity jobID attemptID request db2 = Next ad2 db2' ->
  (ad_late ad1 = true -> ad_late ad2 = true) ->
  exists resp', run (AppendLogs cfg bounds source_digest at2 identity jobID attemptID request) db2 = (db2', Ok resp')
    /\ log_tables db2' = log_tables db2
    /\ forall s through, lp_Acknowledged resp !! s = Some through ->
         exists through', lp_Acknowledged resp' !! s = Some through' /\ through <= through'.
Proof.
  intros Hs Hu Ha1 Hrun Hsteps Ha2 Hlate.
  destruct (accepted_upload _ _ _ _ _ _ _ _ Hs Hu Hrun) as (ad & db0' & b & Ha & HT & Hp & Hb & Hack & Hres).
  rewrite Ha1 in Ha. injection Ha as <- <-. assert (Hs0 := logs_sound_tables db db0 HT Hs).
  assert (Hs1 : logs_sound db1) by (destruct Hres as [[_ ->]|H]; [done | apply H]).
  assert (Hf := admit_frame at2 identity jobID attemptID request db2). unfold ends in Hf. rewrite Ha2 in Hf.
  destruct Hf as (HT2 & _ & Hex). destruct (log_steps_later _ _ _ Hsteps Hs1) as [Hs2 [L1 L2 L3]]. specialize (L1 Hex).
  assert (Hs2' := logs_sound_tables db2 db2' HT2 Hs2). assert (HT2' := HT2).
  injection HT2' as E1 _ E3 _ _.
  assert (H1 : (forall s, readLogContinuity db1 attemptID s = mark db0 attemptID b s)
               /\ forall r, r ∈ db_log_events db1 -> r ∈ db_log_events (stored jobID attemptID b db0)).
  { destruct Hres as [[En ->]|[[keep E] _ _ M]].
    - split; [intros s; apply unchanged_marks; [apply Hs0|done|done]|]. intros r Hr. rewrite stored_events, En, app_nil_r. done.
    - split; [intros s; rewrite M, stored_continuity by (done || apply Hs0); by rewrite bool_decide_eq_true_2|].
      intros r Hr. rewrite E in Hr. by apply list_elem_of_In, filter_In in Hr as [?%list_elem_of_In _]. }
  destruct H1 as [H1 R1].
  assert (Hmarks : forall s, mark db0 attemptID b s <= readLogContinuity db2' attemptID s).
  { intros s. rewrite <- H1. etrans; [by apply L2|]. unfold readLogContinuity. by rewrite E3. }
  assert (Hrows : forall r, r ∈ db_log_events db2' -> l_attempt_id r = attemptID ->
    r ∈ db_log_events (stored jobID attemptID b db0) \/ mark db0 attemptID b (l_stream r) < l_sequence r).
  { intros r Hr El. rewrite E1 in Hr. rewrite <- H1. destruct (L3 Hex r Hr El) as [?|?]; [left; by apply R1 | by right]. }
  destruct (replay_events source_digest (ad_late ad1) (ad_late ad2) db0 db2' jobID attemptID b Hlate (proj2 Hs0) (proj2 Hs2')
              Hb Hmarks Hrows _ _ _ Hu (batch_sound_empty db0 attemptID) Hp (replaying_empty _ _ _ _ _)) as (b2 & Hp2 & Hr2).
  unfold run. rewrite (append_spec at2 identity jobID attemptID request db2 ad2 db2' Hs2 Hu Ha2), Hp2.
  rewrite (replaying_new _ _ _ _ _ _ _ Hr2). eexists. split_and!; [done|done|]. simpl. intros s through.
  rewrite Hack, (acknowledged_mark _ _ _ _ Hb), (replay_acknowledged _ _ _ _ _ _ _ s Hr2).
  destruct (bt_recorded b !! s); [|done]. simpl. intros [= <-]. eauto.
Qed.
End Handler.

(** ** Witnesses *)
Lemma logs_sound_empty : logs_sound empty_db.
Proof. split; split; try done; by constructor. Qed.

Definition sample_bounds : log_bounds := mklog_bounds 8 1000 4 8 1000.

Definition sample_event (stream : string) (sequence : Z) (payload : string) : LogEvent :=
  mkLogEvent "a1" stream sequence 200 payload None.

(** Two lines of output and a declared gap. *)
Definition sample_upload : AppendLogsRequest :=
  mkAppendLogsRequest "1" [sample_event LogStdout 0 "hello"; sample_event LogStdout 1 "world";
    mkLogEvent "a1" LogStderr 0 201 "" (Some (mkLogGap 2 3 40 LogGapSpoolEviction ""))].

Definition sample_append (t : Z) : tx DB ErrorCode AppendLogsResponse AppendLogsResponse :=
  AppendLogs sample_config sample_bounds (fun _ => "") (sample_instant t) "id1" "j1" "a1" sample_upload.

Definition uploaded_db : DB := (run (sample_append 300) sample_db).1.
Definition upload_answer : AppendLogsResponse :=
  match (run (sample_append 300) sample_db).2 with Ok r => r | Err _ => mkAppendLogsResponse ∅ AttemptLost end.

(** The fleet's ceiling then takes the last line that was kept. *)
Definition swept_db : DB := (enforceLogRetentionTotal sample_bounds 400 sweepEvictionBudget uploaded_db).2.

Lemma sample_uploaded : run (sample_append 300) sample_db = (uploaded_db, Ok upload_answer).
Proof. vm_compute. reflexivity. Qed.

Lemma sample_uint64 : Forall uint64_event (lr_Events sample_upload).
Proof. repeat constructor; vm_compute; discriminate. Qed.

Lemma sample_sound : logs_sound sample_db.
Proof. exact (logs_sound_tables empty_db sample_db eq_refl logs_sound_empty). Qed.


Lemma accepted_upload_replays_witness :
  map l_sequence (db_log_events swept_db) = [0]
  /\ exists db' resp, run (sample_append 500) swept_db = (db', Ok resp).
Proof.
  split; [vm_compute; reflexivity|].
  destruct (admit_upload sample_config (sample_instant 300) "id1" "j1" "a1" sample_upload sample_db) as [ad1 db0|r d|r] eqn:E1;
    [|vm_compute in E1; discriminate..].
  destruct (admit_upload sample_config (sample_instant 500) "id1" "j1" "a1" sample_upload swept_db) as [ad2 db2|r d|r] eqn:E2;
    [|vm_compute in E2; discriminate..].
  destruct (accepted_upload_replays sample_config sample_bounds (fun _ => "") (sample_instant 300) (sample_instant 500)
    "id1" "j1" "a1" sample_upload sample_db ad1 db0 uploaded_db upload_answer swept_db ad2 db2 sample_sound sample_uint64 E1
    sample_uploaded (rtc_once _ _ (LogCeiling _ _ _ _ uploaded_db 400 sweepEvictionBudget)) E2) as (resp & H & _).
  - intros H. vm_compute in E1. injection E1 as <- _. discriminate.
  - exists db2, resp. exact H.
Defined.
