(* ===== verification/Completion.v ===== *)
(** * Completion

    [CompleteAttemptOutcome] of [l1/store.go] with the helpers it calls: the
    phase check of an OCI completion, the resource failures it derives, the
    published-port and owed-revocation records, and late evidence after an
    attempt lost its authority.  The Seat component is not part of the model;
    the calls into it are recorded in [db_seat_calls]. *)
From S2P Require Import Prelude Order States Contract GoStrings JobSpec L1Types RestartPolicy Database.
From S2P Require Import LeaseClock Authority Credentials Summaries Lifecycle.
#[local] Open Scope string_scope.
#[local] Open Scope list_scope.
#[local] Open Scope Z_scope.

Definition validateOCICompletionPhase (attempt : attemptAuthority) (r : ProcessResult) : result ErrorCode unit :=
  if negb (bool_decide (js_Kind (aa_spec attempt) = JobKindOCI)) then Ok tt
  else match aa_startedNS attempt with
  | None =>
      if bool_decide (pr_SpawnError r = None) || pr_OOM r || pr_DiskExhausted r || pr_LogEvidenceIncomplete r
         || bool_decide (is_Some (pr_StoppedProcesses r)) then Err ErrorConflict else Ok tt
  | Some _ => if bool_decide (is_Some (pr_SpawnError r)) then Err ErrorConflict else Ok tt
  end.

Definition terminalResourceFailure (spec : JobSpec) (r : ProcessResult) (nodeID : string) : option SpawnFailure :=
  if negb (bool_decide (js_Kind spec = JobKindOCI)) then None
  else match exec_OCI (js_Execution spec) with
  | None => None
  | Some oci =>
      match oci_Computer oci with
      | None => None
      | Some computer =>
          let requested := default 0 (oci_Limits oci ≫= ol_MemoryBytes) in
          if pr_OOM r && (0 <? requested)
          then Some (mkSpawnFailure SpawnFailureInsufficientMemory "workload exceeded its enforced memory cap"
                       nodeID requested 0)
          else if pr_DiskExhausted r && (0 <? comp_DiskBytes computer)
          then Some (mkSpawnFailure SpawnFailureInsufficientDisk "Computer exhausted its isolated disk budget"
                       nodeID (comp_DiskBytes computer) 0)
          else None
      end
  end.

Definition computerForJob (db : DB) (jobID : string) : string :=
  default "" (p_computer_id <$> db_projections db !! jobID).

(** [Job.ComputerID] of a job projection: only the current projection counts. *)
Definition job_computer_id (db : DB) (jobID : string) : string :=
  match db_projections db !! jobID with Some p => if p_current p then p_computer_id p else "" | None => "" end.

Definition recordPublishedPortOccupied (jobID nodeID : string) (failure : SpawnFailure) : DB -> DB :=
  exec_service jobID (fun s =>
    match s_published_port s with
    | None => s
    | Some port =>
        s <| s_last_failure := Some (FailurePortOccupied (sf_Code failure) (sf_Message failure) nodeID port) |>
          <| s_next_restart_at := None |>
    end).

(** ** Owed revocations *)
Definition ComputerRevocationVerbReset : string := "reset".
Definition ComputerRevocationVerbAttemptCompletion : string := "attempt_completion".
Definition ComputerRevocationScopeRevokeAll : string := "revoke_all".
Definition ComputerRevocationScopeAttempt : string := "attempt".

Record owedRevocationRecord := mkowedRevocationRecord {
  orr_computerID : string;
  orr_hostNodeID : string;
  orr_verb : string;
  orr_reason : string;
  orr_attemptID : string;
  orr_holdingAttempts : list string
}.

Definition recordOwedComputerRevocation (r : owedRevocationRecord) (now : Z) (db : DB) : DB :=
  let reason :=
    if bool_decide (orr_verb r = ComputerRevocationVerbAttemptCompletion) then "the Computer restarted"
    else if bool_decide (orr_verb r = ComputerRevocationVerbReset) then "computer_reset" else orr_reason r in
  let '(scope, recorded) :=
    if negb (bool_decide (orr_attemptID r = "")) then (ComputerRevocationScopeAttempt, [orr_attemptID r])
    else (ComputerRevocationScopeRevokeAll, orr_holdingAttempts r) in
  db <| db_seat_calls := db_seat_calls db ++ [EndComputerSeats (orr_computerID r) (orr_attemptID r) reason now] |>
     <| db_owed_revocations := db_owed_revocations db ++
          [mkOwedRevocationRow (orr_computerID r) (orr_hostNodeID r) (orr_verb r) (orr_reason r) scope
             (orr_attemptID r) recorded now "" None] |>.

(** ** The completion handler *)
Record CompletionOutcome := mkCompletionOutcome {
  co_Job : JobRow;
  co_Replayed : bool;
  co_ComputerID : string
}.

Section Completion.
Context (cfg : config).

(** The [last_failure] document of an ordinary result. *)
Definition last_failure_of (r : ProcessResult) : failure_doc :=
  match pr_SpawnError r with Some f => FailureSpawn f | None => FailureResult r end.

(** Evidence of a completion that arrived after the attempt was lost. *)
Definition late_evidence (now : Z) (attempt : attemptAuthority) (r : ProcessResult) : LateResultEvidence :=
  if aa_updatedAt attempt + cfg_lateEvidenceWindow cfg <? now
  then LateResultGapKind now (aa_updatedAt attempt)
  else LateResultObservation r now (aa_updatedAt attempt).

Definition record_late_result (now : Z) (attempt : attemptAuthority) (request : CompletionRequest) : DB -> DB :=
  exec_attempt (aa_attemptID attempt) (fun a =>
    a <| a_completion_key := Some (cr_IdempotencyKey request) |>
      <| a_completion_hash := Some (cfg_completion_digest cfg request) |>
      <| a_late_result := Some (late_evidence now attempt (cr_Result request)) |>
      <| a_late_result_observed_ns := Some now |>
      <| a_late_result_authority_lost_ns := Some (aa_updatedAt attempt) |>
      <| a_late_result_is_late := true |>).

Definition prestart_exhausted : string := "pre-start infrastructure budget exhausted after runtime loss".

(** Whether a completion is the pre-start runtime loss that may be retried. *)
Definition prestart_requeue (canceled service : bool) (attempt : attemptAuthority) (r : ProcessResult) : bool :=
  negb canceled && bool_decide (js_Kind (aa_spec attempt) = JobKindOCI) && negb service
  && bool_decide (aa_state attempt = AttemptClaimed)
  && match pr_SpawnError r with Some f => bool_decide (sf_Code f = SpawnFailureRuntimeUnavailable) | None => false end.

(** The retry decision within the pre-start budget. *)
Definition prestart_retry (now : Z) (j : JobRow) : bool * (JobRow -> JobRow) :=
  let retryCount := j_prestart_retry_count j + 1 in
  let delay := prestartRetryDelay retryCount (cfg_restartJitter cfg) in
  if match j_prestart_budget_deadline_ns j with Some deadline => now + delay <? deadline | None => false end
  then (true, fun j => j <| j_prestart_retry_count := retryCount |>
                         <| j_prestart_next_retry_at_ns := Some (now + delay) |>)
  else (false, fun j => j <| j_prestart_retry_count := retryCount |> <| j_prestart_next_retry_at_ns := None |>
                          <| j_prestart_terminal_reason := Some prestart_exhausted |>).

Definition completed_attempt (now : Z) (state : AttemptState) (interruption : string) (request : CompletionRequest)
    (a : AttemptRow) : AttemptRow :=
  a <| a_state := state |> <| a_completion_key := Some (cr_IdempotencyKey request) |>
    <| a_completion_hash := Some (cfg_completion_digest cfg request) |> <| a_result := Some (cr_Result request) |>
    <| a_termination_initiator := Some (cr_TerminationInitiator request) |>
    <| a_interruption_reason := Some interruption |> <| a_updated_ns := now |>.

Definition apply_service_policy (policy : serviceCompletionPolicy) (s : ServiceRow) : ServiceRow :=
  s <| s_restart_streak := scp_restartStreak policy |>
    <| s_lifetime_restart_count := scp_lifetimeRestartCount policy |>
    <| s_next_restart_at := scp_nextRestartNS policy |> <| s_policy_stop := scp_policyStop policy |>
    <| s_last_failure := if scp_updateLastFailure policy then scp_lastFailure policy else s_last_failure s |>
    <| s_healthy_since_ns := None |> <| s_published_attempt_id := None |>.

(** The spawn and resource failures recorded on the service. *)
Definition record_spawn_failures (jobID nodeID : string) (r : ProcessResult) (resource : option SpawnFailure) (db : DB) :
    DB :=
  let latch f := exec_service jobID (fun s => s <| s_last_failure := Some (FailureSpawn f) |>
                                                <| s_next_restart_at := None |>) in
  let db := match pr_SpawnError r with
            | Some f => if bool_decide (sf_Code f = SpawnFailurePublishedPortOccupied)
                        then recordPublishedPortOccupied jobID nodeID f db else db
            | None => db
            end in
  let db := match pr_SpawnError r with
            | Some f => if is_resource_code (sf_Code f) then latch (f <| sf_NodeID := nodeID |>) db else db
            | None => db
            end in
  match resource with Some f => latch f db | None => db end.

(** What a completed Computer attempt owes the run ledger and its Seats. *)
Definition settle_computer (now : Z) (attempt : attemptAuthority) (request : CompletionRequest) (computerID : string)
    (db : DB) : DB :=
  if bool_decide (computerID = "") then db
  else
  let id := aa_attemptID attempt in
  let db := recordOwedComputerRevocation
              (mkowedRevocationRecord computerID (aa_nodeID attempt) ComputerRevocationVerbAttemptCompletion
                 "attempt_terminal" id []) now db in
  if bool_decide (cr_RuntimeQuiescenceEvidence request = RuntimeQuiescenceComputerAttemptAbsent)
  then db <| db_seat_calls := db_seat_calls db ++
                [CleanComputerSeatAttempt computerID id now; ReleaseAbsentComputerAttemptRoom computerID id] |>
  else db.

(** An accepted interruption: the attempt is interrupted and the job recovers. *)
Definition recover {R} (now : Z) (attempt : attemptAuthority) (reason : string) :
    tx DB ErrorCode R (JobState * AttemptState) :=
  fun db => let '(state, db) := recoverOneshot (cfg_restartJitter cfg) now attempt reason db in
            Next (state, AttemptInterrupted) db.

(** The verdict on a live attempt: job state, attempt state, interruption
    reason and, for a service, the policy. *)
Definition completion_verdict {R} (now : Z) (attempt : attemptAuthority) (request : CompletionRequest)
    (canceled : bool) (job : JobRow) (service : option ServiceRow) (resource : option SpawnFailure) :
    tx DB ErrorCode R (JobState * AttemptState * string * option serviceCompletionPolicy) :=
  let jobID := aa_jobID attempt in
  let r := cr_Result request in
  let '(jobState, attemptState) := completionStates r in
  let jobState := if canceled then JobFailed else jobState in
  let! reason := if canceled then pure ""
                 else let! c := reads (fun db => classifyOneshotInterruption db attempt request) in lift c in
  let! (jobState, attemptState) :=
    if negb canceled && negb (bool_decide (reason = "")) then
      recover now attempt reason
    else pure (jobState, attemptState) in
  match service with
  | None => pure (jobState, attemptState, reason, None)
  | Some s =>
      let! directive := reads (fun db => readAttemptDirective db jobID (aa_attemptID attempt)) in
      let view := mkservice_view (j_state job) (j_spec job) (s_desired_state s) (s_restart_streak s)
                    (s_lifetime_restart_count s) in
      let failure := match resource with Some f => FailureSpawn f | None => last_failure_of r end in
      let policy := classifyServiceCompletion (cfg_leaseDuration cfg) (cfg_restartJitter cfg) view request failure now
                      (bool_decide (is_Some (aa_startedNS attempt)))
                      (bool_decide (directive = AttemptDirectiveRestart)) in
      pure (scp_jobState policy, scp_attemptState policy, reason, Some policy)
  end.

(** The writes that end a live attempt. *)
Definition complete_active (now : Z) (attempt : attemptAuthority) (request : CompletionRequest) (canceled : bool) :
    tx DB ErrorCode CompletionOutcome CompletionOutcome :=
  let jobID := aa_jobID attempt in
  let attemptID := aa_attemptID attempt in
  let r := cr_Result request in
  let! job := read_job jobID in
  let! service := reads (fun db => db_service_jobs db !! jobID) in
  let! currentComputer := reads (fun db => job_computer_id db jobID) in
  let resource := terminalResourceFailure (j_spec job) r (aa_nodeID attempt) in
  let! (jobState, attemptState, reason, policy) :=
    completion_verdict now attempt request canceled job service resource in
  let requeue := prestart_requeue canceled (bool_decide (is_Some service)) attempt r in
  let! jobState :=
    if requeue then
      let! j := read_job jobID in
      let '(retry, f) := prestart_retry now j in
      let! _ := writes (exec_job jobID f) in
      pure (if retry then JobQueued else jobState)
    else pure jobState in
  let! _ :=
    if bool_decide (attemptState = AttemptSucceeded) && bool_decide (aa_state attempt = AttemptClaimed)
       && negb (bool_decide (js_Kind (aa_spec attempt) = JobKindOCI))
    then let! _ := writes (exec_attempt attemptID (fun a => a <| a_state := AttemptRunning |>)) in
         writes (promoteExecution now attemptID)
    else pure tt in
  let! _ := writes (exec_attempt attemptID (completed_attempt now attemptState reason request)) in
  let! _ :=
    if (bool_decide (attemptState = AttemptInterrupted) && bool_decide (jobState = JobQueued))
       || (requeue && bool_decide (jobState = JobQueued))
       || (negb (bool_decide (currentComputer = "")) && bool_decide (is_Some policy)
           && bool_decide (jobState = JobStopped)
           && validRuntimeQuiescenceEvidence (cr_RuntimeQuiescenceEvidence request))
    then writes (detachAttempt jobID (detachCompletion attemptID)) else pure tt in
  let! _ := writes (exec_job_state jobID (fun j => j <| j_state := jobState |> <| j_updated_ns := now |>)) in
  let! _ := match policy with
            | Some policy => writes (exec_service jobID (apply_service_policy policy))
            | None => pure tt
            end in
  let! _ := writes (record_spawn_failures jobID (aa_nodeID attempt) r resource) in
  let! _ := writes (pruneServiceAttemptSummaries (cfg_lateEvidenceWindow cfg) now jobID) in
  let! job := read_job jobID in
  let! computerID := reads (fun db => computerForJob db jobID) in
  let! _ := writes (settle_computer now attempt request computerID) in
  pure (mkCompletionOutcome job false computerID).

Definition CompleteAttemptOutcome (at_ : instant) (identityNodeID jobID attemptID : string)
    (request : CompletionRequest) : tx DB ErrorCode CompletionOutcome CompletionOutcome :=
  if bool_decide (cr_FencingToken request = "") || bool_decide (cr_IdempotencyKey request = "")
  then fail ErrorInvalidRequest
  else
  let! _ := lift (validateProcessResult (cr_Result request)) in
  let! _ := lift (validateTerminationInitiator request) in
  let! _ := check (bool_decide (cr_RuntimeQuiescenceEvidence request = "")
                   || validRuntimeQuiescenceEvidence (cr_RuntimeQuiescenceEvidence request)) ErrorInvalidRequest in
  let! clock := beginWriteTransaction at_ in
  let now := at_now at_ in
  let! attempt := readAttemptAuthority attemptID in
  let! removalExists := reads (fun db => bool_decide (jobID ∈ db_service_removals db)) in
  let! _ := check (negb removalExists) ErrorConflict in
  let! _ := lift (validateAttemptEvidence identityNodeID jobID attemptID (cr_FencingToken request) attempt) in
  let! _ := lift (validateOCICompletionPhase attempt (cr_Result request)) in
  let! (canceled, settleBy) := read_cancellation jobID in
  let! leaseExpired := lift (attemptLeaseExpired clock now attempt) in
  let! attempt :=
    if (leaseExpired || (canceled && negb (now <? settleBy))) && negb (bool_decide (aa_state attempt = AttemptLost))
    then
      let! _ := writes (expireAttempt clock (cfg_restartJitter cfg) now attempt) in
      pure (if active_attempt (aa_state attempt)
            then attempt <| aa_state := AttemptLost |> <| aa_updatedAt := now |> else attempt)
    else pure attempt in
  match aa_completionKey attempt with
  | Some key =>
      if negb (bool_decide (key = cr_IdempotencyKey request))
         || negb (bool_decide (default "" (aa_completionHash attempt) = cfg_completion_digest cfg request))
      then fail ErrorIdempotencyConflict
      else if bool_decide (aa_state attempt = AttemptLost) then fail ErrorLeaseExpired
      else
      let! _ := lift (validateCompletionReplayBinding attemptID attempt) in
      let! job := read_job jobID in
      let! computerID := reads (fun db => computerForJob db jobID) in
      answer (mkCompletionOutcome job true computerID)
  | None =>
      if bool_decide (aa_state attempt = AttemptLost) then
        let! _ := writes (record_late_result now attempt request) in
        commit (Err ErrorLeaseExpired)
      else
      let! _ := lift (validateAttemptAuthority identityNodeID jobID attemptID (cr_FencingToken request) attempt) in
      if leaseExpired then expire_and_refuse cfg clock now attempt
      else
      let! _ := check (active_attempt (aa_state attempt)) ErrorConflict in
      complete_active now attempt request canceled
  end.
End Completion.
