(* ===== verification/Placement.v ===== *)
(** * Tags, capabilities and placement

    [l1/tags.go], [l1/capabilities.go] and the hint of
    [l1/queued_oci_demand.go]: the normal form of tags, the capability set a job
    requires, the observation a node reports, and whether a node that withdrew
    its OCI capabilities could run queued work.

    A Go map argument is the list of its entries in the order an iteration
    visits them; [canonical_order_irrelevant] shows that order does not matter. *)
From S2P Require Import Prelude Order States Contract GoStrings JobSpec L1Types Database.
From Stdlib Require Import Ascii.
From Stdlib Require String.
#[local] Open Scope string_scope.
#[local] Open Scope list_scope.
#[local] Open Scope Z_scope.

Definition sort_strings (l : list string) : list string := sort_by (fun s => (0, s)) l.

Definition capabilityKindPrefix : string := "kind:".
Definition capabilityRuntimeHandlerPrefix : string := "runtime_handler:".
Definition capabilityRuntimePlatformPrefix : string := "runtime_platform:".
Definition capabilityCgroupV2 : string := "cgroup_v2".
Definition capabilityComputer : string := "computer".
Definition CapabilityOneshotRestartable : string := "oneshot:restartable".
Definition maxNodeCapabilities : nat := 128.
Definition maxMissingCapabilities : nat := 128.
Definition maxCapabilityNameBytes : Z := 128.

(** ** What a job requires *)
Definition RequiredCapabilities (spec : JobSpec) : list string :=
  let oci := exec_OCI (js_Execution spec) in
  sort_strings (
    [capabilityKindPrefix +:+ js_Kind spec]
    ++ (if js_Restartable spec then [CapabilityOneshotRestartable] else [])
    ++ (if bool_decide (js_RuntimeHandler spec = "") then []
        else [capabilityRuntimeHandlerPrefix +:+ js_RuntimeHandler spec])
    ++ (match oci ≫= oci_Limits with
        | Some l => if bool_decide (is_Some (ol_MemoryBytes l)) || bool_decide (is_Some (ol_CPUMillicores l))
                    then [capabilityCgroupV2] else []
        | None => []
        end)
    ++ (match oci ≫= oci_Computer with Some _ => [capabilityComputer] | None => [] end)).

Definition advertises (advertised : gmap string bool) (capability : string) : bool :=
  default false (advertised !! capability).

Definition MissingCapabilities (required : list string) (advertised : gmap string bool) : list string :=
  List.filter (fun c => negb (advertises advertised c)) required.

(** [normalizeRegistrationCapabilities]: the legacy name of the process kind. *)
Definition normalizeRegistrationCapabilities (capabilities : gmap string bool) : gmap string bool :=
  match capabilities !! "process" with
  | None => capabilities
  | Some legacy =>
      delete "process"
        (match capabilities !! "kind:process" with
         | Some _ => capabilities
         | None => <["kind:process" := legacy]> capabilities
         end)
  end.

Record CapabilityObservation := mkCapabilityObservation {
  ob_Revision : Z;
  ob_Capabilities : list (string * bool);
  ob_ObservedAt : Z;
  ob_zero_time : bool;
  ob_MissingCapabilities : list string;
  ob_ReasonCode : string
}.

Record storedCapabilityObservation := mkstoredCapabilityObservation {
  st_Revision : Z;
  st_Capabilities : gmap string bool;
  st_ObservedAt : Z;
  st_MissingCapabilities : list string;
  st_ReasonCode : string
}.

Section Normal.
Context (lower_table : Z -> Z).
Abbreviation norm := (normalize_word lower_table).

(** ** Tags *)
Definition NormalizeTags (tags : list string) : list string :=
  sort_strings (elements (list_to_set (List.filter (fun t => negb (bool_decide (t = ""))) (map norm tags)) : gset string)).

Definition TagsMatch (jobTags nodeTags : list string) : bool :=
  forallb (fun t => bool_decide (t ∈ NormalizeTags nodeTags)) (NormalizeTags jobTags).

(** [validTag] accepts the same strings as the contract's routing-tag check. *)
Definition validTag (tag : string) : bool :=
  match bytes tag with
  | [] => false
  | a :: rest => lower_alnum a && forallb (fun b => lower_alnum b || tag_punctuation b) rest
  end.

(** ** Capability observations *)
Definition isOCIProbeCapability (capability : string) : bool :=
  let capability := norm capability in
  bool_decide (capability = "kind:oci") || bool_decide (capability = "cgroup_v2")
  || bool_decide (capability = "apparmor") || bool_decide (capability = capabilityComputer)
  || HasPrefix capability capabilityRuntimeHandlerPrefix || HasPrefix capability capabilityRuntimePlatformPrefix.

Definition valid_capability_name (c : string) : bool :=
  negb (bool_decide (c = "") || (maxCapabilityNameBytes <? strlen c)).

(** The loop over the reported map, in the order the iteration visits it. *)
Fixpoint canonical_capabilities (entries : list (string * bool)) (acc : gmap string bool) :
    result ErrorCode (gmap string bool) :=
  match entries with
  | [] => Ok acc
  | (raw, enabled) :: rest =>
      let c := norm raw in
      if negb (valid_capability_name c) then Err ErrorInvalidRequest
      else if match acc !! c with Some previous => negb (Bool.eqb previous enabled) | None => false end
      then Err ErrorInvalidRequest
      else canonical_capabilities rest (<[c := enabled]> acc)
  end.

Fixpoint canonical_missing (capabilities : gmap string bool) (missing : list string) (acc : gset string) :
    result ErrorCode (gset string) :=
  match missing with
  | [] => Ok acc
  | raw :: rest =>
      let c := norm raw in
      if negb (valid_capability_name c) || advertises capabilities c then Err ErrorInvalidRequest
      else canonical_missing capabilities rest ({[c]} ∪ acc)
  end.

Definition canonicalCapabilityObservation (o : CapabilityObservation) : result ErrorCode storedCapabilityObservation :=
  if (ob_Revision o <? 1) || ob_zero_time o
     || (maxNodeCapabilities <? length (ob_Capabilities o))%nat then Err ErrorInvalidRequest
  else
  let? capabilities := canonical_capabilities (ob_Capabilities o) ∅ in
  let capabilities := normalizeRegistrationCapabilities capabilities in
  if (maxMissingCapabilities <? length (ob_MissingCapabilities o))%nat then Err ErrorInvalidRequest
  else
  let? missing := canonical_missing capabilities (ob_MissingCapabilities o) ∅ in
  let missing := sort_strings (elements missing) in
  if bool_decide (missing = []) && negb (bool_decide (ob_ReasonCode o = "")) then Err ErrorInvalidRequest
  else if negb (bool_decide (missing = [])) && negb (CapabilityReasonCode_Valid (ob_ReasonCode o))
  then Err ErrorInvalidRequest
  else Ok (mkstoredCapabilityObservation (ob_Revision o) capabilities (ob_ObservedAt o) missing (ob_ReasonCode o)).

Inductive capabilityObservationDecision :=
| capabilityObservationStale | capabilityObservationReplay | capabilityObservationReplace.

Definition sameCapabilityObservation (incoming : storedCapabilityObservation) (n : NodeRow) : bool :=
  (st_Revision incoming =? n_capability_revision n)
  && bool_decide (st_ReasonCode incoming = n_capability_reason_code n)
  && bool_decide (st_Capabilities incoming = n_capabilities n)
  && bool_decide (st_MissingCapabilities incoming = n_missing_capabilities n).

Definition decideCapabilityObservation (incoming : storedCapabilityObservation) (n : NodeRow) :
    result ErrorCode capabilityObservationDecision :=
  if st_Revision incoming <? n_capability_revision n then Ok capabilityObservationStale
  else if n_capability_revision n <? st_Revision incoming then Ok capabilityObservationReplace
  else if negb (sameCapabilityObservation incoming n) then Err ErrorConflict
  else Ok capabilityObservationReplay.

(** ** Runtime platforms *)
Definition contains_slash (s : string) : bool := existsb (is_byte slash) (bytes s).

Definition RuntimePlatformCapability (os architecture : string) : string :=
  let os := norm os in
  let architecture := norm architecture in
  if bool_decide (os = "") || bool_decide (architecture = "") || contains_slash os || contains_slash architecture
  then "" else capabilityRuntimePlatformPrefix +:+ os +:+ "/" +:+ architecture.

(** [strings.Cut(value, "/")] with the checks on its parts. *)
Definition platform_of (value : string) : option (string * string) :=
  match split_on slash (bytes value) with
  | [name; architecture] =>
      let name := of_bytes name in let architecture := of_bytes architecture in
      if bool_decide (name = "") || bool_decide (architecture = "") then None else Some (name, architecture)
  | _ => None
  end.

Definition platform_entries (capabilities : gmap string bool) : list string :=
  map (fun e => skip (String.length capabilityRuntimePlatformPrefix) e.1)
    (List.filter (fun e => e.2 && HasPrefix e.1 capabilityRuntimePlatformPrefix) (map_to_list capabilities)).

(** None and more than one advertised platform are both no platform. *)
Definition advertisedRuntimePlatform (capabilities : gmap string bool) : option (string * string) :=
  match platform_entries capabilities with [value] => platform_of value | _ => None end.

(** ** The queued OCI hint *)
Definition hostVMRestorableCapabilities (current : gmap string bool) (withdrawn : list string) : gmap string bool :=
  fold_left (fun m c => if isOCIProbeCapability c then <[c := true]> m else m) withdrawn
    (<["kind:oci" := true]> current).

Definition requires (db : DB) (jobID : string) : gset string := default ∅ (db_job_required_capabilities db !! jobID).
Definition tags_of_job (db : DB) (jobID : string) : gset string := default ∅ (db_job_tags db !! jobID).
Definition tags_of_node (db : DB) (nodeID : string) : gset string := default ∅ (db_node_tags db !! nodeID).

Definition all_advertised (required : gset string) (advertised : gmap string bool) : bool :=
  forallb (advertises advertised) (elements required).

(** A queued OCI job this node could be asked to run. *)
Definition queued_oci_candidate (db : DB) (node jobID : string) (j : JobRow) : bool :=
  bool_decide (j_state j = JobQueued) && bool_decide (j_outcome j = "")
  && bool_decide (js_Kind (j_spec j) = JobKindOCI)
  && match db_service_jobs db !! jobID with
     | None => true
     | Some s => bool_decide (s_desired_state s = ServiceDesiredRunning)
                 && (bool_decide (s_bound_node_id s = None) || bool_decide (s_bound_node_id s = Some node))
                 && bool_decide (s_policy_stop s = None)
     end
  && bool_decide (tags_of_job db jobID ⊆ tags_of_node db node).

Definition queuedOCIWork (db : DB) (nodeID : string) : bool :=
  match db_nodes db !! nodeID with
  | None => false
  | Some n =>
      if advertises (n_capabilities n) "kind:oci" then false
      else
      let restorable := hostVMRestorableCapabilities (n_capabilities n) (n_missing_capabilities n) in
      let computers := map (fun r => c_current_job_id r.2)
        (List.filter (fun r => bool_decide (c_placement_node_id r.2 = nodeID)
                               && bool_decide (c_desired_state r.2 = ServiceDesiredRunning))
           (map_to_list (db_computers db))) in
      let queued := map fst (List.filter (fun r => queued_oci_candidate db nodeID r.1 r.2)
                               (map_to_list (db_jobs db))) in
      existsb (fun jobID => all_advertised (requires db jobID) restorable) (computers ++ queued)
  end.
End Normal.

(** ** Properties *)

(** Two reported entries can be visited in either order. *)
Lemma canonical_swap lower_table x y rest acc :
  canonical_capabilities lower_table (x :: y :: rest) acc = canonical_capabilities lower_table (y :: x :: rest) acc.
Proof.
  destruct x as [r1 e1], y as [r2 e2]; cbn [canonical_capabilities].
  set (c1 := normalize_word lower_table r1). set (c2 := normalize_word lower_table r2).
  destruct (valid_capability_name c1) eqn:V1, (valid_capability_name c2) eqn:V2; cbn [negb]; try done;
    try (by destruct (acc !! _) as [[]|]; destruct e1, e2).
  destruct (decide (c1 = c2)) as [E|N].
  - rewrite E, !lookup_insert_eq, !insert_insert_eq.
    destruct (acc !! c2) as [[]|], e1, e2; done.
  - rewrite !lookup_insert_ne by done. rewrite (insert_insert_ne acc c1 c2) by done.
    destruct (acc !! c1) as [[]|], (acc !! c2) as [[]|], e1, e2; done.
Qed.

(** The stored capability observation does not depend on the order in which
    Go's map iteration visits the reported capabilities. *)
Theorem canonical_order_irrelevant lower_table o o' :
  ob_Capabilities o ≡ₚ ob_Capabilities o' ->
  ob_Revision o = ob_Revision o' -> ob_ObservedAt o = ob_ObservedAt o' -> ob_zero_time o = ob_zero_time o' ->
  ob_MissingCapabilities o = ob_MissingCapabilities o' -> ob_ReasonCode o = ob_ReasonCode o' ->
  canonicalCapabilityObservation lower_table o = canonicalCapabilityObservation lower_table o'.
Proof.
  intros Hp Hrev Hobs Hz Hm Hr. unfold canonicalCapabilityObservation.
  rewrite (Permutation_length Hp), Hrev, Hobs, Hz, Hm, Hr.
  assert (Hc : forall acc, canonical_capabilities lower_table (ob_Capabilities o) acc =
                           canonical_capabilities lower_table (ob_Capabilities o') acc); [|by rewrite Hc].
  induction Hp as [|[raw e] l l' _ IH|x y l|l1 l2 l3 _ IH1 _ IH2]; intros acc; [done| |apply canonical_swap|congruence].
  cbn [canonical_capabilities]. by repeat case_match.
Qed.

Lemma canonical_order_irrelevant_witness :
  let o l := mkCapabilityObservation 3 l 7 false ["KIND:OCI"] "host_vm_idle" in
  canonicalCapabilityObservation id (o [("kind:process", true); (" Apparmor", false)]) =
  canonicalCapabilityObservation id (o [(" Apparmor", false); ("kind:process", true)]).
Proof. apply canonical_order_irrelevant; try reflexivity. apply perm_swap. Defined.

Lemma elem_of_sort_strings t l : t ∈ sort_strings l <-> t ∈ l.
Proof. apply elem_of_sort_by. Qed.

Lemma NormalizeTags_valid lower_table tags t :
  Forall (fun t => validTag t = true) tags -> t ∈ NormalizeTags lower_table tags <-> t ∈ tags.
Proof.
  intros Hv. unfold NormalizeTags. rewrite elem_of_sort_strings, elem_of_elements, elem_of_list_to_set.
  rewrite list_elem_of_In, filter_In, in_map_iff.
  assert (Hn : forall t, t ∈ tags -> normalize_word lower_table t = t /\ t <> "").
  { intros u Hu. rewrite Forall_forall in Hv. specialize (Hv u Hu). split.
    - apply normalize_word_plain, validRoutingTag_plain, Hv.
    - by intros ->. }
  split.
  - intros [(u & <- & Hu%list_elem_of_In) _]. by rewrite (proj1 (Hn u Hu)).
  - intros Ht. destruct (Hn t Ht) as [E N]. split; [exists t; by rewrite E, <- list_elem_of_In|].
    by rewrite bool_decide_eq_false_2.
Qed.

(** On tags that pass validation the Go matcher and the tag condition of
    the claim query agree: every job tag is a node tag. *)
Theorem TagsMatch_is_inclusion lower_table jobTags nodeTags :
  Forall (fun t => validTag t = true) jobTags -> Forall (fun t => validTag t = true) nodeTags ->
  TagsMatch lower_table jobTags nodeTags =
  bool_decide ((list_to_set jobTags : gset string) ⊆ list_to_set nodeTags).
Proof.
  intros Hj Hn. symmetry. destruct (TagsMatch _ _ _) eqn:E; [apply bool_decide_eq_true_2 | apply bool_decide_eq_false_2].
  - intros t Ht%elem_of_list_to_set. apply elem_of_list_to_set.
    unfold TagsMatch in E. rewrite forallb_forall in E. rewrite <- (NormalizeTags_valid lower_table nodeTags) by done.
    apply (bool_decide_eq_true_1 _), E. by rewrite <- list_elem_of_In, NormalizeTags_valid.
  - intros H. cut (TagsMatch lower_table jobTags nodeTags = true); [by rewrite E|].
    apply forallb_forall. intros t Ht%list_elem_of_In. apply bool_decide_eq_true_2.
    rewrite NormalizeTags_valid in * by done. by apply (elem_of_list_to_set (C := gset string)), H, elem_of_list_to_set.
Qed.

Lemma TagsMatch_is_inclusion_witness :
  TagsMatch id ["gpu"; "zone:a"] ["gpu"] = bool_decide ((list_to_set ["gpu"; "zone:a"] : gset string) ⊆ list_to_set ["gpu"]).
Proof. apply TagsMatch_is_inclusion; repeat constructor. Defined.

(** The capability condition of the claim query is [MissingCapabilities] being empty. *)
Lemma all_advertised_missing required advertised :
  all_advertised (list_to_set required) advertised = true <-> MissingCapabilities required advertised = [].
Proof.
  unfold all_advertised, MissingCapabilities. rewrite forallb_forall. split.
  - intros H. apply elem_of_nil_inv. intros c Hc. rewrite list_elem_of_In, filter_In, negb_true_iff in Hc.
    destruct Hc as [Hc Hf]. rewrite H in Hf; [done|]. rewrite <- list_elem_of_In, elem_of_elements, elem_of_list_to_set.
    by apply list_elem_of_In.
  - intros H c Hc. rewrite <- list_elem_of_In, elem_of_elements, elem_of_list_to_set in Hc.
    destruct (advertises advertised c) eqn:E; [done|].
    assert (Hin : c ∈ List.filter (fun c => negb (advertises advertised c)) required)
      by (rewrite list_elem_of_In, filter_In, <- list_elem_of_In, E; done).
    rewrite H in Hin. by apply elem_of_nil in Hin.
Qed.
