(* ===== verification/Claim.v ===== *)
(** * Claiming a job

    [claimJob] of [l1/store.go]: a node asks for one job of a class.  The
    transaction settles the node's own liveness, selects the first eligible
    queued job, advances its fence, creates the attempt with its lease and its
    credential, and binds a service to the node.  [newID] and the minted
    credential are random; they are arguments here. *)
From S2P Require Import Prelude Order States Contract GoStrings JobSpec L1Types RestartPolicy Database.
From S2P Require Import LeaseClock Authority Credentials Summaries Placement Lifecycle.
#[local] Open Scope string_scope.
#[local] Open Scope list_scope.
#[local] Open Scope Z_scope.

(** The identifiers to leave out, trimmed and without duplicates. *)
Fixpoint claimExclusion (seen : list string) (jobIDs : list string) : result ErrorCode (list string) :=
  match jobIDs with
  | [] => Ok []
  | raw :: rest =>
      let jobID := TrimSpace raw in
      if bool_decide (jobID = "") then Err ErrorInvalidRequest
      else if bool_decide (jobID ∈ seen) then claimExclusion seen rest
      else let? excluded := claimExclusion (jobID :: seen) rest in Ok (jobID :: excluded)
  end.

(** ** What the claim answers *)
Record ComputerStorageClaim := mkComputerStorageClaim {
  csc_ComputerID : string;
  csc_StorageID : string;
  csc_StorageGeneration : Z;
  csc_IntentRevision : Z;
  csc_SubmitEnabled : bool;
  csc_SubmitIntentRevision : Z;
  csc_SubmitMaxInflight : Z;
  csc_SubmitPolicyRevision : Z;
  csc_DiskBytes : Z;
  csc_Chown : bool;
  csc_SeatLimit : Z;
  csc_IdleAction : string;
  csc_Network : string;
  csc_SeatRequestMade : bool
}.

Record OneshotRestartFacts := mkOneshotRestartFacts {
  of_Limit : Z;
  of_Count : Z;
  of_Pending : bool;
  of_NextRestartAt : option Z;
  of_TerminalReason : option string;
  of_LastReason : option string;
  of_PreviousAttemptID : option string;
  of_CurrentAttemptID : option string
}.

(** [populateOneshotRestart] for a job in [state] with [current] attempt. *)
Definition populateOneshotRestart (state : JobState) (current : option string) (j : JobRow) :
    option OneshotRestartFacts :=
  if negb (js_Restartable (j_spec j)) then None
  else Some (mkOneshotRestartFacts MaximumOneshotRestarts (j_restart_count j)
               (bool_decide (state = JobQueued) && bool_decide (is_Some (j_next_restart_at_ns j)))
               (j_next_restart_at_ns j) (j_restart_terminal_reason j) (j_restart_last_reason j)
               (j_restart_previous_attempt_id j) current).

Record Claim := mkClaim {
  cl_JobID : string;
  cl_NodeID : string;
  cl_Spec : JobSpec;
  cl_ParentJobID : option string;
  cl_ParentAttemptID : option string;
  cl_OriginatingSubmitter : string;
  cl_SpawnDepth : Z;
  cl_CreatedAt : Z;
  cl_UpdatedAt : Z;
  cl_SubmittedByRunLedger : bool;
  cl_Lease : AttemptLease;
  cl_AttemptToken : string;
  cl_ComputerStorage : option ComputerStorageClaim;
  cl_RestartRecovery : option OneshotRestartFacts;
  cl_PrestartDeadline : option Z
}.

(** ** Eligibility *)
Definition count_where {V} (p : string -> V -> bool) (m : gmap string V) : Z :=
  Z.of_nat (length (List.filter (fun r => p r.1 r.2) (map_to_list m))).

(** Active one-shot attempts on a node. *)
Definition active_oneshots (db : DB) (nodeID : string) : Z :=
  count_where (fun _ a => bool_decide (a_node_id a = nodeID) && active_attempt (a_state a)
                          && negb (bool_decide (is_Some (db_service_jobs db !! a_job_id a)))) (db_attempts db).

(** Whether a service bound to the node holds one of its slots. *)
Definition occupies_slot (db : DB) (nodeID jobID : string) (s : ServiceRow) : bool :=
  bool_decide (s_bound_node_id s = Some nodeID) &&
  match db_jobs db !! jobID with
  | Some j => (bool_decide (j_state j = JobQueued) && bool_decide (s_desired_state s = ServiceDesiredRunning))
              || bool_decide (j_state j ∈ [JobClaimed; JobRunning; JobStopping; JobRemovalPending; JobAgentCleaned])
  | None => false
  end.

Definition occupied_services (db : DB) (nodeID : string) : Z :=
  count_where (occupies_slot db nodeID) (db_service_jobs db).

(** An attempt of an earlier incarnation of the node that may still be running. *)
Definition prior_incarnation (db : DB) (nodeID boot : string) (generation : Z) (id : string) (a : AttemptRow) : bool :=
  bool_decide (a_node_id a = nodeID)
  && (negb (bool_decide (a_boot_session_id a = boot))
      || (negb (a_authority_generation a =? generation) && bool_decide (is_Some (db_generation_catalog db !! nodeID))))
  && negb (retiringAttemptAuthority db id a)
  && active_attempt (a_state a).

(** A projected job is claimable only for the Computer that names it, with published storage. *)
Definition computer_claimable (db : DB) (nodeID jobID : string) : bool :=
  match db_projections db !! jobID with
  | None => true
  | Some p =>
      p_current p &&
      match db_computers db !! p_computer_id p with
      | None => false
      | Some c =>
          bool_decide (c_current_job_id c = jobID) && bool_decide (c_desired_state c = ServiceDesiredRunning)
          && bool_decide (c_reconfiguration_phase c = "stable") && bool_decide (c_placement_node_id c = nodeID)
          && existsb (fun g => bool_decide (sg_computer_id g = p_computer_id p)
                               && (sg_generation g =? c_storage_generation c)
                               && bool_decide (sg_phase g = "current")) (db_storage_generations db)
      end
  end.

Definition due (next : option Z) (now : Z) : bool := match next with Some t => t <=? now | None => true end.

Definition oneshot_claimable (db : DB) (now : Z) (nodeID : string) (n : NodeRow) (j : JobRow) : bool :=
  due (j_next_restart_at_ns j) now && due (j_prestart_next_retry_at_ns j) now
  && match j_prestart_budget_deadline_ns j with Some d => now <? d | None => true end
  && (active_oneshots db nodeID <? n_max_oneshot_slots n).

Definition service_claimable (db : DB) (now : Z) (nodeID : string) (n : NodeRow) (s : ServiceRow) : bool :=
  bool_decide (s_desired_state s = ServiceDesiredRunning)
  && (bool_decide (s_bound_node_id s = None) || bool_decide (s_bound_node_id s = Some nodeID))
  && bool_decide (s_policy_stop s = None) && due (s_next_restart_at s) now
  && (bool_decide (s_bound_node_id s = Some nodeID) || (occupied_services db nodeID <? n_max_service_slots n)).

(** The [WHERE] of the claim's candidate query. *)
Definition claimable (db : DB) (now : Z) (class nodeID boot : string) (generation : Z) (n : NodeRow)
    (excluded : list string) (jobID : string) (j : JobRow) : bool :=
  bool_decide (j_state j = JobQueued) && bool_decide (j_outcome j = "")
  && computer_claimable db nodeID jobID
  && match db_service_jobs db !! jobID with
     | None => bool_decide (class = JobClassOneShot) && oneshot_claimable db now nodeID n j
     | Some s => bool_decide (class = JobClassService) && service_claimable db now nodeID n s
     end
  && negb (existsb (fun r => prior_incarnation db nodeID boot generation r.1 r.2) (map_to_list (db_attempts db)))
  && negb (bool_decide (jobID ∈ excluded))
  && bool_decide (tags_of_job db jobID ⊆ tags_of_node db nodeID)
  && all_advertised (requires db jobID) (n_capabilities n).

(** [ORDER BY] bound services first, then [created_ns], [job_id]; [LIMIT 1]. *)
Definition bound_here (db : DB) (nodeID jobID : string) : bool :=
  bool_decide (db_service_jobs db !! jobID ≫= s_bound_node_id = Some nodeID).

Definition job_key (r : string * JobRow) : Z * string := (j_created_ns r.2, r.1).

Definition claim_candidate (db : DB) (now : Z) (class nodeID boot : string) (generation : Z) (n : NodeRow)
    (excluded : list string) : option (string * JobRow) :=
  let rows := List.filter (fun r => claimable db now class nodeID boot generation n excluded r.1 r.2)
                (map_to_list (db_jobs db)) in
  let first r := bool_decide (class = JobClassService) && bound_here db nodeID r.1 in
  head (sort_by job_key (List.filter first rows) ++ sort_by job_key (List.filter (fun r => negb (first r)) rows)).

(** ** The transaction *)
Section ClaimJob.
Context (cfg : config) (lower_table : Z -> Z).

Abbreviation claim_tx A := (tx DB ErrorCode (option Claim * bool) A).

Definition node_liveness (code : string) (now : Z) : NodeCondition := mkNodeCondition code "node_liveness" now [].

(** The liveness a claiming node is found in. *)
Definition reconcileClaimingNode (clock : attemptClock) (now : Z) (n : NodeRow) : NodeState :=
  let heartbeat := n_last_heartbeat_ns n + n_heartbeat_sleep_ns n in
  let comparison := leaseExpiryWallTime clock now in
  match n_state n with
  | NodeAlive =>
      if heartbeat + cfg_nodeDeadAfter cfg <=? comparison then NodeDead
      else if heartbeat + cfg_nodeStaleAfter cfg <=? comparison then NodeStale else NodeAlive
  | NodeStale => if heartbeat + cfg_nodeDeadAfter cfg <=? comparison then NodeDead else NodeStale
  | state => state
  end.

Definition NodeState_name (s : NodeState) : string :=
  match s with NodeAlive => "alive" | NodeStale => "stale" | NodeDead => "dead" | NodeDraining => "draining" end.

Definition prestart_expired : string := "pre-start infrastructure budget expired while awaiting scheduling".

(** A queued one-shot whose pre-start budget ran out while it waited. *)
Definition prestart_gap (db : DB) (now : Z) (jobID : string) (j : JobRow) : bool :=
  bool_decide (j_state j = JobQueued)
  && match j_prestart_budget_deadline_ns j with Some d => d <=? now | None => false end
  && bool_decide (db_service_jobs db !! jobID = None).

Definition fail_prestart_gaps (now : Z) (db : DB) : DB :=
  let ids := map fst (List.filter (fun r => prestart_gap db now r.1 r.2) (map_to_list (db_jobs db))) in
  fold_left (fun db id =>
    exec_job_state id (fun j =>
      j <| j_state := JobFailed |> <| j_current_attempt_id := None |> <| j_prestart_next_retry_at_ns := None |>
        <| j_prestart_terminal_reason := Some prestart_expired |> <| j_updated_ns := now |>) db) ids db.

Definition claimed_job (attemptID : string) (now : Z) (j : JobRow) : JobRow :=
  j <| j_state := JobClaimed |> <| j_current_attempt_id := Some attemptID |>
    <| j_completion_replay_attempt_id := None |> <| j_fence_counter := j_fence_counter j + 1 |>
    <| j_updated_ns := now |>
    <| j_restart_count := j_restart_count j + (if bool_decide (is_Some (j_next_restart_at_ns j)) then 1 else 0) |>
    <| j_next_restart_at_ns := None |>.

(** The specification handed to the node: the image is pinned to the digest a
    previous attempt resolved. *)
Definition claimed_spec (j : JobRow) : result ErrorCode JobSpec :=
  match j_image_resolution j with
  | None => Ok (j_spec j)
  | Some resolution =>
      match exec_OCI (js_Execution (j_spec j)) with
      | Some oci =>
          if negb (bool_decide (js_Kind (j_spec j) = JobKindOCI)) then Err ErrorInternal
          else
          let image := (oci_Image oci) <| img_Digest := Some (jr_TopLevelDigest resolution) |> in
          Ok ((j_spec j) <| js_Execution := (js_Execution (j_spec j)) <| exec_OCI := Some (oci <| oci_Image := image |>) |> |>)
      | None => Err ErrorInternal
      end
  end.

Definition maximum (l : list Z) : option Z :=
  match l with [] => None | x :: l => Some (fold_left Z.max l x) end.

Definition at_least_after (latest : option Z) (t : Z) : Z :=
  match latest with Some l => if t <=? l then l + 1 else t | None => t end.

(** The new attempt is strictly newer than its predecessors (of a restartable
    job) and than every restart request already made. *)
Definition attempt_created (db : DB) (jobID : string) (restartable : bool) (now : Z) : Z :=
  let created := map (fun r => a_created_ns r.2)
                   (List.filter (fun r => bool_decide (a_job_id r.2 = jobID)) (map_to_list (db_attempts db))) in
  let requested := map rr_created_ns
                     (List.filter (fun rr => bool_decide (rr_job_id rr = jobID)) (db_restart_requests db)) in
  at_least_after (maximum requested) (if restartable then at_least_after (maximum created) now else now).

Definition new_attempt (jobID nodeID boot token : string) (expires : Z) (lease : string * Z) (generation created now : Z) :
    AttemptRow :=
  mkAttemptRow jobID nodeID boot AttemptClaimed token expires lease.1 lease.2 generation None None None None None None
    None None None None None None None None None false None created now.

Definition insert_attempt (attemptID : string) (a : AttemptRow) : claim_tx unit :=
  fun db => match db_attempts db !! attemptID with
            | Some _ => Abort (Err ErrorInternal)
            | None => Next tt (db <| db_attempts := <[attemptID := a]> (db_attempts db) |>)
            end.

(** A binding update that must find its row. *)
Definition bind_row {V} (get : DB -> gmap string V) (set : gmap string V -> DB -> DB) (id : string)
    (p : V -> bool) (f : V -> V) : claim_tx unit :=
  fun db => match get db !! id with
            | Some v => if p v then Next tt (set (<[id := f v]> (get db)) db) else Abort (Err ErrorInternal)
            | None => Abort (Err ErrorInternal)
            end.

Definition unbound_or (nodeID : string) (bound : option string) : bool :=
  bool_decide (bound = None) || bool_decide (bound = Some nodeID).

Definition computer_storage (computerID jobID : string) (db : DB) : option ComputerStorageClaim :=
  match db_computers db !! computerID, db_projections db !! jobID with
  | Some c, Some p =>
      if bool_decide (c_current_job_id c = jobID) && bool_decide (p_computer_id p = computerID)
      then Some (mkComputerStorageClaim computerID (c_storage_id c) (c_storage_generation c) (c_intent_revision c)
                   (c_submit_enabled c) (c_submit_intent_revision c) (c_submit_max_inflight c)
                   (c_submit_policy_revision c) (c_desired_disk_bytes c) (p_chown p) (c_seat_limit c)
                   (c_idle_action c) (c_network c) (c_seat_request_made c))
      else None
  | _, _ => None
  end.

(** Bind a claimed service, and the Computer it projects, to the node. *)
Definition bind_service (nodeID jobID : string) (now : Z) : claim_tx (option ComputerStorageClaim) :=
  let! _ := bind_row db_service_jobs (fun m db => db <| db_service_jobs := m |>) jobID
              (fun s => unbound_or nodeID (s_bound_node_id s))
              (fun s => s <| s_bound_node_id := match s_bound_node_id s with None => Some nodeID | b => b end |>
                          <| s_next_restart_at := None |> <| s_healthy_since_ns := None |>
                          <| s_published_attempt_id := None |>) in
  let! projection := reads (fun db => db_projections db !! jobID) in
  match projection with
  | None => pure None
  | Some p =>
      let computerID := p_computer_id p in
      let! _ := bind_row db_computers (fun m db => db <| db_computers := m |>) computerID
                  (fun c => bool_decide (c_current_job_id c = jobID) && bool_decide (c_placement_node_id c = nodeID)
                            && unbound_or nodeID (c_bound_node_id c))
                  (fun c => c <| c_bound_node_id := match c_bound_node_id c with None => Some nodeID | b => b end |>
                              <| c_updated_ns := now |>) in
      let! storage := need (computer_storage computerID jobID) ErrorInternal in
      pure (Some storage)
  end.

(** Write the claim of a selected job: fence, budget, attempt, credential, binding. *)
Definition claim_selected (clock : attemptClock) (now : Z) (class nodeID boot : string) (generation : Z)
    (attemptID attemptToken attemptTokenHash jobID : string) (hint : bool) : claim_tx (option Claim * bool) :=
  let! _ := writes (exec_job_state jobID (claimed_job attemptID now)) in
  let! job := read_job jobID in
  let oci_oneshot := bool_decide (js_Kind (j_spec job) = JobKindOCI)
                     && bool_decide (js_Class (j_spec job) = JobClassOneShot) in
  let deadline :=
    if oci_oneshot
    then Some (default (now + cfg_prestartInfrastructureBudget cfg) (j_prestart_budget_deadline_ns job))
    else j_prestart_budget_deadline_ns job in
  let! _ :=
    if oci_oneshot then
      writes (exec_job jobID (fun j => j <| j_prestart_budget_deadline_ns := deadline |>
                                         <| j_prestart_next_retry_at_ns := None |>))
    else pure tt in
  let! spec := lift (claimed_spec job) in
  let leaseExpires := now + cfg_leaseDuration cfg in
  let lease := attemptLeaseDeadline clock now leaseExpires in
  let fencingToken := pretty (j_fence_counter job) in
  let! created := reads (fun db => attempt_created db jobID (js_Restartable spec) now) in
  let! _ := insert_attempt attemptID
              (new_attempt jobID nodeID boot fencingToken leaseExpires lease generation created now) in
  let! _ := insertAttemptCredential attemptTokenHash
              (mkAttemptCredentialScope attemptID jobID nodeID (j_originating_submitter job) (j_spawn_depth job) "")
              now in
  let! storage := if bool_decide (class = JobClassService) then bind_service nodeID jobID now else pure None in
  let! _ := writes (pruneServiceAttemptSummaries (cfg_lateEvidenceWindow cfg) now jobID) in
  let! _ := writes pruneAttemptCredentials in
  let! job' := read_job jobID in
  let claim :=
    mkClaim jobID nodeID spec (j_parent_job_id job) (j_parent_attempt_id job) (j_originating_submitter job)
      (j_spawn_depth job) (j_created_ns job) now (j_submitted_by_run_ledger job)
      (mkAttemptLease attemptID fencingToken leaseExpires (leaseExpires - now)
         (leaseSleepCreditBoot (cfg_boot_digest cfg) clock) "" "" "")
      attemptToken storage
      (if js_Restartable spec then populateOneshotRestart JobClaimed (Some attemptID) job' else None) deadline in
  pure (Some claim, hint).

Definition claimJob (at_ : instant) (identityNodeID nodeID boot class : string) (poll : bool)
    (excludedJobIDs : list string) (attemptID attemptToken attemptTokenHash : string) : claim_tx (option Claim * bool) :=
  if negb (bool_decide (class = JobClassOneShot)) && negb (bool_decide (class = JobClassService))
  then fail ErrorInvalidRequest
  else
  let! excluded := lift (claimExclusion [] excludedJobIDs) in
  let! clock := beginWriteTransaction at_ in
  let now := at_now at_ in
  let! _ := check (negb (ac_err clock)) ErrorInternal in
  let! n := need (fun db => db_nodes db !! nodeID) ErrorNodeNotRegistered in
  let! _ := check (bool_decide (n_identity_node_id n = identityNodeID)) ErrorIdentityBound in
  let! _ := check (bool_decide (n_boot_session_id n = boot)) ErrorNodeSessionReplaced in
  let state := reconcileClaimingNode clock now n in
  let! _ :=
    if bool_decide (state = n_state n) then pure tt
    else writes (exec_node nodeID (fun n =>
           n <| n_state := state |> <| n_last_condition := Some (node_liveness ("node_" +:+ NodeState_name state) now) |>)) in
  if negb (bool_decide (state = NodeAlive)) then
    commit (Err (match state with
                 | NodeDead => ErrorNodeDead | NodeDraining => ErrorNodeDraining | _ => ErrorConflict end))
  else if negb (n_claims_enabled n) then answer (None, false)
  else
  let! hint := reads (fun db => poll && queuedOCIWork lower_table db nodeID) in
  let! _ := if bool_decide (class = JobClassOneShot) then writes (fail_prestart_gaps now) else pure tt in
  let! candidate := reads (fun db => claim_candidate db now class nodeID boot (n_authority_generation n) n excluded) in
  match candidate with
  | None => commit (Ok (None, hint))
  | Some (jobID, _) =>
      claim_selected clock now class nodeID boot (n_authority_generation n) attemptID attemptToken attemptTokenHash
        jobID hint
  end.
End ClaimJob.

(** ** What the candidate query selects *)
Lemma claim_candidate_claimable db now class nodeID boot generation n excluded jobID j :
  claim_candidate db now class nodeID boot generation n excluded = Some (jobID, j) ->
  db_jobs db !! jobID = Some j /\ claimable db now class nodeID boot generation n excluded jobID j = true.
Proof.
  unfold claim_candidate. intros Hhd.
  set (rows := List.filter _ (map_to_list (db_jobs db))) in *.
  assert (Hin : (jobID, j) ∈ rows).
  { apply head_Some_elem_of in Hhd. rewrite elem_of_app, !elem_of_sort_by, !list_elem_of_In, !filter_In in Hhd.
    rewrite list_elem_of_In. tauto. }
  subst rows. rewrite list_elem_of_In, filter_In, <- list_elem_of_In, elem_of_map_to_list in Hin. exact Hin.
Qed.

Lemma claimable_queued db now class nodeID boot generation n excluded jobID j :
  claimable db now class nodeID boot generation n excluded jobID j = true -> j_state j = JobQueued.
Proof. unfold claimable. rewrite !andb_true_iff. intros [[[[[[[H _] _] _] _] _] _] _]. by apply bool_decide_eq_true in H. Qed.

(** The order of the candidate query: services bound to the node first, then
    the oldest, then the smallest identifier. *)
Definition claim_order (db : DB) (class nodeID : string) (r1 r2 : string * JobRow) : Prop :=
  let first r := bool_decide (class = JobClassService) && bound_here db nodeID r.1 in
  if first r1 then (first r2 = true -> key_le (job_key r1) (job_key r2))
  else first r2 = false /\ key_le (job_key r1) (job_key r2).

Lemma claim_candidate_first db now class nodeID boot generation n excluded r jobID j :
  claim_candidate db now class nodeID boot generation n excluded = Some r ->
  db_jobs db !! jobID = Some j -> claimable db now class nodeID boot generation n excluded jobID j = true ->
  claim_order db class nodeID r (jobID, j).
Proof.
  unfold claim_candidate, claim_order. set (first := fun r => _ && _). set (rows := List.filter _ (map_to_list _)).
  intros Hhd Hj Hc. change (if first r then first (jobID, j) = true -> key_le (job_key r) (job_key (jobID, j))
    else first (jobID, j) = false /\ key_le (job_key r) (job_key (jobID, j))).
  assert (Hin : (jobID, j) ∈ rows).
  { apply list_elem_of_In, filter_In. split; [|done]. by apply list_elem_of_In, elem_of_map_to_list. }
  assert (Hof : forall p : string * JobRow -> bool, p (jobID, j) = true -> (jobID, j) ∈ List.filter p rows).
  { intros p Hp. apply list_elem_of_In, filter_In. by rewrite <- list_elem_of_In. }
  destruct (head (sort_by job_key (List.filter first rows))) as [x|] eqn:E.
  - assert (x = r) as -> by (destruct (sort_by job_key (List.filter first rows)); simplify_eq/=; done).
    apply sort_by_head in E as [Hr Hle]. apply list_elem_of_In, filter_In in Hr as [_ Hr].
    rewrite Hr.
    intros Hf. by apply Hle, Hof.
  - apply sort_by_head_none in E. rewrite E in Hhd. simpl in Hhd.
    apply sort_by_head in Hhd as [Hr Hle]. apply list_elem_of_In, filter_In in Hr as [_ Hr%negb_true_iff].
    change (first r = false) in Hr. rewrite Hr.
    assert (Hf : first (jobID, j) = false).
    { destruct (first (jobID, j)) eqn:Ef; [|done]. apply Hof in Ef. rewrite E in Ef. by apply elem_of_nil in Ef. }
    split; [exact Hf|]. apply Hle, (Hof (fun r => negb (first r))). by rewrite Hf.
Qed.

(** No job is claimable when the query returns nothing. *)
Lemma claim_candidate_none db now class nodeID boot generation n excluded jobID j :
  claim_candidate db now class nodeID boot generation n excluded = None ->
  db_jobs db !! jobID = Some j -> claimable db now class nodeID boot generation n excluded jobID j = false.
Proof.
  unfold claim_candidate. set (first := fun r => _ && _). set (rows := List.filter _ (map_to_list _)).
  intros Hhd Hj. destruct (claimable _ _ _ _ _ _ _ _ _ _) eqn:Hc; [|done].
  assert (Hin : In (jobID, j) rows).
  { apply filter_In. split; [|done]. by apply list_elem_of_In, elem_of_map_to_list. }
  apply head_None in Hhd. apply app_eq_nil in Hhd as [H1 H2].
  assert (E1 : List.filter first rows = []) by (apply (sort_by_head_none job_key); by rewrite H1).
  assert (E2 : List.filter (fun r => negb (first r)) rows = []).
  { apply (sort_by_head_none job_key). exact (f_equal head H2). }
  destruct (first (jobID, j)) eqn:Ef.
  - assert (Hf : In (jobID, j) (List.filter first rows)) by (by apply filter_In). by rewrite E1 in Hf.
  - assert (Hf : In (jobID, j) (List.filter (fun r => negb (first r)) rows)) by (apply filter_In; by rewrite Ef).
    rewrite E2 in Hf. done.
Qed.
