(* ===== verification/ServiceOperator.v ===== *)
(** * Service operator actions

    Starting, stopping and restarting a service: [serviceActionAuthority] and
    [serviceActionDecision] of [l1/service_operator.go], which both advertise an
    action and enforce it, and the writes of [l1/operator_routes.go]. *)
From S2P Require Import Prelude States Contract GoStrings JobSpec L1Types RestartPolicy Database LeaseClock.
From S2P Require Import Authority Credentials Lifecycle Summaries Completion Placement Claim.
#[local] Open Scope string_scope.
#[local] Open Scope list_scope.
#[local] Open Scope Z_scope.

(** The part of [Job] a decision reads.  A job being removed is projected
    without its service row and its current attempt. *)
Record service_job := mkservice_job {
  sj_jobID : string;
  sj_spec : JobSpec;
  sj_state : JobState;
  sj_current : option string;
  sj_service : option ServiceRow;
  sj_removal : bool
}.

Definition getServiceJob (db : DB) (jobID : string) : option service_job :=
  j ← db_jobs db !! jobID;
  Some (if bool_decide (jobID ∈ db_service_removals db)
        then mkservice_job jobID (j_spec j) (j_state j) None None true
        else mkservice_job jobID (j_spec j) (j_state j) (j_current_attempt_id j) (db_service_jobs db !! jobID) false).

Definition bound_node (s : ServiceRow) : string := default "" (s_bound_node_id s).

Definition HoldsSlot (s : ServiceRow) (state : JobState) : bool :=
  if bool_decide (bound_node s = "") then false
  else match state with
       | JobQueued => bool_decide (s_desired_state s = ServiceDesiredRunning)
       | JobClaimed | JobRunning | JobStopping | JobRemovalPending | JobAgentCleaned => true
       | _ => false
       end.

Definition ensureBoundServiceCapacity (db : DB) (s : ServiceRow) : result ErrorCode unit :=
  let node := bound_node s in
  if bool_decide (node = "") then Ok tt
  else match db_nodes db !! node with
       | None => Err ErrorConflict
       | Some n => if n_max_service_slots n <=? occupied_services db node then Err ErrorCapacityExhausted else Ok tt
       end.

(** Whether a failed service of restart policy [never] may simply be started
    again: its current attempt ended for a reason that is not the payload's. *)
Definition neverAutomaticFailureCause (db : DB) (job : service_job) : result ErrorCode bool :=
  match sj_service job, sj_current job with
  | Some s, Some current =>
      if negb (bool_decide (js_Restart (sj_spec job) = RestartNever)) || negb (bool_decide (sj_state job = JobFailed))
         || sj_removal job || bool_decide (current = "") then Ok false
      else match db_attempts db !! current with
      | None => Err ErrorInternal
      | Some a =>
          if negb (bool_decide (a_job_id a = sj_jobID job)) then Err ErrorInternal
          else if bool_decide (a_state a = AttemptLost) then Ok true
          else match a_result a with
          | None => Err ErrorInternal
          | Some r =>
              let oci := bool_decide (js_Kind (sj_spec job) = JobKindOCI) in
              match pr_SpawnError r with
              | Some f => Ok (bool_decide (classifySpawnFailure (sf_Code f) = failureInfrastructure)
                              && (negb (bool_decide (sf_Code f = SpawnFailureRuntimeUnavailable)) || oci))
              | None =>
                  if negb (bool_decide (pr_OutputError r = "")) then Ok false
                  else match pr_RuntimeFailure r with
                  | Some f => Ok (oci && bool_decide (classifyRuntimeFailure (rf_Code f) = failureInfrastructure))
                  | None =>
                      if negb (bool_decide (pr_Signal r = "")) then
                        Ok (bool_decide (pr_TerminationCause r ∈ [TerminationCauseAgent; TerminationCauseGuardian]))
                      else if bool_decide (is_Some (pr_ExitCode r)) && bool_decide (s_policy_stop s = None) then
                        match a_termination_initiator a with
                        | Some initiator => Ok (negb (bool_decide (initiator = "")))
                        | None => Ok (negb (match js_MaxRestartStreak (sj_spec job) with
                                            | Some limit => limit <=? s_restart_streak s
                                            | None => false
                                            end))
                        end
                      else Ok false
                  end
              end
          end
      end
  | _, _ => Ok false
  end.

(** ** Who may act, and when *)
Record serviceActionActor := mkserviceActionActor {
  sa_Tags : list string;
  sa_ClientPrincipalTag : string;
  sa_AttemptCredential : bool
}.

Section Decisions.
Context (lower_table : Z -> Z).

Definition taggedIdentityDecision (tags : list string) (tag : string) : result ErrorCode unit :=
  if bool_decide (tag = "") || negb (bool_decide (tag ∈ NormalizeTags lower_table tags))
  then Err ErrorPrincipalForbidden else Ok tt.

(** No actor is the trusted store API. *)
Definition serviceActionAuthority (db : DB) (job : service_job) (verb : string) (actor : option serviceActionActor) :
    result ErrorCode unit :=
  let? _ := match actor with
            | None => Ok tt
            | Some a => if sa_AttemptCredential a then Err ErrorPrincipalForbidden
                        else taggedIdentityDecision (sa_Tags a) (sa_ClientPrincipalTag a)
            end in
  if bool_decide (sj_service job = None) && negb (sj_removal job) then Err ErrorNotFound
  else if bool_decide (sj_service job = None) && bool_decide (verb ∈ ["start"; "stop"; "restart"]) then Err ErrorNotFound
  else if bool_decide (is_Some (db_projections db !! sj_jobID job)) then Err ErrorComputerResourceRequired
  else Ok tt.

Definition serviceRemovalRoot (db : DB) (node : string) : result ErrorCode unit :=
  match db_nodes db !! node with
  | Some n => if bool_decide (TrimSpace (n_root_instance_id n) = "") then Err ErrorConflict else Ok tt
  | None => Err ErrorConflict
  end.

Definition start_decision (db : DB) (job : service_job) (s : ServiceRow) : result ErrorCode unit :=
  match sj_state job with
  | JobFailed | JobStopped =>
      let? resumable := neverAutomaticFailureCause db job in
      if bool_decide (sj_state job = JobFailed) && bool_decide (s_policy_stop s = None) && negb resumable
      then Err ErrorConflict
      else if HoldsSlot s (sj_state job) then Ok tt else ensureBoundServiceCapacity db s
  | JobQueued | JobClaimed | JobRunning =>
      if bool_decide (s_desired_state s = ServiceDesiredRunning) then Ok tt else Err ErrorConflict
  | _ => Err ErrorConflict
  end.

Definition stop_decision (job : service_job) (s : ServiceRow) : result ErrorCode unit :=
  match sj_state job with
  | JobQueued | JobClaimed | JobRunning | JobFailed => Ok tt
  | JobStopped =>
      if negb (bool_decide (s_desired_state s = ServiceDesiredStopped)) && bool_decide (s_policy_stop s = None)
      then Err ErrorConflict else Ok tt
  | JobStopping => if bool_decide (s_desired_state s = ServiceDesiredStopped) then Ok tt else Err ErrorConflict
  | _ => Err ErrorConflict
  end.

Definition restart_decision (db : DB) (job : service_job) (s : ServiceRow) : result ErrorCode unit :=
  let? _ := if HoldsSlot s (sj_state job) then Ok tt else ensureBoundServiceCapacity db s in
  match sj_state job with
  | JobStopped | JobFailed | JobQueued | JobClaimed | JobRunning => Ok tt
  | _ => Err ErrorConflict
  end.

Definition serviceActionDecision (db : DB) (job : service_job) (verb : string) (actor : option serviceActionActor) :
    result ErrorCode unit :=
  let? _ := serviceActionAuthority db job verb actor in
  if bool_decide (verb ∈ ["remove"; "forget"]) then
    match sj_service job with
    | Some s => if sj_removal job || bool_decide (bound_node s = "") then Ok tt else serviceRemovalRoot db (bound_node s)
    | None => Ok tt
    end
  else if sj_removal job then Err ErrorConflict
  else match sj_service job with
       | None => Err ErrorInvalidRequest
       | Some s =>
           if bool_decide (verb = "start") then start_decision db job s
           else if bool_decide (verb = "stop") then stop_decision job s
           else if bool_decide (verb = "restart") then restart_decision db job s
           else Err ErrorInvalidRequest
       end.

(** ** The writes *)
Definition setServiceDesiredState (at_ : instant) (jobID : string) (desired : ServiceDesiredState)
    (actor : option serviceActionActor) : tx DB ErrorCode JobRow JobRow :=
  if bool_decide (TrimSpace jobID = "") then fail ErrorInvalidRequest
  else if bool_decide (desired = ServiceDesiredRemoved) then fail ErrorInvalidRequest
  else
  let! _ := beginWriteTransaction at_ in
  let now := at_now at_ in
  let! job := need (fun db => getServiceJob db jobID) ErrorNotFound in
  let! service := need (fun _ => sj_service job) ErrorNotFound in
  let verb := if bool_decide (desired = ServiceDesiredStopped) then "stop" else "start" in
  let! verdict := reads (fun db => serviceActionDecision db job verb actor) in
  let! _ := lift verdict in
  let! _ :=
    match desired, sj_state job with
    | ServiceDesiredRunning, (JobFailed | JobStopped) =>
        let! _ := transitionServiceJob jobID desired JobQueued now in
        writes (exec_service jobID (fun s => s <| s_policy_stop := None |> <| s_next_restart_at := None |>))
    | ServiceDesiredRunning, _ => pure tt
    | _, state =>
        let! _ :=
          match state with
          | JobQueued => transitionServiceJob jobID desired JobStopped now
          | JobClaimed | JobRunning => transitionServiceJob jobID desired JobStopping now
          | JobFailed =>
              let! _ := writes (exec_service jobID (fun s =>
                          s <| s_desired_state := desired |> <| s_next_restart_at := None |>)) in
              writes (exec_job jobID (fun j => j <| j_updated_ns := now |>))
          | JobStopped =>
              if bool_decide (s_desired_state service = ServiceDesiredStopped) then pure tt
              else
              let! _ := writes (exec_service jobID (fun s => s <| s_desired_state := desired |>)) in
              writes (exec_job jobID (fun j => j <| j_updated_ns := now |>))
          | _ => pure tt
          end in
        writes (exec_service jobID (fun s => s <| s_next_restart_at := None |>))
    end in
  read_job jobID.

Record ServiceUpgradeRecovery := mkServiceUpgradeRecovery {
  ur_NodeID : string;
  ur_AttemptID : string;
  ur_BootSessionID : string
}.
Record ServiceRestartRequest := mkServiceRestartRequest {
  sr_IdempotencyKey : string;
  sr_Upgrade : option ServiceUpgradeRecovery
}.

(** Whether the service is still the one an upgrade planned to restart. *)
Definition upgrade_current (db : DB) (job : service_job) (s : ServiceRow) (old : ServiceUpgradeRecovery) : bool :=
  bool_decide (js_Kind (sj_spec job) = JobKindProcess) && bool_decide (job_computer_id db (sj_jobID job) = "")
  && bool_decide (bound_node s = ur_NodeID old) && bool_decide (s_desired_state s = ServiceDesiredRunning)
  && negb (sj_removal job) && bool_decide (s_policy_stop s = None)
  && bool_decide (default "" (sj_current job) = ur_AttemptID old)
  && (bool_decide (sj_state job = JobQueued) || bool_decide (sj_state job = JobFailed)).

(** The predecessor an upgrade names completed under that node session. *)
Definition upgrade_completed (db : DB) (jobID : string) (old : ServiceUpgradeRecovery) : bool :=
  match db_attempts db !! ur_AttemptID old with
  | Some a => bool_decide (a_job_id a = jobID) && bool_decide (a_node_id a = ur_NodeID old)
              && bool_decide (a_boot_session_id a = ur_BootSessionID old)
              && bool_decide (is_Some (a_completion_key a))
              && bool_decide (a_state a ∈ [AttemptSucceeded; AttemptFailed])
  | None => false
  end.

Definition accepted_restart (db : DB) (jobID key : string) : option string :=
  rr_request_hash <$>
    head (List.filter (fun r => bool_decide (rr_job_id r = jobID) && bool_decide (rr_idempotency_key r = key))
            (db_restart_requests db)).

Context (restart_digest : ServiceRestartRequest -> string).

(** The job row and whether the request had been accepted before. *)
Definition restartService (at_ : instant) (jobID : string) (request : ServiceRestartRequest)
    (actor : option serviceActionActor) : tx DB ErrorCode (JobRow * bool) (JobRow * bool) :=
  if bool_decide (TrimSpace jobID = "") || bool_decide (TrimSpace (sr_IdempotencyKey request) = "")
  then fail ErrorInvalidRequest
  else if match sr_Upgrade request with
          | Some u => bool_decide (ur_NodeID u = "") || bool_decide (ur_AttemptID u = "")
                      || bool_decide (ur_BootSessionID u = "")
          | None => false
          end
  then fail ErrorInvalidRequest
  else
  let requestHash := restart_digest request in
  let! _ := beginWriteTransaction at_ in
  let now := at_now at_ in
  let! row := need (fun db => db_jobs db !! jobID) ErrorNotFound in
  let! job := need (fun db => getServiceJob db jobID) ErrorNotFound in
  let! service := need (fun _ => sj_service job) ErrorNotFound in
  let! verdict := reads (fun db => serviceActionAuthority db job "restart" actor) in
  let! _ := lift verdict in
  let! stored := reads (fun db => accepted_restart db jobID (sr_IdempotencyKey request)) in
  match stored with
  | Some hash => if bool_decide (hash = requestHash) then answer (row, true) else fail ErrorIdempotencyConflict
  | None =>
      let! stale := reads (fun db => match sr_Upgrade request with
                                     | Some old => negb (upgrade_current db job service old)
                                     | None => false
                                     end) in
      if stale then answer (row, false)
      else
      let! completed := reads (fun db => match sr_Upgrade request with
                                         | Some old => upgrade_completed db jobID old
                                         | None => true
                                         end) in
      let! _ := check completed ErrorConflict in
      let! verdict := reads (fun db => serviceActionDecision db job "restart" actor) in
      let! _ := lift verdict in
      let! _ := match sj_state job with
                | JobStopped | JobFailed => transitionServiceJob jobID ServiceDesiredRunning JobQueued now
                | _ => pure tt
                end in
      let! _ := writes (exec_service jobID (fun s =>
                  s <| s_desired_state := ServiceDesiredRunning |> <| s_restart_streak := 0 |>
                    <| s_next_restart_at := None |> <| s_last_failure := None |> <| s_policy_stop := None |>
                    <| s_healthy_since_ns := None |> <| s_published_attempt_id := None |>)) in
      let! created :=
        match sj_current job with
        | Some current =>
            if bool_decide (current = "") then pure now
            else let! a := need (fun db => db_attempts db !! current) ErrorInternal in
                 pure (Z.max now (a_created_ns a))
        | None => pure now
        end in
      let! _ := writes (fun db => db <| db_restart_requests :=
                  db_restart_requests db ++ [mkRestartRequestRow jobID (sr_IdempotencyKey request) requestHash created] |>) in
      let! _ := writes (exec_job jobID (fun j => j <| j_updated_ns := now |>)) in
      let! row := read_job jobID in
      pure (row, false)
  end.
End Decisions.

(** ** Properties *)
Lemma getServiceJob_rows db jobID job s :
  getServiceJob db jobID = Some job -> sj_service job = Some s ->
  exists j, db_jobs db !! jobID = Some j /\ db_service_jobs db !! jobID = Some s
    /\ sj_state job = j_state j /\ sj_jobID job = jobID /\ sj_removal job = false
    /\ sj_current job = j_current_attempt_id j /\ sj_spec job = j_spec j.
Proof.
  unfold getServiceJob. destruct (db_jobs db !! jobID) as [j|]; [|done]. simpl. case_match; intros [= <-]; [done|].
  simpl. intros Hs. by exists j.
Qed.

(** A transition the table and the state pair allow goes through. *)
Lemma ends_transition {R} jobID desired next now db j s Q K (X : result ErrorCode R -> Prop) :
  db_jobs db !! jobID = Some j -> db_service_jobs db !! jobID = Some s ->
  CanTransition ServiceJobTransitions (j_state j) next = true ->
  validServiceStatePair desired next (bool_decide (is_Some (s_policy_stop s))) = true ->
  (forall db' j', db_jobs db' !! jobID = Some j' -> j_state j' = next -> Q tt db') ->
  ends (transitionServiceJob jobID desired next now) Q K X db.
Proof.
  intros Hj Hs Ht Hp HQ. unfold transitionServiceJob. apply ends_bind, ends_need; rewrite Hj; simpl; rewrite Hs; [|done].
  intros [state s'] [= <- <-]. rewrite Ht, Hp. cbn [negb]. wp. eapply HQ.
  - unfold exec_job_state, exec_service. simpl. rewrite Hj. case_match; simpl; by rewrite lookup_insert_eq.
  - unfold scrub_row. by case_match.
Qed.

(** Where an accepted operator request leaves the job at once. *)
Definition state_after (desired : ServiceDesiredState) (state : JobState) : JobState :=
  match desired, state with
  | ServiceDesiredRunning, (JobFailed | JobStopped) => JobQueued
  | ServiceDesiredStopped, JobQueued => JobStopped
  | ServiceDesiredStopped, (JobClaimed | JobRunning) => JobStopping
  | _, _ => state
  end.

Lemma exec_job_lookup jobID f db j :
  db_jobs db !! jobID = Some j -> db_jobs (exec_job jobID f db) !! jobID = Some (f j).
Proof. intros H. unfold exec_job. simpl. by rewrite lookup_alter_eq, H. Qed.

Lemma read_job_ok {R} jobID Q K (X : result ErrorCode R -> Prop) db j :
  db_jobs db !! jobID = Some j -> Q j db -> ends (read_job jobID) Q K X db.
Proof. intros H HQ. unfold read_job, ends, need. by rewrite H. Qed.

(** Start, stop and restart are decided only for a job that has its service row. *)
Lemma decision_service lower_table db job verb actor :
  verb ∈ ["start"; "stop"; "restart"] -> serviceActionDecision lower_table db job verb actor = Ok tt ->
  exists s, sj_service job = Some s /\
    (if bool_decide (verb = "start") then start_decision db job s
     else if bool_decide (verb = "stop") then stop_decision job s else restart_decision db job s) = Ok tt.
Proof.
  intros Hv H. unfold serviceActionDecision in H. apply result_bind_ok in H as ([] & Ha & H).
  assert (Hs : is_Some (sj_service job)).
  { unfold serviceActionAuthority in Ha. apply result_bind_ok in Ha as ([] & _ & Ha).
    destruct (sj_service job); [done|]. rewrite (bool_decide_eq_true_2 (verb ∈ _) Hv) in Ha.
    rewrite (bool_decide_eq_true_2 (None = None)) in Ha by done. by destruct (sj_removal job). }
  destruct Hs as [s Hs]. exists s. split; [done|]. rewrite Hs in H.
  repeat (apply elem_of_cons in Hv as [-> | Hv]); simpl in *; try (by destruct (sj_removal job)).
  by apply elem_of_nil in Hv.
Qed.

(** The action list a service advertises is what the write enforces: when the
    decision accepts a start or a stop, the mutation in the same transaction
    cannot be refused, and it moves the job exactly along the service table. *)
Theorem decided_desired_state_applies lower_table at_ jobID desired actor db job :
  let begun := (withLeaseSleepGap true (at_sample at_) db).2 in
  TrimSpace jobID <> "" -> desired <> ServiceDesiredRemoved -> getServiceJob begun jobID = Some job ->
  serviceActionDecision lower_table begun job (if bool_decide (desired = ServiceDesiredStopped) then "stop" else "start")
    actor = Ok tt ->
  exists row, (run (setServiceDesiredState lower_table at_ jobID desired actor) db).2 = Ok row
    /\ j_state row = state_after desired (sj_state job).
Proof.
  intros begun Hid Hd Hjob Hdec.
  assert (Hs := Hdec). apply decision_service in Hs as (s & Hs & Hcase); [|case_match; set_solver].
  destruct (getServiceJob_rows _ _ _ _ Hjob Hs) as (j & Hj & Hrow & Hstate & _).
  apply (ends_run _ (fun _ r => exists row, r = Ok row /\ j_state row = state_after desired (sj_state job))).
  unfold setServiceDesiredState. rewrite !bool_decide_eq_false_2 by done.
  apply ends_bind, ends_begin. fold begun.
  apply ends_bind, ends_need; rewrite Hjob; [intros ? [= <-]|done].
  apply ends_bind, ends_need; rewrite Hs; [intros ? [= <-]|done].
  apply ends_bind. unfold ends at 1, reads at 1. apply ends_bind, ends_lift; rewrite Hdec; [intros [] _|done].
  apply (ends_seq (fun _ db' => exists j', db_jobs db' !! jobID = Some j' /\ j_state j' = state_after desired (sj_state job))).
  2:{ intros _ db' (j' & Hj' & Hs'). eapply read_job_ok; [exact Hj' | eauto]. }
  clear Hdec. destruct desired; [| |done]; simpl in Hcase; unfold start_decision, stop_decision in Hcase;
    destruct (sj_state job) eqn:Est; try done; simpl.
  all: wp; try (eexists; split; [first [eassumption | by apply exec_job_lookup]|]; simpl; congruence).
  all: eapply ends_transition; [exact Hj | exact Hrow | by rewrite <- Hstate | by repeat case_match | ];
    intros db' j' Hj' Ej'; wp; eauto.
Qed.

Definition service_db : DB :=
  empty_db <| db_jobs := {[ "svc" := sample_job (example_process_stored <| js_Class := JobClassService |>) JobStopped None 0 ]} |>
           <| db_service_jobs := {[ "svc" := sample_service None <| s_desired_state := ServiceDesiredStopped |> ]} |>.

Lemma decided_desired_state_applies_witness :
  exists row, (run (setServiceDesiredState (fun r => r) (sample_instant 500) "svc" ServiceDesiredRunning None) service_db).2
      = Ok row /\ j_state row = JobQueued.
Proof.
  apply (decided_desired_state_applies (fun r => r) (sample_instant 500) "svc" ServiceDesiredRunning None service_db
    (mkservice_job "svc" (example_process_stored <| js_Class := JobClassService |>) JobStopped None
       (Some (sample_service None <| s_desired_state := ServiceDesiredStopped |>)) false));
    [discriminate | discriminate | vm_compute; reflexivity | vm_compute; reflexivity].
Defined.
