(* ===== verification/Submit.v ===== *)
(** * Submission

    [CreateJobAs] of [l1/store.go] with [l1/instance_keys.go]: the one
    transaction that turns a job description into a queued job, or replays the
    job an earlier identical submission made.  The digests of the encoded
    description and of the dispatch key, and the verdict of Seat admission, are
    arguments. *)
From S2P Require Import Prelude States Contract GoStrings JobSpec L1Types RestartPolicy Database LeaseClock.
From S2P Require Import Authority Credentials Lifecycle Placement.
#[local] Open Scope string_scope.
#[local] Open Scope list_scope.
#[local] Open Scope Z_scope.

Definition MaxSpawnDepth : Z := 8.

Record JobOrigin := mkJobOrigin {
  jo_OriginatingSubmitter : string;
  jo_SubmittedByRunLedger : bool;
  jo_Parent : option AttemptCredentialScope
}.

Definition isComputerSpec (spec : JobSpec) : bool :=
  bool_decide (js_Kind spec = JobKindOCI)
  && match exec_OCI (js_Execution spec) with
     | Some oci => bool_decide (is_Some (oci_Computer oci))
     | None => false
     end.

(** ** Instance keys *)
Definition instanceNamespace (origin : JobOrigin) : string :=
  match jo_Parent origin with
  | Some p => "job:" +:+ acs_JobID p
  | None => "fabric:" +:+ TrimSpace (jo_OriginatingSubmitter origin)
  end.

Definition instanceClass (spec : JobSpec) : string :=
  match js_InstanceKey spec with None => "" | Some _ => js_Class spec end.

(** [liveInstanceKeyPredicate]. *)
Definition liveInstanceKey (j : JobRow) : bool :=
  bool_decide (is_Some (j_instance_key j))
  && (bool_decide (j_instance_class j = JobClassService)
      || (bool_decide (j_instance_class j = JobClassOneShot)
          && negb (bool_decide (j_state j = JobSucceeded)) && negb (bool_decide (j_state j = JobFailed)))).

Definition holds_instance_key (namespace key : string) (j : JobRow) : bool :=
  bool_decide (j_instance_namespace j = namespace) && bool_decide (j_instance_key j = Some key) && liveInstanceKey j.

Definition instanceKeyConflict (spec : JobSpec) (origin : JobOrigin) (db : DB) : result ErrorCode unit :=
  match js_InstanceKey spec with
  | None => Ok tt
  | Some key =>
      if existsb (fun r => holds_instance_key (instanceNamespace origin) key r.2) (map_to_list (db_jobs db))
      then Err ErrorInstanceKeyConflict else Ok tt
  end.

(** ** Replay and run identity *)

(** Whether a stored job's parent and submitter lie in the caller's scope. *)
Definition replayWithinScope (origin : JobOrigin) (parentJobID originatingSubmitter : string) : bool :=
  match jo_Parent origin with
  | None => true
  | Some p => negb (bool_decide (parentJobID = "")) && bool_decide (parentJobID = acs_JobID p)
              && bool_decide (originatingSubmitter = acs_OriginatingSubmitter p)
  end.

Definition getJobByDispatchKey (key : string) (db : DB) : option (string * JobRow) :=
  head (List.filter (fun r => bool_decide (j_dispatch_key r.2 = key)) (map_to_list (db_jobs db))).

Definition readServiceTombstoneByDispatchHash (hash : string) (db : DB) : option (string * TombstoneRow) :=
  head (List.filter (fun r => bool_decide (tb_dispatch_key_hash r.2 = hash)) (map_to_list (db_service_tombstones db))).

(** The runs a child of this parent may name under each label. *)
Definition entitled_runs (parent : JobSpec) (label_name : string) : list string :=
  let run := TrimSpace (label (js_Labels parent) LabelRunID) in
  if bool_decide (label_name = LabelRunID) then [run]
  else if bool_decide (label_name = LabelHandoffOwnerRunID) then [run; HandoffOwnerKey parent]
  else [].

Definition authorizeRunIdentity (spec : JobSpec) (submittedByRunLedger : bool)
    (parent : option AttemptCredentialScope) (db : DB) : result ErrorCode unit :=
  let named := RunIdentityLabels spec in
  if bool_decide (named = ∅) || submittedByRunLedger then Ok tt
  else
  match parent with
  | None => Err ErrorRunIdentityNotEntitled
  | Some p =>
      match db_jobs db !! acs_JobID p with
      | None => Err ErrorInternal
      | Some parentJob =>
          if forallb (fun label_name =>
               match named !! label_name with
               | None => true
               | Some run => bool_decide (run ∈ entitled_runs (j_spec parentJob) label_name)
               end) [LabelRunID; LabelHandoffOwnerRunID]
          then Ok tt else Err ErrorRunIdentityNotEntitled
      end
  end.

(** ** The transaction *)
Inductive submission :=
| Created (jobID : string) (job : JobRow)
| ReplayedJob (jobID : string) (job : JobRow)
| ReplayedTombstone (jobID : string) (tombstone : TombstoneRow).

(** What the caller's origin puts on the row: parent job and attempt, root
    submitter, run-ledger classification and depth. *)
Record ancestry := mkancestry {
  an_parent_job_id : option string;
  an_parent_attempt_id : option string;
  an_submitter : string;
  an_by_run_ledger : bool;
  an_depth : Z
}.

Definition ancestry_of (origin : JobOrigin) : result ErrorCode ancestry :=
  match jo_Parent origin with
  | None => Ok (mkancestry None None (TrimSpace (jo_OriginatingSubmitter origin)) (jo_SubmittedByRunLedger origin) 0)
  | Some p =>
      if MaxSpawnDepth <? acs_SpawnDepth p + 1 then Err ErrorSpawnDepthExceeded
      else Ok (mkancestry (Some (acs_JobID p)) (Some (acs_AttemptID p)) (acs_OriginatingSubmitter p) false
                 (acs_SpawnDepth p + 1))
  end.

Section Submission.
Context (lower_table : Z -> Z) (spec_digest : JobSpec -> string) (hashDispatchKey : string -> string)
        (admitSeatRun : string -> JobRow -> bool -> DB -> result ErrorCode unit).

Abbreviation submit_tx A := (tx DB ErrorCode submission A).

Definition queued_job (spec : JobSpec) (origin : JobOrigin) (a : ancestry) (now : Z) : JobRow :=
  mkJobRow (js_DispatchKey spec) (spec_digest spec) spec JobQueued "" None None None 0 0 None None None None None
    (an_parent_job_id a) (an_parent_attempt_id a) (an_submitter a) (an_by_run_ledger a) (an_depth a)
    (instanceNamespace origin) (js_InstanceKey spec) (instanceClass spec) 0 None None None None None now now.

(** An earlier submission under the same dispatch key, live or removed: answer
    it to an identical request in scope, refuse any other. *)
Definition replay_submission (spec : JobSpec) (origin : JobOrigin) : submit_tx unit :=
  let requestHash := spec_digest spec in
  let! stored := reads (getJobByDispatchKey (js_DispatchKey spec)) in
  match stored with
  | Some (id, j) =>
      if negb (replayWithinScope origin (default "" (j_parent_job_id j)) (j_originating_submitter j))
         || negb (bool_decide (j_request_hash j = requestHash))
      then fail ErrorDispatchKeyConflict else answer (ReplayedJob id j)
  | None =>
      let! tombstone := reads (readServiceTombstoneByDispatchHash (hashDispatchKey (js_DispatchKey spec))) in
      match tombstone with
      | Some (id, t) =>
          (* a tombstone's job carries neither parent nor submitter *)
          if negb (replayWithinScope origin "" "") || negb (bool_decide (tb_request_hash t = requestHash))
          then fail ErrorDispatchKeyConflict else answer (ReplayedTombstone id t)
      | None => pure tt
      end
  end.

(** The insert refuses a job ID that is taken; the dispatch key and the instance
    key were found free in this transaction. *)
Definition insert_job (jobID : string) (j : JobRow) : submit_tx unit :=
  fun db => match db_jobs db !! jobID with
            | Some _ => Abort (Err ErrorInternal)
            | None => Next tt (db <| db_jobs := <[jobID := j]> (db_jobs db) |>)
            end.

Definition initialize_service (jobID : string) (spec : JobSpec) (db : DB) : DB :=
  if bool_decide (js_Class spec = JobClassService)
  then db <| db_service_jobs :=
         <[jobID := mkServiceRow ServiceDesiredRunning None 0 0 0 None (js_PublishedPort spec) None None None None None]>
           (db_service_jobs db) |>
  else db.

Definition CreateJobAs (at_ : instant) (spec : JobSpec) (origin : JobOrigin) (jobID : string) : submit_tx submission :=
  let spec := spec <| js_RoutingTags := NormalizeTags lower_table (js_RoutingTags spec) |> in
  let! spec := lift (ValidateJobSpec lower_table spec) in
  let! a := lift (ancestry_of origin) in
  let! _ := check (negb (isComputerSpec spec)) ErrorComputerResourceRequired in
  let! clock := beginWriteTransaction at_ in
  let now := at_now at_ in
  let! _ := match jo_Parent origin with
            | None => pure tt
            | Some p => let! verdict := reads (revalidateAttemptCredential clock now p) in lift verdict
            end in
  let! _ := replay_submission spec origin in
  let! _ := match jo_Parent origin with
            | None => pure tt
            | Some p => let! (canceled, _) := read_cancellation (acs_JobID p) in
                        check (negb canceled) ErrorUnauthorized
            end in
  let! _ := match js_InstanceKey spec with
            | None => pure tt
            | Some _ =>
                let! _ := check (bool_decide (is_Some (jo_Parent origin)) || negb (bool_decide (an_submitter a = "")))
                            ErrorInvalidRequest in
                let! verdict := reads (instanceKeyConflict spec origin) in lift verdict
            end in
  let! verdict := reads (authorizeRunIdentity spec (an_by_run_ledger a) (jo_Parent origin)) in
  let! _ := lift verdict in
  let! _ := check (match ValidateHandoffOwner spec with Ok _ => true | Err _ => false end) ErrorRunIdentityRequired in
  let j := queued_job spec origin a now in
  let! _ := insert_job jobID j in
  let! verdict := reads (admitSeatRun jobID j (an_by_run_ledger a)) in
  let! _ := lift verdict in
  let! _ := writes (fun db => db <| db_seat_calls := db_seat_calls db ++ [AdmitSeatRun jobID (an_by_run_ledger a) now] |>
                                 <| db_job_required_capabilities :=
                                      <[jobID := list_to_set (RequiredCapabilities spec)]> (db_job_required_capabilities db) |>) in
  let! _ := writes (initialize_service jobID spec) in
  let! _ := writes (fun db => db <| db_job_tags := <[jobID := list_to_set (js_RoutingTags spec)]> (db_job_tags db) |>) in
  pure (Created jobID j).
(** ** What an accepted submission has established *)
Record accepted (at_ : instant) (spec : JobSpec) (origin : JobOrigin) (jobID : string) (db : DB)
    (spec' : JobSpec) (a : ancestry) : Prop := {
  accepted_spec :
    ValidateJobSpec lower_table (spec <| js_RoutingTags := NormalizeTags lower_table (js_RoutingTags spec) |>) = Ok spec';
  accepted_ancestry : ancestry_of origin = Ok a;
  accepted_not_computer : isComputerSpec spec' = false;
  accepted_parent : forall p, jo_Parent origin = Some p ->
    let begun := withLeaseSleepGap true (at_sample at_) db in
    revalidateAttemptCredential begun.1 (at_now at_) p begun.2 = Ok tt
    /\ exists j, db_jobs db !! acs_JobID p = Some j /\ (cancellationDeadline j).1 = false;
  accepted_dispatch : getJobByDispatchKey (js_DispatchKey spec') db = None;
  accepted_tombstone : readServiceTombstoneByDispatchHash (hashDispatchKey (js_DispatchKey spec')) db = None;
  accepted_instance : instanceKeyConflict spec' origin db = Ok tt;
  accepted_run : authorizeRunIdentity spec' (an_by_run_ledger a) (jo_Parent origin) db = Ok tt;
  accepted_id : db_jobs db !! jobID = None
}.

Lemma ends_replay spec origin Q K X db :
  (getJobByDispatchKey (js_DispatchKey spec) db = None ->
   readServiceTombstoneByDispatchHash (hashDispatchKey (js_DispatchKey spec)) db = None -> Q tt db) ->
  (forall r, match r with Ok (Created _ _) => False | _ => True end -> X r) ->
  ends (replay_submission spec origin) Q K X db.
Proof. intros HQ HX. unfold replay_submission. wp; try (by apply HX). by apply HQ. Qed.

Lemma ends_insert jobID j Q K X db :
  (db_jobs db !! jobID = None -> Q tt (db <| db_jobs := <[jobID := j]> (db_jobs db) |>)) ->
  X (Err ErrorInternal) -> ends (insert_job jobID j) Q K X db.
Proof. intros HQ HX. unfold ends, insert_job. destruct (db_jobs db !! jobID); auto. Qed.

Lemma initialize_service_jobs jobID spec db : db_jobs (initialize_service jobID spec db) = db_jobs db.
Proof. unfold initialize_service. by case_match. Qed.

Lemma CreateJobAs_created at_ spec origin jobID db :
  let '(db', r) := run (CreateJobAs at_ spec origin jobID) db in
  match r with
  | Ok (Created id j) =>
      id = jobID /\ db_jobs db' = <[jobID := j]> (db_jobs db)
      /\ exists spec' a, accepted at_ spec origin jobID db spec' a /\ j = queued_job spec' origin a (at_now at_)
  | _ => db' = db
  end.
Proof.
  rewrite (surjective_pairing (run _ _)).
  apply (ends_run _ (fun db' r => match r with
    | Ok (Created id j) => id = jobID /\ db_jobs db' = <[jobID := j]> (db_jobs db)
        /\ exists spec' a, accepted at_ spec origin jobID db spec' a /\ j = queued_job spec' origin a (at_now at_)
    | _ => db' = db end)).
  unfold CreateJobAs.
  apply ends_bind, ends_lift; [intros spec' Hspec | done]. apply ends_bind, ends_lift; [intros a Ha | done].
  apply ends_bind, ends_check; [intros Hcomputer | done]. apply ends_bind, ends_begin.
  set (begun := withLeaseSleepGap true (at_sample at_) db).
  destruct (sleep_gap_frame true (at_sample at_) db) as (attempts & nodes & anchor & Hframe).
  fold begun in Hframe.
  apply (ends_seq (fun _ s => s = begun.2 /\ forall p, jo_Parent origin = Some p ->
    revalidateAttemptCredential begun.1 (at_now at_) p begun.2 = Ok tt)).
  { wp; try done; split; try done; intros p [= <-].
    by match goal with u : () |- _ => destruct u end. }
  intros _ ? [-> Hcred]. apply ends_bind, ends_replay; [intros Hd Ht | by intros [[]|] ?].
  apply (ends_seq (fun _ s => s = begun.2 /\ forall p, jo_Parent origin = Some p ->
    exists j, db_jobs db !! acs_JobID p = Some j /\ (cancellationDeadline j).1 = false)).
  { unfold read_cancellation; wp; try done; split; try done; intros p [= <-]. rewrite Hframe in *.
    match goal with E : _ <$> _ = Some _ |- _ => apply fmap_Some in E as (j & Hj & Ej) end.
    exists j; split; [done|]; rewrite <- Ej; by apply negb_true_iff. }
  intros _ ? [-> Hcancel].
  apply (ends_seq (fun _ s => s = begun.2 /\ instanceKeyConflict spec' origin begun.2 = Ok tt)).
  { wp; try done; split; try done.
    - by match goal with u : () |- _ => destruct u end.
    - unfold instanceKeyConflict. by match goal with E : js_InstanceKey _ = None |- _ => rewrite E end. }
  intros _ ? [-> Hkey]. apply ends_bind. unfold ends at 1, reads at 1.
  apply ends_bind, ends_lift; [intros [] Hrun | done]. apply ends_bind, ends_check; [intros Howner | done].
  apply ends_bind, ends_insert; [intros Hid | done]. wp; try done. rewrite Hframe in *.
  split; [done|]; split; [simpl; by rewrite initialize_service_jobs|].
  exists spec', a; split; [|reflexivity]; split; try done; [by apply negb_true_iff|].
  intros p Hp. cbv zeta. fold begun. rewrite Hframe. split; [by apply Hcred | by apply Hcancel].
Qed.
(** ** Run identity *)
Lemma RunIdentityLabels_lookup spec label_name :
  label_name = LabelRunID \/ label_name = LabelHandoffOwnerRunID ->
  let value := TrimSpace (label (js_Labels spec) label_name) in
  value <> "" -> RunIdentityLabels spec !! label_name = Some value.
Proof.
  intros Hl value Hv. subst value. unfold RunIdentityLabels. simpl. destruct Hl as [-> | ->].
  - rewrite (bool_decide_eq_false_2 _ Hv). case_match; [by rewrite lookup_insert_eq|].
    rewrite lookup_insert_ne by done. by rewrite lookup_insert_eq.
  - rewrite (bool_decide_eq_false_2 _ Hv). by rewrite lookup_insert_eq.
Qed.

Lemma authorizeRunIdentity_child spec p db parent label_name :
  authorizeRunIdentity spec false (Some p) db = Ok tt -> db_jobs db !! acs_JobID p = Some parent ->
  label_name = LabelRunID \/ label_name = LabelHandoffOwnerRunID ->
  let value := TrimSpace (label (js_Labels spec) label_name) in
  value = "" \/ value ∈ entitled_runs (j_spec parent) label_name.
Proof.
  intros H Hp Hl value. destruct (decide (value = "")) as [|Hv]; [by left|]. right.
  assert (Hn := RunIdentityLabels_lookup spec label_name Hl Hv). fold value in Hn.
  unfold authorizeRunIdentity in H. rewrite orb_false_r, bool_decide_eq_false_2, Hp in H
    by (intros E; by rewrite E in Hn).
  destruct (forallb _ _) eqn:E; [|done]. rewrite forallb_forall in E.
  specialize (E label_name). rewrite Hn in E. apply bool_decide_eq_true in E; [done|]. destruct Hl as [-> | ->]; simpl; auto.
Qed.

(** C36: an attempt credential cannot widen authority by submitting work.  A child
    job is stored only while the credential still has write authority over a
    parent that is not canceled; it records that parent and attempt, inherits
    the root submitter, is never classified as the run ledger's, sits one level
    deeper within the depth cap, and the runs its labels name are runs its
    parent is entitled to. *)
Theorem child_submission_confined at_ spec origin p jobID db db' id j :
  run (CreateJobAs at_ spec origin jobID) db = (db', Ok (Created id j)) -> jo_Parent origin = Some p ->
  let begun := withLeaseSleepGap true (at_sample at_) db in
  revalidateAttemptCredential begun.1 (at_now at_) p begun.2 = Ok tt
  /\ j_parent_job_id j = Some (acs_JobID p) /\ j_parent_attempt_id j = Some (acs_AttemptID p)
  /\ j_originating_submitter j = acs_OriginatingSubmitter p /\ j_submitted_by_run_ledger j = false
  /\ j_spawn_depth j = acs_SpawnDepth p + 1 /\ j_spawn_depth j <= MaxSpawnDepth
  /\ exists parent, db_jobs db !! acs_JobID p = Some parent /\ j_outcome parent <> OutcomeCanceled
       /\ forall label_name, label_name = LabelRunID \/ label_name = LabelHandoffOwnerRunID ->
            let value := TrimSpace (label (js_Labels (j_spec j)) label_name) in
            value = "" \/ value ∈ entitled_runs (j_spec parent) label_name.
Proof.
  intros Hrun Hp begun. assert (H := CreateJobAs_created at_ spec origin jobID db). rewrite Hrun in H.
  destruct H as (_ & _ & spec' & a & Hacc & ->).
  destruct (accepted_parent _ _ _ _ _ _ _ Hacc p Hp) as (Hv & parent & Hj & Hc).
  assert (Ha := accepted_ancestry _ _ _ _ _ _ _ Hacc). assert (Hr := accepted_run _ _ _ _ _ _ _ Hacc).
  unfold ancestry_of in Ha. rewrite Hp in Ha, Hr. destruct (Z.ltb_spec MaxSpawnDepth (acs_SpawnDepth p + 1)); [done|].
  injection Ha as <-. split_and!; try done. exists parent. split_and!; [done | |].
  - unfold cancellationDeadline in Hc. simpl in Hc. by apply bool_decide_eq_false in Hc.
  - intros label_name Hl. by eapply authorizeRunIdentity_child.
Qed.

(** ** One job per dispatch key, one live job per instance key *)
Record unique_submissions (db : DB) : Prop := {
  unique_dispatch : forall id1 j1 id2 j2, db_jobs db !! id1 = Some j1 -> db_jobs db !! id2 = Some j2 ->
    j_dispatch_key j1 = j_dispatch_key j2 -> id1 = id2;
  unique_instance : forall id1 j1 id2 j2, db_jobs db !! id1 = Some j1 -> db_jobs db !! id2 = Some j2 ->
    liveInstanceKey j1 = true -> liveInstanceKey j2 = true ->
    j_instance_namespace j1 = j_instance_namespace j2 -> j_instance_key j1 = j_instance_key j2 -> id1 = id2
}.

Lemma getJobByDispatchKey_none key db id j :
  getJobByDispatchKey key db = None -> db_jobs db !! id = Some j -> j_dispatch_key j <> key.
Proof.
  intros H Hj. apply elem_of_map_to_list in Hj. by apply (head_filter_none _ _ H (id, j)), bool_decide_eq_false in Hj.
Qed.

Lemma instanceKeyConflict_none spec origin db key id j :
  instanceKeyConflict spec origin db = Ok tt -> js_InstanceKey spec = Some key -> db_jobs db !! id = Some j ->
  holds_instance_key (instanceNamespace origin) key j = false.
Proof.
  unfold instanceKeyConflict. intros H E Hj. rewrite E in H. destruct (existsb _ _) eqn:Ex; [done|].
  destruct (holds_instance_key _ _ _) eqn:Eh; [|done]. rewrite <- Ex. symmetry. apply existsb_exists.
  exists (id, j). split; [|done]. by apply list_elem_of_In, elem_of_map_to_list.
Qed.

(** A key is free exactly when no live job of the namespace holds it. *)
Lemma accepted_instance_free at_ spec origin jobID db spec' a id j :
  accepted at_ spec origin jobID db spec' a -> db_jobs db !! id = Some j -> liveInstanceKey j = true ->
  j_instance_namespace j = instanceNamespace origin -> j_instance_key j = js_InstanceKey spec' -> False.
Proof.
  intros Hacc Hj Hlive Hn Hk. assert (Hi := accepted_instance _ _ _ _ _ _ _ Hacc).
  destruct (js_InstanceKey spec') as [key|] eqn:E.
  - assert (Hf := instanceKeyConflict_none _ _ _ _ _ _ Hi E Hj). unfold holds_instance_key in Hf.
    by rewrite !bool_decide_eq_true_2, Hlive in Hf by done.
  - unfold liveInstanceKey in Hlive. by rewrite Hk in Hlive.
Qed.

(** At most one job per dispatch key. *)
Definition unique_keys (db : DB) : Prop :=
  forall id1 j1 id2 j2, db_jobs db !! id1 = Some j1 -> db_jobs db !! id2 = Some j2 -> j_dispatch_key j1 = j_dispatch_key j2 -> id1 = id2.

Lemma unique_keys_submit at_ spec origin jobID db :
  unique_keys db -> unique_keys (run (CreateJobAs at_ spec origin jobID) db).1.
Proof.
  intros Hu. assert (H := CreateJobAs_created at_ spec origin jobID db).
  destruct (run _ _) as [db' [[id j|? ?|? ?]|e]]; simpl; subst; try done.
  destruct H as (-> & Hjobs & spec' & a & Hacc & ->).
  assert (Hd := accepted_dispatch _ _ _ _ _ _ _ Hacc). unfold unique_keys.
  rewrite Hjobs; intros id1 j1 id2 j2 [[<- <-]|[N1 H1]]%lookup_insert_Some [[<- <-]|[N2 H2]]%lookup_insert_Some; try done; simpl.
  - intros E. by destruct (getJobByDispatchKey_none _ _ _ _ Hd H2).
  - intros E. by destruct (getJobByDispatchKey_none _ _ _ _ Hd H1).
  - by apply Hu.
Qed.

(** C37: whatever a submission answers, no two jobs of the store share a dispatch
    key and no two live jobs of one namespace share an instance key; so the
    unique indexes behind both never reject the insert. *)
Theorem submissions_stay_unique at_ spec origin jobID db :
  unique_submissions db -> unique_submissions (run (CreateJobAs at_ spec origin jobID) db).1.
Proof.
  intros Hu. split; [apply unique_keys_submit; intros ? ? ? ?; apply (unique_dispatch _ Hu)|].
  assert (H := CreateJobAs_created at_ spec origin jobID db).
  destruct (run _ _) as [db' [[id j|? ?|? ?]|e]]; simpl; subst; try apply (unique_instance _ Hu).
  destruct H as (-> & Hjobs & spec' & a & Hacc & ->).
  rewrite Hjobs; intros id1 j1 id2 j2 [[<- <-]|[N1 H1]]%lookup_insert_Some [[<- <-]|[N2 H2]]%lookup_insert_Some; try done; simpl.
  - intros _ L E1 E2. by destruct (accepted_instance_free _ _ _ _ _ _ _ _ _ Hacc H2 L).
  - intros L _ E1 E2. by destruct (accepted_instance_free _ _ _ _ _ _ _ _ _ Hacc H1 L).
  - by apply (unique_instance _ Hu).
Qed.

Lemma getJobByDispatchKey_some db id j :
  unique_keys db -> db_jobs db !! id = Some j -> getJobByDispatchKey (j_dispatch_key j) db = Some (id, j).
Proof.
  intros Hu Hj. unfold getJobByDispatchKey.
  destruct (head _) as [[id' j']|] eqn:E.
  - apply head_filter_some in E as [Hin He]. apply elem_of_map_to_list in Hin. apply bool_decide_eq_true in He.
    assert (id' = id) as -> by by apply (Hu _ j' _ j). congruence.
  - by destruct (getJobByDispatchKey_none _ _ _ _ E Hj).
Qed.

(** The replay of a submission that was accepted before. *)
Lemma resubmission_answers at1 at2 spec origin id1 id2 db db1 id j db2 j2 :
  run (CreateJobAs at1 spec origin id1) db = (db1, Ok (Created id j)) ->
  unique_keys db2 -> db_jobs db2 !! id = Some j2 ->
  j_dispatch_key j2 = j_dispatch_key j -> j_request_hash j2 = j_request_hash j ->
  j_parent_job_id j2 = j_parent_job_id j -> j_originating_submitter j2 = j_originating_submitter j ->
  (forall p, jo_Parent origin = Some p -> acs_JobID p <> "" /\
     let begun := withLeaseSleepGap true (at_sample at2) db2 in
     revalidateAttemptCredential begun.1 (at_now at2) p begun.2 = Ok tt) ->
  run (CreateJobAs at2 spec origin id2) db2 = (db2, Ok (ReplayedJob id j2)).
Proof.
  intros Hrun Hu Hj2 Ed Eh Ep Es Hcred. assert (H := CreateJobAs_created at1 spec origin id1 db). rewrite Hrun in H.
  destruct H as (_ & _ & spec' & a & Hacc & ->). simpl in Ed, Eh, Ep, Es.
  assert (Ha := accepted_ancestry _ _ _ _ _ _ _ Hacc).
  assert (Hget : forall db', db_jobs db' = db_jobs db2 -> getJobByDispatchKey (js_DispatchKey spec') db' = Some (id, j2)).
  { intros db' E. rewrite <- Ed. unfold getJobByDispatchKey. rewrite E. by apply getJobByDispatchKey_some. }
  assert (Hscope : replayWithinScope origin (default "" (j_parent_job_id j2)) (j_originating_submitter j2) = true).
  { unfold replayWithinScope, ancestry_of in *. destruct (jo_Parent origin) as [p|]; [|done].
    destruct (Hcred p eq_refl) as [Hne _]. case_match; [done|]. injection Ha as <-. rewrite Ep, Es. simpl.
    by rewrite bool_decide_eq_false_2, !bool_decide_eq_true_2. }
  unfold run, CreateJobAs, bind at 1. rewrite (accepted_spec _ _ _ _ _ _ _ Hacc). simpl.
  unfold bind at 1. rewrite Ha. simpl. unfold bind at 1. rewrite (accepted_not_computer _ _ _ _ _ _ _ Hacc). simpl.
  unfold bind at 1, beginWriteTransaction. destruct (sleep_gap_frame true (at_sample at2) db2) as (? & ? & ? & Hframe).
  destruct (withLeaseSleepGap true (at_sample at2) db2) as [clock begun] eqn:Hbegun. simpl in Hframe.
  assert (Hreplay : replay_submission spec' origin begun = Abort (Ok (ReplayedJob id j2))).
  { unfold replay_submission, bind, reads. rewrite Hget by by rewrite Hframe. rewrite Hscope, Eh.
    by rewrite bool_decide_eq_true_2. }
  destruct (jo_Parent origin) as [p|] eqn:Hp.
  - destruct (Hcred p eq_refl) as [_ Hv]. simpl in Hv. unfold bind at 1 2, reads at 1. rewrite Hv. simpl.
    unfold bind at 1. by rewrite Hreplay.
  - unfold bind at 1. simpl. unfold bind at 1. by rewrite Hreplay.
Qed.

(** a retried submission is idempotent.  Once a job is stored, the same
    caller submitting the same description again, at any later time and under
    any fresh ID, gets that job back and the store stays as it is; a child's
    retry needs only that its credential is still good. *)
Theorem resubmission_replays at1 at2 spec origin id1 id2 db db1 id j db2 j2 :
  run (CreateJobAs at1 spec origin id1) db = (db1, Ok (Created id j)) ->
  unique_submissions db2 -> db_jobs db2 !! id = Some j2 ->
  j_dispatch_key j2 = j_dispatch_key j -> j_request_hash j2 = j_request_hash j ->
  j_parent_job_id j2 = j_parent_job_id j -> j_originating_submitter j2 = j_originating_submitter j ->
  (forall p, jo_Parent origin = Some p -> acs_JobID p <> "" /\
     let begun := withLeaseSleepGap true (at_sample at2) db2 in
     revalidateAttemptCredential begun.1 (at_now at2) p begun.2 = Ok tt) ->
  run (CreateJobAs at2 spec origin id2) db2 = (db2, Ok (ReplayedJob id j2)).
Proof.
  intros Hrun Hu. eapply resubmission_answers; [exact Hrun|]. intros ? ? ? ?. apply (unique_dispatch _ Hu).
Qed.
End Submission.

(** ** Witnesses *)

(** [unique_submissions] of a concrete store, by evaluation. *)
Definition unique_submissions_b (db : DB) : bool :=
  forallb (fun r1 : string * JobRow => forallb (fun r2 : string * JobRow =>
    bool_decide (r1.1 = r2.1)
    || (negb (bool_decide (j_dispatch_key r1.2 = j_dispatch_key r2.2))
        && negb (liveInstanceKey r1.2 && liveInstanceKey r2.2))) (map_to_list (db_jobs db)))
    (map_to_list (db_jobs db)).

Lemma unique_submissions_eval db : unique_submissions_b db = true -> unique_submissions db.
Proof.
  unfold unique_submissions_b. intros H. rewrite forallb_forall in H.
  assert (Hall : forall id1 j1 id2 j2, db_jobs db !! id1 = Some j1 -> db_jobs db !! id2 = Some j2 ->
    id1 = id2 \/ (j_dispatch_key j1 <> j_dispatch_key j2 /\ liveInstanceKey j1 && liveInstanceKey j2 = false)).
  { intros id1 j1 id2 j2 H1%elem_of_map_to_list%list_elem_of_In H2%elem_of_map_to_list%list_elem_of_In.
    specialize (H _ H1). rewrite forallb_forall in H. specialize (H _ H2). simpl in H.
    apply orb_true_iff in H as [?%bool_decide_eq_true|[?%negb_true_iff%bool_decide_eq_false ?%negb_true_iff]%andb_true_iff];
      auto. }
  split; intros id1 j1 id2 j2 H1 H2.
  - intros E. by destruct (Hall _ _ _ _ H1 H2) as [|[]].
  - intros L1 L2 _ _. destruct (Hall _ _ _ _ H1 H2) as [|[_ L]]; [done|]. by rewrite L1, L2 in L.
Qed.

Definition sample_scope : AttemptCredentialScope := mkAttemptCredentialScope "a1" "j1" "n1" "client" 0 "id1".
Definition child_origin : JobOrigin := mkJobOrigin "" false (Some sample_scope).
Definition child_spec : JobSpec := example_process_spec <| js_DispatchKey := "child" |>.
Definition submit_child (t : Z) (id : string) : DB * result ErrorCode submission :=
  run (CreateJobAs (fun r => r) js_DispatchKey (fun k => k) (fun _ _ _ _ => Ok tt) (sample_instant t) child_spec
         child_origin id) sample_db.
Definition child_row : JobRow := match (submit_child 500 "j3").2 with Ok (Created _ j) => j | _ => sample_job child_spec JobQueued None 0 end.

Lemma submit_child_created : submit_child 500 "j3" = ((submit_child 500 "j3").1, Ok (Created "j3" child_row)).
Proof. vm_compute. reflexivity. Qed.

Lemma child_submission_confined_witness :
  j_spawn_depth child_row = 1 /\ j_originating_submitter child_row = "client".
Proof.
  destruct (child_submission_confined (fun r => r) js_DispatchKey (fun k => k) (fun _ _ _ _ => Ok tt)
    (sample_instant 500) child_spec child_origin sample_scope "j3" sample_db (submit_child 500 "j3").1 "j3" child_row
    submit_child_created eq_refl) as (_ & _ & _ & Hs & _ & Hd & _).
  split; [exact Hd | exact Hs].
Defined.

Lemma submissions_stay_unique_witness : unique_submissions (submit_child 500 "j3").1.
Proof. apply submissions_stay_unique, unique_submissions_eval. vm_compute. reflexivity. Defined.

Lemma resubmission_replays_witness :
  run (CreateJobAs (fun r => r) js_DispatchKey (fun k => k) (fun _ _ _ _ => Ok tt) (sample_instant 600) child_spec
         child_origin "j4") (submit_child 500 "j3").1
  = ((submit_child 500 "j3").1, Ok (ReplayedJob "j3" child_row)).
Proof.
  apply (resubmission_replays _ _ _ _ (sample_instant 500) (sample_instant 600) child_spec child_origin "j3" "j4"
           sample_db (submit_child 500 "j3").1 "j3" child_row).
  - exact submit_child_created.
  - apply unique_submissions_eval. vm_compute. reflexivity.
  - vm_compute. reflexivity.
  - reflexivity.
  - reflexivity.
  - reflexivity.
  - reflexivity.
  - intros p [= <-]. split; [discriminate | vm_compute; reflexivity].
Defined.
