(* ===== verification/Reconcile.v ===== *)
(** * Reconciliation and node intent

    [l1/recovery.go] and [l1/node_operator.go]: the pass that applies node
    liveness and lease expiry, the drain a node asks for, and the operator's
    claim switch.  Of [Reconcile] the liveness and lease half is here, up to the
    settlement of expired attempts; its retention sweeps and removal
    finalization are not. *)
From S2P Require Import Prelude Order States Contract GoStrings JobSpec L1Types RestartPolicy Database.
From S2P Require Import LeaseClock Authority Credentials Summaries Lifecycle Completion Placement Claim.
From S2P Require Import ServiceOperator.
#[local] Open Scope string_scope.
#[local] Open Scope list_scope.
#[local] Open Scope Z_scope.

Definition owedRevocationSettledHostDead : string := "host_dead".

(** [UPDATE nodes ... WHERE p], with the condition each changed row records. *)
Definition mark_nodes (p : NodeRow -> bool) (state : NodeState) (now : Z) (db : DB) : DB :=
  db <| db_nodes := (fun n => if p n then n <| n_state := state |>
                                            <| n_last_condition := Some (node_liveness ("node_" +:+ NodeState_name state) now) |>
                              else n) <$> db_nodes db |>.

Section Reconcile.
Context (cfg : config).

Definition node_overdue (clock : attemptClock) (now after : Z) (n : NodeRow) : bool :=
  n_last_heartbeat_ns n + n_heartbeat_sleep_ns n <=? leaseExpiryWallTime clock now - after.

Definition mark_dead (clock : attemptClock) (now : Z) : DB -> DB :=
  mark_nodes (fun n => bool_decide (n_state n ∈ [NodeAlive; NodeStale; NodeDraining])
                       && node_overdue clock now (cfg_nodeDeadAfter cfg) n) NodeDead now.

Definition mark_stale (clock : attemptClock) (now : Z) : DB -> DB :=
  mark_nodes (fun n => bool_decide (n_state n = NodeAlive) && node_overdue clock now (cfg_nodeStaleAfter cfg) n)
    NodeStale now.

(** Revocations owed by a host that is dead are moot. *)
Definition settle_dead_hosts (now : Z) (db : DB) : DB :=
  db <| db_owed_revocations :=
       map (fun r => if bool_decide (or_settled_ns r = None)
                        && match db_nodes db !! or_host_node_id r with
                           | Some n => bool_decide (n_state n = NodeDead)
                           | None => false
                           end
                     then r <| or_settlement := owedRevocationSettledHostDead |> <| or_settled_ns := Some now |>
                     else r) (db_owed_revocations db) |>.

(** ** Expired attempts *)
Definition job_active (s : JobState) : bool :=
  bool_decide (s ∈ [JobClaimed; JobRunning; JobAwaitingInput; JobStopping]).

(** The join every branch of [expiredAttemptsSQL] makes: an active attempt that
    is the current attempt of an active job. *)
Definition current_active (db : DB) (id : string) (a : AttemptRow) : option JobRow :=
  j ← db_jobs db !! a_job_id a;
  if active_attempt (a_state a) && bool_decide (j_current_attempt_id j = Some id) && job_active (j_state j)
  then Some j else None.

(** The wall branch, over [attempts_lease_expiry]. *)
Definition expired_wall (clock : attemptClock) (now : Z) (a : AttemptRow) : bool :=
  bool_decide (is_Some (sqlBoot clock)) && (a_lease_expires_ns a <=? leaseWallTime clock now)
  && negb (lease_live_row clock now a).

(** The same-boot branch, over [attempts_boot_lease_expiry]. *)
Definition expired_boot (clock : attemptClock) (now : Z) (a : AttemptRow) : bool :=
  bool_decide (sqlBoot clock = Some (a_lease_boot_id a))
  && (0 <? a_lease_deadline_ns a) && (a_lease_deadline_ns a <=? ac_ns clock) && negb (lease_live_row clock now a).

(** The cancellation branch, over [jobs_cancel_settlement]. *)
Definition cancellation_overdue (now : Z) (j : JobRow) : bool :=
  bool_decide (j_outcome j = OutcomeCanceled)
  && match j_cancel_settle_by_ns j with Some t => t <=? now | None => false end.

Definition expired_attempt (clock : attemptClock) (now : Z) (db : DB) (id : string) (a : AttemptRow) : bool :=
  match current_active db id a with
  | None => false
  | Some j => expired_wall (withAttemptExpiryClock clock) now a || expired_boot (withAttemptExpiryClock clock) now a
              || cancellation_overdue now j
  end.

(** [expiredAttemptsSQL]; the union is unordered, here in map order. *)
Definition expiredAttempts (clock : attemptClock) (now : Z) (db : DB) : list string :=
  (List.filter (fun r => expired_attempt clock now db r.1 r.2) (map_to_list (db_attempts db))).*1.

Fixpoint expire_all {R} (clock : attemptClock) (now : Z) (ids : list string) : tx DB ErrorCode R unit :=
  match ids with
  | [] => pure tt
  | id :: ids =>
      let! attempt := readAttemptAuthority id in
      let! _ := writes (expireAttempt clock (cfg_restartJitter cfg) now attempt) in
      expire_all clock now ids
  end.

(** The liveness and lease half of [Reconcile]: the attempts it expired and the
    node keys the next pass starts from. *)
Definition reconcile_leases (at_ : instant) (seen : option (gmap string nodeLivenessKey)) :
    tx DB ErrorCode (list string * gmap string nodeLivenessKey) (list string * gmap string nodeLivenessKey) :=
  let! clock := beginWriteTransaction at_ in
  let now := at_now at_ in
  let! _ := writes (mark_dead clock now) in
  let! _ := writes (settle_dead_hosts now) in
  let! _ := writes (mark_stale clock now) in
  let! keys := fun db => let '(db', keys) := interruptServiceStability seen db in Next keys db' in
  let! _ := writes (reconcileServiceStability clock now (cfg_serviceStabilityWindow cfg)) in
  let! ids := reads (expiredAttempts clock now) in
  let! _ := expire_all clock now ids in
  pure (ids, keys).
End Reconcile.

(** ** Drain and operator intent *)
Definition nodeSessionError (db : DB) (nodeID identityNodeID bootSessionID : string) : ErrorCode :=
  match db_nodes db !! nodeID with
  | None => ErrorNodeNotRegistered
  | Some n =>
      if negb (bool_decide (n_identity_node_id n = identityNodeID)) then ErrorIdentityBound
      else if negb (bool_decide (n_boot_session_id n = bootSessionID)) then ErrorNodeSessionReplaced
      else match n_state n with
           | NodeDead => ErrorNodeDead
           | NodeDraining => ErrorNodeDraining
           | _ => ErrorConflict
           end
  end.

Definition DrainNode (at_ : instant) (identityNodeID nodeID bootSessionID : string) : tx DB ErrorCode NodeRow NodeRow :=
  if bool_decide (bootSessionID = "") then fail ErrorInvalidRequest
  else
  let! _ := beginWriteTransaction at_ in
  let! n := reads (fun db => db_nodes db !! nodeID) in
  let matches n := bool_decide (n_identity_node_id n = identityNodeID) && bool_decide (n_boot_session_id n = bootSessionID)
                   && bool_decide (n_state n ∈ [NodeAlive; NodeStale; NodeDraining]) in
  match n with
  | Some n =>
      if matches n then
        let! _ := writes (exec_node nodeID (fun n =>
          n <| n_state := NodeDraining |>
            <| n_last_condition := if bool_decide (n_state n = NodeDraining) then n_last_condition n
                                   else Some (node_liveness "node_draining" (at_now at_)) |>)) in
        need (fun db => db_nodes db !! nodeID) ErrorInternal
      else let! e := reads (fun db => nodeSessionError db nodeID identityNodeID bootSessionID) in fail e
  | None => let! e := reads (fun db => nodeSessionError db nodeID identityNodeID bootSessionID) in fail e
  end.

Record NodeIntentRequest := mkNodeIntentRequest {
  ni_ClaimsEnabled : bool;
  ni_IntentRevision : Z;
  ni_Reason : string
}.
Record nodeIntentActor := mknodeIntentActor {
  na_NodeID : string;
  na_Tags : list string;
  na_ClientPrincipalTag : string
}.

Definition nodeVerbDrain : string := "drain".

Definition validateNodeIntentRequest (verb actor : string) (request : NodeIntentRequest) : result ErrorCode unit :=
  if ni_IntentRevision request <? 0 then Err ErrorInvalidRequest
  else if bool_decide (TrimSpace (ni_Reason request) = "") || bool_decide (TrimSpace actor = "") then Err ErrorInvalidRequest
  else if bool_decide (verb = nodeVerbDrain) && ni_ClaimsEnabled request then Err ErrorInvalidRequest
  else Ok tt.

Section NodeIntent.
Context (lower_table : Z -> Z).

Definition nodeIntentDecision (n : NodeRow) (verb : string) (actor : nodeIntentActor) (request : NodeIntentRequest) :
    result ErrorCode unit :=
  let? _ := taggedIdentityDecision lower_table (na_Tags actor) (na_ClientPrincipalTag actor) in
  let? _ := validateNodeIntentRequest verb (na_NodeID actor) request in
  if negb (ni_IntentRevision request =? n_intent_revision n) then Err ErrorStaleIntentRevision else Ok tt.

Definition setNodeIntentByOperator (at_ : instant) (nodeID verb : string) (actor : nodeIntentActor)
    (request : NodeIntentRequest) : tx DB ErrorCode NodeRow NodeRow :=
  if bool_decide (nodeID = "") then fail ErrorInvalidRequest
  else
  let! _ := lift (validateNodeIntentRequest verb (na_NodeID actor) request) in
  let! _ := lift (taggedIdentityDecision lower_table (na_Tags actor) (na_ClientPrincipalTag actor)) in
  let! _ := beginWriteTransaction at_ in
  let now := at_now at_ in
  let! current := need (fun db => db_nodes db !! nodeID) ErrorNotFound in
  let! _ := lift (nodeIntentDecision current verb actor request) in
  let code := if ni_ClaimsEnabled request then "claims_enabled" else "claims_disabled" in
  let condition := mkNodeCondition code "node_intent" now
    [("reason", DetailText (TrimSpace (ni_Reason request))); ("actor", DetailText (TrimSpace (na_NodeID actor)));
     ("revision", DetailNumber (n_intent_revision current + 1))] in
  let! _ := writes (exec_node nodeID (fun n =>
    if n_intent_revision n =? ni_IntentRevision request then
      n <| n_claims_enabled := ni_ClaimsEnabled request |> <| n_intent_revision := n_intent_revision n + 1 |>
        <| n_intent_reason := TrimSpace (ni_Reason request) |> <| n_intent_updated_at := Some now |>
        <| n_intent_actor := TrimSpace (na_NodeID actor) |> <| n_last_condition := Some condition |>
    else n)) in
  need (fun db => db_nodes db !! nodeID) ErrorInternal.
End NodeIntent.

(** ** Properties *)
Lemma expired_branches clock now a :
  expired_wall clock now a || expired_boot clock now a = true <->
  ac_err clock = false /\ lease_live_row clock now a = false.
Proof.
  unfold expired_wall, expired_boot, lease_live_row, attemptLeaseLiveSQL, sqlBoot, leaseWallTime.
  destruct (ac_err clock); simpl; [intuition congruence|].
  destruct (decide (a_lease_boot_id a = ac_boot clock)) as [->|Hne].
  - rewrite (bool_decide_eq_true_2 (ac_boot clock = ac_boot clock)), (bool_decide_eq_true_2 (Some _ = Some _)) by done.
    destruct (Z.ltb_spec 0 (a_lease_deadline_ns a)), (bool_decide (ac_boot clock = "")); simpl;
    destruct (Z.ltb_spec (ac_ns clock) (a_lease_deadline_ns a)),
      (Z.leb_spec (a_lease_deadline_ns a) (ac_ns clock)), (Z.ltb_spec (now - ac_sleepGap clock) (a_lease_expires_ns a)),
      (Z.leb_spec (a_lease_expires_ns a) (now - ac_sleepGap clock)); simpl; try lia; intuition congruence.
  - rewrite (bool_decide_eq_false_2 (_ = ac_boot clock)) by done.
    rewrite (bool_decide_eq_false_2 (Some _ = Some _)) by congruence. rewrite andb_false_r. simpl.
    destruct (Z.ltb_spec (now - ac_sleepGap clock) (a_lease_expires_ns a)),
      (Z.leb_spec (a_lease_expires_ns a) (now - ac_sleepGap clock)); simpl; try lia; intuition congruence.
Qed.

(** C38: the sweep and the handlers agree on expiry.  For the active current attempt
    of an active job, the indexed three-branch query of the reconcile pass
    selects the attempt exactly when a handler presented with it would find its
    lease expired, or its one-shot was canceled and is past its settlement
    deadline. *)
Theorem sweep_agrees_with_handlers clock now db id a j n :
  current_active db id a = Some j -> 0 <= ac_sleepUncertainty clock ->
  expired_attempt clock now db id a = true <->
  attemptLeaseExpired clock now (authority_of db id a j n) = Ok true \/ cancellation_overdue now j = true.
Proof.
  intros Hc Hu. unfold expired_attempt. rewrite Hc, orb_true_iff, expired_branches, lease_expired_go_sweep; [done | | done].
  unfold current_active in Hc. destruct (db_jobs db !! a_job_id a); [|done]. simpl in Hc.
  by destruct (active_attempt (a_state a)).
Qed.

Lemma sweep_agrees_with_handlers_witness :
  expired_attempt (sample_clock 950 10) 950 sample_db "a1" (sample_attempt "j1" "n1" "b1" AttemptRunning "1" 900) = true.
Proof.
  apply (sweep_agrees_with_handlers (sample_clock 950 10) 950 sample_db "a1"
           (sample_attempt "j1" "n1" "b1" AttemptRunning "1" 900)
           (sample_job example_process_stored JobRunning (Some "a1") 1) (sample_node "id1" "b1"));
    [vm_compute; reflexivity | vm_compute; discriminate | left; vm_compute; reflexivity].
Defined.
