(* ===== verification/ClaimCorrect.v ===== *)
(** * What a claim grants

    The effect of [claimJob]: which job it takes, what it writes for it, and
    when it answers that there is nothing to run. *)
From S2P Require Import Prelude Order States Contract GoStrings JobSpec L1Types RestartPolicy Database.
From S2P Require Import LeaseClock Authority Credentials Summaries Lifecycle Completion Placement Claim.
#[local] Open Scope string_scope.
#[local] Open Scope list_scope.
#[local] Open Scope Z_scope.

(** ** The writes for a selected job *)
Section Granted.
Context (cfg : config) (clock : attemptClock) (now : Z) (class nodeID boot : string) (generation : Z)
        (attemptID attemptToken attemptTokenHash jobID : string).

(** The rows of a claimed job between its fence and its attempt. *)
Record fenced_for (db : DB) (j : JobRow) (db1 : DB) : Prop := {
  ff_job : exists j', db_jobs db1 = <[jobID := j']> (db_jobs db) /\ j_state j' = JobClaimed
             /\ j_current_attempt_id j' = Some attemptID /\ j_fence_counter j' = j_fence_counter j + 1
             /\ j_originating_submitter j' = j_originating_submitter j /\ j_spawn_depth j' = j_spawn_depth j;
  ff_attempts : db_attempts db1 = db_attempts db;
  ff_services : db_service_jobs db1 = db_service_jobs db;
  ff_requests : db_restart_requests db1 = db_restart_requests db
}.

Record granted (db : DB) (j : JobRow) (db' : DB) (cl : Claim) : Prop := {
  granted_lease : cl_JobID cl = jobID /\ cl_NodeID cl = nodeID /\ cl_AttemptToken cl = attemptToken
    /\ al_AttemptID (cl_Lease cl) = attemptID /\ al_FencingToken (cl_Lease cl) = pretty (j_fence_counter j + 1)
    /\ al_LeaseExpires (cl_Lease cl) = now + cfg_leaseDuration cfg;
  granted_job : exists j', db_jobs db' = <[jobID := j']> (db_jobs db) /\ j_state j' = JobClaimed
    /\ j_current_attempt_id j' = Some attemptID /\ j_fence_counter j' = j_fence_counter j + 1;
  granted_fresh : db_attempts db !! attemptID = None;
  granted_attempt : exists restartable,
    db_attempts db' !! attemptID = Some
      (new_attempt jobID nodeID boot (pretty (j_fence_counter j + 1)) (now + cfg_leaseDuration cfg)
         (attemptLeaseDeadline clock now (now + cfg_leaseDuration cfg)) generation
         (attempt_created db jobID restartable now) now);
  granted_others : forall id a, id <> attemptID -> db_attempts db' !! id = Some a -> db_attempts db !! id = Some a;
  granted_requests : db_restart_requests db' = db_restart_requests db;
  granted_services : forall k, is_Some (db_service_jobs db' !! k) <-> is_Some (db_service_jobs db !! k);
  granted_credential : db_credentials db' !! attemptTokenHash
    = Some (mkCredentialRow attemptID jobID nodeID (j_originating_submitter j) (j_spawn_depth j) now)
}.

Lemma fenced_claimed db j :
  db_jobs db !! jobID = Some j -> fenced_for db j (exec_job_state jobID (claimed_job attemptID now) db).
Proof.
  intros Hj. unfold exec_job_state. rewrite Hj.
  split; [|by case_match..]. exists (scrub_row (claimed_job attemptID now j)).
  split; [by case_match|]. unfold scrub_row. case_match; simpl; auto.
Qed.

Lemma fenced_exec_job db j db1 f :
  fenced_for db j db1 ->
  (forall i, j_state (f i) = j_state i /\ j_current_attempt_id (f i) = j_current_attempt_id i
             /\ j_fence_counter (f i) = j_fence_counter i
             /\ j_originating_submitter (f i) = j_originating_submitter i /\ j_spawn_depth (f i) = j_spawn_depth i) ->
  fenced_for db j (exec_job jobID f db1).
Proof.
  intros [(j' & EJ & ? & ? & ? & ? & ?) ? ? ?] Hf. split; simpl; try done.
  exists (f j'). destruct (Hf j') as (-> & -> & -> & -> & ->). split; [|done].
  unfold exec_job. simpl. rewrite EJ. apply map_eq. intros k. destruct (decide (k = jobID)) as [->|N];
    [by rewrite lookup_alter_eq, !lookup_insert_eq | by rewrite lookup_alter_ne, !lookup_insert_ne].
Qed.

(** After the attempt and its credential are stored. *)
Record issued (db : DB) (j : JobRow) (a : AttemptRow) (db2 : DB) : Prop := {
  iss_job : exists j', db_jobs db2 = <[jobID := j']> (db_jobs db) /\ j_state j' = JobClaimed
              /\ j_current_attempt_id j' = Some attemptID /\ j_fence_counter j' = j_fence_counter j + 1;
  iss_fresh : db_attempts db !! attemptID = None;
  iss_attempts : db_attempts db2 = <[attemptID := a]> (db_attempts db);
  iss_requests : db_restart_requests db2 = db_restart_requests db;
  iss_services : forall k, is_Some (db_service_jobs db2 !! k) <-> is_Some (db_service_jobs db !! k);
  iss_credential : db_credentials db2 !! attemptTokenHash
    = Some (mkCredentialRow attemptID jobID nodeID (j_originating_submitter j) (j_spawn_depth j) now)
}.

Lemma ends_bind_row {V} (get : DB -> gmap string V) set id p f Q K X db :
  (forall v, get db !! id = Some v -> p v = true -> Q tt (set (<[id := f v]> (get db)) db)) -> X (Err ErrorInternal) ->
  ends (bind_row get set id p f) Q K X db.
Proof. intros HQ HX. unfold ends, bind_row. repeat case_match; simplify_eq; auto. Qed.

Lemma issued_same db j a db2 db3 :
  db_jobs db3 = db_jobs db2 -> db_attempts db3 = db_attempts db2 -> db_restart_requests db3 = db_restart_requests db2 ->
  db_credentials db3 = db_credentials db2 ->
  (forall k, is_Some (db_service_jobs db3 !! k) <-> is_Some (db_service_jobs db2 !! k)) ->
  issued db j a db2 -> issued db j a db3.
Proof.
  intros E1 E2 E3 E4 E5 [? ? ? ? Hs ?]. split; rewrite ?E1, ?E2, ?E3, ?E4; try done. intros k. by rewrite E5.
Qed.

(** Rewriting a row keeps the table's keys. *)
Lemma is_Some_insert_known {V} (m : gmap string V) id v v' k :
  m !! id = Some v -> is_Some (<[id := v']> m !! k) <-> is_Some (m !! k).
Proof.
  intros H. destruct (decide (k = id)) as [->|]; [rewrite lookup_insert_eq, H; split; eauto | by rewrite lookup_insert_ne].
Qed.

Lemma ends_bind_service db j a Q K X db2 :
  issued db j a db2 -> (forall storage db3, issued db j a db3 -> Q storage db3) -> X (Err ErrorInternal) ->
  ends (bind_service nodeID jobID now) Q K X db2.
Proof.
  intros H HQ HX. unfold bind_service. apply ends_bind, ends_bind_row; [|done]. intros s Hs _.
  wp; [|apply HQ; eapply issued_same; [..|exact H]; try done; intros k; by eapply is_Some_insert_known].
  apply ends_bind_row; [|done]. intros c _ _. wp; [|done]. apply HQ.
  eapply issued_same; [..|exact H]; try done. intros k. by eapply is_Some_insert_known.
Qed.

Lemma is_current_attempt_intro db i :
  db_jobs db !! jobID = Some i -> j_current_attempt_id i = Some attemptID -> is_current_attempt db attemptID = true.
Proof.
  intros Hi Hc. apply existsb_exists. exists i. split; [|by apply bool_decide_eq_true].
  apply list_elem_of_In, list_elem_of_fmap. exists (jobID, i). split; [done|]. by apply elem_of_map_to_list.
Qed.

(** Pruning old summaries and dead credentials spares what was just issued. *)
Lemma issued_pruned db j a window db2 :
  issued db j a db2 -> active_attempt (a_state a) = true ->
  let db' := pruneAttemptCredentials (pruneServiceAttemptSummaries window now jobID db2) in
  db_attempts db' !! attemptID = Some a
  /\ (forall id b, id <> attemptID -> db_attempts db' !! id = Some b -> db_attempts db !! id = Some b)
  /\ db_jobs db' = db_jobs db2 /\ db_restart_requests db' = db_restart_requests db2
  /\ (forall k, is_Some (db_service_jobs db' !! k) <-> is_Some (db_service_jobs db2 !! k))
  /\ db_credentials db' !! attemptTokenHash = db_credentials db2 !! attemptTokenHash.
Proof.
  intros H Ha. set (db3 := pruneServiceAttemptSummaries window now jobID db2).
  assert (Hjobs : db_jobs db3 = db_jobs db2) by apply prune_jobs.
  assert (Hrest : db_restart_requests db3 = db_restart_requests db2 /\ db_credentials db3 = db_credentials db2
                  /\ forall k, is_Some (db_service_jobs db3 !! k) <-> is_Some (db_service_jobs db2 !! k)).
  { subst db3. destruct (prune_cases window now jobID db2) as [->|(? & ? & _ & _ & _ & ->)]; split_and!; try done.
    intros k. simpl. by rewrite lookup_fmap, fmap_is_Some. }
  destruct Hrest as (Hreq & Hcred & Hsvc). cbv zeta. unfold pruneAttemptCredentials. simpl.
  split_and!; [| | exact Hjobs | exact Hreq | exact Hsvc |].
  - assert (Hat : db_attempts db2 !! attemptID = Some a) by (by rewrite (iss_attempts _ _ _ _ H), lookup_insert_eq).
    subst db3. destruct (prune_cases window now jobID db2) as [->|(floor & ids & _ & _ & _ & ->)]; [done|].
    apply delete_attempts_lookup. split; [done|]. unfold summary_prunable. rewrite Ha. simpl. by rewrite andb_false_r.
  - intros id b Hne Hb%prune_lookup. rewrite (iss_attempts _ _ _ _ H), lookup_insert_ne in Hb; done.
  - rewrite Hcred. destruct (iss_job _ _ _ _ H) as (j' & EJ & _ & Hc & _).
    apply option_eq. intros c. rewrite map_lookup_filter_Some. split; [by intros [? _]|]. intros Hx. split; [done|].
    rewrite (iss_credential _ _ _ _ H) in Hx. injection Hx as <-. simpl.
    eapply is_current_attempt_intro; [rewrite Hjobs, EJ; apply lookup_insert_eq | done].
Qed.

Lemma ends_issue {A} db j db1 a submitter depth (k : tx DB ErrorCode (option Claim * bool) A) Q K X :
  fenced_for db j db1 -> submitter = j_originating_submitter j -> depth = j_spawn_depth j ->
  (forall db2, issued db j a db2 -> ends k Q K X db2) -> X (Err ErrorInternal) ->
  ends (let! _ := insert_attempt attemptID a in
        let! _ := insertAttemptCredential attemptTokenHash
                    (mkAttemptCredentialScope attemptID jobID nodeID submitter depth "") now in k) Q K X db1.
Proof.
  intros [(j' & EJ & Hs & Hc & Hf & Ho & Hd) EA ES ER] -> -> HQ HX.
  unfold ends, bind, insert_attempt. destruct (db_attempts db1 !! attemptID) eqn:E; [done|].
  unfold insertAttemptCredential. simpl. destruct (db_credentials db1 !! attemptTokenHash) eqn:Ec; [done|].
  apply HQ. split; simpl; [by eauto 10 | by rewrite <- EA | by rewrite EA | done | intros ?; rewrite ES; reflexivity | by rewrite lookup_insert_eq].
Qed.

Lemma ends_claim_selected db j hint :
  db_jobs db !! jobID = Some j ->
  ends (claim_selected cfg clock now class nodeID boot generation attemptID attemptToken attemptTokenHash jobID hint)
    (fun r db' => exists cl, r = (Some cl, hint) /\ granted db j db' cl) (fun _ _ => False) (fun r => exists e, r = Err e) db.
Proof.
  intros Hj. unfold claim_selected.
  apply (ends_seq (fun _ db1 => fenced_for db j db1)); [wp; by apply fenced_claimed|].
  intros _ db1 H1. apply (ends_seq (fun job db1' => db1' = db1 /\ db_jobs db1 !! jobID = Some job)).
  { unfold read_job. wp; eauto. }
  intros job ? [-> Hjob].
  assert (Hrow : j_fence_counter job = j_fence_counter j + 1 /\ j_originating_submitter job = j_originating_submitter j
                 /\ j_spawn_depth job = j_spawn_depth j).
  { destruct (ff_job _ _ _ H1) as (j' & EJ & _ & _ & ? & ? & ?). rewrite EJ, lookup_insert_eq in Hjob. by simplify_eq. }
  destruct Hrow as (Hf & Ho & Hd).
  apply (ends_seq (fun _ db1' => fenced_for db j db1')).
  { wp; [|done]. by apply fenced_exec_job. }
  intros _ db2 H2. apply ends_bind, ends_lift; [|eauto]. intros spec _.
  apply ends_bind. unfold ends at 1, reads at 1.
  replace (attempt_created db2 jobID (js_Restartable spec) now) with (attempt_created db jobID (js_Restartable spec) now)
    by (unfold attempt_created; by rewrite (ff_attempts _ _ _ H2), (ff_requests _ _ _ H2)).
  rewrite Hf. eapply ends_issue; [exact H2 | exact Ho | exact Hd | | eauto]. intros db3 H3.
  eapply (ends_seq (fun _ => issued db j _)).
  { destruct (bool_decide (class = JobClassService)); [eapply ends_bind_service; [exact H3 | by intros | eauto]|].
    wp. exact H3. }
  intros storage db4 H4. apply ends_bind. unfold ends at 1, writes at 1. apply ends_bind. unfold ends at 1, writes at 1.
  destruct (issued_pruned _ _ _ (cfg_lateEvidenceWindow cfg) _ H4 eq_refl) as (Ha & Hothers & Hj4 & Hr4 & Hs4 & Hc4).
  unfold read_job. wp; [|eauto]. eexists. split; [done|].
  split; [by split_and! | | by apply (iss_fresh _ _ _ _ H4) | by eauto | exact Hothers | | |].
  - rewrite Hj4. exact (iss_job _ _ _ _ H4).
  - rewrite Hr4. exact (iss_requests _ _ _ _ H4).
  - intros k. by rewrite Hs4, (iss_services _ _ _ _ H4).
  - rewrite Hc4. exact (iss_credential _ _ _ _ H4).
Qed.
End Granted.

(** ** The whole transaction *)
Section ClaimOutcome.
Context (cfg : config) (lower_table : Z -> Z).

(** The store the candidate query reads: leases credited and, for one-shots,
    waiting jobs whose pre-start budget ran out already failed. *)
Definition claim_store (at_ : instant) (class : string) (db : DB) : DB :=
  let begun := (withLeaseSleepGap true (at_sample at_) db).2 in
  if bool_decide (class = JobClassOneShot) then fail_prestart_gaps (at_now at_) begun else begun.

(** The registration a claim is made under. *)
Record claiming (at_ : instant) (identityNodeID nodeID boot : string) (db : DB) (n : NodeRow) : Prop := {
  claiming_node : db_nodes (withLeaseSleepGap true (at_sample at_) db).2 !! nodeID = Some n;
  claiming_identity : n_identity_node_id n = identityNodeID;
  claiming_boot : n_boot_session_id n = boot;
  claiming_alive : reconcileClaimingNode cfg (withLeaseSleepGap true (at_sample at_) db).1 (at_now at_) n = NodeAlive
}.

Definition candidate_of (at_ : instant) (nodeID boot class : string) (excludedJobIDs : list string) (n : NodeRow) (db : DB) :
    option (string * JobRow) :=
  claim_candidate (claim_store at_ class db) (at_now at_) class nodeID boot (n_authority_generation n) n excludedJobIDs.

Lemma reconcile_unchanged clock now n : reconcileClaimingNode cfg clock now n = NodeAlive -> n_state n = NodeAlive.
Proof. unfold reconcileClaimingNode. by repeat case_match. Qed.

(** What an answer of [claimJob] says about the store it read and the one it left. *)
Definition claim_outcome (at_ : instant) (identityNodeID nodeID boot class : string) (excludedJobIDs : list string)
    (attemptID token hash : string) (db db' : DB) (r : result ErrorCode (option Claim * bool)) : Prop :=
  match r with
  | Err _ => True
  | Ok (answer, _) => exists n excluded,
      claimExclusion [] excludedJobIDs = Ok excluded /\ claiming at_ identityNodeID nodeID boot db n /\
      match answer with
      | Some cl => n_claims_enabled n = true /\ exists j,
          candidate_of at_ nodeID boot class excluded n db = Some (cl_JobID cl, j)
          /\ granted cfg (withLeaseSleepGap true (at_sample at_) db).1 (at_now at_) nodeID boot (n_authority_generation n)
               attemptID token hash (cl_JobID cl) (claim_store at_ class db) j db' cl
      | None => n_claims_enabled n = true -> candidate_of at_ nodeID boot class excluded n db = None
      end
  end.

(** From the selected candidate to the answer. *)
Lemma ends_selected at_ identityNodeID nodeID boot class excludedJobIDs excluded attemptID token hash hint db n jobID j K :
  claimExclusion [] excludedJobIDs = Ok excluded -> claiming at_ identityNodeID nodeID boot db n ->
  n_claims_enabled n = true -> candidate_of at_ nodeID boot class excluded n db = Some (jobID, j) ->
  ends (claim_selected cfg (withLeaseSleepGap true (at_sample at_) db).1 (at_now at_) class nodeID boot
          (n_authority_generation n) attemptID token hash jobID hint)
    (fun r db' => claim_outcome at_ identityNodeID nodeID boot class excludedJobIDs attemptID token hash db db' (Ok r)) K
    (claim_outcome at_ identityNodeID nodeID boot class excludedJobIDs attemptID token hash db db)
    (claim_store at_ class db).
Proof.
  intros Hx Hn He Hc. eapply ends_mono; cycle 3.
  { apply ends_claim_selected. eapply claim_candidate_claimable. exact Hc. }
  - intros r db' (cl & -> & Hg). assert (cl_JobID cl = jobID) as Ej by apply Hg. subst jobID. exists n, excluded. eauto 6.
  - done.
  - by intros r [e ->].
Qed.

Lemma claimJob_outcome at_ identityNodeID nodeID boot class poll excludedJobIDs attemptID token hash db db' r :
  run (claimJob cfg lower_table at_ identityNodeID nodeID boot class poll excludedJobIDs attemptID token hash) db
    = (db', r) ->
  claim_outcome at_ identityNodeID nodeID boot class excludedJobIDs attemptID token hash db db' r.
Proof.
  intros Hrun. apply (f_equal fst) in Hrun as E1. apply (f_equal snd) in Hrun as E2. cbn [fst snd] in E1, E2.
  rewrite <- E1, <- E2. clear.
  apply (ends_run _ (claim_outcome at_ identityNodeID nodeID boot class excludedJobIDs attemptID token hash db)).
  unfold claimJob. wp. apply ends_begin. set (begun := withLeaseSleepGap true (at_sample at_) db).
  wp; rename a into excluded, a0 into n.
  all: match goal with E : negb (bool_decide (_ = NodeAlive)) = false |- _ =>
         apply negb_false_iff, bool_decide_eq_true in E as Halive end.
  all: try (match goal with E : bool_decide (_ = n_state _) = false |- _ =>
         apply bool_decide_eq_false in E; destruct E; rewrite Halive; by rewrite (reconcile_unchanged _ _ _ Halive) end).
  all: assert (Hn : claiming at_ identityNodeID nodeID boot db n) by (split; [done | by eapply bool_decide_eq_true_1.. | done]).
  { exists n, excluded. split_and!; [done | done|]. by apply negb_true_iff in Heqb2 as ->. }
  all: apply negb_false_iff in Heqb2; assert (Hst : claim_store at_ class db =
    if bool_decide (class = JobClassOneShot) then fail_prestart_gaps (at_now at_) begun.2 else begun.2) by reflexivity;
    rewrite Heqb3 in Hst.
  1, 3: rewrite <- Hst in *; by eapply ends_selected.
  all: exists n, excluded; split_and!; try done; intros _; unfold candidate_of; by rewrite Hst.
Qed.
End ClaimOutcome.

(** ** Properties *)
Section ClaimProperties.
Context (cfg : config) (lower_table : Z -> Z).



(** *** Restart requests *)
Lemma fold_max_le l x y : y ∈ x :: l -> y <= fold_left Z.max l x.
Proof.
  revert x y. induction l as [|z l IH]; intros x y; simpl.
  - intros ->%list_elem_of_singleton. lia.
  - intros [->|[->|Hy]%elem_of_cons]%elem_of_cons.
    + etransitivity; [|apply IH; by left]. lia.
    + etransitivity; [|apply IH; by left]. lia.
    + apply IH. by right.
Qed.

Lemma at_least_after_spec l t x : x ∈ l -> x < at_least_after (maximum l) t.
Proof.
  destruct l as [|y l]; [by intros ?%elem_of_nil|]. simpl. intros Hx%fold_max_le.
  destruct (Z.leb_spec t (fold_left Z.max l y)); lia.
Qed.

Lemma attempt_created_newer db jobID restartable now rr :
  rr ∈ db_restart_requests db -> rr_job_id rr = jobID -> rr_created_ns rr < attempt_created db jobID restartable now.
Proof.
  intros Hr Hj. apply at_least_after_spec, list_elem_of_fmap. exists rr. split; [done|].
  apply list_elem_of_In, filter_In. rewrite <- list_elem_of_In. split; [done|]. by apply bool_decide_eq_true.
Qed.

(** A restart asked for before a claim is spent by it: the attempt the claim
    creates is strictly newer than every restart request of its job, so it is
    never told to restart for an intent its predecessor already served. *)
Theorem claim_consumes_restart_requests at_ identity nodeID boot class poll excludedJobIDs attemptID token hash db db'
    cl hint :
  run (claimJob cfg lower_table at_ identity nodeID boot class poll excludedJobIDs attemptID token hash) db
    = (db', Ok (Some cl, hint)) ->
  exists a, db_attempts db' !! attemptID = Some a /\ a_job_id a = cl_JobID cl
    /\ restart_requested db' (cl_JobID cl) a = false.
Proof.
  intros (n & excluded & Hx & Hn & He & j & Hc & Hg)%claimJob_outcome.
  destruct (granted_attempt _ _ _ _ _ _ _ _ _ _ _ _ _ _ Hg) as [restartable Ha].
  eexists. split; [exact Ha|]. split; [done|]. unfold restart_requested.
  rewrite (granted_requests _ _ _ _ _ _ _ _ _ _ _ _ _ _ Hg). apply not_true_iff_false.
  intros (rr & Hin & [Hj%bool_decide_eq_true Hle%Z.leb_le]%andb_true_iff)%existsb_exists. simpl in Hle.
  apply list_elem_of_In in Hin.
  assert (Hlt := attempt_created_newer _ _ restartable (at_now at_) _ Hin Hj). lia.
Qed.

(** *** Slots *)
Lemma count_where_le {V} (p p' : string -> V -> bool) (m m' : gmap string V) id v :
  (forall k x, k <> id -> m' !! k = Some x -> p' k x = true -> m !! k = Some x /\ p k x = true) ->
  m' !! id = Some v -> count_where p' m' <= count_where p m + 1.
Proof.
  intros Hsub Hid. unfold count_where.
  set (l' := List.filter _ (map_to_list m')). set (l := List.filter _ (map_to_list m)).
  assert (Hlen : (length l' <= length ((id, v) :: l))%nat); [|simpl in Hlen; lia].
  apply NoDup_incl_length.
  - apply List.NoDup_filter, NoDup_ListNoDup, NoDup_map_to_list.
  - intros [k x] [Hin Hp]%filter_In. apply list_elem_of_In, elem_of_map_to_list in Hin. simpl in Hp.
    destruct (decide (k = id)) as [->|Hne]; [left; congruence|]. right. apply filter_In. simpl.
    destruct (Hsub k x Hne Hin Hp) as [Hm Hpm]. split; [|done]. by apply list_elem_of_In, elem_of_map_to_list.
Qed.

(** C18: claims never overfill a node's one-shot slots: after a one-shot is claimed,
    the node runs at most as many active one-shot attempts as it registered
    slots for. *)
Theorem oneshot_claim_within_slots at_ identity nodeID boot poll excludedJobIDs attemptID token hash db db' cl hint n :
  run (claimJob cfg lower_table at_ identity nodeID boot JobClassOneShot poll excludedJobIDs attemptID token hash) db
    = (db', Ok (Some cl, hint)) ->
  db_nodes (withLeaseSleepGap true (at_sample at_) db).2 !! nodeID = Some n ->
  active_oneshots db' nodeID <= n_max_oneshot_slots n.
Proof.
  intros (n' & excluded & Hx & Hn & He & j & Hc & Hg)%claimJob_outcome Hrow.
  rewrite (claiming_node _ _ _ _ _ _ _ Hn) in Hrow. injection Hrow as <-.
  apply claim_candidate_claimable in Hc as [_ Hc].
  assert (Hfree : active_oneshots (claim_store at_ JobClassOneShot db) nodeID < n_max_oneshot_slots n').
  { unfold claimable in Hc. rewrite !andb_true_iff in Hc. destruct Hc as [[[[[_ Hc] _] _] _] _].
    destruct (db_service_jobs _ !! _); apply andb_true_iff in Hc as [Hc1 Hc];
      [by apply bool_decide_eq_true in Hc1|]. unfold oneshot_claimable in Hc.
    rewrite !andb_true_iff in Hc. by destruct Hc as [_ Hc%Z.ltb_lt]. }
  assert (Hle : active_oneshots db' nodeID <= active_oneshots (claim_store at_ JobClassOneShot db) nodeID + 1); [|lia].
  destruct (granted_attempt _ _ _ _ _ _ _ _ _ _ _ _ _ _ Hg) as [restartable Ha].
  eapply count_where_le; [|exact Ha]. intros id a Hne Hid Hp.
  split; [by eapply (granted_others _ _ _ _ _ _ _ _ _ _ _ _ _ _ Hg)|].
  rewrite <- Hp. f_equal. f_equal. apply bool_decide_ext. symmetry.
  apply (granted_services _ _ _ _ _ _ _ _ _ _ _ _ _ _ Hg).
Qed.
End ClaimProperties.

(** ** Witnesses *)
Definition sample_claim (job_class attemptID : string) (db : DB) : DB * result ErrorCode (option Claim * bool) :=
  run (claimJob sample_config (fun r => r) (sample_instant 500) "id1" "n1" "b1" job_class false [] attemptID "secret" "digest2")
    db.
Definition sample_granted : Claim :=
  match (sample_claim JobClassOneShot "a2" sample_db).2 with
  | Ok (Some cl, _) => cl
  | _ => mkClaim "" "" example_process_spec None None "" 0 0 0 false (mkAttemptLease "" "" 0 0 "" "" "" "") "" None None None
  end.

Lemma sample_claim_ok :
  sample_claim JobClassOneShot "a2" sample_db
  = ((sample_claim JobClassOneShot "a2" sample_db).1, Ok (Some sample_granted, false)).
Proof. vm_compute. reflexivity. Qed.



Lemma claim_consumes_restart_requests_witness :
  exists a, db_attempts (sample_claim JobClassOneShot "a2" sample_db).1 !! "a2" = Some a
    /\ a_job_id a = cl_JobID sample_granted
    /\ restart_requested (sample_claim JobClassOneShot "a2" sample_db).1 (cl_JobID sample_granted) a = false.
Proof. exact (claim_consumes_restart_requests sample_config (fun r => r) _ _ _ _ _ _ _ _ _ _ _ _ _ _ sample_claim_ok). Defined.

Lemma oneshot_claim_within_slots_witness : active_oneshots (sample_claim JobClassOneShot "a2" sample_db).1 "n1" <= 4.
Proof.
  apply (oneshot_claim_within_slots sample_config (fun r => r) _ _ _ _ _ _ _ _ _ _ _ _ _ (sample_node "id1" "b1")
           sample_claim_ok). vm_compute. reflexivity.
Defined.
