(* ===== verification/Invariant.v ===== *)
(** * The fencing invariant

    What ties the [jobs] and [attempts] tables together: every active attempt is
    the current attempt of a job that is being worked on, a job's current
    attempt carries the job's latest fence, and no two attempts of a job share a
    fencing token.  The lemmas below are one per kind of statement, so that the
    proof for a handler follows its writes. *)
From S2P Require Import Prelude Order States Contract GoStrings JobSpec L1Types RestartPolicy Database.
From S2P Require Import LeaseClock Authority Credentials Summaries Lifecycle Completion Placement Claim.
#[local] Open Scope string_scope.
#[local] Open Scope list_scope.
#[local] Open Scope Z_scope.

(** The states in which a job has a live attempt. *)
Definition busy (s : JobState) : bool :=
  bool_decide (s ∈ [JobClaimed; JobRunning; JobAwaitingInput; JobStopping]).

Record fenced (J : gmap string JobRow) (A : gmap string AttemptRow) : Prop := {
  fenced_counter : forall jobID j, J !! jobID = Some j -> 0 <= j_fence_counter j;
  fenced_active : forall id a, A !! id = Some a -> active_attempt (a_state a) = true ->
    exists j, J !! a_job_id a = Some j /\ j_current_attempt_id j = Some id /\ busy (j_state j) = true;
  fenced_token : forall id a, A !! id = Some a ->
    exists j n, J !! a_job_id a = Some j /\ a_fencing_token a = pretty n /\ 1 <= n <= j_fence_counter j;
  fenced_current : forall jobID j id, J !! jobID = Some j -> j_current_attempt_id j = Some id ->
    exists a, A !! id = Some a /\ a_job_id a = jobID /\ a_fencing_token a = pretty (j_fence_counter j);
  fenced_unique : forall id1 a1 id2 a2, A !! id1 = Some a1 -> A !! id2 = Some a2 ->
    a_job_id a1 = a_job_id a2 -> a_fencing_token a1 = a_fencing_token a2 -> id1 = id2
}.

Definition wf (db : DB) : Prop := fenced (db_jobs db) (db_attempts db).

(** No attempt of the job is active. *)
Definition quiet (db : DB) (jobID : string) : Prop :=
  forall id a, db_attempts db !! id = Some a -> a_job_id a = jobID -> active_attempt (a_state a) = false.

(** ** Changes of attempts *)

(** An update of attempts that neither moves nor re-fences nor revives one. *)
Definition demotes (a a' : AttemptRow) : Prop :=
  a_job_id a' = a_job_id a /\ a_fencing_token a' = a_fencing_token a /\
  (active_attempt (a_state a') = true -> active_attempt (a_state a) = true).

Lemma demotes_refl a : demotes a a.
Proof. done. Qed.

Lemma fenced_attempts J A A' :
  fenced J A ->
  (forall id, match A !! id, A' !! id with
              | Some a, Some a' => demotes a a' | None, None => True | _, _ => False end) ->
  fenced J A'.
Proof.
  intros H Hd.
  assert (Hback : forall id a', A' !! id = Some a' -> exists a, A !! id = Some a /\ demotes a a').
  { intros id a' E. specialize (Hd id). rewrite E in Hd. destruct (A !! id); [eauto | done]. }
  split.
  - apply (fenced_counter _ _ H).
  - intros id a' (a & Ha & Hj & _ & Hact)%Hback E. rewrite Hj. by apply (fenced_active _ _ H); auto.
  - intros id a' (a & Ha & Hj & Ht & _)%Hback. rewrite Hj, Ht. by eapply (fenced_token _ _ H).
  - intros jobID j id Hj Hc. destruct (fenced_current _ _ H _ _ _ Hj Hc) as (a & Ha & Hja & Ht).
    specialize (Hd id). rewrite Ha in Hd. destruct (A' !! id) as [a'|]; [|done]. destruct Hd as (? & ? & _).
    exists a'. by split_and!; [|congruence..].
  - intros id1 a1 id2 a2 (b1 & Hb1 & Ej1 & Et1 & _)%Hback (b2 & Hb2 & Ej2 & Et2 & _)%Hback Hj Ht.
    eapply (fenced_unique _ _ H); [exact Hb1 | exact Hb2 | congruence..].
Qed.

Lemma wf_exec_attempt id f db :
  wf db -> (forall a, db_attempts db !! id = Some a -> demotes a (f a)) -> wf (exec_attempt id f db).
Proof.
  intros H Hf. eapply fenced_attempts; [exact H|]. intros k. unfold exec_attempt. simpl.
  destruct (decide (k = id)) as [->|N]; [rewrite lookup_alter_eq | rewrite lookup_alter_ne by done].
  - destruct (db_attempts db !! id); simpl; auto.
  - destruct (db_attempts db !! k); simpl; auto using demotes_refl.
Qed.

Lemma wf_imap_attempts f db :
  wf db -> (forall id a, db_attempts db !! id = Some a -> demotes a (f id a)) ->
  wf (db <| db_attempts := map_imap (fun id a => Some (f id a)) (db_attempts db) |>).
Proof.
  intros H Hf. eapply fenced_attempts; [exact H|]. intros k. simpl. rewrite map_lookup_imap.
  destruct (db_attempts db !! k) eqn:E; simpl; auto.
Qed.

(** Deleting attempts that are not current. *)
Lemma wf_delete_attempts p db :
  wf db ->
  (forall jobID j id a, db_jobs db !! jobID = Some j -> j_current_attempt_id j = Some id ->
     db_attempts db !! id = Some a -> a_job_id a = jobID -> p id a = false) ->
  wf (delete_attempts p db).
Proof.
  intros H Hp. unfold wf. replace (db_jobs (delete_attempts p db)) with (db_jobs db) by done. split.
  - apply (fenced_counter _ _ H).
  - intros id a [Ha _]%delete_attempts_lookup. by apply (fenced_active _ _ H).
  - intros id a [Ha _]%delete_attempts_lookup. by eapply (fenced_token _ _ H).
  - intros jobID j id Hj Hc. destruct (fenced_current _ _ H _ _ _ Hj Hc) as (a & Ha & Hja & Ht).
    exists a. rewrite delete_attempts_lookup. by eauto.
  - intros id1 a1 id2 a2 [H1 _]%delete_attempts_lookup [H2 _]%delete_attempts_lookup.
    by apply (fenced_unique _ _ H).
Qed.

Lemma wf_prune window now jobID db : wf db -> wf (pruneServiceAttemptSummaries window now jobID db).
Proof.
  intros H. destruct (prune_cases window now jobID db) as [->|(floor & ids & _ & _ & _ & ->)]; [done|].
  apply wf_delete_attempts; [done|]. intros jid j id a Hj Hc Ha Hja. unfold summary_prunable.
  destruct (bool_decide_reflect (a_job_id a = jobID)) as [E|]; [|by rewrite andb_false_r].
  assert (Hcur : current_or_empty db jobID = id) by (unfold current_or_empty; by rewrite <- E, Hja, Hj; simpl; rewrite Hc).
  rewrite Hcur, (bool_decide_eq_true_2 (id = id)) by done. simpl. by rewrite andb_false_r.
Qed.

(** ** Changes of jobs *)

(** What an update of one job may do: keep the fence, keep the current attempt
    unless it has ended, and leave the busy states only when no attempt is active. *)
Definition settles (db : DB) (jobID : string) (j j' : JobRow) : Prop :=
  j_fence_counter j' = j_fence_counter j /\
  (j_current_attempt_id j' = j_current_attempt_id j \/ (j_current_attempt_id j' = None /\ quiet db jobID)) /\
  ((busy (j_state j) = true -> busy (j_state j') = true) \/ quiet db jobID).

Lemma fenced_insert_job J A jobID j j' :
  fenced J A -> J !! jobID = Some j ->
  j_fence_counter j' = j_fence_counter j ->
  (j_current_attempt_id j' = j_current_attempt_id j \/ j_current_attempt_id j' = None) ->
  (forall id a, A !! id = Some a -> a_job_id a = jobID -> active_attempt (a_state a) = true ->
     j_current_attempt_id j' = Some id /\ busy (j_state j') = true) ->
  fenced (<[jobID := j']> J) A.
Proof.
  intros H Hj Hfence Hcur Hact. split.
  - intros k i Hk. apply lookup_insert_Some in Hk as [[<- <-]|[? Hk]]; [|by eapply (fenced_counter _ _ H)].
    rewrite Hfence. by eapply (fenced_counter _ _ H).
  - intros id a Ha E. destruct (decide (a_job_id a = jobID)) as [<-|N].
    + exists j'. rewrite lookup_insert_eq. split; [done|]. by eapply Hact.
    + rewrite lookup_insert_ne by done. by apply (fenced_active _ _ H).
  - intros id a Ha. destruct (fenced_token _ _ H id a Ha) as (i & n & Hi & Ht & Hn).
    destruct (decide (a_job_id a = jobID)) as [<-|N].
    + exists j', n. rewrite lookup_insert_eq. simplify_eq. by rewrite Hfence.
    + exists i, n. by rewrite lookup_insert_ne.
  - intros k i id Hk Hc. apply lookup_insert_Some in Hk as [[<- <-]|[? Hk]]; [|by eapply (fenced_current _ _ H)].
    destruct Hcur as [Hcur|Hcur]; rewrite Hcur in Hc; [|done]. rewrite Hfence. by eapply (fenced_current _ _ H).
  - apply (fenced_unique _ _ H).
Qed.

Lemma settles_insert db jobID j j' :
  wf db -> db_jobs db !! jobID = Some j -> settles db jobID j j' ->
  fenced (<[jobID := j']> (db_jobs db)) (db_attempts db).
Proof.
  intros H Hj (Hfence & Hcur & Hbusy). eapply fenced_insert_job; [exact H | exact Hj | done | |].
  - destruct Hcur as [|[? _]]; auto.
  - intros id a Ha Hja E.
    assert (Hq : ~ quiet db jobID) by (intros Hq; by rewrite (Hq id a Ha Hja) in E).
    destruct (fenced_active _ _ H id a Ha E) as (i & Hi & Hc & Hb). rewrite Hja in Hi. simplify_eq.
    destruct Hcur as [Hcur|[_ ?]]; [|done]. destruct Hbusy as [Hbusy|?]; [|done]. split; [congruence | auto].
Qed.

Lemma wf_exec_job jobID f db :
  wf db -> (forall j, db_jobs db !! jobID = Some j -> settles db jobID j (f j)) -> wf (exec_job jobID f db).
Proof.
  intros H Hf. unfold wf, exec_job. simpl. destruct (db_jobs db !! jobID) as [j|] eqn:E.
  - replace (alter f jobID (db_jobs db)) with (<[jobID := f j]> (db_jobs db)); [by eapply settles_insert; eauto|].
    apply map_eq. intros k. destruct (decide (k = jobID)) as [->|N].
    + by rewrite lookup_insert_eq, lookup_alter_eq, E.
    + by rewrite lookup_insert_ne, lookup_alter_ne.
  - rewrite alter_id; [exact H|]. intros x Hx. congruence.
Qed.

Lemma scrub_row_settles db jobID j j' : settles db jobID j j' -> settles db jobID j (scrub_row j').
Proof. unfold scrub_row. case_match; done. Qed.

Lemma wf_exec_job_state jobID f db :
  wf db -> (forall j, db_jobs db !! jobID = Some j -> settles db jobID j (f j)) -> wf (exec_job_state jobID f db).
Proof.
  intros H Hf. unfold exec_job_state. destruct (db_jobs db !! jobID) as [j|] eqn:E; [|done].
  assert (Hs := settles_insert db jobID j _ H E (scrub_row_settles _ _ _ _ (Hf j eq_refl))).
  by case_match.
Qed.

(** ** Quiet jobs *)
Lemma quiet_not_busy db jobID j :
  wf db -> db_jobs db !! jobID = Some j -> busy (j_state j) = false -> quiet db jobID.
Proof.
  intros H Hj Hb id a Ha Hja. destruct (active_attempt (a_state a)) eqn:E; [|done].
  destruct (fenced_active _ _ H id a Ha E) as (i & Hi & _ & Hbi). rewrite Hja in Hi. congruence.
Qed.

(** An active attempt of a job is its current attempt. *)
Lemma active_is_current db id a j :
  wf db -> db_attempts db !! id = Some a -> db_jobs db !! a_job_id a = Some j ->
  active_attempt (a_state a) = true -> j_current_attempt_id j = Some id.
Proof. intros H Ha Hj E. destruct (fenced_active _ _ H id a Ha E) as (i & Hi & Hc & _). by simplify_eq. Qed.

Lemma quiet_demote id f db jobID :
  quiet db jobID -> (forall a, db_attempts db !! id = Some a -> demotes a (f a)) -> quiet (exec_attempt id f db) jobID.
Proof.
  intros Hq Hf k a. unfold exec_attempt. simpl. intros Hk Hja.
  apply lookup_alter_Some in Hk as [(-> & b & Hb & ->)|[? Hk]]; [|by eapply Hq].
  destruct (Hf b Hb) as (Hj & _ & Hact). rewrite Hj in Hja. specialize (Hq k b Hb Hja).
  destruct (active_attempt (a_state (f b))); [|done]. by rewrite Hact in Hq.
Qed.

(** Ending the current attempt of a job makes the job quiet. *)
Lemma quiet_end id f db jobID j :
  wf db -> db_jobs db !! jobID = Some j -> j_current_attempt_id j = Some id ->
  (forall a, db_attempts db !! id = Some a -> a_job_id (f a) = a_job_id a /\ active_attempt (a_state (f a)) = false) ->
  quiet (exec_attempt id f db) jobID.
Proof.
  intros H Hj Hc Hf k a. unfold exec_attempt. simpl. intros Hk Hja.
  apply lookup_alter_Some in Hk as [(-> & b & Hb & ->)|[N Hk]]; [by apply Hf|].
  destruct (active_attempt (a_state a)) eqn:E; [|done]. exfalso. apply N.
  rewrite <- Hja in Hj. assert (Hcur := active_is_current db k a j H Hk Hj E). congruence.
Qed.

(** ** Settlement *)
Lemma wf_detachAttempt jobID cause db : wf db -> quiet db jobID -> wf (detachAttempt jobID cause db).
Proof.
  intros H Hq. apply wf_exec_job; [done|]. intros j Hj. unfold settles.
  destruct cause; simpl; split_and!; auto.
Qed.

Lemma invalidate_attempts_demotes clock now cause a : demotes a (lose_attempt clock now cause a).
Proof. unfold lose_attempt. destruct cause; simpl; repeat case_match; done. Qed.

Lemma wf_invalidateAttempts clock now targetID cause db : wf db -> wf (invalidateAttempts clock now targetID cause db).
Proof.
  intros H. unfold invalidateAttempts.
  apply (wf_imap_attempts (fun id a => if invalidation_target db targetID cause id a && active_attempt (a_state a)
                                       then lose_attempt clock now cause a else a)); [done|].
  intros id a _. case_match; auto using demotes_refl, invalidate_attempts_demotes.
Qed.

Lemma lose_attempt_ends clock now cause a :
  a_job_id (lose_attempt clock now cause a) = a_job_id a /\ active_attempt (a_state (lose_attempt clock now cause a)) = false.
Proof. unfold lose_attempt. destruct cause; simpl; repeat case_match; done. Qed.

(** The settlement of a lease leaves the attempt's job quiet. *)
Lemma quiet_lease_settlement clock now id db jobID j :
  wf db -> db_jobs db !! jobID = Some j -> j_current_attempt_id j = Some id ->
  quiet (invalidateAttempts clock now id invalidateLeaseSettlement db) jobID.
Proof.
  intros H Hj Hc k a. unfold invalidateAttempts. simpl. rewrite map_lookup_imap.
  destruct (db_attempts db !! k) as [b|] eqn:Hb; [|done]. simpl. intros [= <-] Hja.
  case_match eqn:E; [done|].
  destruct (active_attempt (a_state b)) eqn:Hact; [|done]. rewrite andb_true_r in E.
  apply bool_decide_eq_false in E. exfalso. apply E.
  rewrite <- Hja in Hj. assert (Hcur := active_is_current db k b j H Hb Hj Hact). congruence.
Qed.

Lemma recoverOneshot_wf jitter now attempt reason db :
  wf db -> wf (recoverOneshot jitter now attempt reason db).2
           /\ db_attempts (recoverOneshot jitter now attempt reason db).2 = db_attempts db.
Proof.
  intros H. unfold recoverOneshot. repeat case_match; simpl; (split; [apply wf_exec_job; [done|]; intros ? ?; unfold settles; simpl; auto | done]).
Qed.

Lemma wf_settle_expired jitter now attempt j db :
  wf db -> quiet db (aa_jobID attempt) -> wf (settle_expired jitter now attempt j db).
Proof.
  intros H Hq. unfold settle_expired.
  match goal with |- context [match ?x with (_, _) => _ end] => destruct x as [next db1] eqn:E end.
  assert (H1 : wf db1 /\ quiet db1 (aa_jobID attempt)).
  { revert E. case_match.
    - destruct (recoverOneshot jitter now attempt InterruptionLeaseExpired db) as [st db0] eqn:Er.
      destruct (recoverOneshot_wf jitter now attempt InterruptionLeaseExpired db H) as [Hw Ha]. rewrite Er in Hw, Ha. simpl in Hw, Ha.
      intros [= <- <-]. split; [by apply wf_exec_attempt|]. apply quiet_demote; [|done].
      intros k a Hk. rewrite Ha in Hk. exact (Hq k a Hk).
    - by intros [= <- <-]. }
  destruct H1 as [H1 Hq1].
  assert (H2 : wf (exec_job_state (aa_jobID attempt) (fun j => j <| j_state := next |> <| j_updated_ns := now |>) db1)).
  { apply wf_exec_job_state; [done|]. intros i _. unfold settles. simpl. auto. }
  set (db2 := exec_job_state _ _ db1) in *.
  assert (Hq2 : quiet db2 (aa_jobID attempt)).
  { subst db2. unfold exec_job_state. repeat case_match; exact Hq1. }
  clearbody db2. clear E.
  assert (H3 : wf (if js_Restartable (aa_spec attempt) && bool_decide (next = JobQueued)
                   then detachAttempt (aa_jobID attempt) detachOneshotRecovery db2 else db2))
    by (case_match; [by apply wf_detachAttempt | done]).
  case_match; case_match; exact H3.
Qed.

Lemma wf_expireAttempt clock jitter now attempt db :
  wf db -> wf (expireAttempt clock jitter now attempt db).
Proof.
  intros H. unfold expireAttempt.
  destruct (db_attempts db !! aa_attemptID attempt) as [a|] eqn:Ha; [|done].
  destruct (active_attempt (a_state a)); [|done].
  set (db1 := invalidateAttempts _ _ _ _ db). assert (H1 : wf db1) by (by apply wf_invalidateAttempts).
  destruct (db_jobs db1 !! aa_jobID attempt) as [j|] eqn:Hj; [|done].
  destruct (bool_decide_reflect (j_current_attempt_id j = Some (aa_attemptID attempt))) as [Hc|]; [|done].
  apply wf_settle_expired; [done|]. by eapply quiet_lease_settlement.
Qed.

(** ** The invariant of a concrete store, by evaluation *)
Definition wf_job_b (db : DB) (r : string * JobRow) : bool :=
  (0 <=? j_fence_counter r.2) &&
  match j_current_attempt_id r.2 with
  | None => true
  | Some id => match db_attempts db !! id with
               | Some a => bool_decide (a_job_id a = r.1)
                           && bool_decide (a_fencing_token a = pretty (j_fence_counter r.2))
               | None => false
               end
  end.

Definition wf_attempt_b (db : DB) (r : string * AttemptRow) : bool :=
  match db_jobs db !! a_job_id r.2 with
  | None => false
  | Some j =>
      (negb (active_attempt (a_state r.2)) || (bool_decide (j_current_attempt_id j = Some r.1) && busy (j_state j)))
      && existsb (fun n => bool_decide (a_fencing_token r.2 = pretty (Z.of_nat n))) (seq 1 (Z.to_nat (j_fence_counter j)))
  end
  && forallb (fun r2 => bool_decide (r.1 = r2.1) || negb (bool_decide (a_job_id r.2 = a_job_id r2.2))
                        || negb (bool_decide (a_fencing_token r.2 = a_fencing_token r2.2))) (map_to_list (db_attempts db)).

Definition wf_b (db : DB) : bool :=
  forallb (wf_job_b db) (map_to_list (db_jobs db)) && forallb (wf_attempt_b db) (map_to_list (db_attempts db)).

Lemma forallb_map {V} (p : string * V -> bool) (m : gmap string V) k v :
  forallb p (map_to_list m) = true -> m !! k = Some v -> p (k, v) = true.
Proof. intros H Hk. rewrite forallb_forall in H. by apply H, list_elem_of_In, elem_of_map_to_list. Qed.

Lemma wf_eval db : wf_b db = true -> wf db.
Proof.
  intros [HJ HA]%andb_true_iff. split.
  - intros k j Hj. apply (forallb_map _ _ _ _ HJ), andb_true_iff in Hj as [Hz _]. by apply Z.leb_le.
  - intros id a Ha Hact. apply (forallb_map _ _ _ _ HA), andb_true_iff in Ha as [Ha _]. simpl in Ha.
    destruct (db_jobs db !! a_job_id a) as [j|]; [|done]. rewrite Hact in Ha. exists j.
    apply andb_true_iff in Ha as [[Hc%bool_decide_eq_true Hb]%andb_true_iff _]. done.
  - intros id a Ha. apply (forallb_map _ _ _ _ HA), andb_true_iff in Ha as [Ha _]. simpl in Ha.
    destruct (db_jobs db !! a_job_id a) as [j|]; [|done].
    apply andb_true_iff in Ha as [_ (n & Hn%in_seq & Ht%bool_decide_eq_true)%existsb_exists].
    exists j, (Z.of_nat n). split_and!; [done | done | lia | lia].
  - intros k j id Hj Hc. apply (forallb_map _ _ _ _ HJ), andb_true_iff in Hj as [_ Hj]. simpl in Hj. rewrite Hc in Hj.
    destruct (db_attempts db !! id) as [a|]; [|done]. exists a.
    apply andb_true_iff in Hj as [?%bool_decide_eq_true ?%bool_decide_eq_true]. done.
  - intros id1 a1 id2 a2 H1 H2 Ej Et. apply (forallb_map _ _ _ _ HA), andb_true_iff in H1 as [_ H1].
    apply (forallb_map _ _ _ _ H1) in H2. simpl in H2. rewrite (bool_decide_eq_true_2 _ Ej), (bool_decide_eq_true_2 _ Et) in H2.
    rewrite !orb_false_r in H2. by apply bool_decide_eq_true in H2.
Qed.
