(* ===== verification/Preservation.v ===== *)
(** * Every handler preserves the fencing invariant *)
From S2P Require Import Prelude Order States Contract GoStrings JobSpec L1Types RestartPolicy Database.
From S2P Require Import LeaseClock Authority Credentials Summaries Lifecycle Completion Placement Claim.
From S2P Require Import Invariant.
#[local] Open Scope string_scope.
#[local] Open Scope list_scope.
#[local] Open Scope Z_scope.

Create HintDb wefty.
#[export] Hint Resolve wf_expireAttempt wf_invalidateAttempts wf_prune demotes_refl : wefty.

(** ** Statements that leave both tables alone, or change them harmlessly *)
Lemma wf_same db db' : db_jobs db' = db_jobs db -> db_attempts db' = db_attempts db -> wf db -> wf db'.
Proof. intros Hj Ha. unfold wf. by rewrite Hj, Ha. Qed.

Lemma wf_exec_service jobID f db : wf db -> wf (exec_service jobID f db).
Proof. exact id. Qed.

Lemma wf_exec_node nodeID f db : wf db -> wf (exec_node nodeID f db).
Proof. exact id. Qed.

Lemma wf_establishHealth clock now attemptID cause db : wf db -> wf (establishHealth clock now attemptID cause db).
Proof. intros H. unfold establishHealth. repeat case_match; exact H. Qed.

Lemma wf_promoteExecution now attemptID db : wf db -> wf (promoteExecution now attemptID db).
Proof.
  intros H. unfold promoteExecution. repeat case_match; try exact H.
  apply wf_exec_job_state; [done|]. intros ? _. unfold settles. simpl. auto.
Qed.

Lemma wf_sleep_gap write sample db : wf db -> wf (withLeaseSleepGap write sample db).2.
Proof.
  intros H. unfold withLeaseSleepGap. repeat (case_match; simpl; try exact H); simplify_eq/=.
  all: eapply fenced_attempts; [exact H|]; intros k; simpl; rewrite lookup_fmap;
    destruct (db_attempts db !! k); simpl; [|done]; unfold credit_attempt; case_match; done.
Qed.
#[export] Hint Resolve wf_exec_service wf_exec_node wf_establishHealth wf_promoteExecution wf_sleep_gap : wefty.

(** [beginWriteTransaction] only credits leases and heartbeats. *)
Lemma post_begin {R} at_ (Q : attemptClock -> DB -> Prop) (K : result ErrorCode R -> DB -> Prop) db :
  wf db -> (forall clock db', wf db' -> Q clock db') -> post (beginWriteTransaction at_) Q K db.
Proof.
  intros H HQ. unfold ends, beginWriteTransaction.
  assert (Hs := wf_sleep_gap true (at_sample at_) db H).
  destruct (withLeaseSleepGap true (at_sample at_) db). by apply HQ.
Qed.

(** The rows an authority was read from. *)
Lemma read_authority_rows id db att :
  read_authority id db = Some att ->
  exists a j, db_attempts db !! id = Some a /\ db_jobs db !! a_job_id a = Some j
    /\ aa_attemptID att = id /\ aa_jobID att = a_job_id a /\ aa_state att = a_state a
    /\ aa_fencingToken att = a_fencing_token a /\ aa_currentAttempt att = j_current_attempt_id j
    /\ aa_spec att = j_spec j.
Proof.
  unfold read_authority. destruct (db_attempts db !! id) as [a|]; [|done].
  destruct (db_jobs db !! a_job_id a) as [j|] eqn:Hj, (db_nodes db !! a_node_id a); try done.
  intros [= <-]. by exists a, j.
Qed.

(** An update of an attempt whose authority was read as active. *)
Lemma wf_exec_active id f db att :
  wf db -> read_authority id db = Some att -> active_attempt (aa_state att) = true ->
  (forall a, a_job_id (f a) = a_job_id a /\ a_fencing_token (f a) = a_fencing_token a) -> wf (exec_attempt id f db).
Proof.
  intros H (a & j & Ha & _ & _ & _ & Hs & _)%read_authority_rows Hact Hf.
  apply wf_exec_attempt; [done|]. intros b Hb. simplify_eq. rewrite Hs in Hact.
  destruct (Hf a) as [? ?]. by split_and!.
Qed.

Ltac wp_extra ::=
  lazymatch goal with
  | |- ends (beginWriteTransaction _) _ _ _ _ => apply post_begin; [assumption|]; intros ? ? ?
  | |- ends (readAttemptAuthority _) _ _ _ _ => unfold readAttemptAuthority
  | |- ends (read_job _) _ _ _ _ => unfold read_job
  | |- ends (read_cancellation _) _ _ _ _ => unfold read_cancellation
  | |- ends (expire_and_refuse _ _ _ _) _ _ _ _ => unfold expire_and_refuse
  end.

Lemma startable_active (kind : bool) s :
  negb (bool_decide (s = AttemptClaimed)) && negb (kind && bool_decide (s = AttemptRunning)) = false ->
  active_attempt s = true.
Proof. destruct s, kind; done. Qed.

Lemma wf_clear_chown jobID db : wf db -> wf (clear_chown jobID db).
Proof. exact id. Qed.
#[export] Hint Resolve wf_clear_chown : wefty.

(** Any change of a quiet job's state that keeps its fence. *)
Lemma wf_exec_quiet jobID f db :
  wf db -> quiet db jobID ->
  (forall j, j_fence_counter (f j) = j_fence_counter j) ->
  (forall j, j_current_attempt_id (f j) = j_current_attempt_id j \/ j_current_attempt_id (f j) = None) ->
  wf (exec_job_state jobID f db).
Proof.
  intros H Hq Hfence Hcur. apply wf_exec_job_state; [done|]. intros j _. split_and!; [done | | by right].
  destruct (Hcur j); auto.
Qed.

(** Close a goal about an attempt row whose authority was just read as active. *)
Ltac active_row :=
  eapply wf_exec_active; [eassumption | eassumption | first [assumption | by apply negb_false_iff | by eapply startable_active] | done].
#[export] Hint Extern 3 (wf (exec_attempt _ _ _)) => active_row : wefty.
(** Updates that leave the state, the fence and the current attempt as they are. *)
#[export] Hint Extern 2 (wf (exec_attempt _ _ _)) => apply wf_exec_attempt; [|by intros ? _] : wefty.
#[export] Hint Extern 2 (wf (exec_job _ _ _)) =>
  apply wf_exec_job; [|by intros ? _; unfold settles; simpl; auto] : wefty.

Section Handlers.
Context (cfg : config).

Lemma wf_RenewLease at_ identity jobID attemptID token db :
  wf db -> wf (run (RenewLease cfg at_ identity jobID attemptID token) db).1.
Proof. intros H. apply post_run; [done|]. unfold RenewLease. wp; eauto with wefty. Qed.

Lemma wf_ObserveAttemptImage at_ identity jobID attemptID request db :
  wf db -> wf (run (ObserveAttemptImage cfg at_ identity jobID attemptID request) db).1.
Proof. intros H. apply post_run; [done|]. unfold ObserveAttemptImage. wp; eauto with wefty. Qed.

Lemma wf_StartAttempt at_ identity jobID attemptID token db :
  wf db -> wf (run (StartAttempt cfg at_ identity jobID attemptID token) db).1.
Proof. intros H. apply post_run; [done|]. unfold StartAttempt. wp; eauto with wefty. Qed.

Lemma wf_SetAttemptPublication at_ identity jobID attemptID request db :
  wf db -> wf (run (SetAttemptPublication cfg at_ identity jobID attemptID request) db).1.
Proof. intros H. apply post_run; [done|]. unfold SetAttemptPublication. wp; eauto 6 with wefty. Qed.

Lemma wf_InterruptRestartableAttempt at_ nodeID attemptID request db :
  wf db -> wf (run (InterruptRestartableAttempt cfg at_ nodeID attemptID request) db).1.
Proof. intros H. apply post_run; [done|]. unfold InterruptRestartableAttempt. wp; eauto with wefty. Qed.

Lemma wf_CancelJob at_ jobID caller db : wf db -> wf (run (CancelJob at_ jobID caller) db).1.
Proof.
  intros H. apply post_run; [done|]. unfold CancelJob. wp; eauto with wefty.
  all: apply wf_exec_quiet; auto; eapply quiet_not_busy; [done | eassumption |];
    match goal with E : j_state _ = JobQueued |- _ => by rewrite E end.
Qed.

Lemma quiet_invalidate clock now targetID cause db jobID :
  quiet db jobID -> quiet (invalidateAttempts clock now targetID cause db) jobID.
Proof.
  intros Hq k a. unfold invalidateAttempts. simpl. rewrite map_lookup_imap.
  destruct (db_attempts db !! k) as [b|] eqn:Hb; [|done]. simpl. intros [= <-] Hja.
  destruct (_ && _); [apply lose_attempt_ends | by eapply Hq].
Qed.

(** The image latch fails the job before it invalidates the attempt; the
    result is the same as the other way round. *)
Lemma wf_latch clock now jobID f db :
  wf db ->
  (forall j, j_fence_counter (f j) = j_fence_counter j) ->
  (forall j, j_current_attempt_id (f j) = j_current_attempt_id j) ->
  let db' := invalidateAttempts clock now jobID invalidateImageLatch (exec_job_state jobID f db) in
  wf db' /\ quiet db' jobID.
Proof.
  intros H Hfence Hcur db'.
  set (lost := invalidateAttempts clock now jobID invalidateImageLatch db).
  assert (Hcurrent : db_jobs (exec_job_state jobID f db) !! jobID ≫= j_current_attempt_id =
                     db_jobs db !! jobID ≫= j_current_attempt_id).
  { unfold exec_job_state. destruct (db_jobs db !! jobID) as [j|] eqn:E; [|by rewrite E].
    case_match; simpl; rewrite lookup_insert_eq; simpl; unfold scrub_row; case_match; simpl; by rewrite Hcur. }
  assert (Ha : db_attempts db' = db_attempts lost).
  { subst db' lost. unfold invalidateAttempts, invalidation_target. rewrite Hcurrent.
    unfold exec_job_state. repeat case_match; reflexivity. }
  assert (Hj : db_jobs db' = db_jobs (exec_job_state jobID f lost)).
  { subst db' lost. unfold exec_job_state, invalidateAttempts. simpl. repeat case_match; reflexivity. }
  assert (Hlost : wf lost) by (by apply wf_invalidateAttempts).
  assert (Hq : quiet lost jobID).
  { intros k a. subst lost. unfold invalidateAttempts. simpl. rewrite map_lookup_imap.
    destruct (db_attempts db !! k) as [b|] eqn:Hb; [|done]. simpl. intros [= <-] Hja.
    case_match eqn:E; [apply (lose_attempt_ends clock now invalidateImageLatch)|].
    destruct (active_attempt (a_state b)) eqn:Hact; [|done]. exfalso. rewrite andb_true_r in E.
    apply bool_decide_eq_false in E. destruct (fenced_active _ _ H k b Hb Hact) as (j & Hjb & Hc & _).
    rewrite Hja in Hjb. apply E. by rewrite Hjb. }
  split.
  - eapply wf_same; [exact Hj | by rewrite Ha; unfold exec_job_state; repeat case_match |].
    apply wf_exec_quiet; auto.
  - intros k a Hk. rewrite Ha in Hk. exact (Hq k a Hk).
Qed.

Lemma wf_LatchServiceImageReconciliationFailure at_ identity jobID nodeID boot failure db :
  wf db -> wf (run (LatchServiceImageReconciliationFailure at_ identity jobID nodeID boot failure) db).1.
Proof.
  intros H. apply post_run; [done|]. unfold LatchServiceImageReconciliationFailure, transitionServiceJob. wp; try done;
    apply wf_exec_service; (apply wf_exec_job; [|by intros ? _; unfold settles; simpl; auto]); apply wf_detachAttempt.
  1,2: by eapply wf_latch; [eapply wf_exec_service|..].
  - auto with wefty.
  - apply quiet_invalidate. eapply quiet_not_busy; [done | eassumption |].
    match goal with E : negb (bool_decide (j_state _ = _)) = false |- _ =>
      apply negb_false_iff, bool_decide_eq_true in E; by rewrite E end.
Qed.

(** ** Completion *)
Lemma wf_recoverOneshot jitter now attempt reason db : wf db -> wf (recoverOneshot jitter now attempt reason db).2.
Proof. intros H. apply recoverOneshot_wf, H. Qed.

Lemma wf_record_spawn_failures jobID nodeID r resource db :
  wf db -> wf (record_spawn_failures jobID nodeID r resource db).
Proof.
  intros H. apply (wf_same db); [..|done]; unfold record_spawn_failures, recordPublishedPortOccupied;
    by repeat case_match.
Qed.

Lemma wf_settle_computer now attempt request computerID db :
  wf db -> wf (settle_computer now attempt request computerID db).
Proof.
  intros H. apply (wf_same db); [..|done]; unfold settle_computer, recordOwedComputerRevocation;
    by repeat case_match.
Qed.
#[local] Hint Resolve wf_record_spawn_failures wf_settle_computer : wefty.

(** Tables that agree on the attempts and on which attempt is current. *)
Definition same_work (db db' : DB) : Prop :=
  db_attempts db' = db_attempts db /\
  forall jobID, db_jobs db' !! jobID ≫= j_current_attempt_id = db_jobs db !! jobID ≫= j_current_attempt_id.

Lemma same_work_refl db : same_work db db.
Proof. done. Qed.

Lemma same_work_exec_job jobID f db :
  (forall j, j_current_attempt_id (f j) = j_current_attempt_id j) -> same_work db (exec_job jobID f db).
Proof.
  intros Hf. split; [done|]. intros k. unfold exec_job. simpl. destruct (decide (k = jobID)) as [->|N].
  - rewrite lookup_alter_eq. destruct (db_jobs db !! jobID); simpl; [by rewrite Hf | done].
  - by rewrite lookup_alter_ne.
Qed.

Lemma same_work_trans db1 db2 db3 : same_work db1 db2 -> same_work db2 db3 -> same_work db1 db3.
Proof. intros [A1 C1] [A2 C2]. split; [congruence|]. intros k. by rewrite C2, C1. Qed.

Lemma post_recover {R} now attempt reason Q (K : result ErrorCode R -> DB -> Prop) db :
  wf db -> (forall st db', wf db' -> same_work db db' -> Q (st, AttemptInterrupted) db') ->
  post (recover cfg now attempt reason) Q K db.
Proof.
  intros H HQ. unfold ends, recover. assert (Hw := wf_recoverOneshot (cfg_restartJitter cfg) now attempt reason db H).
  assert (Hs : same_work db (recoverOneshot (cfg_restartJitter cfg) now attempt reason db).2)
    by (unfold recoverOneshot; repeat case_match; by apply same_work_exec_job).
  destruct (recoverOneshot _ _ _ _ _). by apply HQ.
Qed.

Lemma classify_ends lease jitter job request failure now started restart :
  active_attempt (scp_attemptState (classifyServiceCompletion lease jitter job request failure now started restart)) = false.
Proof.
  assert (E : active_attempt (completionStatesAttempt (cr_Result request)) = false)
    by (unfold completionStatesAttempt; by case_match).
  unfold classifyServiceCompletion. repeat case_match; exact E.
Qed.

Lemma completionStates_ends r js ast : completionStates r = (js, ast) -> active_attempt ast = false.
Proof. unfold completionStates. case_match; by intros [= <- <-]. Qed.

(** The verdict ends the attempt and only prepares the job. *)
Lemma post_verdict {R} now attempt request canceled job service resource Q (K : result ErrorCode R -> DB -> Prop) db :
  wf db ->
  (forall js ast reason policy db', wf db' -> same_work db db' -> active_attempt ast = false ->
     Q (js, ast, reason, policy) db') ->
  post (completion_verdict cfg now attempt request canceled job service resource) Q K db.
Proof.
  intros H HQ. unfold completion_verdict. wp; try (apply post_recover; [done|]; intros; wp); simplify_eq; apply HQ;
    eauto using same_work_refl, classify_ends, completionStates_ends.
Qed.

(** The attempt is active and current, the situation in which it is completed. *)
Definition working (db : DB) (id jobID : string) : Prop :=
  wf db /\ exists a j, db_attempts db !! id = Some a /\ a_job_id a = jobID /\ active_attempt (a_state a) = true
    /\ db_jobs db !! jobID = Some j /\ j_current_attempt_id j = Some id.

Lemma working_same db db' id jobID : working db id jobID -> wf db' -> same_work db db' -> working db' id jobID.
Proof.
  intros (_ & a & j & Ha & Hja & Hact & Hj & Hc) H' [HA HC]. split; [done|].
  specialize (HC jobID). rewrite Hj in HC. simpl in HC. rewrite Hc in HC.
  destruct (db_jobs db' !! jobID) as [j'|] eqn:Hj'; [|done]. exists a, j'. by rewrite HA.
Qed.

Lemma working_attempt db id jobID f :
  working db id jobID ->
  (forall a, a_job_id (f a) = a_job_id a /\ a_fencing_token (f a) = a_fencing_token a /\ active_attempt (a_state (f a)) = true) ->
  working (exec_attempt id f db) id jobID.
Proof.
  intros (H & a & j & Ha & Hja & Hact & Hj & Hc) Hf. destruct (Hf a) as (F1 & F2 & F3). split.
  - apply wf_exec_attempt; [done|]. intros b Hb. simplify_eq. by split_and!.
  - exists (f a), j. unfold exec_attempt. simpl. rewrite lookup_alter_eq, Ha. split_and!; try done. congruence.
Qed.

Lemma working_end db id jobID f :
  working db id jobID ->
  (forall a, a_job_id (f a) = a_job_id a /\ a_fencing_token (f a) = a_fencing_token a /\ active_attempt (a_state (f a)) = false) ->
  wf (exec_attempt id f db) /\ quiet (exec_attempt id f db) jobID.
Proof.
  intros (H & a & j & Ha & Hja & Hact & Hj & Hc) Hf. split.
  - apply wf_exec_attempt; [done|]. intros b _. destruct (Hf b) as (F1 & F2 & F3). split_and!; [done..|]. by rewrite F3.
  - eapply quiet_end; [done | exact Hj | exact Hc |]. intros b _. destruct (Hf b) as (F1 & _ & F3). done.
Qed.

Lemma working_promote now id db jobID : working db id jobID -> working (promoteExecution now id db) id jobID.
Proof.
  intros Hw. eapply working_same; [exact Hw | by apply wf_promoteExecution, Hw |].
  unfold promoteExecution. repeat case_match; try apply same_work_refl.
  unfold exec_job_state. simplify_eq. match goal with E : db_jobs db !! _ = Some _ |- _ => rewrite E; rename E into Hj end.
  split; [by case_match|]. intros k. destruct (decide (k = a_job_id a)) as [->|N]; case_match; simpl;
    rewrite ?lookup_insert_eq, ?lookup_insert_ne by done; try done; rewrite Hj; done.
Qed.

Lemma prestart_retry_keeps now j b f i :
  prestart_retry cfg now j = (b, f) ->
  j_fence_counter (f i) = j_fence_counter i /\ j_current_attempt_id (f i) = j_current_attempt_id i /\ j_state (f i) = j_state i.
Proof. unfold prestart_retry. case_match; by intros [= <- <-]. Qed.

Lemma quiet_detach jobID cause db k : quiet db k -> quiet (detachAttempt jobID cause db) k.
Proof. exact id. Qed.

(** Everything after the attempt has ended. *)
Lemma wf_complete_active now att request canceled db :
  working db (aa_attemptID att) (aa_jobID att) ->
  post (complete_active cfg now att request canceled) (fun _ => wf) (fun _ => wf) db.
Proof.
  intros Hw. unfold complete_active. set (id := aa_attemptID att) in *. set (jobID := aa_jobID att) in *.
  wp. apply post_verdict; [by apply Hw|]. intros js ast reason policy db1 H1 Hs Hast.
  assert (Hw1 := working_same _ _ _ _ Hw H1 Hs). clear Hw H1 Hs.
  apply (ends_seq (fun _ db => working db id jobID)).
  { wp; [|done]. eapply working_same; [exact Hw1 | |].
    - apply wf_exec_job; [by apply Hw1|]. intros i _. unfold settles.
      edestruct (prestart_retry_keeps now a0 b j i) as (-> & -> & ->); auto.
    - apply same_work_exec_job. intros i. by eapply prestart_retry_keeps. }
  intros js' db2 Hw2. apply (ends_seq (fun _ db => working db id jobID)).
  { wp; [|done]. by apply working_promote, working_attempt. }
  intros _ db3 Hw3. apply (ends_seq (fun _ db => wf db /\ quiet db jobID)).
  { wp. by apply working_end. }
  intros _ db4 [H4 Hq4]. apply (ends_seq (fun _ db => wf db /\ quiet db jobID)).
  { wp; [|done]. split; [by apply wf_detachAttempt | exact Hq4]. }
  intros _ db5 [H5 Hq5]. apply (ends_seq (fun _ => wf)).
  { wp. apply wf_exec_quiet; auto. }
  intros _ db6 H6. wp; eauto 8 with wefty.
Qed.

Lemma validateAttemptAuthority_current identity jobID attemptID token att u :
  validateAttemptAuthority identity jobID attemptID token att = Ok u ->
  aa_currentAttempt att = Some attemptID /\ aa_jobID att = jobID /\ aa_fencingToken att = token
  /\ aa_identityNodeID att = identity.
Proof.
  unfold validateAttemptAuthority. intros H. repeat case_match; simplify_eq;
  repeat match goal with
  | E : negb _ = false |- _ => apply negb_false_iff in E
  | E : bool_decide _ = true |- _ => apply bool_decide_eq_true in E
  | E : _ || _ = false |- _ => apply orb_false_iff in E as [? ?]
  end; done.
Qed.

Lemma wf_record_late_result now att request db : wf db -> wf (record_late_result cfg now att request db).
Proof. intros H. by apply wf_exec_attempt. Qed.
#[local] Hint Resolve wf_record_late_result : wefty.

(** An attempt whose authority validates and that is active is being worked on. *)
Lemma validated_working identity jobID attemptID token att u db :
  wf db -> read_authority attemptID db = Some att ->
  validateAttemptAuthority identity jobID attemptID token att = Ok u -> active_attempt (aa_state att) = true ->
  working db (aa_attemptID att) (aa_jobID att).
Proof.
  intros H (a & j & Ha & Hj & -> & Hja & Hs & _ & Hcur & _)%read_authority_rows Hv Hact.
  apply validateAttemptAuthority_current in Hv as (Hc & _).
  split; [done|]. exists a, j. rewrite Hja. split_and!; try done; congruence.
Qed.

Lemma wf_CompleteAttemptOutcome at_ identity jobID attemptID request db :
  wf db -> wf (run (CompleteAttemptOutcome cfg at_ identity jobID attemptID request) db).1.
Proof.
  intros H. apply post_run; [done|]. unfold CompleteAttemptOutcome. wp; eauto with wefty.
  - exfalso. destruct (active_attempt (aa_state a1)) eqn:E; [done | congruence].
  - eapply wf_complete_active, validated_working; eassumption.
Qed.

(** ** Claims *)
Lemma wf_fail_prestart_gaps now db : wf db -> wf (fail_prestart_gaps now db).
Proof.
  intros H. unfold fail_prestart_gaps.
  set (f := fun j : JobRow => _).
  assert (Hids : forall id, id ∈ map fst (List.filter (fun r => prestart_gap db now r.1 r.2) (map_to_list (db_jobs db))) ->
                 quiet db id).
  { intros id ([k j] & Hk & [Hin Hp]%filter_In)%list_elem_of_In%in_map_iff. simpl in Hk. subst k.
    apply list_elem_of_In, elem_of_map_to_list in Hin. eapply quiet_not_busy; [done | exact Hin|].
    unfold prestart_gap in Hp. rewrite !andb_true_iff, bool_decide_eq_true in Hp. simpl in Hp.
    destruct Hp as [[E _] _]. by rewrite E. }
  revert Hids. generalize (map fst (List.filter (fun r => prestart_gap db now r.1 r.2) (map_to_list (db_jobs db)))).
  intros ids. revert db H. induction ids as [|id ids IH]; intros db H Hids; simpl; [done|]. apply IH.
  - apply wf_exec_quiet; [done | apply Hids; by left | done | by right].
  - intros k Hk. unfold exec_job_state. repeat case_match; apply (Hids k); by right.
Qed.

(** Creating the attempt of a freshly fenced job. *)
Lemma wf_claim db db' jobID j j' attemptID a :
  wf db -> db_jobs db !! jobID = Some j -> quiet db jobID -> db_attempts db !! attemptID = None ->
  db_jobs db' = <[jobID := j']> (db_jobs db) -> db_attempts db' = <[attemptID := a]> (db_attempts db) ->
  j_fence_counter j' = j_fence_counter j + 1 -> j_current_attempt_id j' = Some attemptID -> busy (j_state j') = true ->
  a_job_id a = jobID -> a_fencing_token a = pretty (j_fence_counter j') -> wf db'.
Proof.
  intros H Hj Hq Hnew EJ EA Hfence Hcur Hbusy Hja Htok. unfold wf. rewrite EJ, EA.
  assert (Hpos := fenced_counter _ _ H _ _ Hj).
  assert (Hold : forall id b, db_attempts db !! id = Some b -> a_job_id b = jobID ->
                 a_fencing_token b <> pretty (j_fence_counter j')).
  { intros id b Hb Hjb E. destruct (fenced_token _ _ H id b Hb) as (i & n & Hi & Ht & Hn).
    rewrite Hjb in Hi. simplify_eq. rewrite E in Ht. apply (inj pretty) in Ht. lia. }
  split.
  - intros k i Hk. apply lookup_insert_Some in Hk as [[<- <-]|[_ Hk]]; [lia | by eapply (fenced_counter _ _ H)].
  - intros id b Hb Hact. apply lookup_insert_Some in Hb as [[<- <-]|[N Hb]].
    + exists j'. by rewrite Hja, lookup_insert_eq.
    + assert (a_job_id b <> jobID) by (intros E; by rewrite (Hq id b Hb E) in Hact).
      rewrite lookup_insert_ne by done. by apply (fenced_active _ _ H).
  - intros id b Hb. apply lookup_insert_Some in Hb as [[<- <-]|[N Hb]].
    + exists j', (j_fence_counter j'). rewrite Hja, lookup_insert_eq. split_and!; [done | done | lia | lia].
    + destruct (fenced_token _ _ H id b Hb) as (i & n & Hi & Ht & Hn).
      destruct (decide (a_job_id b = jobID)) as [E|E].
      * exists j', n. rewrite E, lookup_insert_eq. rewrite E in Hi. simplify_eq. split_and!; [done | done | lia | lia].
      * exists i, n. by rewrite lookup_insert_ne.
  - intros k i id Hk Hc. apply lookup_insert_Some in Hk as [[<- <-]|[N Hk]].
    + rewrite Hcur in Hc. injection Hc as <-. exists a. by rewrite lookup_insert_eq.
    + destruct (fenced_current _ _ H _ _ _ Hk Hc) as (b & Hb & ? & ?). exists b.
      rewrite lookup_insert_ne; [done|]. intros ->. congruence.
  - intros id1 a1 id2 a2 H1 H2 Ej Et.
    apply lookup_insert_Some in H1 as [[<- <-]|[N1 H1]]; apply lookup_insert_Some in H2 as [[<- <-]|[N2 H2]]; [done|..].
    + exfalso. apply (Hold id2 a2 H2); congruence.
    + exfalso. apply (Hold id1 a1 H1); congruence.
    + by eapply (fenced_unique _ _ H).
Qed.

Lemma post_bind_row {V} (get : DB -> gmap string V) set id p f Q K db :
  (forall m db, db_jobs (set m db) = db_jobs db /\ db_attempts (set m db) = db_attempts db) ->
  wf db -> (forall db', wf db' -> Q tt db') -> post (bind_row get set id p f) Q K db.
Proof.
  intros Hset H HQ. unfold ends, bind_row. repeat case_match; try done; simplify_eq. apply HQ.
  edestruct Hset as [Ej Ea]. eapply wf_same; [exact Ej | exact Ea | done].
Qed.

Lemma post_credential {R} hash scope created Q (K : result ErrorCode R -> DB -> Prop) db :
  wf db -> (forall db', wf db' -> Q tt db') -> post (insertAttemptCredential hash scope created) Q K db.
Proof. intros H HQ. unfold ends, insertAttemptCredential. repeat case_match; simplify_eq; try done. by apply HQ. Qed.

Lemma post_bind_service nodeID jobID now Q K db :
  wf db -> (forall storage db', wf db' -> Q storage db') -> post (bind_service nodeID jobID now) Q K db.
Proof.
  intros H HQ. unfold bind_service. wp. apply post_bind_row; [done | done|]. intros db1 H1. wp; [|by apply HQ].
  apply post_bind_row; [done | done|]. intros db2 H2. wp. by apply HQ.
Qed.

(** The tables between the fence and the insertion of the attempt. *)
Definition fencing (db db' : DB) (jobID attemptID : string) (fence : Z) : Prop :=
  exists j', db_jobs db' = <[jobID := j']> (db_jobs db) /\ db_attempts db' = db_attempts db
    /\ j_fence_counter j' = fence /\ j_current_attempt_id j' = Some attemptID /\ j_state j' = JobClaimed.

Lemma fencing_claimed attemptID now jobID db j :
  db_jobs db !! jobID = Some j ->
  fencing db (exec_job_state jobID (claimed_job attemptID now) db) jobID attemptID (j_fence_counter j + 1).
Proof.
  intros Hj. unfold exec_job_state. rewrite Hj. exists (scrub_row (claimed_job attemptID now j)).
  split_and!; [by case_match | by case_match | unfold scrub_row; by case_match ..].
Qed.

Lemma fencing_exec_job db db' jobID attemptID fence f :
  fencing db db' jobID attemptID fence ->
  (forall i, j_fence_counter (f i) = j_fence_counter i /\ j_current_attempt_id (f i) = j_current_attempt_id i
             /\ j_state (f i) = j_state i) ->
  fencing db (exec_job jobID f db') jobID attemptID fence.
Proof.
  intros (j' & EJ & EA & Hf & Hc & Hs) Hk. exists (f j'). destruct (Hk j') as (F1 & F2 & F3).
  rewrite F1, F2, F3. split_and!; try done. unfold exec_job. simpl. rewrite EJ.
  apply map_eq. intros k. destruct (decide (k = jobID)) as [->|N];
    [by rewrite lookup_alter_eq, !lookup_insert_eq | by rewrite lookup_alter_ne, !lookup_insert_ne].
Qed.

Lemma post_insert_attempt db db' jobID j attemptID a Q K :
  wf db -> db_jobs db !! jobID = Some j -> quiet db jobID -> fencing db db' jobID attemptID (j_fence_counter j + 1) ->
  a_job_id a = jobID -> a_fencing_token a = pretty (j_fence_counter j + 1) ->
  (forall db'', wf db'' -> Q tt db'') -> post (insert_attempt attemptID a) Q K db'.
Proof.
  intros H Hj Hq (j' & EJ & EA & Hf & Hc & Hs) Hja Ht HQ. unfold ends, insert_attempt. rewrite EA.
  destruct (db_attempts db !! attemptID) eqn:Hnew; [done|]. apply HQ.
  eapply (wf_claim db _ jobID j j' attemptID a); try done; simpl; [by rewrite Hs | congruence].
Qed.

Lemma wf_claim_selected clock now class nodeID boot generation attemptID token hash jobID hint db j :
  wf db -> db_jobs db !! jobID = Some j -> busy (j_state j) = false ->
  post (claim_selected cfg clock now class nodeID boot generation attemptID token hash jobID hint)
    (fun _ => wf) (fun _ => wf) db.
Proof.
  intros H Hj Hb. assert (Hq := quiet_not_busy _ _ _ H Hj Hb). unfold claim_selected.
  apply (ends_seq (fun _ db' => fencing db db' jobID attemptID (j_fence_counter j + 1))).
  { wp. by apply fencing_claimed. }
  intros _ db1 Hf1.
  assert (Hfence : forall i, db_jobs db1 !! jobID = Some i -> j_fence_counter i = j_fence_counter j + 1).
  { destruct Hf1 as (j' & EJ & _ & E & _). intros i. rewrite EJ, lookup_insert_eq. by intros [= <-]. }
  wp; (eapply post_insert_attempt; [exact H | exact Hj | exact Hq | | done | simpl; by rewrite Hfence |]).
  2,4: intros db2 H2; wp; (apply post_credential; [done|]); intros db3 H3; wp;
    try (apply post_bind_service; [done|]; intros storage db4 H4; wp); by apply wf_prune.
  - by apply fencing_exec_job.
  - exact Hf1.
Qed.

Lemma wf_claimJob lower_table at_ identity nodeID boot class poll excluded attemptID token hash db :
  wf db -> wf (run (claimJob cfg lower_table at_ identity nodeID boot class poll excluded attemptID token hash) db).1.
Proof.
  intros H. apply post_run; [done|]. unfold claimJob. wp; eauto using wf_fail_prestart_gaps with wefty.
  all: match goal with E : claim_candidate _ _ _ _ _ _ _ _ = Some _ |- _ =>
      apply claim_candidate_claimable in E as [? Hc%claimable_queued] end;
    eapply wf_claim_selected; [|eassumption|by rewrite Hc]; eauto using wf_fail_prestart_gaps with wefty.
Qed.
End Handlers.
