(* ===== verification/LogPreservation.v ===== *)
(** * Uploads preserve the fencing invariant *)
From S2P Require Import Prelude Order States Contract GoStrings JobSpec L1Types RestartPolicy Database.
From S2P Require Import LeaseClock Authority Credentials Summaries LogRetention Lifecycle Logs Completion Placement Claim.
From S2P Require Import Invariant Preservation.
#[local] Open Scope string_scope.
#[local] Open Scope list_scope.
#[local] Open Scope Z_scope.

(** ** What leaves the rows of jobs and attempts alone *)
Definition same_rows (db db' : DB) : Prop := db_jobs db' = db_jobs db /\ db_attempts db' = db_attempts db.

#[export] Instance same_rows_preorder : PreOrder same_rows.
Proof. split; [done|]. intros a b c [? ?] [? ?]. split; congruence. Qed.

Lemma delete_log_rows ordinal db : same_rows db (delete_log_row ordinal db).
Proof.
  unfold delete_log_row. set (gone := List.filter _ _). 
  induction gone as [|g gone IH] using rev_ind; [done|]. rewrite fold_left_app. exact IH.
Qed.

Lemma evict_row_rows c e : same_rows (ev_db e) (ev_db (evict_row c e).2).
Proof.
  unfold evict_row, deleteLogEvent. assert (H := delete_log_rows (l_ordinal c) (ev_db e)).
  repeat (case_match; simplify_eq/=); done.
Qed.

Lemma evict_batch_rows target l d e : same_rows (ev_db e) (ev_db (evict_batch target l d e).2).
Proof.
  revert d e. induction l as [|c l IH]; intros d e; simpl; [done|]. destruct (eviction_done target e); [done|].
  destruct (_ <? _); [done|]. assert (H := evict_row_rows c e). destruct (evict_row c e) as [gone e1]. simpl in H.
  etrans; [exact H|apply IH].
Qed.

Lemma evict_rounds_rows fuel jobID target e : same_rows (ev_db e) (ev_db (evict_rounds fuel jobID target e)).
Proof.
  revert e. induction fuel as [|fuel IH]; intros e; simpl; [done|]. destruct (eviction_done target e); [done|].
  set (l := logEvictionCandidates _ _ _). assert (H := evict_batch_rows target l 0 e).
  destruct (evict_batch target l 0 e) as [[returned d] e1]. simpl in H. repeat case_match; try exact H.
  etrans; [exact H|apply IH].
Qed.

Lemma record_truncations_rows perJob bound now db : same_rows db (recordLogTruncations perJob bound now db).2.
Proof.
  unfold recordLogTruncations. match goal with |- context [fold_left ?f ?l _] =>
    enough (G : forall total d, same_rows d (fold_left f l (total, d)).2) by apply G end.
  induction (sort_by _ _) as [|id ids IH]; intros total d; simpl; [done|]. etrans; [|apply IH].
  unfold recordLogTruncation. by case_match.
Qed.

Lemma evict_record_rows jobID budget target bound now db :
  let e := evictLogEvents jobID budget target db in
  same_rows db (recordLogTruncations (ev_perJob e) bound now (ev_db e)).2.
Proof.
  simpl. etrans; [|apply record_truncations_rows].
  exact (evict_rounds_rows (S (length (db_log_events db))) jobID target (mkeviction budget 0 ∅ db)).
Qed.

Lemma cap_rows bounds jobID now budget db : same_rows db (enforceJobLogByteRetention bounds jobID now budget db).2.
Proof.
  unfold enforceJobLogByteRetention. cbv zeta. destruct (_ <=? _); [done|].
  match goal with |- context [evictLogEvents _ _ ?t _] => assert (H := evict_record_rows jobID budget t LogRetentionBytes now db) end.
  simpl in H. by destruct (recordLogTruncations _ _ _ _).
Qed.

Lemma ceiling_rows bounds now budget db : same_rows db (enforceLogRetentionTotal bounds now budget db).2.
Proof.
  unfold enforceLogRetentionTotal. cbv zeta. destruct (_ <=? _); [done|].
  assert (H := evict_record_rows "" budget (db_log_usage_total db - lb_totalBytes bounds) LogRetentionTotal now db).
  simpl in H. by destruct (recordLogTruncations _ _ _ _).
Qed.

Lemma wf_rows db db' : same_rows db db' -> wf db -> wf db'.
Proof. intros [E1 E2]. by apply wf_same. Qed.

Lemma record_marks_rows attemptID next db : same_rows db (record_marks attemptID next db).
Proof.
  unfold record_marks. apply (map_fold_weak_ind (fun db' _ => same_rows db db')); [done|]. by intros s n m db' _ H.
Qed.

Lemma store_events_rows {R} jobID attemptID events (K : result ErrorCode R -> DB -> Prop) db0 db :
  same_rows db0 db -> post (store_events jobID attemptID events) (fun _ => same_rows db0) K db.
Proof.
  revert db. induction events as [|p events IH]; intros db H; simpl; wp; [exact H|]. unfold store_event. wp. by apply IH.
Qed.

Section Upload.
Context (cfg : config) (bounds : log_bounds) (source_digest : LogEvent -> string).

(** The attempt an upload may promote is active in the store. *)
Definition admitted (attemptID : string) (ad : admission) (db : DB) : Prop :=
  wf db /\ (aa_state (ad_attempt ad) = AttemptClaimed ->
            exists a, db_attempts db !! attemptID = Some a /\ active_attempt (a_state a) = true).

Lemma post_admit at_ identity jobID attemptID request (K : result ErrorCode AppendLogsResponse -> DB -> Prop) db :
  wf db -> post (admit_upload cfg at_ identity jobID attemptID request) (admitted attemptID) K db.
Proof.
  intros H. unfold admit_upload. wp; (split; [by eauto with wefty|]); simpl.
  - intros E. exfalso. match goal with a : attemptAuthority |- _ => destruct (active_attempt (aa_state a)) eqn:Ea end; simpl in E; [done|].
    by rewrite E in Ea.
  - intros E. match goal with Hr : read_authority _ _ = Some _ |- _ =>
      apply read_authority_rows in Hr as (a' & j & Ha & _ & _ & _ & Es & _) end.
    exists a'. by rewrite <- Es, E.
Qed.

Lemma wf_append_batch clock now jobID attemptID ad b db :
  admitted attemptID ad db ->
  post (append_batch cfg bounds clock now jobID attemptID (ad_attempt ad) (ad_hasAuthority ad) (ad_canceled ad) b)
    (fun _ => wf) (fun _ => wf) db.
Proof.
  intros [H Hact]. unfold append_batch. wp.
  eapply ends_mono; [| |done|by apply (store_events_rows _ _ _ (fun _ => wf) db)]; [|done].
  intros u db1 H1.
  assert (H2 : same_rows db (record_marks attemptID (bt_next b) db1)) by (etrans; [exact H1 | apply record_marks_rows]).
  assert (W2 : wf (record_marks attemptID (bt_next b) db1)) by (by eapply wf_rows).
  set (db2 := record_marks attemptID (bt_next b) db1) in *.
  assert (Hp : bool_decide (aa_state (ad_attempt ad) = AttemptClaimed) && ad_hasAuthority ad
               && negb (bool_decide (js_Kind (aa_spec (ad_attempt ad)) = JobKindOCI)) && negb (ad_canceled ad) = true ->
    wf (promoteExecution now attemptID
          (exec_attempt attemptID (fun a => a <| a_state := AttemptRunning |> <| a_updated_ns := now |>) db2))).
  { rewrite !andb_true_iff. intros [[[E%bool_decide_eq_true _] _] _]. apply wf_promoteExecution, wf_exec_attempt; [done|].
    intros a Ha. destruct (Hact E) as (a' & Ha' & Hs). rewrite (proj2 H2) in Ha. simplify_eq. by split_and!. }
  wp; subst db2; apply wf_prune; (eapply wf_rows; [apply cap_rows|]); auto using wf_establishHealth.
Qed.

Lemma wf_AppendLogs at_ identity jobID attemptID request db :
  wf db -> wf (run (AppendLogs cfg bounds source_digest at_ identity jobID attemptID request) db).1.
Proof.
  intros H. apply post_run; [done|]. unfold AppendLogs. apply (ends_seq (admitted attemptID)); [by apply post_admit|].
  intros ad db0 H0. wp; [apply H0|]. eapply ends_mono; [| |done|by apply wf_append_batch]; [|done].
  intros state db1 W1. wp. exact W1.
Qed.
End Upload.
