(* ===== verification/UpgradeCompat.v ===== *)
(** * Boot identities and upgrade compatibility

    Two packages without I/O that the node-generation protocol rests on:
    [internal/hostboot/identity.go], which reads and compares the kernel's boot
    identity, and [internal/upgradecompat/decision.go], which decides whether an
    upgrade may run old and new agents side by side. *)
From Stdlib Require Import Ascii.
From S2P Require Import Prelude Order States Contract GoStrings.
#[local] Open Scope string_scope.
#[local] Open Scope list_scope.
#[local] Open Scope Z_scope.

(** ** [strconv.ParseUint] of base 10 *)
Definition digit_of (a : ascii) : option Z :=
  if in_range 48 57 (byte_val a) then Some (byte_val a - 48) else None.

Fixpoint parse_digits (acc : Z) (l : list ascii) : option Z :=
  match l with
  | [] => Some acc
  | a :: l => match digit_of a with Some d => parse_digits (10 * acc + d) l | None => None end
  end.

Definition ParseUint (l : list ascii) (bits : Z) : option Z :=
  match l with
  | [] => None
  | _ => match parse_digits 0 l with Some v => if v <? 2 ^ bits then Some v else None | None => None end
  end.

(** ** Boot identities *)
Definition colon : ascii := ":"%char.
Definition Split_colon (s : string) : list (list ascii) := split_on colon (bytes s).

Definition hex_byte (a : ascii) : bool := in_range 48 57 (byte_val a) || in_range 97 102 (byte_val a).

(** A rune outside ASCII fails where any of its bytes would. *)
Definition validUUID (id : list ascii) : bool :=
  (length id =? 36)%nat
  && forallb (fun '(i, c) => if bool_decide (i ∈ [8; 13; 18; 23]%nat) then is_byte "-"%char c else hex_byte c) (imap pair id).

Definition linux : list ascii := bytes "linux".
Definition darwin : list ascii := bytes "darwin".

Definition ValidIdentity (value : string) : bool :=
  match Split_colon value with
  | [platform; uuid] => (bool_decide (platform = linux) || bool_decide (platform = darwin)) && validUUID uuid
  | [platform; seconds; micros; uuid] =>
      bool_decide (platform = darwin)
      && match ParseUint seconds 64 with Some s => negb (s =? 0) | None => false end
      && match ParseUint micros 64 with Some m => (m <? 1000000) && validUUID uuid | None => false end
  | _ => false
  end.

Definition SamePlatform (left right : string) : bool :=
  bool_decide (hd [] (Split_colon left) = hd [] (Split_colon right)).

Definition SameBoot (left right : string) : bool :=
  if negb (ValidIdentity left) || negb (ValidIdentity right) || negb (SamePlatform left right) then false
  else let l := Split_colon left in
       let r := Split_colon right in
       if bool_decide (hd [] l = darwin) then bool_decide (List.last l [] = List.last r [])
       else bool_decide (nth 1 l [] = nth 1 r []).

(** [canonicalGenerationSystemBoot] of [l1/node_generation.go]. *)
Definition canonicalGenerationSystemBoot (value : string) : string :=
  if bool_decide (value = "") then ""
  else let parts := Split_colon value in of_bytes (hd [] parts ++ [colon] ++ List.last parts []).

(** ** The upgrade decision *)
Definition ProtocolV1 : Z := 1.

Inductive Mode := Rolling | Drain | Refuse.
#[export] Instance Mode_eq_dec : EqDecision Mode.
Proof. solve_decision. Defined.

Inductive Reason :=
| Compatible | InvalidInventory | UnsupportedInstallation | UnsupportedWork | LegacyPrimary | CandidateUnsupported
| IncompatibleProtocols | UnsafeDrainDuringOverlap.

Definition PlainMac : string := "plain_mac".
Definition OCIMac : string := "oci_mac".
Definition FleetMac : string := "fleet_mac".
Definition Linux : string := "linux".

Definition PrimaryRole : string := "primary".
Definition RetiringRole : string := "retiring".

Record Generation := mkGeneration {
  gen_ID : string;
  gen_Role : string;
  gen_Protocols : list Z
}.

Definition ProcessOneshot : string := "process_oneshot".
Definition RestartableProcessOneshot : string := "restartable_process_oneshot".
Definition ProcessService : string := "process_service".
Definition OCIWork : string := "oci".

Record Input := mkInput {
  in_Installation : string;
  in_CandidateProtocols : list Z;
  in_Live : list Generation;
  in_Work : list string
}.

Record Decision := mkDecision {
  dec_Mode : Mode;
  dec_Reason : Reason;
  dec_Protocol : Z
}.

Definition validProtocols (versions : list Z) : bool := forallb (fun version => negb (version =? 0)) versions.
Definition supports (versions : list Z) (wanted : Z) : bool := existsb (fun version => version =? wanted) versions.

(** The loop over the live generations: its primary and the number of retirees,
    or nothing when the inventory is invalid. *)
Fixpoint scan_live (live : list Generation) (ids : list string) (primary : option Generation) (retirees : nat) :
    option (option Generation * nat) :=
  match live with
  | [] => Some (primary, retirees)
  | generation :: live =>
      if bool_decide (gen_ID generation = "") || bool_decide (gen_ID generation ∈ ids)
         || negb (validProtocols (gen_Protocols generation)) then None
      else if bool_decide (gen_Role generation = PrimaryRole) then
        match primary with
        | Some _ => None
        | None => scan_live live (gen_ID generation :: ids) (Some generation) retirees
        end
      else if bool_decide (gen_Role generation = RetiringRole)
      then scan_live live (gen_ID generation :: ids) primary (S retirees)
      else None
  end.

Definition known_work (work : string) : bool :=
  bool_decide (work ∈ [ProcessOneshot; RestartableProcessOneshot; ProcessService; OCIWork]).

Definition common_protocol (candidate : list Z) (live : list Generation) : Z :=
  fold_left (fun common version =>
    if version <=? common then common
    else if forallb (fun generation => supports (gen_Protocols generation) version) live then version else common)
    candidate 0.

Definition fallback (retirees : nat) (reason : Reason) : Decision :=
  match retirees with
  | O => mkDecision Drain reason 0
  | S _ => mkDecision Refuse UnsafeDrainDuringOverlap 0
  end.

Definition Decide (input : Input) : Decision :=
  let invalid := mkDecision Refuse InvalidInventory 0 in
  if negb (validProtocols (in_CandidateProtocols input)) then invalid
  else match scan_live (in_Live input) [] None 0 with
  | None | Some (None, _) => invalid
  | Some (Some primary, retirees) =>
      if negb (bool_decide (in_Installation input ∈ [PlainMac; FleetMac; Linux; OCIMac])) then invalid
      else if negb (forallb known_work (in_Work input)) then invalid
      else if negb (bool_decide (in_Installation input = PlainMac)) then fallback retirees UnsupportedInstallation
      else if existsb (fun work => bool_decide (work = OCIWork)) (in_Work input) then fallback retirees UnsupportedWork
      else match gen_Protocols primary with
      | [] => fallback retirees LegacyPrimary
      | _ :: _ =>
          match in_CandidateProtocols input with
          | [] => mkDecision Refuse CandidateUnsupported 0
          | candidate =>
              let common := common_protocol candidate (in_Live input) in
              if common =? 0 then mkDecision Refuse IncompatibleProtocols 0 else mkDecision Rolling Compatible common
          end
      end
  end.

(** ** Properties *)

(** The pieces of a valid identity: its platform and its boot, with what lies
    between them in the older form. *)
Lemma ValidIdentity_parts value : ValidIdentity value = true ->
  exists platform middle uuid, Split_colon value = platform :: middle ++ [uuid]
    /\ (platform = linux \/ platform = darwin) /\ (middle = [] \/ platform = darwin) /\ validUUID uuid = true.
Proof.
  unfold ValidIdentity. intros H. destruct (Split_colon value) as [|p [|u [|m [|w [|? ?]]]]]; try done.
  - apply andb_true_iff in H as [Hp Hu]. apply orb_true_iff in Hp. rewrite !bool_decide_eq_true in Hp.
    exists p, [], u. split_and!; [done | done | by left | done].
  - apply andb_true_iff in H as [[Hp _]%andb_true_iff Hm]. apply bool_decide_eq_true in Hp as ->.
    destruct (ParseUint m 64); [|done]. apply andb_true_iff in Hm as [_ Hu].
    exists darwin, [u; m], w. split_and!; [done | by right | by right | done].
Qed.

Lemma last_snoc {A} (l : list A) x d : List.last (l ++ [x]) d = x.
Proof. apply List.last_last. Qed.

Lemma canonical_parts value platform middle uuid :
  Split_colon value = platform :: middle ++ [uuid] ->
  canonicalGenerationSystemBoot value = of_bytes (platform ++ [colon] ++ uuid).
Proof.
  intros H. unfold canonicalGenerationSystemBoot. rewrite bool_decide_eq_false_2.
  - rewrite H. simpl hd. by rewrite app_comm_cons, last_snoc.
  - intros ->. unfold Split_colon in H. simpl in H. by destruct middle.
Qed.

Lemma canonical_split value platform middle uuid :
  Split_colon value = platform :: middle ++ [uuid] ->
  Split_colon (canonicalGenerationSystemBoot value) = [platform; uuid].
Proof.
  intros H. rewrite (canonical_parts _ _ _ _ H). unfold Split_colon. rewrite bytes_of_bytes.
  assert (Hfree : forall w, w ∈ Split_colon value -> colon ∉ w) by (intros w; apply split_on_free).
  rewrite H in Hfree. simpl. rewrite split_on_app_free by (apply Hfree; left). f_equal. apply split_on_free_single, Hfree.
  right. apply elem_of_app. right. left.
Qed.

(** The stored form decides identity: two valid boot identities name the same
    boot exactly when their canonical forms are the same string, which is how
    the SQL of the retiring-session check compares them; and the canonical form
    is valid and canonical. *)
Theorem canonical_boot_decides left right :
  ValidIdentity left = true -> ValidIdentity right = true ->
  (SameBoot left right = true <-> canonicalGenerationSystemBoot left = canonicalGenerationSystemBoot right)
  /\ ValidIdentity (canonicalGenerationSystemBoot left) = true
  /\ canonicalGenerationSystemBoot (canonicalGenerationSystemBoot left) = canonicalGenerationSystemBoot left.
Proof.
  intros Hl Hr. destruct (ValidIdentity_parts _ Hl) as (p & mid & u & El & Hp & Hm & Hu).
  destruct (ValidIdentity_parts _ Hr) as (q & mid' & v & Er & Hq & Hm' & Hv).
  assert (Hcan : Split_colon (canonicalGenerationSystemBoot left) = [p; u]) by (by eapply canonical_split).
  split_and!.
  - unfold SameBoot, SamePlatform. rewrite Hl, Hr, El, Er. simpl negb. rewrite !orb_false_l. simpl hd.
    transitivity (p = q /\ u = v).
    + destruct (decide (p = q)) as [->|N]; [|rewrite bool_decide_eq_false_2 by done; simpl; intuition congruence].
      rewrite (bool_decide_eq_true_2 (q = q)) by done. simpl negb. cbv iota.
      destruct (decide (q = darwin)) as [->|Nd].
      * rewrite (bool_decide_eq_true_2 (darwin = darwin)), !app_comm_cons, !last_snoc, bool_decide_eq_true by done. tauto.
      * rewrite (bool_decide_eq_false_2 (q = darwin)) by done. destruct Hm as [->|?]; [|done]. destruct Hm' as [->|?]; [|done].
        simpl. rewrite bool_decide_eq_true. tauto.
    + split; [intros [-> ->]; by rewrite (canonical_parts _ _ _ _ El), (canonical_parts _ _ _ _ Er)|].
      intros E. assert (Hsplit : [p; u] = [q; v]) by (rewrite <- Hcan, E; by eapply canonical_split). by injection Hsplit.
  - unfold ValidIdentity. rewrite Hcan, Hu, andb_true_r. apply orb_true_iff. by rewrite !bool_decide_eq_true.
  - rewrite (canonical_parts _ p [] u Hcan). symmetry. by eapply canonical_parts.
Qed.

(** The best common version. *)
Definition common_to (live : list Generation) (version : Z) : Prop := Forall (fun g => version ∈ gen_Protocols g) live.

Lemma supports_spec versions v : supports versions v = true <-> v ∈ versions.
Proof.
  unfold supports. rewrite existsb_exists. split.
  - intros (x & Hx & ->%Z.eqb_eq). by apply list_elem_of_In.
  - intros H. exists v. split; [by apply list_elem_of_In | apply Z.eqb_refl].
Qed.

Lemma common_fold live candidate best :
  let v := fold_left (fun common version =>
    if version <=? common then common
    else if forallb (fun g => supports (gen_Protocols g) version) live then version else common) candidate best in
  best <= v /\ (v = best \/ v ∈ candidate /\ common_to live v) /\ (forall w, w ∈ candidate -> common_to live w -> w <= v).
Proof.
  assert (Hall : forall w, forallb (fun g => supports (gen_Protocols g) w) live = true <-> common_to live w).
  { intros w. rewrite forallb_forall. unfold common_to. rewrite Forall_forall. setoid_rewrite list_elem_of_In.
    split; intros H g Hg; [by apply list_elem_of_In, supports_spec, H | by apply supports_spec, list_elem_of_In, H]. }
  revert best. induction candidate as [|c candidate IH]; intros best; simpl.
  { split_and!; [lia | by left|]. by intros w ?%elem_of_nil. }
  set (best' := if c <=? best then best else _).
  assert (Hb : best <= best' /\ (best' = best \/ best' = c /\ common_to live c) /\ (common_to live c -> c <= best')).
  { unfold best'. destruct (Z.leb_spec c best); [split_and!; [lia | by left | lia]|].
    destruct (forallb _ live) eqn:E; [apply Hall in E; split_and!; [lia | by right | lia]|].
    split_and!; [lia | by left|]. intros Hc%Hall. by rewrite E in Hc. }
  destruct Hb as (B1 & B2 & B3). destruct (IH best') as (H1 & H2 & H3). split_and!; [lia|..].
  - destruct H2 as [->|[H2 H2']]; [destruct B2 as [->|[-> B2]]; [by left | right; split; [left | done]] | right; split; [by right | done]].
  - intros w [->|Hw]%elem_of_cons Hcw; [specialize (B3 Hcw); lia | by apply H3].
Qed.

(** A session the scan admits after the ones named [ids]. *)
Definition fresh (ids : list string) (g : Generation) : Prop :=
  (gen_ID g ∉ ids) /\ gen_ID g <> "" /\ validProtocols (gen_Protocols g) = true.

Lemma fresh_cons id ids live : id ∉ map gen_ID live -> Forall (fresh ids) live -> Forall (fresh (id :: ids)) live.
Proof.
  rewrite !Forall_forall. intros Hn Hok h Hh. destruct (Hok h Hh) as (H1 & H2 & H3). split_and!; try done.
  apply not_elem_of_cons. split; [|done]. intros <-. apply Hn, list_elem_of_In, in_map_iff. exists h.
  by rewrite <- list_elem_of_In.
Qed.

(** What a valid scan establishes. *)
Lemma scan_live_spec live ids primary retirees p n :
  scan_live live ids primary retirees = Some (p, n) ->
  NoDup (map gen_ID live) /\ Forall (fresh ids) live
  /\ n = (retirees + length (List.filter (fun g => bool_decide (gen_Role g = RetiringRole)) live))%nat
  /\ match primary with
     | Some q => p = Some q /\ Forall (fun g => gen_Role g = RetiringRole) live
     | None => match p with
               | Some q => q ∈ live /\ gen_Role q = PrimaryRole /\ forall g, g ∈ live -> g = q \/ gen_Role g = RetiringRole
               | None => Forall (fun g => gen_Role g = RetiringRole) live
               end
     end.
Proof.
  revert ids primary retirees. induction live as [|g live IH]; intros ids primary retirees; simpl.
  { intros [= -> ->]. split_and!; [constructor | constructor | lia|]. by destruct p. }
  destruct (bool_decide_reflect (gen_ID g = "")); [done|]. destruct (bool_decide_reflect (gen_ID g ∈ ids)); [done|]. simpl.
  destruct (validProtocols (gen_Protocols g)) eqn:Ev; [|done]. simpl.
  assert (Hstep : forall primary' retirees', scan_live live (gen_ID g :: ids) primary' retirees' = Some (p, n) ->
    NoDup (gen_ID g :: map gen_ID live) /\ Forall (fresh ids) (g :: live)).
  { intros primary' retirees' (H1 & H2 & _)%IH. rewrite Forall_forall in H2. split.
    - constructor; [|done]. intros (h & E & Hh)%list_elem_of_In%in_map_iff. apply list_elem_of_In in Hh. destruct (H2 _ Hh) as [Hn _].
      apply Hn. rewrite E. left.
    - constructor; [done|]. apply Forall_forall. intros h Hh. destruct (H2 _ Hh) as (Hn & ? & ?). split_and!; try done.
      intros ?. apply Hn. by right. }
  destruct (bool_decide_reflect (gen_Role g = PrimaryRole)) as [Er|Er].
  - destruct primary; [done|]. intros Hs. destruct (Hstep _ _ Hs) as [S1 S2]. apply IH in Hs as (_ & _ & Hn & -> & Hall).
    rewrite (bool_decide_eq_false_2 (gen_Role g = RetiringRole)) by (by rewrite Er). split_and!; try done; [by left|].
    intros h [->|Hh]%elem_of_cons; [by left|]. right. by rewrite Forall_forall in Hall; apply Hall.
  - destruct (bool_decide_reflect (gen_Role g = RetiringRole)) as [Et|]; [|done]. intros Hs.
    destruct (Hstep _ _ Hs) as [S1 S2]. apply IH in Hs as (_ & _ & Hn & Hp). split_and!; [done | done | simpl; lia|].
    destruct primary as [q|]; [destruct Hp as [-> Hp]; split; [done | by constructor]|].
    destruct p as [q|]; [|by constructor]. destruct Hp as (Hq & Hr & Hall). split_and!; [by right | done|].
    intros h [->|Hh]%elem_of_cons; [by right | by apply Hall].
Qed.

(** A well-formed inventory: named, distinct sessions, one of them the primary
    and the others retiring. *)
Definition sound_inventory (live : list Generation) : Prop :=
  NoDup (map gen_ID live) /\ Forall (fun g => gen_ID g <> "" /\ validProtocols (gen_Protocols g) = true) live
  /\ exists before primary after, live = before ++ primary :: after /\ gen_Role primary = PrimaryRole
       /\ Forall (fun g => gen_Role g = RetiringRole) (before ++ after).

Lemma scan_live_retirees live ids p retirees :
  NoDup (map gen_ID live) -> Forall (fresh ids) live ->
  Forall (fun g => gen_Role g = RetiringRole) live ->
  scan_live live ids p retirees = Some (p, (retirees + length live)%nat).
Proof.
  revert ids retirees. induction live as [|g live IH]; intros ids retirees Hnd Hok Hr; simpl; [by rewrite Nat.add_0_r|].
  apply NoDup_cons in Hnd as [Hg Hnd]. apply Forall_cons in Hok as [(Hi & He & Hv) Hok]. apply Forall_cons in Hr as [Er Hr].
  rewrite (bool_decide_eq_false_2 _ He), (bool_decide_eq_false_2 _ Hi), Hv, Er. simpl.
  rewrite IH by (done || by apply fresh_cons). do 2 f_equal. lia.
Qed.

Lemma scan_live_sound live : sound_inventory live <-> exists p n, scan_live live [] None 0 = Some (Some p, n).
Proof.
  split.
  - intros (Hnd & Hok & before & primary & after & -> & Hp & Hr).
    assert (Hscan : forall ids retirees, NoDup (map gen_ID (before ++ primary :: after)) ->
      Forall (fresh ids) (before ++ primary :: after) ->
      Forall (fun g => gen_Role g = RetiringRole) (before ++ after) ->
      exists p n, scan_live (before ++ primary :: after) ids None retirees = Some (Some p, n)).
    { clear -Hp. induction before as [|g before IH]; simpl; intros ids retirees Hnd Hok Hr.
      all: apply NoDup_cons in Hnd as [Hg Hnd]; apply Forall_cons in Hok as [(Hi & He & Hv) Hok];
        rewrite (bool_decide_eq_false_2 _ He), (bool_decide_eq_false_2 _ Hi), Hv; simpl.
      all: apply (fresh_cons _ _ _ Hg) in Hok.
      - rewrite Hp. simpl. rewrite scan_live_retirees by done. eauto.
      - apply Forall_cons in Hr as [Er Hr]. rewrite Er. simpl. by apply IH. }
    apply Hscan; [done | | done]. eapply Forall_impl; [exact Hok|]. intros g [? ?]. split_and!; [by apply not_elem_of_nil | done | done].
  - intros (p & n & (H1 & H2 & _ & Hp & Hr & Hall)%scan_live_spec). split_and!; [done | |].
    + eapply Forall_impl; [exact H2|]. by intros g (_ & ? & ?).
    + apply list_elem_of_split in Hp as (before & after & ->). exists before, p, after. split_and!; [done | done|].
      apply Forall_forall. intros g Hg. rewrite map_app in H1. simpl in H1. destruct (Hall g) as [->|]; [|..]; try done.
      * apply elem_of_app in Hg. apply elem_of_app. rewrite elem_of_cons. tauto.
      * exfalso. apply NoDup_app in H1 as (_ & Hd & [Hn _]%NoDup_cons).
        assert (Hin : forall l, p ∈ l -> gen_ID p ∈ map gen_ID l).
        { intros l Hl. apply list_elem_of_In, in_map_iff. exists p. by rewrite <- list_elem_of_In. }
        apply elem_of_app in Hg as [Hg|Hg]; [apply (Hd (gen_ID p)); [by apply Hin | left] | by apply Hn, Hin].
Qed.

(** the upgrade decision.  Old and new agents may run side by side under
    version [v] exactly when the installation is a plain Mac, its work is known
    and none of it OCI, the inventory is sound, and [v] is the highest version
    that the candidate and every live session support. *)
Theorem Decide_rolling input v :
  Forall (fun version => 0 <= version) (in_CandidateProtocols input) ->
  Decide input = mkDecision Rolling Compatible v <->
  (in_Installation input = PlainMac
   /\ Forall (fun work => work ∈ [ProcessOneshot; RestartableProcessOneshot; ProcessService]) (in_Work input)
   /\ validProtocols (in_CandidateProtocols input) = true /\ sound_inventory (in_Live input))
  /\ v ∈ in_CandidateProtocols input /\ common_to (in_Live input) v
  /\ forall w, w ∈ in_CandidateProtocols input -> common_to (in_Live input) w -> w <= v.
Proof.
  intros Hpos. unfold Decide. assert (Hv := common_fold (in_Live input) (in_CandidateProtocols input) 0). cbv zeta in Hv.
  fold (common_protocol (in_CandidateProtocols input) (in_Live input)) in Hv. destruct Hv as (V1 & V2 & V3).
  set (common := common_protocol _ _) in *.
  destruct (validProtocols (in_CandidateProtocols input)) eqn:Ec; simpl negb; cbv iota; [|by split; [|intros [(_ & _ & ? & _) _]]].
  assert (Hnz : forall w, w ∈ in_CandidateProtocols input -> 0 < w).
  { intros w Hw. rewrite Forall_forall in Hpos. specialize (Hpos w Hw). unfold validProtocols in Ec.
    rewrite forallb_forall in Ec. apply list_elem_of_In, Ec in Hw. apply negb_true_iff, Z.eqb_neq in Hw. lia. }
  destruct (scan_live (in_Live input) [] None 0) as [[[p|] n]|] eqn:Es.
  2,3: split; [done|]; intros [(_ & _ & _ & Hs) _]; apply scan_live_sound in Hs as (? & ? & Hs); congruence.
  assert (Hsound : sound_inventory (in_Live input)) by (apply scan_live_sound; eauto).
  destruct (decide (in_Installation input = PlainMac)) as [Ei|Ni].
  2: { split; [|by intros [[? _] _]]. rewrite (bool_decide_eq_false_2 _ Ni). unfold fallback. simpl. by repeat case_match. }
  rewrite Ei. simpl. assert (Hwork : Forall (fun work => work ∈ [ProcessOneshot; RestartableProcessOneshot; ProcessService]) (in_Work input)
    <-> forallb known_work (in_Work input) = true /\ existsb (fun work => bool_decide (work = OCIWork)) (in_Work input) = false).
  { clear. induction (in_Work input) as [|w l IH]; simpl; [done|]. rewrite Forall_cons, IH, andb_true_iff, orb_false_iff.
    unfold known_work. rewrite bool_decide_eq_true, bool_decide_eq_false, !elem_of_cons, elem_of_nil.
    split; [intros [H [? ?]]; split_and!; try done; [tauto | intros ->; destruct H as [?|[?|[?|?]]]; done] | tauto]. }
  destruct (forallb known_work (in_Work input)) eqn:Ew; simpl; [|split; [done|]; intros [(_ & H & _) _]; apply Hwork in H as [? _]; done].
  destruct (existsb _ (in_Work input)) eqn:Eo.
  { split; [unfold fallback; by case_match|]. intros [(_ & H & _) _]. by apply Hwork in H as [_ ?]. }
  assert (Hw : Forall (fun work => work ∈ [ProcessOneshot; RestartableProcessOneshot; ProcessService]) (in_Work input)) by (by apply Hwork).
  apply scan_live_spec in Es as (_ & _ & _ & Hp & _ & _).
  transitivity (common = v /\ common <> 0).
  - destruct (gen_Protocols p) as [|x ps] eqn:Ep.
    + assert (common = 0); [|split; [unfold fallback; by case_match | lia]]. destruct V2 as [?|[_ Hc]]; [done|].
      unfold common_to in Hc. rewrite Forall_forall in Hc. specialize (Hc p Hp). rewrite Ep in Hc. by apply elem_of_nil in Hc.
    + destruct (in_CandidateProtocols input) as [|c cs] eqn:Ecs; [split; [done|]; intros [_ Hc]; by destruct Hc|].
      fold common. destruct (Z.eqb_spec common 0) as [Ez|Ez]; split; [done | by intros [_ Hz] | by intros [= <-] | by intros [-> _]].
  - split.
    + intros [<- Hz]. split_and!; try done; destruct V2 as [?|[? ?]]; done.
    + intros (_ & Hin & Hc & Hmax). assert (Hz := V3 v Hin Hc). assert (0 < v) by (by apply Hnz).
      destruct V2 as [?|[Hi Hcc]]; [lia|]. specialize (Hmax common Hi Hcc). lia.
Qed.

Definition overlap_input : Input :=
  mkInput PlainMac [2; 1; 3] [mkGeneration "g2" PrimaryRole [1; 2]; mkGeneration "g1" RetiringRole [2; 1; 4]] [ProcessOneshot].

Lemma Decide_rolling_witness :
  Decide overlap_input = mkDecision Rolling Compatible 2 /\ common_to (in_Live overlap_input) 2.
Proof.
  assert (H : Decide overlap_input = mkDecision Rolling Compatible 2) by (vm_compute; reflexivity).
  split; [exact H|].
  refine (proj1 (proj2 (proj2 (proj1 (Decide_rolling overlap_input 2 _) H)))).
  repeat constructor; vm_compute; discriminate.
Defined.
