(* ===== verification/NodeSessions.v ===== *)
(** * Node sessions and generations

    Registration and heartbeat of a node ([registerNode], [heartbeatNode] of
    [l1/store.go]) and the protocol by which a new agent generation takes a node
    over from its predecessor ([l1/node_generation.go], [node_generation_abort.go],
    [node_generation_deenroll.go]).  The inventory an operation answers with is
    read from the same tables; the JSON of a ledger row is the request and the
    answer it encodes.  A violated unique index is an internal error. *)
From S2P Require Import Prelude Order States Contract GoStrings JobSpec L1Types NodeTypes RestartPolicy Database.
From S2P Require Import UpgradeCompat LeaseClock Authority Credentials Summaries Lifecycle Placement LogRetention Logs Claim.
From S2P Require Import ServiceOperator Reconcile.
#[local] Open Scope string_scope.
#[local] Open Scope list_scope.
#[local] Open Scope Z_scope.

Record NodePolicy := mkNodePolicy {
  np_Tags : list string;
  np_MaxOneshotSlots : Z;
  np_MaxServiceSlots : Z
}.

Definition DefaultMaxOneshotSlots : Z := 4.
Definition DefaultMaxServiceSlots : Z := 2.

Definition DefaultNodePolicy (tags : list string) : NodePolicy :=
  mkNodePolicy tags DefaultMaxOneshotSlots DefaultMaxServiceSlots.

Definition defaultNodePolicyForAdmission (nodeID : string) (automaticallyAdmitted : bool) : NodePolicy :=
  if automaticallyAdmitted then DefaultNodePolicy [StableNodeTagPrefix +:+ nodeID] else DefaultNodePolicy [].

Record nodeRegistrationAdmission := mknodeRegistrationAdmission {
  adm_automatic : bool;
  adm_refreshUnconfiguredPolicy : bool
}.

(** ** Rows *)
Definition of_generation (nodeID generation : string) (g : GenerationRow) : bool :=
  bool_decide (g_node_id g = nodeID) && bool_decide (g_generation_id g = generation).

Definition generation_row (db : DB) (nodeID generation : string) : option GenerationRow :=
  List.find (of_generation nodeID generation) (db_generations db).

Definition is_primary (nodeID : string) (g : GenerationRow) : bool :=
  bool_decide (g_node_id g = nodeID) && bool_decide (g_role g = NodeGenerationPrimary).

Definition primary_generation (db : DB) (nodeID : string) : option GenerationRow :=
  List.find (is_primary nodeID) (db_generations db).

Definition exec_generations (p : GenerationRow -> bool) (f : GenerationRow -> GenerationRow) (db : DB) : DB :=
  db <| db_generations := map (fun g => if p g then f g else g) (db_generations db) |>.

Definition exec_generation (nodeID generation : string) (f : GenerationRow -> GenerationRow) : DB -> DB :=
  exec_generations (of_generation nodeID generation) f.

Definition active_on (nodeID : string) (db : DB) : bool :=
  existsb (fun '(_, a) => bool_decide (a_node_id a = nodeID) && active_attempt (a_state a)) (map_to_list (db_attempts db)).

(** [UPDATE nodes SET last_heartbeat_ns=?], with the trigger that drops the sleep credit. *)
Definition heartbeat_at (now : Z) (n : NodeRow) : NodeRow := n <| n_last_heartbeat_ns := now |> <| n_heartbeat_sleep_ns := 0 |>.

Definition observe_capabilities (o : storedCapabilityObservation) (n : NodeRow) : NodeRow :=
  n <| n_capabilities := st_Capabilities o |> <| n_capability_revision := st_Revision o |>
    <| n_capability_observed_ns := st_ObservedAt o |> <| n_missing_capabilities := st_MissingCapabilities o |>
    <| n_capability_reason_code := st_ReasonCode o |>.

Definition record_condition (nodeID code scope : string) (now : Z) (details : list (string * detail)) : DB -> DB :=
  exec_node nodeID (fun n => n <| n_last_condition := Some (mkNodeCondition code scope now details) |>).

Definition capability_details (o : storedCapabilityObservation) : list (string * detail) :=
  [("missing_capabilities", DetailTexts (st_MissingCapabilities o)); ("capability_revision", DetailNumber (st_Revision o))].

Definition replaceNodeTags (nodeID : string) (tags : list string) (db : DB) : DB :=
  db <| db_node_tags := <[nodeID := list_to_set tags]> (db_node_tags db) |>.

Definition seat_effect (c : seat_call) (db : DB) : DB := db <| db_seat_calls := db_seat_calls db ++ [c] |>.

Section Nodes.
Context (lower_table : Z -> Z).
Abbreviation norm := (normalize_word lower_table).

(** ** Retirement protocols *)
Definition retirementPrefix : string := "upgrade:retirement:".

(** The version a capability name declares: nothing, a version, or an error. *)
Definition retirement_version (name : string) : result ErrorCode (option Z) :=
  let name := norm name in
  if negb (HasPrefix name retirementPrefix) then Ok None
  else let prefix := retirementPrefix +:+ "v" in
       let suffix := if HasPrefix name prefix then skip (String.length prefix) name else name in
       match ParseUint (bytes suffix) 32 with
       | Some value => if (value =? 0) || negb (bool_decide (pretty value = suffix)) then Err ErrorInvalidRequest else Ok (Some value)
       | None => Err ErrorInvalidRequest
       end.

Fixpoint retirement_versions (entries : list (string * bool)) : result ErrorCode (list Z) :=
  match entries with
  | [] => Ok []
  | (name, enabled) :: entries =>
      let? version := retirement_version name in
      let? versions := retirement_versions entries in
      Ok (match version with Some value => if enabled then value :: versions else versions | None => versions end)
  end.

Definition retirementProtocols (capabilities : gmap string bool) : result ErrorCode (list Z) :=
  let? versions := retirement_versions (map_to_list capabilities) in
  Ok (merge_sort Z.le versions).

(** ** Enrollment *)
Definition withdrawn_boot (registration prior : NodeRegistration) : bool :=
  negb (bool_decide (reg_SystemBootID prior = ""))
  && (bool_decide (reg_SystemBootID registration = "")
      || bool_decide (reg_BootSessionID registration = reg_BootSessionID prior)
         && negb (SameBoot (reg_SystemBootID registration) (reg_SystemBootID prior))).

Definition guardGenerationRegistration {R} (registration : NodeRegistration) : tx DB ErrorCode R unit :=
  let nodeID := reg_NodeID registration in
  let generation := reg_AgentGenerationID registration in
  let! _ := check (bool_decide (reg_SystemBootID registration = "") || ValidIdentity (reg_SystemBootID registration)) ErrorConflict in
  let! primary := reads (fun db => primary_generation db nodeID) in
  let! _ := check (match primary with Some g => bool_decide (g_generation_id g = generation) | None => true end)
              ErrorNodeSessionReplaced in
  if bool_decide (generation = "") then pure tt else
  let! prior := reads (fun db => generation_row db nodeID generation) in
  let! _ := check (match prior with Some g => negb (withdrawn_boot registration (g_registration g)) | None => true end) ErrorConflict in
  let! _ := check (match prior with Some g => bool_decide (g_role g = NodeGenerationPrimary) | None => true end)
              ErrorNodeSessionReplaced in
  let! _ := lift (retirementProtocols (reg_Capabilities registration)) in
  match primary with
  | Some _ => pure tt
  | None => let! active := reads (active_on nodeID) in check (negb active) ErrorConflict
  end.

Definition as_internal {A} (r : result ErrorCode A) : result ErrorCode A :=
  match r with Ok a => Ok a | Err _ => Err ErrorInternal end.

(** The cohort of a primary that reports its boot for the first time. *)
Definition bind_cohort (nodeID systemBoot : string) : DB -> DB :=
  exec_generations (fun g => bool_decide (g_node_id g = nodeID)
                             && bool_decide (g_role g ∈ [NodeGenerationPrimary; NodeGenerationRetiring])
                             && bool_decide (g_system_boot_id g = ""))
    (fun g => g <| g_registration := (g_registration g) <| reg_SystemBootID := systemBoot |> |>).

(** [INSERT ... ON CONFLICT(node_id,generation_id) DO UPDATE]; the boot sessions
    and the primary of a node are unique. *)
Definition conflicting_session (db : DB) (row : GenerationRow) : bool :=
  existsb (fun g => bool_decide (g_node_id g = g_node_id row) && negb (bool_decide (g_generation_id g = g_generation_id row))
                    && (bool_decide (g_boot_session_id g = g_boot_session_id row)
                        || bool_decide (g_role g = NodeGenerationPrimary) && bool_decide (g_role row = NodeGenerationPrimary)))
    (db_generations db).

Definition upsert_primary (row : GenerationRow) (db : DB) : DB :=
  match generation_row db (g_node_id row) (g_generation_id row) with
  | Some _ => exec_generation (g_node_id row) (g_generation_id row) (fun g =>
      g <| g_boot_session_id := g_boot_session_id row |> <| g_authority_generation := g_authority_generation row |>
        <| g_registration := g_registration row |> <| g_protocols := g_protocols row |>
        <| g_heartbeat_ns := g_heartbeat_ns row |>) db
  | None => db <| db_generations := db_generations db ++ [row] |>
  end.

Definition recordPrimaryGeneration {R} (registration : NodeRegistration) (now : Z) : tx DB ErrorCode R unit :=
  let nodeID := reg_NodeID registration in
  let generation := reg_AgentGenerationID registration in
  if bool_decide (generation = "") then pure tt else
  let registration := registration <| reg_SystemBootID := canonicalGenerationSystemBoot (reg_SystemBootID registration) |> in
  let! _ := lift (as_internal (retirementProtocols (reg_Capabilities registration))) in
  let! old := reads (fun db => generation_row db nodeID generation) in
  let! _ :=
    match old with
    | Some g =>
        if bool_decide (g_boot_session_id g = reg_BootSessionID registration) then
          let! _ := if bool_decide (reg_SystemBootID registration = "") then pure tt
                    else writes (bind_cohort nodeID (reg_SystemBootID registration)) in
          writes (exec_node nodeID (fun n => n <| n_authority_generation := g_authority_generation g |>))
        else pure tt
    | None => pure tt
    end in
  let! n := need (fun db => db_nodes db !! nodeID) ErrorInternal in
  let registration := registration <| reg_Capabilities := n_capabilities n |> in
  let! protocols := lift (as_internal (retirementProtocols (reg_Capabilities registration))) in
  let row := mkGenerationRow nodeID generation (reg_BootSessionID registration) (n_authority_generation n) NodeGenerationPrimary
               registration protocols 0 "" now now None None in
  let! conflict := reads (fun db => conflicting_session db row) in
  let! _ := check (negb conflict) ErrorInternal in
  let! _ := writes (upsert_primary row) in
  writes (fun db => match db_generation_catalog db !! nodeID with
                    | Some _ => db
                    | None => db <| db_generation_catalog := <[nodeID := 0]> (db_generation_catalog db) |>
                    end).

(** A session may not withdraw the versions its cohort relies on. *)
Definition validateGenerationProtocolObservation {R} (nodeID : string) (capabilities : gmap string bool) : tx DB ErrorCode R unit :=
  let! primary := reads (fun db => primary_generation db nodeID) in
  match primary with
  | None => pure tt
  | Some g =>
      let! versions := lift (retirementProtocols capabilities) in
      let! active := reads (fun db => active_on nodeID db
        || existsb (fun g => bool_decide (g_node_id g = nodeID) && bool_decide (g_role g = NodeGenerationRetiring)) (db_generations db)) in
      check (negb active || forallb (fun v => supports versions v) (g_protocols g)) ErrorConflict
  end.

Definition refreshPrimaryGenerationObservation {R} (nodeID : string) (now : Z) : tx DB ErrorCode R unit :=
  let! primary := reads (fun db => primary_generation db nodeID) in
  match primary with
  | None => pure tt
  | Some g =>
      let! n := need (fun db => db_nodes db !! nodeID) ErrorInternal in
      let registration := (g_registration g) <| reg_Capabilities := n_capabilities n |>
        <| reg_CapabilityRevision := n_capability_revision n |> <| reg_CapabilityObservedAt := n_capability_observed_ns n |>
        <| reg_MissingCapabilities := n_missing_capabilities n |> <| reg_CapabilityReasonCode := n_capability_reason_code n |> in
      let! versions := lift (retirementProtocols (n_capabilities n)) in
      writes (exec_generations (is_primary nodeID) (fun g =>
        g <| g_registration := registration |> <| g_protocols := versions |> <| g_heartbeat_ns := now |>))
  end.

(** ** Registration *)
Definition legacyCapabilityObservation (capabilities : gmap string bool) : gmap string bool :=
  fold_left (fun kept '(name, enabled) =>
    let capability := norm name in
    if negb (bool_decide (capability = "")) && negb (isOCIProbeCapability lower_table capability)
    then <[capability := enabled]> kept else kept) (map_to_list capabilities) ∅.

Definition registrationCapabilityObservation (registration : NodeRegistration) : CapabilityObservation :=
  mkCapabilityObservation (reg_CapabilityRevision registration) (map_to_list (reg_Capabilities registration))
    (reg_CapabilityObservedAt registration) (reg_CapabilityObservedAt registration =? zero_time)
    (reg_MissingCapabilities registration) (reg_CapabilityReasonCode registration).

(** A stored observation presented again. *)
Definition reobserve (o : storedCapabilityObservation) : CapabilityObservation :=
  mkCapabilityObservation (st_Revision o) (map_to_list (st_Capabilities o)) (st_ObservedAt o) (st_ObservedAt o =? zero_time)
    (st_MissingCapabilities o) (st_ReasonCode o).

Definition observed_registration (o : storedCapabilityObservation) (registration : NodeRegistration) : NodeRegistration :=
  registration <| reg_Capabilities := st_Capabilities o |> <| reg_CapabilityRevision := st_Revision o |>
    <| reg_CapabilityObservedAt := st_ObservedAt o |> <| reg_MissingCapabilities := st_MissingCapabilities o |>
    <| reg_CapabilityReasonCode := st_ReasonCode o |>.

Definition reserved_capability (name : string) : bool :=
  bool_decide (norm name ∈ ["max_oneshot_slots"; "max_service_slots"]).

(** The checks before the transaction: the registration with its capabilities in
    canonical form, that observation, and whether it came without a revision. *)
Definition validate_registration (now : Z) (identityNodeID : string) (registration : NodeRegistration) (policy : NodePolicy) :
    result ErrorCode (NodeRegistration * storedCapabilityObservation * bool) :=
  if bool_decide ("" ∈ [reg_NodeID registration; reg_BootSessionID registration; reg_OS registration; reg_Architecture registration;
                        reg_AgentVersion registration]) then Err ErrorInvalidRequest
  else if bool_decide (identityNodeID = "") then Err ErrorPrincipalForbidden
  else if (np_MaxOneshotSlots policy <? 0) || (np_MaxServiceSlots policy <? 0) then Err ErrorInvalidRequest
  else if existsb (fun '(name, _) => reserved_capability name) (map_to_list (reg_Capabilities registration)) then Err ErrorInvalidRequest
  else if negb (forallb validTag (NormalizeTags lower_table (np_Tags policy))) then Err ErrorInvalidRequest
  else
  let legacy := reg_CapabilityRevision registration =? 0 in
  let registration := if legacy then
      registration <| reg_Capabilities := legacyCapabilityObservation (reg_Capabilities registration) |>
        <| reg_CapabilityRevision := 1 |> <| reg_CapabilityObservedAt := now |> <| reg_MissingCapabilities := [] |>
    else registration in
  let? incoming := canonicalCapabilityObservation lower_table (registrationCapabilityObservation registration) in
  let registration := observed_registration incoming registration in
  if reg_SupersedeCapabilityRevision registration
     && (advertises (st_Capabilities incoming) "kind:oci" || negb (bool_decide ("kind:oci" ∈ st_MissingCapabilities incoming))
         || negb (ValidOCIRestriction (st_ReasonCode incoming))) then Err ErrorInvalidRequest
  else Ok (registration, incoming, legacy).

(** What becomes of the stored observation. *)
Inductive observation_change := KeepObservation | AdvanceObservedAt | ReplaceObservation (o : storedCapabilityObservation).

Definition decide_observation (incoming : storedCapabilityObservation) (n : NodeRow) : result ErrorCode observation_change :=
  let? decision := decideCapabilityObservation incoming n in
  Ok (match decision with
      | capabilityObservationReplace => ReplaceObservation incoming
      | capabilityObservationReplay => if n_capability_observed_ns n <? st_ObservedAt incoming then AdvanceObservedAt else KeepObservation
      | capabilityObservationStale => KeepObservation
      end).

Definition registration_observation (registration : NodeRegistration) (incoming : storedCapabilityObservation) (legacy : bool)
    (n : NodeRow) : result ErrorCode observation_change :=
  if negb (bool_decide (n_boot_session_id n = reg_BootSessionID registration)) then Ok (ReplaceObservation incoming)
  else if reg_SupersedeCapabilityRevision registration then
    let? superseding := canonicalCapabilityObservation lower_table
      (reobserve (mkstoredCapabilityObservation (int64 (n_capability_revision n + 1)) (st_Capabilities incoming)
         (st_ObservedAt incoming) (st_MissingCapabilities incoming) (st_ReasonCode incoming))) in
    Ok (ReplaceObservation superseding)
  else if legacy then Ok KeepObservation
  else decide_observation incoming n.

Definition apply_observation (change : observation_change) (incoming : storedCapabilityObservation) (n : NodeRow) : NodeRow :=
  match change with
  | ReplaceObservation o => observe_capabilities o n
  | AdvanceObservedAt => n <| n_capability_observed_ns := st_ObservedAt incoming |>
  | KeepObservation => n
  end.

(** A drain belongs to the boot session that asked for it. *)
Definition registered_state (registration : NodeRegistration) (n : NodeRow) : NodeState :=
  if bool_decide (n_boot_session_id n = reg_BootSessionID registration) && bool_decide (n_state n = NodeDraining)
  then NodeDraining else NodeAlive.

Definition describe_node (registration : NodeRegistration) (n : NodeRow) : NodeRow :=
  n <| n_boot_session_id := reg_BootSessionID registration |> <| n_connect_host := reg_ConnectHost registration |>
    <| n_root_instance_id := reg_RootInstanceID registration |> <| n_os := reg_OS registration |>
    <| n_architecture := reg_Architecture registration |> <| n_agent_version := reg_AgentVersion registration |>.

Definition reregister (now : Z) (registration : NodeRegistration) (policy : NodePolicy) (n : NodeRow) : NodeRow :=
  heartbeat_at now (describe_node registration n
    <| n_state := registered_state registration n |> <| n_max_oneshot_slots := np_MaxOneshotSlots policy |>
    <| n_max_service_slots := np_MaxServiceSlots policy |> <| n_authority_generation := n_authority_generation n + 1 |>).

Definition new_node (now : Z) (identityNodeID : string) (registration : NodeRegistration) (policy : NodePolicy)
    (claimsEnabled automatic : bool) (o : storedCapabilityObservation) : NodeRow :=
  mkNodeRow identityNodeID (reg_BootSessionID registration) (reg_ConnectHost registration) (reg_RootInstanceID registration)
    (reg_OS registration) (reg_Architecture registration) (reg_AgentVersion registration) (st_Capabilities o) (st_Revision o)
    (st_ObservedAt o) (st_MissingCapabilities o) (st_ReasonCode o) NodeAlive now 0 (np_MaxOneshotSlots policy)
    (np_MaxServiceSlots policy) 1 claimsEnabled automatic 0 "" None "" None.

(** The condition a registration records, if it is notable. *)
Definition registration_condition (registration : NodeRegistration) (claimsEnabled : bool) (stored : option NodeRow)
    (change : observation_change) : option (string * string * list (string * detail)) :=
  let boot := DetailText (reg_BootSessionID registration) in
  let storedReason := match stored with Some n => n_capability_reason_code n | None => "" end in
  let sameBoot := match stored with Some n => bool_decide (n_boot_session_id n = reg_BootSessionID registration) | None => false end in
  let base :=
    match stored with
    | None => Some ("node_registered", "node_session", [("boot_session_id", boot); ("claims_enabled", DetailFlag claimsEnabled)])
    | Some n =>
        if negb (bool_decide (n_state n ∈ [NodeAlive; NodeDraining])) then Some ("node_alive", "node_liveness", [])
        else if sameBoot then None else Some ("node_registered", "node_session", [("boot_session_id", boot)])
    end in
  match change with
  | ReplaceObservation o =>
      let storedMissing := match stored with Some n => Some (n_missing_capabilities n) | None => None end in
      let changed := negb (bool_decide (st_ReasonCode o = storedReason))
                     || negb (bool_decide (storedMissing = Some (st_MissingCapabilities o))) || negb sameBoot in
      let code := if bool_decide (st_ReasonCode o = "") && negb (bool_decide (storedReason = ""))
                  then "node_capability_recovered" else st_ReasonCode o in
      if negb (bool_decide (code = "")) && changed then Some (code, "node_capability", capability_details o) else base
  | _ => base
  end.

Definition registerNode (at_ : instant) (identityNodeID : string) (registration : NodeRegistration) (policy : NodePolicy)
    (operatorExpected : bool) (admission : nodeRegistrationAdmission) : tx DB ErrorCode NodeRow NodeRow :=
  let now := at_now at_ in
  let! prepared := lift (validate_registration now identityNodeID registration policy) in
  let '(registration, incoming, legacy) := prepared in
  let nodeID := reg_NodeID registration in
  let! _ := beginWriteTransaction at_ in
  let! _ := guardGenerationRegistration registration in
  let! stored := reads (fun db => db_nodes db !! nodeID) in
  let policy := match stored with
                | Some n => if adm_refreshUnconfiguredPolicy admission
                            then defaultNodePolicyForAdmission nodeID (n_automatically_admitted n) else policy
                | None => policy
                end in
  let! written :=
    match stored with
    | None =>
        let! bound := reads (fun db => existsb (fun '(_, n) => bool_decide (n_identity_node_id n = identityNodeID))
                                         (map_to_list (db_nodes db))) in
        let automatic := adm_automatic admission && negb bound in
        let policy := if adm_automatic admission && bound then DefaultNodePolicy [] else policy in
        let claimsEnabled := operatorExpected || automatic in
        let! _ := writes (fun db => db <| db_nodes :=
          <[nodeID := new_node now identityNodeID registration policy claimsEnabled automatic incoming]> (db_nodes db) |>) in
        pure (ReplaceObservation incoming, policy, claimsEnabled)
    | Some n =>
        let! _ := check (bool_decide (n_identity_node_id n = identityNodeID)) ErrorIdentityBound in
        let! change := lift (registration_observation registration incoming legacy n) in
        let! _ := writes (exec_node nodeID (fun n => apply_observation change incoming (reregister now registration policy n))) in
        pure (change, policy, false)
    end in
  let '(change, policy, claimsEnabled) := written in
  let! _ := match stored with
            | Some n => if bool_decide (n_boot_session_id n = "") || bool_decide (n_boot_session_id n = reg_BootSessionID registration)
                        then pure tt
                        else writes (seat_effect (RefuseLostSeatDialogs nodeID (reg_BootSessionID registration) now))
            | None => pure tt
            end in
  let! _ := writes (replaceNodeTags nodeID (NormalizeTags lower_table (np_Tags policy))) in
  let! _ := match registration_condition registration claimsEnabled stored change with
            | Some (code, scope, details) => writes (record_condition nodeID code scope now details)
            | None => pure tt
            end in
  let! _ := if bool_decide (reg_AgentGenerationID registration = "") then pure tt
            else let! n := need (fun db => db_nodes db !! nodeID) ErrorInternal in
                 validateGenerationProtocolObservation nodeID (n_capabilities n) in
  let! _ := recordPrimaryGeneration registration now in
  let! _ := refreshPrimaryGenerationObservation nodeID now in
  let! _ := writes (seat_effect (ArmIdleNodeSeatDeadlines nodeID)) in
  need (fun db => db_nodes db !! nodeID) ErrorInternal.

(** ** Heartbeat *)
Definition heartbeatNode (at_ : instant) (identityNodeID nodeID bootSessionID : string) (observation : option CapabilityObservation)
    (policy : option NodePolicy) (refreshUnconfiguredPolicy : bool) : tx DB ErrorCode NodeRow NodeRow :=
  let now := at_now at_ in
  let! _ := check (match policy with Some p => negb ((np_MaxOneshotSlots p <? 0) || (np_MaxServiceSlots p <? 0)) | None => true end)
              ErrorInvalidRequest in
  let! _ := beginWriteTransaction at_ in
  let! n := need (fun db => db_nodes db !! nodeID) ErrorNodeNotRegistered in
  let! _ := if bool_decide (n_identity_node_id n = identityNodeID) && bool_decide (n_boot_session_id n = bootSessionID)
               && bool_decide (n_state n ∈ [NodeAlive; NodeStale; NodeDraining]) then pure tt
            else let! e := reads (fun db => nodeSessionError db nodeID identityNodeID bootSessionID) in fail e in
  let policy := if refreshUnconfiguredPolicy then Some (defaultNodePolicyForAdmission nodeID (n_automatically_admitted n)) else policy in
  let! observed :=
    match observation with
    | None => pure None
    | Some observation =>
        let! incoming := lift (canonicalCapabilityObservation lower_table observation) in
        let! change := lift (decide_observation incoming n) in
        pure (Some (incoming, change))
    end in
  let! _ := match observed with
            | Some (incoming, ReplaceObservation _) => validateGenerationProtocolObservation nodeID (st_Capabilities incoming)
            | _ => pure tt
            end in
  let state := if bool_decide (n_state n ∈ [NodeAlive; NodeStale]) then NodeAlive else n_state n in
  let! _ := writes (exec_node nodeID (fun n =>
    let n := heartbeat_at now (n <| n_state := state |>) in
    let n := match policy with
             | Some p => n <| n_max_oneshot_slots := np_MaxOneshotSlots p |> <| n_max_service_slots := np_MaxServiceSlots p |>
             | None => n
             end in
    match observed with Some (incoming, change) => apply_observation change incoming n | None => n end)) in
  let! _ := match policy with
            | Some p => if refreshUnconfiguredPolicy && n_automatically_admitted n
                        then writes (replaceNodeTags nodeID (NormalizeTags lower_table (np_Tags p))) else pure tt
            | None => pure tt
            end in
  let! _ := if bool_decide (state = n_state n) then pure tt
            else writes (record_condition nodeID ("node_" +:+ NodeState_name state) "node_liveness" now []) in
  let! _ := match observed with
            | Some (incoming, ReplaceObservation _) =>
                let changed := negb (bool_decide (st_ReasonCode incoming = n_capability_reason_code n))
                               || negb (bool_decide (st_MissingCapabilities incoming = n_missing_capabilities n)) in
                let code := if bool_decide (st_ReasonCode incoming = "") && negb (bool_decide (n_capability_reason_code n = ""))
                            then "node_capability_recovered" else st_ReasonCode incoming in
                if changed && negb (bool_decide (code = ""))
                then writes (record_condition nodeID code "node_capability" now (capability_details incoming)) else pure tt
            | _ => pure tt
            end in
  let! _ := refreshPrimaryGenerationObservation nodeID now in
  let! _ := writes (seat_effect (ArmIdleNodeSeatDeadlines nodeID)) in
  need (fun db => db_nodes db !! nodeID) ErrorInternal.

(** ** Inventories *)
Definition requireGenerationIdentity {R} (nodeID identity : string) : tx DB ErrorCode R unit :=
  let! n := need (fun db => db_nodes db !! nodeID) ErrorNodeNotRegistered in
  check (bool_decide (n_identity_node_id n = identity)) ErrorIdentityBound.

Definition canonicalResidents (residents : list ResidentAttempt) : list ResidentAttempt :=
  sort_by (fun r => (0, ra_AttemptID r)) residents.

Definition readPrimaryResidents (nodeID boot : string) (authority : Z) (db : DB) : list ResidentAttempt :=
  canonicalResidents (map (fun '(id, a) => mkResidentAttempt (a_job_id a) id (a_boot_session_id a) (a_authority_generation a) (a_fencing_token a))
    (List.filter (fun '(_, a) => bool_decide (a_node_id a = nodeID) && bool_decide (a_boot_session_id a = boot)
                                 && (a_authority_generation a =? authority) && active_attempt (a_state a))
       (map_to_list (db_attempts db)))).

Definition readGenerationResidents (nodeID generation : string) (db : DB) : list ResidentAttempt :=
  canonicalResidents (map (fun r => mkResidentAttempt (r_job_id r) (r_attempt_id r) (r_boot_session_id r) (r_authority_generation r) (r_fencing_token r))
    (List.filter (fun r => bool_decide (r_node_id r = nodeID) && bool_decide (r_generation_id r = generation)) (db_residents db))).

Definition inventory_entry (db : DB) (g : GenerationRow) : NodeGeneration :=
  mkNodeGeneration (g_generation_id g) (g_boot_session_id g) (g_authority_generation g) (g_role g) (g_registration g) (g_protocols g)
    (g_selected_protocol g) (g_promotion_operation_id g) (g_created_ns g) (g_heartbeat_ns g) (g_retiring_ns g) (g_closed_ns g)
    (if bool_decide (g_role g = NodeGenerationPrimary)
     then readPrimaryResidents (g_node_id g) (g_boot_session_id g) (g_authority_generation g) db
     else readGenerationResidents (g_node_id g) (g_generation_id g) db).

Definition readNodeGenerations (nodeID : string) (db : DB) : NodeGenerationInventory :=
  match db_generation_catalog db !! nodeID with
  | None => mkNodeGenerationInventory nodeID 0 []
  | Some revision => mkNodeGenerationInventory nodeID revision
      (map (inventory_entry db) (sort_by (fun g => (0, g_generation_id g))
         (List.filter (fun g => bool_decide (g_node_id g = nodeID)) (db_generations db))))
  end.

Definition generation_tx (A : Type) : Type := tx DB ErrorCode NodeGenerationInventory A.

(** ** Staging a candidate *)
Definition StageNodeGeneration (at_ : instant) (identity : string) (registration : NodeRegistration) : generation_tx NodeGenerationInventory :=
  let nodeID := reg_NodeID registration in
  let generation := reg_AgentGenerationID registration in
  let! _ := check (negb (bool_decide (generation = "") || bool_decide (reg_BootSessionID registration = "")
                         || bool_decide (reg_AgentVersion registration = "") || negb (bool_decide (reg_OS registration = "darwin"))
                         || bool_decide (reg_Architecture registration = ""))) ErrorInvalidRequest in
  let! _ := check (bool_decide (reg_SystemBootID registration = "") || ValidIdentity (reg_SystemBootID registration)) ErrorConflict in
  let registration := registration <| reg_SystemBootID := canonicalGenerationSystemBoot (reg_SystemBootID registration) |> in
  let! incoming := lift (canonicalCapabilityObservation lower_table (registrationCapabilityObservation registration)) in
  let registration := registration <| reg_Capabilities := st_Capabilities incoming |>
    <| reg_MissingCapabilities := st_MissingCapabilities incoming |> <| reg_CapabilityObservedAt := st_ObservedAt incoming |> in
  let! protocols := lift (retirementProtocols (reg_Capabilities registration)) in
  let! _ := check (supports protocols ProtocolV1) ErrorConflict in
  let! _ := beginWriteTransaction at_ in
  let! _ := requireGenerationIdentity nodeID identity in
  let! inventory := reads (readNodeGenerations nodeID) in
  match List.find (fun g => bool_decide (ng_AgentGenerationID g = generation)) (gi_Generations inventory) with
  | Some g =>
      let! _ := check (bool_decide (ng_Role g = NodeGenerationStaged) && bool_decide (ng_Registration g = registration)) ErrorConflict in
      answer inventory
  | None =>
      let! _ := check (existsb (fun g => bool_decide (ng_Role g = NodeGenerationPrimary)) (gi_Generations inventory)) ErrorConflict in
      let row := mkGenerationRow nodeID generation (reg_BootSessionID registration) 0 NodeGenerationStaged registration protocols 0 ""
                   (at_now at_) (at_now at_) None None in
      let! conflict := reads (fun db => conflicting_session db row) in
      let! _ := check (negb conflict) ErrorInternal in
      let! _ := writes (fun db => db <| db_generations := db_generations db ++ [row] |>) in
      reads (readNodeGenerations nodeID)
  end.

(** ** The ledger of operations *)
Definition replay_operation (nodeID key : string) (operation : generation_operation) : generation_tx unit :=
  let! recorded := reads (fun db => db_generation_operations db !! (nodeID, key)) in
  match recorded with
  | None => pure tt
  | Some (previous, outcome) =>
      let! _ := check (bool_decide (previous = operation)) ErrorConflict in
      match outcome with
      | OperationInventory inventory => answer inventory
      | OperationRefused => fail ErrorDeEnrollmentNotCommitted
      end
  end.

Definition record_operation (nodeID key : string) (operation : generation_operation) (outcome : operation_outcome) (db : DB) : DB :=
  db <| db_generation_operations := <[(nodeID, key) := (operation, outcome)]> (db_generation_operations db) |>.

Definition finish_operation (nodeID key : string) (operation : generation_operation) : generation_tx NodeGenerationInventory :=
  let! inventory := reads (readNodeGenerations nodeID) in
  let! _ := writes (record_operation nodeID key operation (OperationInventory inventory)) in
  pure inventory.

(** ** Promotion *)
Definition valid_promotion (request : PromoteNodeGenerationRequest) : bool :=
  negb (bool_decide (pg_OperationID request = "") || bool_decide (pg_ExpectedPrimaryGenerationID request = "")
        || bool_decide (pg_CandidateGenerationID request = "")
        || bool_decide (pg_ExpectedPrimaryGenerationID request = pg_CandidateGenerationID request)
        || (pg_ExpectedCatalogRevision request <? 0) || (pg_CatalogRevision request <=? pg_ExpectedCatalogRevision request)
        || negb (pg_CatalogRevision request =? pg_ExpectedCatalogRevision request + 1)
        || negb (pg_SelectedProtocol request =? ProtocolV1)).

(** The inventory as the request expects it. *)
Definition with_role (role : string) (inventory : NodeGenerationInventory) : list NodeGeneration :=
  List.filter (fun g => bool_decide (ng_Role g = role)) (gi_Generations inventory).

Definition live_generations (inventory : NodeGenerationInventory) : list NodeGeneration :=
  List.filter (fun g => bool_decide (ng_Role g ∈ [NodeGenerationPrimary; NodeGenerationRetiring])) (gi_Generations inventory).

Definition expected_inventory (request : PromoteNodeGenerationRequest) (inventory : NodeGenerationInventory) :
    option (NodeGeneration * NodeGeneration) :=
  match last (with_role NodeGenerationPrimary inventory),
        last (List.filter (fun g => bool_decide (ng_AgentGenerationID g = pg_CandidateGenerationID request)) (with_role NodeGenerationStaged inventory)) with
  | Some primary, Some candidate =>
      if bool_decide (ng_AgentGenerationID primary = pg_ExpectedPrimaryGenerationID request)
         && bool_decide (ng_BootSessionID primary = pg_ExpectedPrimaryBootSessionID request)
         && (ng_AuthorityGeneration primary =? pg_ExpectedAuthorityGeneration request)
         && bool_decide (ng_BootSessionID candidate = pg_CandidateBootSessionID request)
         && (gi_CatalogRevision inventory =? pg_ExpectedCatalogRevision request)
         && bool_decide (map ng_AgentGenerationID (with_role NodeGenerationRetiring inventory) = pg_RetiringGenerationIDs request)
      then Some (primary, candidate) else None
  | _, _ => None
  end.

(** The work of the residents: processes only, and no services. *)
Fixpoint resident_work (db : DB) (residents : list ResidentAttempt) : result ErrorCode (list string) :=
  match residents with
  | [] => Ok []
  | r :: residents =>
      match db_jobs db !! ra_JobID r with
      | None => Err ErrorInternal
      | Some j =>
          if bool_decide (is_Some (db_service_jobs db !! ra_JobID r)) || negb (bool_decide (js_Kind (j_spec j) = JobKindProcess))
          then Err ErrorConflict
          else let? work := resident_work db residents in Ok (ProcessOneshot :: work)
      end
  end.

Definition cohort_decision (inventory : NodeGenerationInventory) (candidate : NodeGeneration) (work : list string) : Decision :=
  Decide (mkInput PlainMac (ng_RetirementProtocolVersions candidate)
    (map (fun g => mkGeneration (ng_AgentGenerationID g) (ng_Role g) (ng_RetirementProtocolVersions g)) (live_generations inventory)) work).

Fixpoint insert_residents (nodeID generation : string) (residents : list ResidentAttempt) : generation_tx unit :=
  match residents with
  | [] => pure tt
  | r :: residents =>
      let! taken := reads (fun db => existsb (fun x => bool_decide (r_attempt_id x = ra_AttemptID r)) (db_residents db)) in
      let! _ := check (negb taken) ErrorInternal in
      let! _ := writes (fun db => db <| db_residents := db_residents db ++
        [mkResidentRow nodeID generation (ra_AttemptID r) (ra_JobID r) (ra_BootSessionID r) (ra_AuthorityGeneration r) (ra_FencingToken r)] |>) in
      insert_residents nodeID generation residents
  end.

(** The survivors take over the candidate's system boot, or must share it. *)
Fixpoint bind_survivors (nodeID systemBoot : string) (survivors : list NodeGeneration) : generation_tx unit :=
  match survivors with
  | [] => pure tt
  | g :: survivors =>
      let stored := reg_SystemBootID (ng_Registration g) in
      let! _ := check (bool_decide (stored = "") || bool_decide (stored = systemBoot)) ErrorConflict in
      let! _ := if bool_decide (stored = "")
                then writes (exec_generation nodeID (ng_AgentGenerationID g)
                       (fun row => row <| g_registration := (ng_Registration g) <| reg_SystemBootID := systemBoot |> |>))
                else pure tt in
      bind_survivors nodeID systemBoot survivors
  end.

Definition promoted_node (now : Z) (registration : NodeRegistration) (o : storedCapabilityObservation) (n : NodeRow) : NodeRow :=
  heartbeat_at now (observe_capabilities o (describe_node registration n) <| n_authority_generation := n_authority_generation n + 1 |>
    <| n_state := NodeAlive |>).

Definition PromoteNodeGeneration (at_ : instant) (identity nodeID : string) (request : PromoteNodeGenerationRequest) :
    generation_tx NodeGenerationInventory :=
  let now := at_now at_ in
  let! _ := check (valid_promotion request) ErrorInvalidRequest in
  let request := request <| pg_ResidentAttempts := canonicalResidents (pg_ResidentAttempts request) |>
                         <| pg_RetiringGenerationIDs := sort_strings (pg_RetiringGenerationIDs request) |> in
  let operation := PromoteOperation request in
  let! _ := beginWriteTransaction at_ in
  let! _ := requireGenerationIdentity nodeID identity in
  let! _ := replay_operation nodeID (pg_OperationID request) operation in
  let! inventory := reads (readNodeGenerations nodeID) in
  let! found := need (fun _ => expected_inventory request inventory) ErrorConflict in
  let '(primary, candidate) := found in
  let! n := need (fun db => db_nodes db !! nodeID) ErrorInternal in
  let! _ := check (negb (n_claims_enabled n) && (n_intent_revision n =? pg_IntentRevision request)
                   && bool_decide (n_boot_session_id n = ng_BootSessionID primary)
                   && (n_authority_generation n =? ng_AuthorityGeneration primary) && bool_decide (n_os n = "darwin")) ErrorConflict in
  let! residents := reads (readPrimaryResidents nodeID (n_boot_session_id n) (n_authority_generation n)) in
  let! _ := check (bool_decide (residents = pg_ResidentAttempts request)) ErrorConflict in
  let! db := reads (fun db => db) in
  let! work := lift (resident_work db residents) in
  let decision := cohort_decision inventory candidate work in
  let! _ := check (bool_decide (dec_Mode decision = Rolling) && (dec_Protocol decision =? pg_SelectedProtocol request)) ErrorConflict in
  let! _ := check (forallb (fun g => ng_SelectedProtocol g =? pg_SelectedProtocol request) (with_role NodeGenerationRetiring inventory))
              ErrorConflict in
  let! _ := insert_residents nodeID (ng_AgentGenerationID primary) residents in
  let! _ := writes (exec_generation nodeID (ng_AgentGenerationID primary) (fun g =>
    g <| g_role := NodeGenerationRetiring |> <| g_retiring_ns := Some now |> <| g_selected_protocol := pg_SelectedProtocol request |>
      <| g_promotion_operation_id := pg_OperationID request |>)) in
  let registration := ng_Registration candidate in
  let! _ := if bool_decide (reg_SystemBootID registration = "") then pure tt
            else bind_survivors nodeID (reg_SystemBootID registration) (live_generations inventory) in
  let! incoming := lift (canonicalCapabilityObservation lower_table (registrationCapabilityObservation registration)) in
  let! _ := writes (exec_node nodeID (promoted_node now registration incoming)) in
  let! _ := writes (exec_generation nodeID (ng_AgentGenerationID candidate) (fun g =>
    g <| g_role := NodeGenerationPrimary |> <| g_authority_generation := n_authority_generation n + 1 |>
      <| g_selected_protocol := pg_SelectedProtocol request |> <| g_promotion_operation_id := pg_OperationID request |>
      <| g_heartbeat_ns := now |>)) in
  let! _ := writes (fun db => db <| db_generation_catalog := alter (fun _ => pg_CatalogRevision request) nodeID (db_generation_catalog db) |>) in
  finish_operation nodeID (pg_OperationID request) operation.

(** ** Retirement *)
Definition retiring_here (db : DB) (nodeID generation boot : string) (g : GenerationRow) : bool :=
  of_generation nodeID generation g && bool_decide (g_boot_session_id g = boot) && bool_decide (g_role g = NodeGenerationRetiring)
  && bool_decide (g_system_boot_id g = primary_system_boot db nodeID).

Definition HeartbeatRetiringNodeGeneration (at_ : instant) (identity nodeID generation boot : string) : generation_tx NodeGenerationInventory :=
  let! _ := beginWriteTransaction at_ in
  let! _ := requireGenerationIdentity nodeID identity in
  let! db := reads (fun db => db) in
  let! _ := check (existsb (retiring_here db nodeID generation boot) (db_generations db)) ErrorNodeSessionReplaced in
  let! _ := writes (exec_generations (retiring_here db nodeID generation boot) (fun g => g <| g_heartbeat_ns := at_now at_ |>)) in
  reads (readNodeGenerations nodeID).

(** A resident that still keeps its generation open; a comparison with a NULL
    settlement deadline selects nothing. *)
Definition resident_pending (clock : attemptClock) (now : Z) (db : DB) (r : ResidentRow) : bool :=
  match db_attempts db !! r_attempt_id r, db_jobs db !! r_job_id r with
  | Some a, Some j =>
      (bool_decide (a_completion_key a = None)
       || negb (bool_decide (a_state a ∈ [AttemptSucceeded; AttemptFailed; AttemptInterrupted])))
      && negb (bool_decide (a_state a = AttemptLost)) && lease_live_row clock now a
      && negb (bool_decide (j_outcome j = OutcomeCanceled)
               && match j_cancel_settle_by_ns j with Some t => t <=? now | None => true end)
  | _, _ => true
  end.

Definition nodeGenerationClosureReady (clock : attemptClock) (now : Z) (nodeID generation : string) (db : DB) : result ErrorCode bool :=
  let clock := withAttemptExpiryClock clock in
  if ac_err clock then Err ErrorInternal
  else Ok (negb (existsb (fun r => bool_decide (r_node_id r = nodeID) && bool_decide (r_generation_id r = generation)
                                   && resident_pending clock now db r) (db_residents db))).

Definition abort_guard (request : CloseNodeGenerationRequest) (abort : StagedGenerationAbort) : bool :=
  negb (bool_decide (sg_OperationID abort = "") || bool_decide (sg_PrimaryGenerationID abort = "")
        || bool_decide (sg_PrimaryBootSessionID abort = "") || (sg_AuthorityGeneration abort <=? 0) || (sg_IntentRevision abort <=? 0)
        || bool_decide (sg_IntentReason abort = "") || bool_decide (cg_BootSessionID request = "")
        || negb (bool_decide (cg_PromotionOperationID request = sg_OperationID abort)) || negb (cg_RuntimesReaped request)
        || negb (cg_EvidenceSettled request) || negb (bool_decide (cg_ResidentAttempts request = []))).

(** The last entry of the inventory with an identifier, as the loop leaves it. *)
Definition entry_is (inventory : NodeGenerationInventory) (generation : string) (p : NodeGeneration -> bool) : bool :=
  match last (List.filter (fun g => bool_decide (ng_AgentGenerationID g = generation)) (gi_Generations inventory)) with
  | Some g => p g
  | None => false
  end.

Definition abortStagedGeneration (at_ : instant) (identity nodeID generation : string) (request : CloseNodeGenerationRequest)
    (abort : StagedGenerationAbort) : generation_tx NodeGenerationInventory :=
  let! _ := check (abort_guard request abort) ErrorConflict in
  let operation := AbortOperation generation request in
  let key := "abort:" +:+ sg_OperationID abort in
  let! _ := beginWriteTransaction at_ in
  let! _ := requireGenerationIdentity nodeID identity in
  let! _ := replay_operation nodeID key operation in
  let! inventory := reads (readNodeGenerations nodeID) in
  let primary := entry_is inventory (sg_PrimaryGenerationID abort) (fun g =>
    bool_decide (ng_Role g = NodeGenerationPrimary) && bool_decide (ng_BootSessionID g = sg_PrimaryBootSessionID abort)
    && (ng_AuthorityGeneration g =? sg_AuthorityGeneration abort)) in
  let target := entry_is inventory generation (fun g =>
    bool_decide (ng_Role g = NodeGenerationStaged) && bool_decide (ng_BootSessionID g = cg_BootSessionID request)
    && bool_decide (ng_ResidentAttempts g = [])) in
  let! n := need (fun db => db_nodes db !! nodeID) ErrorInternal in
  let! _ := check (primary && target && (gi_CatalogRevision inventory =? sg_CatalogRevision abort)
                   && bool_decide (n_boot_session_id n = sg_PrimaryBootSessionID abort)
                   && (n_authority_generation n =? sg_AuthorityGeneration abort) && negb (n_claims_enabled n)
                   && (n_intent_revision n =? sg_IntentRevision abort) && bool_decide (n_intent_reason n = sg_IntentReason abort))
              ErrorConflict in
  let! _ := writes (exec_generation nodeID generation (fun g =>
    g <| g_role := NodeGenerationClosed |> <| g_promotion_operation_id := sg_OperationID abort |> <| g_closed_ns := Some (at_now at_) |>)) in
  finish_operation nodeID key operation.

Definition CloseNodeGeneration (at_ : instant) (identity nodeID generation : string) (request : CloseNodeGenerationRequest) :
    generation_tx NodeGenerationInventory :=
  match cg_Abort request with
  | Some abort => abortStagedGeneration at_ identity nodeID generation request abort
  | None =>
      let now := at_now at_ in
      let! clock := beginWriteTransaction at_ in
      let! _ := requireGenerationIdentity nodeID identity in
      let! inventory := reads (readNodeGenerations nodeID) in
      let! target := need (fun _ => last (List.filter (fun g => bool_decide (ng_AgentGenerationID g = generation)) (gi_Generations inventory)))
                       ErrorConflict in
      let! _ := check (bool_decide (ng_Role target ∈ [NodeGenerationRetiring; NodeGenerationClosed])
                       && bool_decide (ng_BootSessionID target = cg_BootSessionID request)
                       && bool_decide (ng_PromotionOperationID target = cg_PromotionOperationID request)
                       && bool_decide (canonicalResidents (ng_ResidentAttempts target) = canonicalResidents (cg_ResidentAttempts request))
                       && cg_RuntimesReaped request && cg_EvidenceSettled request) ErrorConflict in
      if bool_decide (ng_Role target = NodeGenerationClosed) then answer inventory else
      let! db := reads (fun db => db) in
      let! ready := lift (nodeGenerationClosureReady clock now nodeID generation db) in
      let! _ := check ready ErrorConflict in
      let! _ := writes (exec_generation nodeID generation (fun g => g <| g_role := NodeGenerationClosed |> <| g_closed_ns := Some now |>)) in
      reads (readNodeGenerations nodeID)
  end.

(** ** De-enrollment *)
Definition deenrollment_guard (r : DeEnrollNodeGenerationRequest) : bool :=
  negb (bool_decide (dg_OperationID r = "") || bool_decide (dg_PrimaryGenerationID r = "") || bool_decide (dg_PrimaryBootSessionID r = "")
        || (dg_AuthorityGeneration r <=? 0) || (dg_IntentRevision r <=? 0)
        || negb (bool_decide (dg_IntentReason r = "wefty maintenance " +:+ dg_OperationID r))
        || negb (dg_RuntimesReaped r) || negb (dg_EvidenceSettled r)).

(** The primary as the request names it, with every other session closed. *)
Fixpoint only_primary (r : DeEnrollNodeGenerationRequest) (generations : list NodeGeneration) (primary : bool) : option bool :=
  match generations with
  | [] => Some primary
  | g :: generations =>
      if bool_decide (ng_Role g = NodeGenerationPrimary) then
        only_primary r generations (bool_decide (ng_AgentGenerationID g = dg_PrimaryGenerationID r)
          && bool_decide (ng_BootSessionID g = dg_PrimaryBootSessionID r) && (ng_AuthorityGeneration g =? dg_AuthorityGeneration r))
      else if bool_decide (ng_Role g = NodeGenerationClosed) && bool_decide (is_Some (ng_ClosedAt g))
      then only_primary r generations primary
      else None
  end.

Definition unsettled_on (nodeID : string) (db : DB) : bool :=
  existsb (fun '(_, a) => bool_decide (a_node_id a = nodeID)
             && (active_attempt (a_state a) || negb (bool_decide (a_state a = AttemptLost)) && bool_decide (a_completion_key a = None)))
    (map_to_list (db_attempts db)).

Definition DeEnrollNodeGeneration (at_ : instant) (identity nodeID : string) (r : DeEnrollNodeGenerationRequest) :
    generation_tx NodeGenerationInventory :=
  let! _ := check (deenrollment_guard r) ErrorConflict in
  let operation := DeEnrollOperation r in
  let key := "de-enroll:" +:+ dg_OperationID r in
  let! _ := beginWriteTransaction at_ in
  let! _ := requireGenerationIdentity nodeID identity in
  let! _ := replay_operation nodeID key operation in
  let reject : generation_tx NodeGenerationInventory :=
    let! _ := writes (record_operation nodeID key operation OperationRefused) in commit (Err ErrorDeEnrollmentNotCommitted) in
  let! inventory := reads (readNodeGenerations nodeID) in
  match only_primary r (gi_Generations inventory) false with
  | None => reject
  | Some primary =>
      let! n := need (fun db => db_nodes db !! nodeID) ErrorInternal in
      if negb (primary && (gi_CatalogRevision inventory =? dg_CatalogRevision r)
               && bool_decide (n_boot_session_id n = dg_PrimaryBootSessionID r)
               && (n_authority_generation n =? dg_AuthorityGeneration r) && negb (n_claims_enabled n)
               && (n_intent_revision n =? dg_IntentRevision r) && bool_decide (n_intent_reason n = dg_IntentReason r))
      then reject else
      let! pending := reads (unsettled_on nodeID) in
      if pending then reject else
      let! _ := writes (exec_generation nodeID (dg_PrimaryGenerationID r) (fun g =>
        g <| g_role := NodeGenerationClosed |> <| g_closed_ns := Some (at_now at_) |>)) in
      let! _ := writes (exec_node nodeID (fun n => n <| n_boot_session_id := "de-enrolled:" +:+ dg_OperationID r |>
        <| n_authority_generation := n_authority_generation n + 1 |>)) in
      let! _ := writes (fun db => db <| db_generation_catalog := alter (fun revision => revision + 1) nodeID (db_generation_catalog db) |>) in
      finish_operation nodeID key operation
  end.
End Nodes.
