(* ===== verification/SessionInvariant.v ===== *)
(** * The invariant of node sessions

    What ties a node's row, its generations and their residents together, and
    that every operation of NodeSessions.v keeps it.  The invariant is stated on
    the part of the store it speaks of: the session (boot, authority) of each
    node, the generations, the residents and the catalog. *)
From S2P Require Import Prelude Order States Contract GoStrings JobSpec L1Types NodeTypes RestartPolicy Database.
From S2P Require Import UpgradeCompat LeaseClock Authority Credentials Summaries Lifecycle Placement LogRetention Logs Claim.
From S2P Require Import ServiceOperator Reconcile NodeSessions.
#[local] Open Scope string_scope.
#[local] Open Scope list_scope.
#[local] Open Scope Z_scope.

Definition session (n : NodeRow) : string * Z := (n_boot_session_id n, n_authority_generation n).
Definition node_sessions (db : DB) : gmap string (string * Z) := session <$> db_nodes db.

Definition key (g : GenerationRow) : string * string := (g_node_id g, g_generation_id g).

(** [except] is a node whose row is ahead of its primary generation, in the
    middle of a registration. *)
Record coherent (except : option string) (S : gmap string (string * Z)) (G : list GenerationRow) (R : list ResidentRow)
    (C : gmap string Z) : Prop := {
  co_node : forall g, g ∈ G -> is_Some (S !! g_node_id g);
  co_catalog : forall g, g ∈ G -> is_Some (C !! g_node_id g);
  co_named : forall g, g ∈ G -> g_generation_id g <> "";
  co_key : forall g h, g ∈ G -> h ∈ G -> key g = key h -> g = h;
  co_boot : forall g h, g ∈ G -> h ∈ G -> g_node_id g = g_node_id h -> g_boot_session_id g = g_boot_session_id h -> g = h;
  co_registration : forall g, g ∈ G -> reg_NodeID (g_registration g) = g_node_id g
    /\ reg_AgentGenerationID (g_registration g) = g_generation_id g /\ reg_BootSessionID (g_registration g) = g_boot_session_id g;
  co_closed : forall g, g ∈ G -> g_role g = NodeGenerationClosed -> is_Some (g_closed_ns g);
  co_one : forall g h, g ∈ G -> h ∈ G -> g_node_id g = g_node_id h -> g_role g = NodeGenerationPrimary ->
    g_role h = NodeGenerationPrimary -> g = h;
  co_primary : forall g, g ∈ G -> g_role g = NodeGenerationPrimary -> except <> Some (g_node_id g) ->
    S !! g_node_id g = Some (g_boot_session_id g, g_authority_generation g);
  co_older : forall g b a, g ∈ G -> g_role g = NodeGenerationRetiring -> S !! g_node_id g = Some (b, a) -> g_authority_generation g < a;
  co_order : forall g h, g ∈ G -> h ∈ G -> g_node_id g = g_node_id h -> g_role g = NodeGenerationRetiring ->
    g_role h = NodeGenerationPrimary -> g_authority_generation g < g_authority_generation h;
  co_resident : forall r, r ∈ R -> exists g, g ∈ G /\ key g = (r_node_id r, r_generation_id r)
    /\ (g_role g = NodeGenerationRetiring \/ g_role g = NodeGenerationClosed)
    /\ g_boot_session_id g = r_boot_session_id r /\ g_authority_generation g = r_authority_generation r;
  co_resident_once : forall r r', r ∈ R -> r' ∈ R -> r_attempt_id r = r_attempt_id r' -> r = r'
}.

Definition sessions_ok (db : DB) : Prop :=
  coherent None (node_sessions db) (db_generations db) (db_residents db) (db_generation_catalog db).

(** ** Updates of generations *)
Record relabel (g g' : GenerationRow) : Prop := {
  rl_key : key g' = key g;
  rl_boot : g_boot_session_id g' = g_boot_session_id g;
  rl_registration : reg_NodeID (g_registration g') = reg_NodeID (g_registration g)
    /\ reg_AgentGenerationID (g_registration g') = reg_AgentGenerationID (g_registration g)
    /\ reg_BootSessionID (g_registration g') = reg_BootSessionID (g_registration g)
}.

(** An update of what no other component reads. *)
Definition rebind (g g' : GenerationRow) : Prop :=
  relabel g g' /\ g_role g' = g_role g /\ g_authority_generation g' = g_authority_generation g /\ g_closed_ns g' = g_closed_ns g.

Lemma relabel_refl g : relabel g g.
Proof. done. Qed.
Lemma rebind_refl g : rebind g g.
Proof. done. Qed.
Lemma rebind_trans g1 g2 g3 : rebind g1 g2 -> rebind g2 g3 -> rebind g1 g3.
Proof.
  intros [[K1 B1 (R1 & R2 & R3)] (O1 & A1 & C1)] [[K2 B2 (R4 & R5 & R6)] (O2 & A2 & C2)].
  split; [split; [congruence | congruence | split_and!; congruence] | split_and!; congruence].
Qed.

Lemma elem_of_map {A B} (f : A -> B) l y : y ∈ map f l <-> exists x, x ∈ l /\ y = f x.
Proof.
  rewrite list_elem_of_In, in_map_iff. setoid_rewrite list_elem_of_In. split; intros (x & ? & ?); exists x; done.
Qed.

Lemma relabel_node g g' : relabel g g' -> g_node_id g' = g_node_id g /\ g_generation_id g' = g_generation_id g.
Proof. intros [K _ _]. unfold key in K. by injection K. Qed.

(** What a relabelling keeps, and what its author has to show. *)
Lemma coherent_map except S G R C S' R' (T : GenerationRow -> GenerationRow) :
  coherent except S G R C -> (forall g, g ∈ G -> relabel g (T g)) ->
  (forall g, g ∈ G -> is_Some (S' !! g_node_id g)) ->
  (forall g, g ∈ G -> g_role (T g) = NodeGenerationClosed -> is_Some (g_closed_ns (T g))) ->
  (forall g h, g ∈ G -> h ∈ G -> g_node_id g = g_node_id h -> g_role (T g) = NodeGenerationPrimary ->
     g_role (T h) = NodeGenerationPrimary -> g = h) ->
  (forall g, g ∈ G -> g_role (T g) = NodeGenerationPrimary -> except <> Some (g_node_id g) ->
     S' !! g_node_id g = Some (g_boot_session_id g, g_authority_generation (T g))) ->
  (forall g b a, g ∈ G -> g_role (T g) = NodeGenerationRetiring -> S' !! g_node_id g = Some (b, a) -> g_authority_generation (T g) < a) ->
  (forall g h, g ∈ G -> h ∈ G -> g_node_id g = g_node_id h -> g_role (T g) = NodeGenerationRetiring ->
     g_role (T h) = NodeGenerationPrimary -> g_authority_generation (T g) < g_authority_generation (T h)) ->
  (forall r, r ∈ R' -> exists g, g ∈ G /\ key g = (r_node_id r, r_generation_id r)
     /\ (g_role (T g) = NodeGenerationRetiring \/ g_role (T g) = NodeGenerationClosed)
     /\ g_boot_session_id g = r_boot_session_id r /\ g_authority_generation (T g) = r_authority_generation r) ->
  (forall r r', r ∈ R' -> r' ∈ R' -> r_attempt_id r = r_attempt_id r' -> r = r') ->
  coherent except S' (map T G) R' C.
Proof.
  intros H HT Hnode Hcl Hone Hprim Hold Hord Hres Hro.
  assert (Hn : forall g, g ∈ G -> g_node_id (T g) = g_node_id g /\ g_generation_id (T g) = g_generation_id g).
  { intros g Hg. by apply relabel_node, HT. }
  split.
  - intros g' (g & Hg & ->)%elem_of_map. rewrite (proj1 (Hn g Hg)). by apply Hnode.
  - intros g' (g & Hg & ->)%elem_of_map. rewrite (proj1 (Hn g Hg)). by apply (co_catalog _ _ _ _ _ H).
  - intros g' (g & Hg & ->)%elem_of_map. rewrite (proj2 (Hn g Hg)). by apply (co_named _ _ _ _ _ H).
  - intros g' h' (g & Hg & ->)%elem_of_map (h & Hh & ->)%elem_of_map. rewrite (rl_key _ _ (HT g Hg)), (rl_key _ _ (HT h Hh)).
    intros E. f_equal. by apply (co_key _ _ _ _ _ H).
  - intros g' h' (g & Hg & ->)%elem_of_map (h & Hh & ->)%elem_of_map. rewrite (proj1 (Hn g Hg)), (proj1 (Hn h Hh)).
    rewrite (rl_boot _ _ (HT g Hg)), (rl_boot _ _ (HT h Hh)). intros E1 E2. f_equal. by apply (co_boot _ _ _ _ _ H).
  - intros g' (g & Hg & ->)%elem_of_map. destruct (rl_registration _ _ (HT g Hg)) as (-> & -> & ->).
    rewrite (proj1 (Hn g Hg)), (proj2 (Hn g Hg)), (rl_boot _ _ (HT g Hg)). by apply (co_registration _ _ _ _ _ H).
  - intros g' (g & Hg & ->)%elem_of_map. by apply Hcl.
  - intros g' h' (g & Hg & ->)%elem_of_map (h & Hh & ->)%elem_of_map. rewrite (proj1 (Hn g Hg)), (proj1 (Hn h Hh)).
    intros E1 E2 E3. f_equal. by apply Hone.
  - intros g' (g & Hg & ->)%elem_of_map. rewrite (proj1 (Hn g Hg)), (rl_boot _ _ (HT g Hg)). by apply Hprim.
  - intros g' b a (g & Hg & ->)%elem_of_map. rewrite (proj1 (Hn g Hg)). by apply Hold.
  - intros g' h' (g & Hg & ->)%elem_of_map (h & Hh & ->)%elem_of_map. rewrite (proj1 (Hn g Hg)), (proj1 (Hn h Hh)). by apply Hord.
  - intros r Hr. destruct (Hres r Hr) as (g & Hg & E & Hrole & Hb & Ha). exists (T g). split_and!; [apply elem_of_map; eauto|..].
    + by rewrite (rl_key _ _ (HT g Hg)).
    + done.
    + by rewrite (rl_boot _ _ (HT g Hg)).
    + done.
  - done.
Qed.

Lemma coherent_rebind except S G R C T :
  coherent except S G R C -> (forall g, g ∈ G -> rebind g (T g)) -> coherent except S (map T G) R C.
Proof.
  intros H HT. eapply coherent_map; [exact H | intros g Hg; apply (HT g Hg)|..].
  - apply (co_node _ _ _ _ _ H).
  - intros g Hg. destruct (HT g Hg) as (_ & -> & _ & ->). by apply (co_closed _ _ _ _ _ H).
  - intros g h Hg Hh. destruct (HT g Hg) as (_ & -> & _), (HT h Hh) as (_ & -> & _). by apply (co_one _ _ _ _ _ H).
  - intros g Hg. destruct (HT g Hg) as (_ & -> & -> & _). by apply (co_primary _ _ _ _ _ H).
  - intros g b a Hg. destruct (HT g Hg) as (_ & -> & -> & _). by apply (co_older _ _ _ _ _ H).
  - intros g h Hg Hh. destruct (HT g Hg) as (_ & -> & -> & _), (HT h Hh) as (_ & -> & -> & _). by apply (co_order _ _ _ _ _ H).
  - intros r Hr. destruct (co_resident _ _ _ _ _ H r Hr) as (g & Hg & E & Hrole & Hb & Ha). exists g.
    destruct (HT g Hg) as (_ & -> & -> & _). done.
  - apply (co_resident_once _ _ _ _ _ H).
Qed.

(** Closing a session. *)
Lemma coherent_close S G R C (p : GenerationRow -> bool) (f : GenerationRow -> GenerationRow) :
  coherent None S G R C ->
  (forall g, relabel g (f g) /\ g_role (f g) = NodeGenerationClosed /\ is_Some (g_closed_ns (f g))
             /\ g_authority_generation (f g) = g_authority_generation g) ->
  coherent None S (map (fun g => if p g then f g else g) G) R C.
Proof.
  intros H Hf. set (T := fun g : GenerationRow => if p g then f g else g).
  assert (HT : forall g, relabel g (T g) /\ g_authority_generation (T g) = g_authority_generation g
                 /\ (g_role (T g) = g_role g /\ T g = g \/ g_role (T g) = NodeGenerationClosed /\ is_Some (g_closed_ns (T g)))).
  { intros g. unfold T. destruct (Hf g) as (? & ? & ? & ?). destruct (p g); split_and!; auto using relabel_refl. }
  assert (Hopen : forall g role, role <> NodeGenerationClosed -> g_role (T g) = role -> g_role g = role).
  { intros g role N E. destruct (HT g) as (_ & _ & [[<- _]|[E' _]]); [done|]. congruence. }
  eapply coherent_map; [exact H | intros g _; apply HT|..].
  - apply (co_node _ _ _ _ _ H).
  - intros g Hg E. destruct (HT g) as (_ & _ & [[E' ->]|[_ ?]]); [|done]. apply (co_closed _ _ _ _ _ H); [done|congruence].
  - intros g h Hg Hh Hn E1%Hopen E2%Hopen; [|done|done]. by apply (co_one _ _ _ _ _ H).
  - intros g Hg E%Hopen; [|done]. destruct (HT g) as (_ & -> & _). by apply (co_primary _ _ _ _ _ H).
  - intros g b a Hg E%Hopen; [|done]. destruct (HT g) as (_ & -> & _). by apply (co_older _ _ _ _ _ H).
  - intros g h Hg Hh Hn E1%Hopen E2%Hopen; [|done|done]. destruct (HT g) as (_ & -> & _), (HT h) as (_ & -> & _).
    by apply (co_order _ _ _ _ _ H).
  - intros r Hr. destruct (co_resident _ _ _ _ _ H r Hr) as (g & Hg & E & Hrole & Hb & Ha). exists g.
    destruct (HT g) as (_ & -> & [[-> _]|[-> _]]); split_and!; auto.
  - apply (co_resident_once _ _ _ _ _ H).
Qed.

(** A staged candidate joins. *)
Lemma coherent_stage S G R C row :
  coherent None S G R C -> is_Some (S !! g_node_id row) -> is_Some (C !! g_node_id row) -> g_generation_id row <> "" ->
  g_role row = NodeGenerationStaged ->
  (reg_NodeID (g_registration row) = g_node_id row /\ reg_AgentGenerationID (g_registration row) = g_generation_id row
     /\ reg_BootSessionID (g_registration row) = g_boot_session_id row) ->
  (forall g, g ∈ G -> g_node_id g = g_node_id row -> g_generation_id g <> g_generation_id row
     /\ g_boot_session_id g <> g_boot_session_id row) ->
  coherent None S (G ++ [row]) R C.
Proof.
  intros H HS HC Hnamed Hrole Hreg Hfresh.
  assert (Hin : forall g, g ∈ G ++ [row] -> g ∈ G \/ g = row).
  { intros g [?|Hg]%elem_of_app; [by left|]. right. by apply list_elem_of_singleton in Hg. }
  split.
  - intros g [Hg| ->]%Hin; [by apply (co_node _ _ _ _ _ H) | done].
  - intros g [Hg| ->]%Hin; [by apply (co_catalog _ _ _ _ _ H) | done].
  - intros g [Hg| ->]%Hin; [by apply (co_named _ _ _ _ _ H) | done].
  - intros g h [Hg| ->]%Hin [Hh| ->]%Hin E; [by apply (co_key _ _ _ _ _ H) | | |done].
    + injection E as E1 E2. by destruct (Hfresh g Hg E1).
    + injection E as E1 E2. by destruct (Hfresh h Hh).
  - intros g h [Hg| ->]%Hin [Hh| ->]%Hin E1 E2; [by apply (co_boot _ _ _ _ _ H) | | |done].
    + by destruct (Hfresh g Hg E1).
    + by destruct (Hfresh h Hh).
  - intros g [Hg| ->]%Hin; [by apply (co_registration _ _ _ _ _ H) | done].
  - intros g [Hg| ->]%Hin; [by apply (co_closed _ _ _ _ _ H) | by rewrite Hrole].
  - intros g h [Hg| ->]%Hin [Hh| ->]%Hin; try (rewrite Hrole; done). by apply (co_one _ _ _ _ _ H).
  - intros g [Hg| ->]%Hin; [by apply (co_primary _ _ _ _ _ H) | by rewrite Hrole].
  - intros g b a [Hg| ->]%Hin; [by apply (co_older _ _ _ _ _ H) | by rewrite Hrole].
  - intros g h [Hg| ->]%Hin [Hh| ->]%Hin; try (rewrite Hrole; done). by apply (co_order _ _ _ _ _ H).
  - intros r Hr. destruct (co_resident _ _ _ _ _ H r Hr) as (g & Hg & ?). exists g. split; [apply elem_of_app; by left | done].
  - apply (co_resident_once _ _ _ _ _ H).
Qed.

(** A node's primary session after its registration: [row] replaces the row of its
    key, or joins. *)
Lemma coherent_enroll S G G' R C C' row :
  coherent (Some (g_node_id row)) S G R C ->
  S !! g_node_id row = Some (g_boot_session_id row, g_authority_generation row) ->
  (forall node, is_Some (C !! node) -> is_Some (C' !! node)) -> is_Some (C' !! g_node_id row) ->
  g_generation_id row <> "" -> g_role row = NodeGenerationPrimary ->
  (reg_NodeID (g_registration row) = g_node_id row /\ reg_AgentGenerationID (g_registration row) = g_generation_id row
     /\ reg_BootSessionID (g_registration row) = g_boot_session_id row) ->
  (forall g, g ∈ G' <-> g = row \/ g ∈ G /\ key g <> key row) ->
  (forall g, g ∈ G -> key g = key row -> g_role g = NodeGenerationPrimary) ->
  (forall g, g ∈ G -> g_node_id g = g_node_id row -> key g <> key row ->
     g_boot_session_id g <> g_boot_session_id row /\ g_role g <> NodeGenerationPrimary) ->
  coherent None S G' R C'.
Proof.
  intros H HS HC HC' Hnamed Hrole Hreg HG Hown Hother. split.
  - intros g [->|[Hg _]]%HG; [by rewrite HS | by apply (co_node _ _ _ _ _ H)].
  - intros g [->|[Hg _]]%HG; [done | by apply HC, (co_catalog _ _ _ _ _ H)].
  - intros g [->|[Hg _]]%HG; [done | by apply (co_named _ _ _ _ _ H)].
  - intros g h [->|[Hg Kg]]%HG [->|[Hh Kh]]%HG E; try done. by apply (co_key _ _ _ _ _ H).
  - intros g h [->|[Hg Kg]]%HG [->|[Hh Kh]]%HG E1 E2; [done | | |by apply (co_boot _ _ _ _ _ H)].
    + by destruct (Hother h Hh (eq_sym E1) Kh).
    + by destruct (Hother g Hg E1 Kg).
  - intros g [->|[Hg _]]%HG; [done | by apply (co_registration _ _ _ _ _ H)].
  - intros g [->|[Hg _]]%HG; [by rewrite Hrole | by apply (co_closed _ _ _ _ _ H)].
  - intros g h [->|[Hg Kg]]%HG [->|[Hh Kh]]%HG E1 E2 E3; [done | | |by apply (co_one _ _ _ _ _ H)].
    + by destruct (Hother h Hh (eq_sym E1) Kh).
    + by destruct (Hother g Hg E1 Kg).
  - intros g [->|[Hg Kg]]%HG Hr _; [done|]. apply (co_primary _ _ _ _ _ H); [done | done|]. intros [= E].
    by destruct (Hother g Hg (eq_sym E) Kg).
  - intros g b a [->|[Hg _]]%HG; [by rewrite Hrole | by apply (co_older _ _ _ _ _ H)].
  - intros g h [->|[Hg Kg]]%HG [->|[Hh Kh]]%HG E1 E2 E3; [by rewrite Hrole in E2 | by rewrite Hrole in E2 | |by apply (co_order _ _ _ _ _ H)].
    eapply (co_older _ _ _ _ _ H); [exact Hg | exact E2 | by rewrite E1].
  - intros r Hr. destruct (co_resident _ _ _ _ _ H r Hr) as (g & Hg & E & Hro & Hb & Ha). exists g. split_and!; try done.
    apply HG. right. split; [done|]. intros K. rewrite (Hown g Hg K) in Hro. by destruct Hro.
  - apply (co_resident_once _ _ _ _ _ H).
Qed.

(** The session of one node moves ahead of its generations. *)
Lemma coherent_ahead S G R C node b a b' a' :
  coherent None S G R C -> S !! node = Some (b, a) -> a <= a' -> coherent (Some node) (<[node := (b', a')]> S) G R C.
Proof.
  intros H HS Ha. split; try apply H.
  - intros g Hg. destruct (decide (g_node_id g = node)) as [<-|N]; [by rewrite lookup_insert_eq|].
    rewrite lookup_insert_ne by done. by apply (co_node _ _ _ _ _ H).
  - intros g Hg Hr Hn. rewrite lookup_insert_ne by congruence. by apply (co_primary _ _ _ _ _ H).
  - intros g b0 a0 Hg Hr. destruct (decide (g_node_id g = node)) as [<-|N].
    + rewrite lookup_insert_eq. intros [= <- <-]. assert (Hlt := co_older _ _ _ _ _ H g b a Hg Hr HS). lia.
    + rewrite lookup_insert_ne by done. by apply (co_older _ _ _ _ _ H).
Qed.

(** No primary is left to be ahead of. *)
Lemma coherent_unbound S G R C node :
  coherent (Some node) S G R C -> (forall g, g ∈ G -> g_node_id g = node -> g_role g <> NodeGenerationPrimary) -> coherent None S G R C.
Proof.
  intros H Hn. split; try apply H. intros g Hg Hr _. apply (co_primary _ _ _ _ _ H); [done | done|]. intros [= E]. by apply (Hn g Hg).
Qed.

(** A node without generations comes and goes freely. *)
Lemma coherent_new_node S G R C node s :
  coherent None S G R C -> S !! node = None -> coherent None (<[node := s]> S) G R C.
Proof.
  intros H HS.
  assert (Hne : forall g, g ∈ G -> g_node_id g <> node).
  { intros g Hg E. destruct (co_node _ _ _ _ _ H g Hg) as [? E']. congruence. }
  split; try apply H; intros g; intros; specialize (Hne g); rewrite ?lookup_insert_ne in * by (intros E; by apply Hne).
  - by apply (co_node _ _ _ _ _ H).
  - by apply (co_primary _ _ _ _ _ H).
  - by eapply (co_older _ _ _ _ _ H).
Qed.

Lemma coherent_catalog except S G R C C' :
  coherent except S G R C -> (forall node, is_Some (C !! node) -> is_Some (C' !! node)) -> coherent except S G R C'.
Proof. intros H HC. split; try apply H. intros g Hg. by apply HC, (co_catalog _ _ _ _ _ H). Qed.

(** ** Roles only move onward *)
Definition role_rank (role : string) : Z :=
  if bool_decide (role = NodeGenerationStaged) then 0
  else if bool_decide (role = NodeGenerationPrimary) then 1
  else if bool_decide (role = NodeGenerationRetiring) then 2
  else 3.

Definition onward (G G' : list GenerationRow) : Prop :=
  forall g, g ∈ G -> exists g', g' ∈ G' /\ key g' = key g /\ role_rank (g_role g) <= role_rank (g_role g').

#[export] Instance onward_preorder : PreOrder onward.
Proof.
  split; [intros G g Hg; exists g; split_and!; [done | done | lia]|]. intros G1 G2 G3 H12 H23 g Hg.
  destruct (H12 g Hg) as (g2 & Hg2 & K2 & R2), (H23 g2 Hg2) as (g3 & Hg3 & K3 & R3). exists g3. split_and!; [done | congruence | lia].
Qed.

Lemma role_rank_closed role : role_rank role <= role_rank NodeGenerationClosed.
Proof. change (role_rank NodeGenerationClosed) with 3. unfold role_rank. repeat case_bool_decide; lia. Qed.

Lemma onward_map G (T : GenerationRow -> GenerationRow) :
  (forall g, g ∈ G -> key (T g) = key g /\ role_rank (g_role g) <= role_rank (g_role (T g))) -> onward G (map T G).
Proof. intros HT g Hg. exists (T g). destruct (HT g Hg). split_and!; try done. apply elem_of_map. eauto. Qed.

Lemma onward_rebind G T : (forall g, g ∈ G -> rebind g (T g)) -> onward G (map T G).
Proof. intros HT. apply onward_map. intros g Hg. destruct (HT g Hg) as ([-> _ _] & -> & _). split; [done | lia]. Qed.

Lemma onward_close G (p : GenerationRow -> bool) f :
  (forall g, relabel g (f g) /\ g_role (f g) = NodeGenerationClosed /\ is_Some (g_closed_ns (f g))
             /\ g_authority_generation (f g) = g_authority_generation g) ->
  onward G (map (fun g => if p g then f g else g) G).
Proof.
  intros Hf. apply onward_map. intros g _. destruct (Hf g) as ([K _ _] & R & _). destruct (p g); [|split; [done | lia]].
  split; [done|]. rewrite R. apply role_rank_closed.
Qed.

(** ** What an operation may do besides *)

(** Sessions only move to a higher authority; residents are added only for the
    current session of their node; a generation never takes an earlier role again;
    the ledger only grows. *)
Record moves (db db' : DB) : Prop := {
  mv_sessions : forall node b a, node_sessions db !! node = Some (b, a) ->
    exists b' a', node_sessions db' !! node = Some (b', a') /\ (b' = b /\ a' = a \/ a < a');
  mv_residents : exists new, db_residents db' = db_residents db ++ new
    /\ Forall (fun r => node_sessions db !! r_node_id r = Some (r_boot_session_id r, r_authority_generation r)) new;
  mv_onward : onward (db_generations db) (db_generations db');
  mv_ledger : db_generation_operations db ⊆ db_generation_operations db'
}.

(** Statements that leave all of this alone. *)
Record same_sessions (db db' : DB) : Prop := {
  ss_nodes : node_sessions db' = node_sessions db;
  ss_generations : db_generations db' = db_generations db;
  ss_residents : db_residents db' = db_residents db;
  ss_catalog : db_generation_catalog db' = db_generation_catalog db;
  ss_ledger : db_generation_operations db' = db_generation_operations db
}.

Definition advances (db db' : DB) : Prop := sessions_ok db' /\ moves db db'.

Lemma moves_refl db : moves db db.
Proof.
  split; [|exists []; by rewrite app_nil_r | done | done]. intros node b a E. exists b, a. split; [done|]. by left.
Qed.

Lemma same_moves_l db db1 db2 : same_sessions db db1 -> moves db1 db2 -> moves db db2.
Proof. intros [N G R C L] [M1 M2 M3 M4]. rewrite N, G, R, L in *. by split. Qed.

Lemma same_moves_r db db1 db2 : moves db db1 -> same_sessions db1 db2 -> moves db db2.
Proof. intros [M1 M2 M3 M4] [N G R C L]. split; rewrite ?N, ?G, ?R, ?L; done. Qed.

Lemma same_ok except db db' :
  coherent except (node_sessions db) (db_generations db) (db_residents db) (db_generation_catalog db) -> same_sessions db db' ->
  coherent except (node_sessions db') (db_generations db') (db_residents db') (db_generation_catalog db').
Proof. intros H [-> -> -> -> _]. done. Qed.

Lemma same_refl db : same_sessions db db.
Proof. done. Qed.
Lemma same_trans db1 db2 db3 : same_sessions db1 db2 -> same_sessions db2 db3 -> same_sessions db1 db3.
Proof. intros [? ? ? ? ?] [? ? ? ? ?]. split; congruence. Qed.

Lemma same_exec_node id f db : (forall n, session (f n) = session n) -> same_sessions db (exec_node id f db).
Proof.
  intros Hf. split; try done. unfold node_sessions, exec_node. simpl. apply map_eq. intros k. rewrite !lookup_fmap.
  destruct (decide (k = id)) as [->|N]; [rewrite lookup_alter_eq | by rewrite lookup_alter_ne].
  destruct (db_nodes db !! id); simpl; [by rewrite Hf | done].
Qed.

Lemma same_begin at_ db : same_sessions db (withLeaseSleepGap true (at_sample at_) db).2.
Proof.
  destruct (sleep_gap_rows true (at_sample at_) db) as (f & h & _ & Hn & _ & Hh).
  destruct (sleep_gap_frame true (at_sample at_) db) as (attempts & nodes & clock & E). rewrite E in *. simpl in Hn. subst nodes.
  split; try done. unfold node_sessions. simpl. rewrite <- map_fmap_compose. apply map_fmap_ext. intros k n _. simpl.
  destruct (Hh n) as [s ->]. done.
Qed.

(** ** Reading generations *)
Lemma find_Some {A} (p : A -> bool) l x : List.find p l = Some x -> x ∈ l /\ p x = true.
Proof. intros H%List.find_some. by rewrite list_elem_of_In. Qed.

Lemma find_None {A} (p : A -> bool) l x : List.find p l = None -> x ∈ l -> p x = false.
Proof. intros H Hx%list_elem_of_In. by apply (List.find_none p l). Qed.

Lemma of_generation_key node gen g : of_generation node gen g = true <-> key g = (node, gen).
Proof.
  unfold of_generation, key. rewrite andb_true_iff, !bool_decide_eq_true. split; [by intros [-> ->] | by intros [= -> ->]].
Qed.

Lemma is_primary_spec node g : is_primary node g = true <-> g_node_id g = node /\ g_role g = NodeGenerationPrimary.
Proof. unfold is_primary. by rewrite andb_true_iff, !bool_decide_eq_true. Qed.

Lemma existsb_false {A} (p : A -> bool) l x : existsb p l = false -> x ∈ l -> p x = false.
Proof.
  intros H Hx%list_elem_of_In. destruct (p x) eqn:E; [|done]. rewrite <- H. symmetry. apply existsb_exists. eauto.
Qed.

Lemma not_conflicting db row g :
  conflicting_session db row = false -> g ∈ db_generations db -> g_node_id g = g_node_id row -> g_generation_id g <> g_generation_id row ->
  g_boot_session_id g <> g_boot_session_id row /\ (g_role row = NodeGenerationPrimary -> g_role g <> NodeGenerationPrimary).
Proof.
  intros H Hg Hn Hne. unfold conflicting_session in H. apply (existsb_false _ _ g) in H; [|done]. cbv beta in H.
  rewrite (bool_decide_eq_true_2 _ Hn), (bool_decide_eq_false_2 _ Hne) in H. simpl in H. apply orb_false_iff in H as [H1 H2].
  apply bool_decide_eq_false in H1. split; [done|]. intros Hr Hr'. rewrite Hr, Hr' in H2. done.
Qed.

Section Nodes.
Context (lower_table : Z -> Z).

(** Only the generations change. *)
Definition regenerates (db db' : DB) : Prop :=
  exists G, db' = db <| db_generations := G |> /\ sessions_ok db' /\ onward (db_generations db) G.

Lemma regenerates_moves db db' : regenerates db db' -> advances db db'.
Proof. intros (G & -> & H & Ho). split; [done|]. destruct (moves_refl db) as [M1 M2 _ M4]. by split. Qed.

Lemma regenerates_rebind db T :
  sessions_ok db -> (forall g, g ∈ db_generations db -> rebind g (T g)) ->
  regenerates db (db <| db_generations := map T (db_generations db) |>).
Proof. intros H HT. eexists. split; [done|]. split; [by apply (coherent_rebind _ _ (db_generations db)) | by apply onward_rebind]. Qed.

Lemma post_refresh {R} nodeID now db (K : result ErrorCode R -> DB -> Prop) :
  sessions_ok db -> post (refreshPrimaryGenerationObservation lower_table nodeID now) (fun _ => regenerates db) K db.
Proof.
  intros H. unfold refreshPrimaryGenerationObservation. wp.
  - match goal with E : primary_generation db nodeID = Some ?g |- _ => apply find_Some in E as [Hg [Hn Hr]%is_primary_spec] end.
    apply regenerates_rebind; [done|]. intros h Hh. destruct (is_primary nodeID h) eqn:Eh; [|apply rebind_refl].
    apply is_primary_spec in Eh as [En Er]. assert (h = g) as -> by (apply (co_one _ _ _ _ _ H); congruence). done.
  - exists (db_generations db). split; [by destruct db | done].
Qed.

Lemma coherent_lower S G R C node b g :
  coherent (Some node) S G R C -> g ∈ G -> g_node_id g = node -> g_role g = NodeGenerationPrimary ->
  coherent (Some node) (<[node := (b, g_authority_generation g)]> S) G R C.
Proof.
  intros H Hg Hn Hr. split; try apply H.
  - intros h Hh. destruct (decide (g_node_id h = node)) as [->|N]; [by rewrite lookup_insert_eq|].
    rewrite lookup_insert_ne by done. by apply (co_node _ _ _ _ _ H).
  - intros h Hh Hrh Hne. rewrite lookup_insert_ne by congruence. by apply (co_primary _ _ _ _ _ H).
  - intros h b0 a0 Hh Hrh. destruct (decide (g_node_id h = node)) as [E|N].
    + rewrite E, lookup_insert_eq. intros [= <- <-]. apply (co_order _ _ _ _ _ H); congruence.
    + rewrite lookup_insert_ne by done. by apply (co_older _ _ _ _ _ H).
Qed.

Lemma node_sessions_exec id f db n :
  db_nodes db !! id = Some n -> node_sessions (exec_node id f db) = <[id := session (f n)]> (node_sessions db).
Proof.
  intros Hn. unfold node_sessions, exec_node. simpl. apply map_eq. intros k. rewrite lookup_fmap.
  destruct (decide (k = id)) as [->|N]; [by rewrite lookup_alter_eq, Hn, lookup_insert_eq|].
  by rewrite lookup_alter_ne, lookup_insert_ne, lookup_fmap.
Qed.

Lemma node_sessions_lookup db id b a :
  node_sessions db !! id = Some (b, a) -> exists n, db_nodes db !! id = Some n /\ n_boot_session_id n = b /\ n_authority_generation n = a.
Proof.
  unfold node_sessions. rewrite lookup_fmap. destruct (db_nodes db !! id) as [n|]; [|done]. intros [= <- <-]. by exists n.
Qed.

(** The row of the registering generation, in the two ways it is written. *)
Lemma upsert_rows db row except :
  coherent except (node_sessions db) (db_generations db) (db_residents db) (db_generation_catalog db) ->
  (forall g, g ∈ db_generations db -> key g = key row -> g_role g = NodeGenerationPrimary) -> g_role row = NodeGenerationPrimary ->
  exists G' row', upsert_primary row db = db <| db_generations := G' |> /\ key row' = key row /\ g_role row' = NodeGenerationPrimary
    /\ g_boot_session_id row' = g_boot_session_id row /\ g_authority_generation row' = g_authority_generation row
    /\ g_registration row' = g_registration row
    /\ (forall g, g ∈ G' <-> g = row' \/ g ∈ db_generations db /\ key g <> key row).
Proof.
  intros H Hown Hrole. unfold upsert_primary. destruct (generation_row db (g_node_id row) (g_generation_id row)) as [g0|] eqn:E.
  - apply find_Some in E as [Hg0 K0%of_generation_key]. change (_, _) with (key row) in K0. do 2 eexists.
    split; [unfold exec_generation, exec_generations; reflexivity|].
    instantiate (2 := g0 <| g_boot_session_id := g_boot_session_id row |> <| g_authority_generation := g_authority_generation row |>
        <| g_registration := g_registration row |> <| g_protocols := g_protocols row |> <| g_heartbeat_ns := g_heartbeat_ns row |>).
    split_and!; try done; [exact (Hown g0 Hg0 K0)|]. intros g. rewrite elem_of_map. split.
    + intros (h & Hh & ->). destruct (of_generation _ _ h) eqn:Eh.
      * left. apply of_generation_key in Eh. assert (h = g0) as -> by (apply (co_key _ _ _ _ _ H); [done | done | by rewrite K0]). done.
      * right. split; [done|]. intros K. apply not_true_iff_false in Eh. by apply Eh, of_generation_key.
    + intros [->|[Hg Kg]]; [exists g0; split; [done|]; by rewrite (proj2 (of_generation_key _ _ _) K0)|]. exists g. split; [done|].
      destruct (of_generation _ _ g) eqn:Eg; [|done]. by apply of_generation_key in Eg.
  - exists (db_generations db ++ [row]), row. split_and!; try done. intros g. rewrite elem_of_app, list_elem_of_singleton.
    split; [|intros [->|[? _]]; auto]. intros [Hg| ->]; [|by left]. right. split; [done|]. intros K.
    apply (find_None _ _ _ E) in Hg. apply not_true_iff_false in Hg. by apply Hg, of_generation_key.
Qed.

(** The store in the middle of [recordPrimaryGeneration]: the cohort may be bound
    and the authority of an unchanged session restored. *)
Definition rejoined (node boot : string) (a : Z) (db db' : DB) : Prop :=
  exists T a', db_generations db' = map T (db_generations db) /\ (forall g, g ∈ db_generations db -> rebind g (T g))
    /\ node_sessions db' = <[node := (boot, a')]> (node_sessions db) /\ db_residents db' = db_residents db
    /\ db_generation_catalog db' = db_generation_catalog db /\ db_generation_operations db' = db_generation_operations db
    /\ (a' = a \/ exists g, g ∈ db_generations db /\ is_primary node g = true /\ g_boot_session_id g = boot /\ a' = g_authority_generation g).

Lemma rejoined_refl node boot a db : node_sessions db !! node = Some (boot, a) -> rejoined node boot a db db.
Proof.
  intros E. exists id, a. split_and!; try done; [by rewrite map_id | | by left]. by rewrite insert_id.
Qed.

Lemma rejoined_coherent node boot a db db' :
  coherent (Some node) (node_sessions db) (db_generations db) (db_residents db) (db_generation_catalog db) ->
  node_sessions db !! node = Some (boot, a) -> rejoined node boot a db db' ->
  coherent (Some node) (node_sessions db') (db_generations db') (db_residents db') (db_generation_catalog db').
Proof.
  intros H E (T & a' & -> & HT & -> & -> & -> & _ & Ha). apply coherent_rebind; [|done].
  destruct Ha as [->|(g & Hg & [Hn Hr]%is_primary_spec & _ & ->)]; [by rewrite insert_id | by apply coherent_lower].
Qed.

Lemma bind_cohort_rebind node boot g : rebind g (if bool_decide (g_node_id g = node)
    && bool_decide (g_role g ∈ [NodeGenerationPrimary; NodeGenerationRetiring]) && bool_decide (g_system_boot_id g = "")
  then g <| g_registration := (g_registration g) <| reg_SystemBootID := boot |> |> else g).
Proof. case_match; [done | apply rebind_refl]. Qed.

Lemma post_rejoin {R} registration node boot a db old (K : result ErrorCode R -> DB -> Prop) :
  node = reg_NodeID registration -> boot = reg_BootSessionID registration ->
  node_sessions db !! node = Some (boot, a) ->
  (forall g, old = Some g -> g ∈ db_generations db /\ is_primary node g = true) ->
  post (match old with
        | Some g =>
            if bool_decide (g_boot_session_id g = reg_BootSessionID registration) then
              let! _ := if bool_decide (reg_SystemBootID registration = "") then pure tt
                        else writes (bind_cohort (reg_NodeID registration) (reg_SystemBootID registration)) in
              writes (exec_node (reg_NodeID registration) (fun n => n <| n_authority_generation := g_authority_generation g |>))
            else pure tt
        | None => pure tt
        end) (fun _ => rejoined node boot a db) K db.
Proof.
  intros -> -> E Hold. destruct old as [g|]; [|by apply rejoined_refl]. destruct (Hold g eq_refl) as [Hg Hp].
  destruct (bool_decide_reflect (g_boot_session_id g = reg_BootSessionID registration)) as [Eb|]; [|by apply rejoined_refl].
  destruct (node_sessions_lookup _ _ _ _ E) as (n & Hn & Hb & _).
  assert (Hprimary : exists h, h ∈ db_generations db /\ is_primary (reg_NodeID registration) h = true
    /\ g_boot_session_id h = reg_BootSessionID registration /\ g_authority_generation g = g_authority_generation h) by eauto.
  wp.
  - exists id, (g_authority_generation g). split_and!; try done; [by rewrite map_id | | by right].
    rewrite (node_sessions_exec _ _ _ n Hn). unfold session. simpl. by rewrite Hb.
  - eexists _, (g_authority_generation g). split_and!; [reflexivity | intros h _; apply bind_cohort_rebind | | done | done | done | by right].
    rewrite (node_sessions_exec _ _ (bind_cohort _ _ db) n Hn). unfold session. simpl. by rewrite Hb.
Qed.

Lemma post_record {R} registration now db a (K : result ErrorCode R -> DB -> Prop)
    (node := reg_NodeID registration) (boot := reg_BootSessionID registration) :
  coherent (Some node) (node_sessions db) (db_generations db) (db_residents db) (db_generation_catalog db) ->
  node_sessions db !! node = Some (boot, a) ->
  (forall g, g ∈ db_generations db -> is_primary node g = true -> g_generation_id g = reg_AgentGenerationID registration) ->
  (forall g, g ∈ db_generations db -> key g = (node, reg_AgentGenerationID registration) -> g_role g = NodeGenerationPrimary) ->
  post (recordPrimaryGeneration lower_table registration now)
    (fun _ db' => sessions_ok db' /\ exists a', node_sessions db' = <[node := (boot, a')]> (node_sessions db)
       /\ db_residents db' = db_residents db /\ db_generation_operations db' = db_generation_operations db
       /\ onward (db_generations db) (db_generations db')
       /\ (a' = a \/ exists g, g ∈ db_generations db /\ is_primary node g = true /\ g_boot_session_id g = boot /\ a' = g_authority_generation g))
    K db.
Proof.
  intros H E Hprim Hown. unfold recordPrimaryGeneration.
  destruct (bool_decide_reflect (reg_AgentGenerationID registration = "")) as [Eg|Ng].
  { wp. split; [|exists a; rewrite insert_id by done; split_and!; auto; reflexivity]. eapply coherent_unbound; [exact H|]. intros g Hg Hn Hr.
    apply (co_named _ _ _ _ _ H g Hg). rewrite <- Eg. apply Hprim; [done|]. by apply is_primary_spec. }
  set (registration' := registration <| reg_SystemBootID := canonicalGenerationSystemBoot (reg_SystemBootID registration) |>).
  apply ends_bind, ends_lift; [intros _ _|done]. apply ends_bind.
  match goal with |- ends (reads ?f) ?Q _ _ ?s => change (Q (f s) s) end. cbv beta.
  apply (ends_seq (fun _ => rejoined node boot a db)).
  { apply (post_rejoin registration'); [done | done | done|]. intros g Hf. apply find_Some in Hf as [Hg K0%of_generation_key].
    split; [done|]. apply is_primary_spec. split; [by injection K0 | by apply Hown]. }
  intros _ db1 Hre. assert (H1 := rejoined_coherent _ _ _ _ _ H E Hre).
  destruct Hre as (T & a' & HG & HT & HS & HR & HC & HO & Ha).
  apply ends_bind, ends_need; [intros n Hn|done]. fold node in Hn. apply ends_bind, ends_lift; [intros protocols _|done].
  assert (Hsess : session n = (boot, a')).
  { assert (Hl : node_sessions db1 !! node = Some (session n)) by (unfold node_sessions; by rewrite lookup_fmap, Hn).
    rewrite HS, lookup_insert_eq in Hl. congruence. }
  set (row := mkGenerationRow _ _ _ _ _ _ _ _ _ _ _ _ _). apply ends_bind.
  match goal with |- ends (reads ?f) ?Q _ _ ?s => change (Q (f s) s) end. cbv beta.
  apply ends_bind, ends_check; [intros Hconf%negb_true_iff|done].
  assert (Hgen : forall g, g ∈ db_generations db1 -> key g = key row -> g_role g = NodeGenerationPrimary).
  { rewrite HG. intros g (h & Hh & ->)%elem_of_map. destruct (HT h Hh) as ([-> _ _] & -> & _). by apply Hown. }
  destruct (upsert_rows db1 row _ H1 Hgen eq_refl) as (G' & row' & Hup & Kr & Rr & Br & Ar & Gr & HG').
  wp. rewrite Hup. clear Hup.
  set (db2 := db1 <| db_generations := G' |>).
  set (db3 := match db_generation_catalog db2 !! reg_NodeID registration with Some _ => _ | None => _ end).
  assert (Hdb3 : node_sessions db3 = node_sessions db1 /\ db_generations db3 = G' /\ db_residents db3 = db_residents db1
    /\ db_generation_operations db3 = db_generation_operations db1 /\ is_Some (db_generation_catalog db3 !! node)
    /\ forall k, is_Some (db_generation_catalog db1 !! k) -> is_Some (db_generation_catalog db3 !! k)).
  { unfold db3, node. destruct (db_generation_catalog db2 !! reg_NodeID registration) eqn:Ec; [by rewrite Ec|]. split_and!; try done.
    - simpl. by rewrite lookup_insert_eq.
    - intros k Hk. simpl in *. destruct (decide (k = reg_NodeID registration)) as [->|N]; [by rewrite lookup_insert_eq | by rewrite lookup_insert_ne]. }
  destruct Hdb3 as (D1 & D2 & D3 & D4 & D5 & D6). unfold sessions_ok. rewrite D1, D2, D3, D4.
  assert (Kr' : g_node_id row' = node /\ g_generation_id row' = reg_AgentGenerationID registration) by (by injection Kr).
  assert (Hon : onward (db_generations db) G').
  { etrans; [by apply (onward_rebind _ T)|]. rewrite <- HG. intros g Hg. destruct (decide (key g = key row)) as [Ek|Nk].
    - exists row'. split_and!; [apply HG'; by left | congruence|]. rewrite (Hgen g Hg Ek), Rr. lia.
    - exists g. split_and!; [apply HG'; by right | done | lia]. }
  destruct Kr' as [Kn Kg]. split; [|exists a'; by rewrite HS, HR, HO].
  apply (coherent_enroll _ (db_generations db1) G' _ (db_generation_catalog db1) _ row'); rewrite ?Kn, ?Kg, ?Br, ?Ar, ?Gr; try done.
  - rewrite HS, lookup_insert_eq. injection Hsess as _ Hauth. change (Some (boot, a') = Some (boot, n_authority_generation n)). by rewrite Hauth.
  - intros g. by rewrite HG', Kr.
  - intros g Hg. rewrite Kr. by apply Hgen.
  - intros g Hg Hn' Hk. destruct (not_conflicting _ _ g Hconf Hg Hn') as [? Hnp]; [|by split; [|apply Hnp]].
    intros Eg. apply Hk. rewrite Kr. unfold key. by rewrite Hn', Eg.
Qed.

(** ** Registration and heartbeat *)
Ltac same_tac := first [apply same_refl | apply same_exec_node; done | by split].

Lemma coherent_weaken except S G R C : coherent None S G R C -> coherent except S G R C.
Proof. intros H. split; try apply H. intros g Hg Hr _. by apply (co_primary _ _ _ _ _ H). Qed.

Lemma post_guard {R} registration db (K : result ErrorCode R -> DB -> Prop) (node := reg_NodeID registration) :
  sessions_ok db ->
  post (guardGenerationRegistration lower_table registration)
    (fun _ db' => db' = db
       /\ (forall g, g ∈ db_generations db -> is_primary node g = true -> g_generation_id g = reg_AgentGenerationID registration)
       /\ (forall g, g ∈ db_generations db -> key g = (node, reg_AgentGenerationID registration) -> g_role g = NodeGenerationPrimary)) K db.
Proof.
  intros H. unfold guardGenerationRegistration. apply ends_bind, ends_check; [intros _|done]. apply ends_bind.
  match goal with |- ends (reads ?f) ?Q _ _ ?s => change (Q (f s) s) end. cbv beta. fold node.
  apply ends_bind, ends_check; [intros Hp|done].
  assert (Hprim : forall g, g ∈ db_generations db -> is_primary node g = true -> g_generation_id g = reg_AgentGenerationID registration).
  { intros g Hg Hpg. unfold primary_generation in Hp. destruct (List.find _ _) as [p|] eqn:Ef.
    - apply bool_decide_eq_true in Hp. apply find_Some in Ef as [Hpin Hpp]. apply is_primary_spec in Hpg as [? ?], Hpp as [? ?].
      by rewrite (co_one _ _ _ _ _ H g p) by congruence.
    - by rewrite (find_None _ _ _ Ef Hg) in Hpg. }
  destruct (bool_decide_reflect (reg_AgentGenerationID registration = "")) as [Eg|Ng].
  { split_and!; try done. intros g Hg [= _ E]. destruct (co_named _ _ _ _ _ H g Hg). congruence. }
  assert (Hown : match generation_row db node (reg_AgentGenerationID registration) with
                 | Some g => bool_decide (g_role g = NodeGenerationPrimary) | None => true end = true ->
    forall g, g ∈ db_generations db -> key g = (node, reg_AgentGenerationID registration) -> g_role g = NodeGenerationPrimary).
  { intros Ho g Hg Kg. unfold generation_row in Ho. destruct (List.find _ _) as [o|] eqn:Ef.
    - apply bool_decide_eq_true in Ho. apply find_Some in Ef as [Hoin Koo%of_generation_key].
      by rewrite (co_key _ _ _ _ _ H g o) by congruence.
    - apply (find_None _ _ _ Ef) in Hg. apply not_true_iff_false in Hg. by destruct Hg; apply of_generation_key. }
  wp; auto.
Qed.

Lemma same_validate {R} nodeID caps db (K : result ErrorCode R -> DB -> Prop) :
  post (validateGenerationProtocolObservation lower_table nodeID caps) (fun _ db' => db' = db) K db.
Proof. unfold validateGenerationProtocolObservation. by wp. Qed.

(** The node row a registration writes. *)
Definition registered (node boot : string) (db db' : DB) : Prop :=
  exists a, node_sessions db' = <[node := (boot, a)]> (node_sessions db) /\ db_generations db' = db_generations db
    /\ db_residents db' = db_residents db /\ db_generation_catalog db' = db_generation_catalog db
    /\ db_generation_operations db' = db_generation_operations db
    /\ (node_sessions db !! node = None \/ exists b0, node_sessions db !! node = Some (b0, a - 1)).

Lemma registered_coherent node boot db db' : sessions_ok db -> registered node boot db db' ->
  coherent (Some node) (node_sessions db') (db_generations db') (db_residents db') (db_generation_catalog db').
Proof.
  intros H (a & -> & -> & -> & -> & _ & [Hn|[b0 Hn]]).
  - apply coherent_weaken. by apply coherent_new_node.
  - eapply coherent_ahead; [exact H | exact Hn | lia].
Qed.

Lemma apply_observation_session change incoming n : session (apply_observation change incoming n) = session n.
Proof. by destruct change. Qed.

Lemma registered_same node boot db db1 db2 : registered node boot db db1 -> same_sessions db1 db2 -> registered node boot db db2.
Proof. intros (a & Ha) [N G R C L]. exists a. by rewrite N, G, R, C, L. Qed.

(** What is left of a registration once the node's row is written. *)
Definition settled (node boot : string) (db db' : DB) : Prop :=
  sessions_ok db' /\ exists a', node_sessions db' = <[node := (boot, a')]> (node_sessions db) /\ db_residents db' = db_residents db
    /\ db_generation_operations db' = db_generation_operations db /\ onward (db_generations db) (db_generations db')
    /\ (node_sessions db !! node = None \/ exists b0 a0, node_sessions db !! node = Some (b0, a0) /\ (b0 = boot /\ a0 = a' \/ a0 < a')).

Lemma settled_moves node boot db db' : settled node boot db db' -> advances db db'.
Proof.
  intros (H & a' & HS & HR & HO & Hon & Hn). split; [done|]. split; [|exists []; by rewrite app_nil_r | done | by rewrite HO].
  intros k b a E. rewrite HS. destruct (decide (k = node)) as [->|N].
  - rewrite lookup_insert_eq. exists boot, a'. split; [done|]. destruct Hn as [?|(b0 & a0 & E0 & Hc)]; [congruence|].
    rewrite E in E0. injection E0 as -> ->. destruct Hc as [[-> ->]|?]; auto.
  - rewrite lookup_insert_ne by done. exists b, a. auto.
Qed.

Lemma post_enroll {R} registration now db db1 (K : result ErrorCode R -> DB -> Prop)
    (node := reg_NodeID registration) (boot := reg_BootSessionID registration) :
  sessions_ok db -> registered node boot db db1 ->
  (forall g, g ∈ db_generations db -> is_primary node g = true -> g_generation_id g = reg_AgentGenerationID registration) ->
  (forall g, g ∈ db_generations db -> key g = (node, reg_AgentGenerationID registration) -> g_role g = NodeGenerationPrimary) ->
  post (recordPrimaryGeneration lower_table registration now) (fun _ => settled node boot db) K db1.
Proof.
  intros H Hreg Hprim Hown. assert (Hco := registered_coherent _ _ _ _ H Hreg). destruct Hreg as (a & HS & HG & HR & HC & HO & Hn).
  eapply ends_mono; [..|apply (post_record registration now db1 a)]; [|done|done|exact Hco|by rewrite HS, lookup_insert_eq|..].
  2,3: by rewrite HG.
  cbv beta. intros _ db2 (Hok & a' & HS2 & HR2 & HO2 & Hon & Ha). rewrite HG in Hon. split; [done|]. exists a'. rewrite HS2, HR2, HO2, HS, HR, HO, insert_insert_eq.
  split_and!; try done. destruct Hn as [?|[b0 Hn]]; [by left|]. right. exists b0, (a - 1). split; [done|].
  destruct Ha as [->|(g & Hg & Hp & Hb & ->)]; [right; lia|]. left. apply is_primary_spec in Hp as [Hpn Hpr]. rewrite HG in Hg.
  assert (E := co_primary _ _ _ _ _ H g Hg Hpr ltac:(done)). unfold node in *. rewrite Hpn, Hn in E. by injection E as -> ->.
Qed.

Lemma advances_registerNode at_ identity registration policy expected admission db :
  sessions_ok db -> advances db (run (registerNode lower_table at_ identity registration policy expected admission) db).1.
Proof.
  intros H. apply post_run; [split; [done | apply moves_refl]|]. unfold registerNode.
  apply ends_bind, ends_lift; [intros [[reg incoming] legacy] _|done]. apply ends_bind, ends_begin.
  assert (Hsame := same_begin at_ db). set (db1 := (withLeaseSleepGap true (at_sample at_) db).2) in *.
  assert (H1 : sessions_ok db1) by (by eapply same_ok).
  assert (Hgoal : forall db', settled (reg_NodeID reg) (reg_BootSessionID reg) db1 db' -> advances db db').
  { intros db' [Hok Hm]%settled_moves. split; [done|]. by eapply same_moves_l. }
  eapply ends_seq; [apply post_guard, H1|]. intros _ ? (-> & Hprim & Hown). apply ends_bind.
  match goal with |- ends (reads ?f) ?Q _ _ ?s => change (Q (f s) s) end. cbv beta zeta.
  apply (ends_seq (fun _ => registered (reg_NodeID reg) (reg_BootSessionID reg) db1)).
  { destruct (db_nodes db1 !! reg_NodeID reg) as [n|] eqn:En.
    - wp. exists (n_authority_generation n + 1). split_and!; try done.
      + rewrite (node_sessions_exec _ _ _ n En). by rewrite apply_observation_session.
      + right. exists (n_boot_session_id n). unfold node_sessions. rewrite lookup_fmap, En. simpl. unfold session. do 2 f_equal. lia.
    - wp. exists 1. split_and!; try done; [unfold node_sessions; simpl; by rewrite fmap_insert|].
      left. unfold node_sessions. by rewrite lookup_fmap, En. }
  intros [[change policy'] claims] db2 H2.
  cbv beta iota. eapply (ends_seq (fun _ => same_sessions db2)); [destruct (db_nodes db1 !! reg_NodeID reg); wp; same_tac|].
  intros _ db3 S3. apply (ends_seq (fun _ => same_sessions db3)); [wp; same_tac|].
  intros _ db4 S4. apply (ends_seq (fun _ => same_sessions db4)); [destruct (registration_condition _ _ _ _) as [[[? ?] ?]|]; wp; same_tac|].
  intros _ db5 S5. apply (ends_seq (fun _ db' => db' = db5)); [destruct (bool_decide _); wp; [done | by apply same_validate]|].
  intros _ ? ->. assert (H5 : registered (reg_NodeID reg) (reg_BootSessionID reg) db1 db5).
  { eapply registered_same; [exact H2|]. eapply same_trans; [exact S3|]. by eapply same_trans. }
  eapply ends_seq; [by apply (post_enroll reg _ db1 db5)|]. intros _ db6 [Hok Hset]. cbv beta in *.
  eapply ends_seq; [by apply post_refresh|]. intros _ db7 (G & -> & Hok7 & Hon7).
  wp. apply Hgoal. split; [exact Hok7|]. destruct Hset as (a' & ? & ? & ? & Hon & ?). exists a'. split_and!; try done. by etrans.
Qed.

Lemma same_advances db db1 db2 : same_sessions db db1 -> advances db1 db2 -> advances db db2.
Proof. intros Hs [H Hm]. split; [done|]. by eapply same_moves_l. Qed.

Lemma advances_same db db1 db2 : advances db db1 -> same_sessions db1 db2 -> advances db db2.
Proof. intros [H Hm] Hs. split; [by eapply same_ok | by eapply same_moves_r]. Qed.

Lemma advances_refl db : sessions_ok db -> advances db db.
Proof. intros H. split; [done | apply moves_refl]. Qed.

Lemma advances_heartbeatNode at_ identity nodeID boot observation policy refresh db :
  sessions_ok db -> advances db (run (heartbeatNode lower_table at_ identity nodeID boot observation policy refresh) db).1.
Proof.
  intros H. apply post_run; [by apply advances_refl|]. unfold heartbeatNode.
  apply ends_bind, ends_check; [intros _|done]. apply ends_bind, ends_begin.
  assert (Hsame := same_begin at_ db). set (db1 := (withLeaseSleepGap true (at_sample at_) db).2) in *.
  apply ends_bind, ends_need; [intros n Hn|done]. apply (ends_seq (fun _ db' => db' = db1)); [by wp|]. intros _ ? ->. cbv zeta.
  apply (ends_seq (fun _ db' => db' = db1)); [destruct observation; by wp|]. intros observed ? ->.
  apply (ends_seq (fun _ db' => db' = db1)).
  { destruct observed as [[incoming []]|]; wp; try done. by apply same_validate. }
  intros _ ? ->. apply (ends_seq (fun _ => same_sessions db1)).
  { wp. apply same_exec_node. intros m. destruct observed as [[incoming change]|]; rewrite ?apply_observation_session;
      by destruct (if refresh then _ else _). }
  intros _ db2 S2. apply (ends_seq (fun _ => same_sessions db2)); [destruct (if refresh then _ else _); wp; same_tac|].
  intros _ db3 S3. apply (ends_seq (fun _ => same_sessions db3)); [destruct (bool_decide _); wp; same_tac|].
  intros _ db4 S4. apply (ends_seq (fun _ => same_sessions db4)); [destruct observed as [[incoming []]|]; wp; same_tac|].
  intros _ db5 S5. assert (S : same_sessions db db5) by (repeat (eapply same_trans; [eassumption|]); apply same_refl).
  eapply ends_seq; [apply post_refresh; by eapply same_ok|]. intros _ db6 Hre%regenerates_moves.
  wp. eapply advances_same; [by eapply same_advances | same_tac].
Qed.

(** ** Inventories *)
Lemma inventory_elem db nodeID e :
  e ∈ gi_Generations (readNodeGenerations nodeID db) ->
  exists g, g ∈ db_generations db /\ g_node_id g = nodeID /\ e = inventory_entry db g.
Proof.
  unfold readNodeGenerations. destruct (db_generation_catalog db !! nodeID); simpl; [|by intros ?%elem_of_nil].
  intros (g & Hg & ->)%elem_of_map. rewrite elem_of_sort_by, elem_of_filter_bool, bool_decide_eq_true in Hg.
  destruct Hg. by exists g.
Qed.

Lemma inventory_complete db nodeID g :
  sessions_ok db -> g ∈ db_generations db -> g_node_id g = nodeID -> inventory_entry db g ∈ gi_Generations (readNodeGenerations nodeID db).
Proof.
  intros H Hg <-. destruct (co_catalog _ _ _ _ _ H g Hg) as [revision E]. unfold readNodeGenerations. rewrite E. simpl.
  apply elem_of_map. exists g. split; [|done]. rewrite elem_of_sort_by, elem_of_filter_bool, bool_decide_eq_true. done.
Qed.

Lemma post_identity {R} nodeID identity db (K : result ErrorCode R -> DB -> Prop) :
  post (requireGenerationIdentity nodeID identity) (fun _ db' => db' = db /\ is_Some (node_sessions db !! nodeID)) K db.
Proof. unfold requireGenerationIdentity. wp. split; [done|]. unfold node_sessions. rewrite lookup_fmap. by simplify_option_eq. Qed.

Lemma advances_stage at_ identity registration db :
  sessions_ok db -> advances db (run (StageNodeGeneration lower_table at_ identity registration) db).1.
Proof.
  intros H. apply post_run; [by apply advances_refl|]. unfold StageNodeGeneration. cbv zeta.
  apply ends_bind, ends_check; [intros Hfields|done]. apply ends_bind, ends_check; [intros _|done].
  apply ends_bind, ends_lift; [intros incoming _|done]. apply ends_bind, ends_lift; [intros protocols _|done].
  apply ends_bind, ends_check; [intros _|done]. apply ends_bind, ends_begin.
  assert (Hsame := same_begin at_ db). set (db1 := (withLeaseSleepGap true (at_sample at_) db).2) in *.
  assert (H1 : sessions_ok db1) by (by eapply same_ok).
  eapply ends_seq; [apply post_identity|]. cbv beta. intros _ ? [-> HS]. apply ends_bind.
  match goal with |- ends (reads ?f) ?Q _ _ ?s => change (Q (f s) s) end. cbv beta.
  destruct (List.find _ (gi_Generations _)) as [e|] eqn:Ef; [by wp|].
  apply ends_bind, ends_check; [intros Hp|done].
  match goal with |- context [conflicting_session _ ?r] => set (row := r) end. apply ends_bind.
  match goal with |- ends (reads ?f) ?Q _ _ ?s => change (Q (f s) s) end. cbv beta.
  apply ends_bind, ends_check; [intros Hconf%negb_true_iff|done]. wp.
  apply (same_advances _ db1); [done|]. apply regenerates_moves. eexists. split; [done|].
  split; [|intros g Hg; exists g; split_and!; [apply elem_of_app; by left | done | lia]].
  apply (coherent_stage _ (db_generations db1)); try done.
  - apply existsb_exists in Hp as (e & He%list_elem_of_In & _). apply inventory_elem in He as (g & Hg & Hn & _).
    change (is_Some (db_generation_catalog db1 !! reg_NodeID registration)). rewrite <- Hn. by apply (co_catalog _ _ _ _ _ H1).
  - intros E. change (reg_AgentGenerationID registration = "") in E. by rewrite E in Hfields.
  - intros g Hg Hn.
    assert (Hne : g_generation_id g <> g_generation_id row).
    { assert (He := inventory_complete db1 _ g H1 Hg Hn). apply (find_None _ _ _ Ef) in He. by apply bool_decide_eq_false in He. }
    split; [done|]. by destruct (not_conflicting _ _ g Hconf Hg Hn Hne).
Qed.

(** ** The ledger *)
Lemma post_replay nodeID op_key operation db (K : result ErrorCode NodeGenerationInventory -> DB -> Prop) :
  post (replay_operation nodeID op_key operation) (fun _ db' => db' = db /\ db_generation_operations db !! (nodeID, op_key) = None) K db.
Proof. unfold replay_operation. by wp. Qed.

Lemma record_advances nodeID op_key operation outcome db db' :
  advances db db' -> db_generation_operations db' = db_generation_operations db -> db_generation_operations db !! (nodeID, op_key) = None ->
  advances db (record_operation nodeID op_key operation outcome db').
Proof.
  intros [Hok [M1 M2 M3 M4]] HO Hn. split; [exact Hok|]. split; [exact M1 | exact M2 | exact M3|]. simpl. rewrite HO. by apply insert_subseteq.
Qed.

(** ** Ending a session *)
Lemma advances_heartbeat_retiring at_ identity nodeID generation boot db :
  sessions_ok db -> advances db (run (HeartbeatRetiringNodeGeneration at_ identity nodeID generation boot) db).1.
Proof.
  intros H. apply post_run; [by apply advances_refl|]. unfold HeartbeatRetiringNodeGeneration. apply ends_bind, ends_begin.
  assert (Hsame := same_begin at_ db). set (db1 := (withLeaseSleepGap true (at_sample at_) db).2) in *.
  eapply ends_seq; [apply post_identity|]. cbv beta. intros _ ? [-> _]. wp.
  apply (same_advances _ db1); [done|]. apply regenerates_moves, regenerates_rebind; [by eapply same_ok|].
  intros g _. destruct (retiring_here _ _ _ _ g); [done | apply rebind_refl].
Qed.

Lemma regenerates_close db nodeID generation f :
  sessions_ok db ->
  (forall g, relabel g (f g) /\ g_role (f g) = NodeGenerationClosed /\ is_Some (g_closed_ns (f g))
             /\ g_authority_generation (f g) = g_authority_generation g) ->
  regenerates db (exec_generation nodeID generation f db).
Proof.
  intros H Hf. eexists. split; [reflexivity|]. split; [by apply coherent_close|]. by apply onward_close.
Qed.

Lemma advances_abort at_ identity nodeID generation request abort db :
  sessions_ok db -> advances db (run (abortStagedGeneration at_ identity nodeID generation request abort) db).1.
Proof.
  intros H. apply post_run; [by apply advances_refl|]. unfold abortStagedGeneration. apply ends_bind, ends_check; [intros _|done].
  apply ends_bind, ends_begin. assert (Hsame := same_begin at_ db). set (db1 := (withLeaseSleepGap true (at_sample at_) db).2) in *.
  eapply ends_seq; [apply post_identity|]. cbv beta. intros _ ? [-> _]. eapply ends_seq; [apply post_replay|]. cbv beta. intros _ ? [-> Hk].
  unfold finish_operation. wp. apply (same_advances _ db1); [done|]. apply record_advances; [|done|done].
  apply regenerates_moves, regenerates_close; [by eapply same_ok|]. done.
Qed.

Lemma advances_close at_ identity nodeID generation request db :
  sessions_ok db -> advances db (run (CloseNodeGeneration at_ identity nodeID generation request) db).1.
Proof.
  intros H. unfold CloseNodeGeneration. destruct (cg_Abort request); [by apply advances_abort|].
  apply post_run; [by apply advances_refl|]. apply ends_bind, ends_begin.
  assert (Hsame := same_begin at_ db). set (db1 := (withLeaseSleepGap true (at_sample at_) db).2) in *.
  eapply ends_seq; [apply post_identity|]. cbv beta. intros _ ? [-> _]. wp.
  apply (same_advances _ db1); [done|]. apply regenerates_moves, regenerates_close; [by eapply same_ok|]. done.
Qed.

(** ** De-enrollment *)
Lemma only_primary_spec r generations start p :
  only_primary r generations start = Some p ->
  (forall e, e ∈ generations -> ng_Role e = NodeGenerationPrimary \/ ng_Role e = NodeGenerationClosed)
  /\ (p = true -> start = true \/ exists e, e ∈ generations /\ ng_Role e = NodeGenerationPrimary
        /\ ng_AgentGenerationID e = dg_PrimaryGenerationID r).
Proof.
  revert start. induction generations as [|e generations IH]; intros start; simpl.
  { intros [= ->]. split; [by intros e ?%elem_of_nil | by left]. }
  destruct (bool_decide_reflect (ng_Role e = NodeGenerationPrimary)) as [Er|Er].
  - intros [H1 H2]%IH. split; [intros e' [->|He]%elem_of_cons; [by left | by apply H1]|]. intros Hp.
    destruct (H2 Hp) as [Hs|(e' & He & ?)]; [|right; exists e'; split; [by right | done]]. right. exists e.
    apply andb_true_iff in Hs as [[Hi _]%andb_true_iff _]. apply bool_decide_eq_true in Hi. split; [by left | done].
  - destruct (bool_decide_reflect (ng_Role e = NodeGenerationClosed)) as [Ec|]; [|done]. simpl.
    destruct (bool_decide (is_Some (ng_ClosedAt e))); [|done]. intros [H1 H2]%IH.
    split; [intros e' [->|He]%elem_of_cons; [by right | by apply H1]|]. intros Hp.
    destruct (H2 Hp) as [?|(e' & He & ?)]; [by left | right; exists e'; split; [by right | done]].
Qed.

Lemma advances_deenroll at_ identity nodeID r db :
  sessions_ok db -> advances db (run (DeEnrollNodeGeneration at_ identity nodeID r) db).1.
Proof.
  intros H. apply post_run; [by apply advances_refl|]. unfold DeEnrollNodeGeneration. apply ends_bind, ends_check; [intros _|done].
  apply ends_bind, ends_begin. assert (Hsame := same_begin at_ db). set (db1 := (withLeaseSleepGap true (at_sample at_) db).2) in *.
  assert (H1 : sessions_ok db1) by (by eapply same_ok).
  eapply ends_seq; [apply post_identity|]. cbv beta. intros _ ? [-> [[b a] HS]]. eapply ends_seq; [apply post_replay|]. cbv beta. intros _ ? [-> Hk].
  set (op_key := "de-enroll:" +:+ dg_OperationID r) in *.
  assert (Hreject : advances db (record_operation nodeID op_key (DeEnrollOperation r) OperationRefused db1)).
  { apply (same_advances _ db1); [done|]. apply record_advances; [by apply advances_refl | done | done]. }
  unfold finish_operation. wp; try exact Hreject. apply (same_advances _ db1); [done|]. apply record_advances; [|done|done].
  match goal with E : only_primary _ _ _ = Some _, E' : negb _ = false |- _ =>
    apply only_primary_spec in E as [Hroles Hp]; apply negb_false_iff in E'; repeat (apply andb_true_iff in E' as [E' _]) end.
  destruct Hp as [?|(e & He & Hre & Hie)]; [done | done|]. apply inventory_elem in He as (gp & Hgp & Hnp & ->). simpl in Hre, Hie.
  set (close := fun g => g <| g_role := NodeGenerationClosed |> <| g_closed_ns := Some (at_now at_) |>).
  set (G := map (fun g => if of_generation nodeID (dg_PrimaryGenerationID r) g then close g else g) (db_generations db1)).
  assert (Hclosed : coherent None (node_sessions db1) G (db_residents db1) (db_generation_catalog db1)) by (by apply coherent_close).
  match goal with |- advances db1 ?d => set (db3 := d) end.
  assert (HS' : node_sessions db3 = <[nodeID := ("de-enrolled:" +:+ dg_OperationID r, a + 1)]> (node_sessions db1)).
  { destruct (node_sessions_lookup _ _ _ _ HS) as (m & Hm & Hb & <-).
    exact (node_sessions_exec nodeID _ (exec_generation nodeID (dg_PrimaryGenerationID r) close db1) m Hm). }
  split.
  - unfold sessions_ok. rewrite HS'. simpl. apply (coherent_catalog _ _ _ _ (db_generation_catalog db1)).
    + eapply coherent_unbound; [eapply coherent_ahead; [exact Hclosed | exact HS | lia]|].
      intros g' (g & Hg & ->)%elem_of_map Hn. destruct (of_generation _ _ g) eqn:Eg; [done|]. intros Hr.
      assert (g = gp) as -> by (apply (co_one _ _ _ _ _ H1); congruence). apply not_true_iff_false in Eg. apply Eg, of_generation_key.
      unfold key. by rewrite Hn, Hie.
    + intros k Hk'. destruct (decide (k = nodeID)) as [->|N]; [rewrite lookup_alter_eq | by rewrite lookup_alter_ne].
      destruct Hk' as [? ->]. done.
  - split; [|exists []; simpl; by rewrite app_nil_r | by apply onward_close | done]. intros k bk ak E. rewrite HS'.
    destruct (decide (k = nodeID)) as [->|N]; [rewrite lookup_insert_eq | rewrite lookup_insert_ne by done; exists bk, ak; auto].
    rewrite HS in E. injection E as <- <-. eexists _, _. split; [done|]. right. lia.
Qed.
End Nodes.
