(* ===== verification/Promotion.v ===== *)
(** * Promotion of a node generation

    What [PromoteNodeGeneration] writes, as one description of the store after it;
    from it, that a promotion keeps the session invariant and the authority of
    every attempt that was running. *)
From S2P Require Import Prelude Order States Contract GoStrings JobSpec L1Types NodeTypes RestartPolicy Database.
From S2P Require Import UpgradeCompat LeaseClock Authority Credentials Summaries Lifecycle Placement LogRetention Logs Claim.
From S2P Require Import ServiceOperator Reconcile NodeSessions SessionInvariant.
#[local] Open Scope string_scope.
#[local] Open Scope list_scope.
#[local] Open Scope Z_scope.

(** The residents table after the inserts. *)
Definition resident_row (nodeID generation : string) (r : ResidentAttempt) : ResidentRow :=
  mkResidentRow nodeID generation (ra_AttemptID r) (ra_JobID r) (ra_BootSessionID r) (ra_AuthorityGeneration r) (ra_FencingToken r).

Definition once (R : list ResidentRow) : Prop := forall r r', r ∈ R -> r' ∈ R -> r_attempt_id r = r_attempt_id r' -> r = r'.

Lemma post_residents nodeID generation residents db (K : result ErrorCode NodeGenerationInventory -> DB -> Prop) :
  once (db_residents db) ->
  post (insert_residents nodeID generation residents)
    (fun _ db' => db' = db <| db_residents := db_residents db ++ map (resident_row nodeID generation) residents |> /\ once (db_residents db')) K db.
Proof.
  revert db. induction residents as [|r residents IH]; intros db H; simpl.
  { split; [rewrite app_nil_r; by destruct db | done]. }
  apply ends_bind. match goal with |- ends (reads ?f) ?Q _ _ ?s => change (Q (f s) s) end. cbv beta.
  apply ends_bind, ends_check; [intros Hfresh%negb_true_iff|done]. apply ends_bind.
  match goal with |- ends (writes ?f) ?Q _ _ ?s => change (Q tt (f s)) end. cbv beta.
  eapply ends_mono; [..|apply IH]; [|done|done|].
  - cbv beta. intros _ db' [-> Ho]. split; [|done]. simpl. by rewrite <- app_assoc.
  - assert (Hne : forall x, x ∈ db_residents db -> r_attempt_id x <> ra_AttemptID r).
    { intros x Hx. apply (existsb_false _ _ x) in Hfresh; [|done]. by apply bool_decide_eq_false in Hfresh. }
    intros x y [Hx|Hx]%elem_of_app [Hy|Hy]%elem_of_app E; rewrite ?list_elem_of_singleton in *; subst; try done; [by apply H | |].
    + by destruct (Hne x Hx).
    + by destruct (Hne y Hy).
Qed.

(** The system boots the survivors end up with. *)
Definition shares (nodeID systemBoot : string) (l : list NodeGeneration) (g g' : GenerationRow) : Prop :=
  rebind g g' /\ ((exists e, e ∈ l /\ key g = (nodeID, ng_AgentGenerationID e)) -> g_system_boot_id g' = systemBoot)
  /\ ((forall e, e ∈ l -> key g <> (nodeID, ng_AgentGenerationID e)) -> g_system_boot_id g' = g_system_boot_id g).

(** The entry [e] was read from the row [g], whose boot may be bound already. *)
Definition read_from (systemBoot : string) (e : NodeGeneration) (g : GenerationRow) : Prop :=
  exists registration, ng_Registration e = registration
    /\ (g_registration g = registration \/ g_registration g = registration <| reg_SystemBootID := systemBoot |>).

Lemma read_from_spec systemBoot e g : read_from systemBoot e g ->
  relabel g (g <| g_registration := (ng_Registration e) <| reg_SystemBootID := systemBoot |> |>).
Proof. intros (registration & -> & [E|E]); (split; [done | done|]); simpl; rewrite E; done. Qed.

Lemma post_survivors nodeID systemBoot l db (K : result ErrorCode NodeGenerationInventory -> DB -> Prop) :
  (forall e g, e ∈ l -> g ∈ db_generations db -> key g = (nodeID, ng_AgentGenerationID e) -> read_from systemBoot e g) ->
  post (bind_survivors nodeID systemBoot l)
    (fun _ db' => exists T, db' = db <| db_generations := map T (db_generations db) |>
       /\ forall g, g ∈ db_generations db -> shares nodeID systemBoot l g (T g)) K db.
Proof.
  revert db. induction l as [|e l IH]; intros db H; simpl.
  { exists id. rewrite map_id. split; [by destruct db|]. intros g _. split; [apply rebind_refl|]. split; [|done].
    intros (e & He & _). by apply elem_of_nil in He. }
  apply ends_bind, ends_check; [intros Hsys|done].
  set (F := fun g => if of_generation nodeID (ng_AgentGenerationID e) g
                     then g <| g_registration := (ng_Registration e) <| reg_SystemBootID := systemBoot |> |> else g).
  assert (HF : forall g, g ∈ db_generations db -> rebind g (F g) /\ (key g = (nodeID, ng_AgentGenerationID e) -> g_system_boot_id (F g) = systemBoot)
                 /\ (key g <> (nodeID, ng_AgentGenerationID e) -> F g = g)).
  { intros g Hg. unfold F. destruct (of_generation nodeID (ng_AgentGenerationID e) g) eqn:Eg.
    - apply of_generation_key in Eg. split; [split; [apply read_from_spec, H; [left | done | done] | done]|]. done.
    - split; [apply rebind_refl|]. split; [|done]. intros Kg. by rewrite (proj2 (of_generation_key _ _ _) Kg) in Eg. }
  apply (ends_seq (fun _ db' => exists F', db' = db <| db_generations := map F' (db_generations db) |>
    /\ (forall g, g ∈ db_generations db -> rebind g (F' g) /\ (key g = (nodeID, ng_AgentGenerationID e) -> g_system_boot_id (F' g) = systemBoot)
                 /\ (key g <> (nodeID, ng_AgentGenerationID e) -> g_system_boot_id (F' g) = g_system_boot_id g))
    /\ (forall e' g, e' ∈ l -> g ∈ db_generations db -> key g = (nodeID, ng_AgentGenerationID e') -> read_from systemBoot e' (F' g)))).
  { destruct (bool_decide_reflect (reg_SystemBootID (ng_Registration e) = "")) as [Es|Es]; wp.
    - exists F. split; [done|]. split.
      + intros g Hg. destruct (HF g Hg) as (H1 & H2 & H3). split_and!; try done. intros N. by rewrite (H3 N).
      + intros e' g He' Hg Kg. assert (Hr := H e' g ltac:(by right) Hg Kg). unfold F.
        destruct (of_generation nodeID (ng_AgentGenerationID e) g) eqn:Eg; [|done]. apply of_generation_key in Eg.
        assert (He := H e g ltac:(by left) Hg Eg). destruct Hr as (r' & E' & Hr'), He as (r & E & Hr).
        exists r'. split; [done|]. right. simpl. rewrite E.
        destruct Hr as [Hr|Hr], Hr' as [Hr'|Hr']; rewrite Hr in Hr'; subst; try (rewrite <- Hr'); try done; by destruct r', r; simplify_eq.
    - exists id. rewrite map_id. split; [by destruct db|]. simpl in Hsys. apply bool_decide_eq_true in Hsys. split.
      + intros g Hg. split; [apply rebind_refl|]. split; [|done]. intros Kg.
        destruct (H e g ltac:(by left) Hg Kg) as (r & Er & [Eg|Eg]); unfold g_system_boot_id; simpl; rewrite Eg; [|done]. by rewrite <- Er.
      + intros e' g He' Hg Kg. by apply H; [right|..]. }
  intros _ db1 (F' & -> & HF1 & HF2). eapply ends_mono; [..|apply IH]; [|done|done|].
  - cbv beta. intros _ db' (T & -> & HT). exists (fun g => T (F' g)). split; [simpl; by rewrite map_map|]. intros g Hg.
    destruct (HF1 g Hg) as (R1 & B1 & B2). assert (Hin : F' g ∈ map F' (db_generations db)) by (apply elem_of_map; eauto).
    destruct (HT _ Hin) as (R2 & B3 & B4). destruct (R1) as [[Kf _ _] _]. rewrite Kf in B3, B4.
    split; [by eapply rebind_trans|]. split.
    + intros (e' & [->|He']%elem_of_cons & Kg); [|by apply B3; eauto].
      destruct (decide (Exists (fun e' => key g = (nodeID, ng_AgentGenerationID e')) l)) as [He'|He'].
      * apply B3. by apply Exists_exists.
      * rewrite B4; [by apply B1|]. intros e' He'' Kg'. apply He', Exists_exists. eauto.
    + intros N. rewrite B4 by (intros e' He'; apply N; by right). apply B2, N. left.
  - intros e' g He' (h & Hh & ->)%elem_of_map Kh. destruct (HF1 h Hh) as [[[Kf _ _] _] _]. rewrite Kf in Kh. by apply HF2.
Qed.

(** ** The store after a promotion *)
Record promoted (nodeID : string) (db db' : DB) (n : NodeRow) (gp gc : GenerationRow) (T : GenerationRow -> GenerationRow) : Prop := {
  pr_node : db_nodes db !! nodeID = Some n;
  pr_primary : gp ∈ db_generations db /\ g_node_id gp = nodeID /\ g_role gp = NodeGenerationPrimary
    /\ session n = (g_boot_session_id gp, g_authority_generation gp);
  pr_candidate : gc ∈ db_generations db /\ g_node_id gc = nodeID /\ g_role gc = NodeGenerationStaged;
  pr_nodes : exists f, db_nodes db' = alter f nodeID (db_nodes db) /\ n_identity_node_id (f n) = n_identity_node_id n
    /\ session (f n) = (reg_BootSessionID (g_registration gc), n_authority_generation n + 1);
  pr_generations : db_generations db' = map T (db_generations db);
  pr_rows : forall g, g ∈ db_generations db -> relabel g (T g) /\ g_closed_ns (T g) = g_closed_ns g
    /\ (key g = key gp -> g_role (T g) = NodeGenerationRetiring /\ g_authority_generation (T g) = g_authority_generation g)
    /\ (key g = key gc -> g_role (T g) = NodeGenerationPrimary /\ g_authority_generation (T g) = n_authority_generation n + 1)
    /\ (key g <> key gp -> key g <> key gc -> g_role (T g) = g_role g /\ g_authority_generation (T g) = g_authority_generation g);
  pr_system : forall g, g ∈ db_generations db -> g_node_id g = nodeID -> g_system_boot_id gc <> "" ->
    g = gc \/ g_role g = NodeGenerationPrimary \/ g_role g = NodeGenerationRetiring -> g_system_boot_id (T g) = g_system_boot_id gc;
  pr_elsewhere : forall g, g ∈ db_generations db -> g_node_id g <> nodeID -> g_system_boot_id (T g) = g_system_boot_id g;
  pr_residents : db_residents db' = db_residents db
    ++ map (resident_row nodeID (g_generation_id gp)) (readPrimaryResidents nodeID (n_boot_session_id n) (n_authority_generation n) db);
  pr_once : once (db_residents db');
  pr_catalog : forall k, is_Some (db_generation_catalog db !! k) -> is_Some (db_generation_catalog db' !! k);
  pr_attempts : db_attempts db' = db_attempts db;
  pr_jobs : db_jobs db' = db_jobs db
}.

Lemma expected_inventory_spec request nodeID db primary candidate :
  expected_inventory request (readNodeGenerations nodeID db) = Some (primary, candidate) ->
  (exists gp, gp ∈ db_generations db /\ g_node_id gp = nodeID /\ g_role gp = NodeGenerationPrimary /\ primary = inventory_entry db gp)
  /\ (exists gc, gc ∈ db_generations db /\ g_node_id gc = nodeID /\ g_role gc = NodeGenerationStaged /\ candidate = inventory_entry db gc).
Proof.
  unfold expected_inventory, with_role. intros H. destruct (last _) as [p|] eqn:Ep; [|done]. destruct (last (List.filter _ (List.filter _ _))) as [c|] eqn:Ec; [|done].
  destruct (_ && _); [|done]. injection H as -> ->. split.
  - apply last_Some_elem_of in Ep. rewrite elem_of_filter_bool, bool_decide_eq_true in Ep. destruct Ep as [(g & Hg & Hn & ->)%inventory_elem Er].
    by exists g.
  - apply last_Some_elem_of in Ec. rewrite !elem_of_filter_bool, !bool_decide_eq_true in Ec.
    destruct Ec as [[(g & Hg & Hn & ->)%inventory_elem Er] _]. by exists g.
Qed.

(** The survivors of the read inventory are the rows of the live sessions. *)
Lemma elem_of_live nodeID db e :
  e ∈ live_generations (readNodeGenerations nodeID db) ->
  exists g, g ∈ db_generations db /\ g_node_id g = nodeID /\ (g_role g = NodeGenerationPrimary \/ g_role g = NodeGenerationRetiring)
    /\ e = inventory_entry db g.
Proof.
  unfold live_generations. rewrite elem_of_filter_bool, bool_decide_eq_true. intros [(g & Hg & Hn & ->)%inventory_elem Hr].
  exists g. split_and!; try done. change (ng_Role (inventory_entry db g)) with (g_role g) in Hr.
  apply elem_of_cons in Hr as [->|Hr%list_elem_of_singleton]; auto.
Qed.

Lemma live_complete nodeID db g :
  sessions_ok db -> g ∈ db_generations db -> g_node_id g = nodeID -> g_role g = NodeGenerationPrimary \/ g_role g = NodeGenerationRetiring ->
  inventory_entry db g ∈ live_generations (readNodeGenerations nodeID db).
Proof.
  intros H Hg Hn Hr. unfold live_generations. rewrite elem_of_filter_bool, bool_decide_eq_true. split; [by apply inventory_complete|].
  change (ng_Role (inventory_entry db g)) with (g_role g). destruct Hr as [->| ->]; [apply list_elem_of_here | apply list_elem_of_further, list_elem_of_here].
Qed.

(** The three updates of the generations. *)
Lemma post_share nodeID systemBoot db0 db (T1 : GenerationRow -> GenerationRow) (K : result ErrorCode NodeGenerationInventory -> DB -> Prop) :
  sessions_ok db0 -> db_generations db = map T1 (db_generations db0) ->
  (forall g, key (T1 g) = key g /\ g_registration (T1 g) = g_registration g) ->
  post (if bool_decide (systemBoot = "") then pure tt else bind_survivors nodeID systemBoot (live_generations (readNodeGenerations nodeID db0)))
    (fun _ db' => exists T2, db' = db <| db_generations := map T2 (db_generations db) |>
       /\ forall g, g ∈ db_generations db0 -> rebind (T1 g) (T2 (T1 g))
          /\ (g_node_id g = nodeID -> systemBoot <> "" -> g_role g = NodeGenerationPrimary \/ g_role g = NodeGenerationRetiring ->
              g_system_boot_id (T2 (T1 g)) = systemBoot)
          /\ (g_node_id g <> nodeID \/ g_role g = NodeGenerationStaged -> g_system_boot_id (T2 (T1 g)) = g_system_boot_id g)) K db.
Proof.
  intros H HG HT1. destruct (bool_decide_reflect (systemBoot = "")) as [E|E].
  { wp. exists id. rewrite map_id. split; [by destruct db|]. intros g _. split; [apply rebind_refl|]. split; [done|].
    intros _. unfold g_system_boot_id, id. by rewrite (proj2 (HT1 g)). }
  eapply ends_mono; [..|apply post_survivors]; [|done|done|].
  - cbv beta. intros _ db' (T2 & -> & HT2). exists T2. split; [done|]. intros g Hg.
    assert (Hin : T1 g ∈ db_generations db) by (rewrite HG; apply elem_of_map; eauto).
    destruct (HT2 _ Hin) as (Hre & Hb & Hk). rewrite (proj1 (HT1 g)) in Hb, Hk. split; [done|]. split.
    + intros Hn _ Hr. apply Hb. exists (inventory_entry db0 g). split; [by apply live_complete | by rewrite <- Hn].
    + intros Hr. rewrite Hk; [unfold g_system_boot_id; by rewrite (proj2 (HT1 g))|].
      intros e (h & Hh & Hnh & Hrh & ->)%elem_of_live E'. assert (g = h) as -> by (apply (co_key _ _ _ _ _ H); [done | done | by rewrite E', <- Hnh]).
      destruct Hr as [?|Hr]; [done|]. rewrite Hr in Hrh. by destruct Hrh.
  - rewrite HG. intros e g' (h & Hh & Hnh & Hrh & ->)%elem_of_live (g & Hg & ->)%elem_of_map Kg. rewrite (proj1 (HT1 g)) in Kg.
    assert (g = h) as -> by (apply (co_key _ _ _ _ _ H); [done | done | by rewrite Kg, <- Hnh]).
    exists (g_registration h). split; [done|]. left. apply HT1.
Qed.

Section Nodes.
Context (lower_table : Z -> Z).

(** The two sessions that change their role. *)
Definition retire (now protocol : Z) (operation nodeID generation : string) (g : GenerationRow) : GenerationRow :=
  if of_generation nodeID generation g
  then g <| g_role := NodeGenerationRetiring |> <| g_retiring_ns := Some now |> <| g_selected_protocol := protocol |>
         <| g_promotion_operation_id := operation |>
  else g.
Definition take_over (now protocol authority : Z) (operation nodeID generation : string) (g : GenerationRow) : GenerationRow :=
  if of_generation nodeID generation g
  then g <| g_role := NodeGenerationPrimary |> <| g_authority_generation := authority |> <| g_selected_protocol := protocol |>
         <| g_promotion_operation_id := operation |> <| g_heartbeat_ns := now |>
  else g.

Lemma of_generation_dec node gen g : of_generation node gen g = bool_decide (key g = (node, gen)).
Proof.
  destruct (of_generation node gen g) eqn:E; symmetry; [by apply bool_decide_eq_true_2, of_generation_key|].
  apply bool_decide_eq_false_2. intros K%of_generation_key. congruence.
Qed.

Lemma promoted_rows db now protocol authority operation gp gc (T2 : GenerationRow -> GenerationRow) g
    (T1 := retire now protocol operation (g_node_id gp) (g_generation_id gp))
    (T3 := take_over now protocol authority operation (g_node_id gc) (g_generation_id gc)) (T := fun g => T3 (T2 (T1 g))) :
  sessions_ok db -> g ∈ db_generations db -> gp ∈ db_generations db -> gc ∈ db_generations db ->
  g_role gp = NodeGenerationPrimary -> g_role gc = NodeGenerationStaged -> rebind (T1 g) (T2 (T1 g)) ->
  relabel g (T g) /\ g_closed_ns (T g) = g_closed_ns g
  /\ (key g = key gp -> g_role (T g) = NodeGenerationRetiring /\ g_authority_generation (T g) = g_authority_generation g)
  /\ (key g = key gc -> g_role (T g) = NodeGenerationPrimary /\ g_authority_generation (T g) = authority)
  /\ (key g <> key gp -> key g <> key gc -> g_role (T g) = g_role g /\ g_authority_generation (T g) = g_authority_generation g)
  /\ g_system_boot_id (T g) = g_system_boot_id (T2 (T1 g)).
Proof.
  intros H Hg Hgp Hgc Rp Rc [[K2 B2 R2] (O2 & A2 & C2)].
  assert (Hne : key gp <> key gc).
  { intros E. assert (gp = gc) as -> by (by apply (co_key _ _ _ _ _ H)). by rewrite Rp in Rc. }
  unfold T, T3, take_over. rewrite of_generation_dec. change (_, g_generation_id gc) with (key gc). rewrite K2.
  unfold T1, retire in *. rewrite of_generation_dec in *. change (_, g_generation_id gp) with (key gp) in *.
  destruct (bool_decide_reflect (key g = key gp)) as [Ep|Ep]; simpl in *.
  - rewrite bool_decide_eq_false_2 by (unfold key in *; simpl; congruence). split_and!; try done; try congruence.
    all: by split.
  - destruct (bool_decide_reflect (key g = key gc)) as [Ec|Ec]; split_and!; try done; split; simpl; try done.
Qed.

Lemma post_promotion now nodeID request db n gp gc incoming operation (K : result ErrorCode NodeGenerationInventory -> DB -> Prop)
    (residents := readPrimaryResidents nodeID (n_boot_session_id n) (n_authority_generation n) db) (registration := g_registration gc) :
  sessions_ok db -> db_nodes db !! nodeID = Some n -> gp ∈ db_generations db -> g_node_id gp = nodeID -> g_role gp = NodeGenerationPrimary ->
  session n = (g_boot_session_id gp, g_authority_generation gp) ->
  gc ∈ db_generations db -> g_node_id gc = nodeID -> g_role gc = NodeGenerationStaged ->
  post (let! _ := insert_residents nodeID (g_generation_id gp) residents in
        let! _ := writes (exec_generations (of_generation nodeID (g_generation_id gp)) (fun g =>
          g <| g_role := NodeGenerationRetiring |> <| g_retiring_ns := Some now |> <| g_selected_protocol := pg_SelectedProtocol request |>
            <| g_promotion_operation_id := pg_OperationID request |>)) in
        let! _ := if bool_decide (reg_SystemBootID registration = "") then pure tt
                  else bind_survivors nodeID (reg_SystemBootID registration) (live_generations (readNodeGenerations nodeID db)) in
        let! incoming := lift incoming in
        let! _ := writes (exec_node nodeID (promoted_node now registration incoming)) in
        let! _ := writes (exec_generations (of_generation nodeID (g_generation_id gc)) (fun g =>
          g <| g_role := NodeGenerationPrimary |> <| g_authority_generation := n_authority_generation n + 1 |>
            <| g_selected_protocol := pg_SelectedProtocol request |> <| g_promotion_operation_id := pg_OperationID request |>
            <| g_heartbeat_ns := now |>)) in
        let! _ := writes (fun db => db <| db_generation_catalog := alter (fun _ => pg_CatalogRevision request) nodeID (db_generation_catalog db) |>) in
        finish_operation nodeID (pg_OperationID request) operation)
    (fun inventory db' => exists db2 T, promoted nodeID db db2 n gp gc T /\ db_generation_operations db2 = db_generation_operations db
       /\ db' = record_operation nodeID (pg_OperationID request) operation (OperationInventory inventory) db2) K db.
Proof.
  intros H Hn Hgp Np Rp Hs Hgc Nc Rc.
  eapply ends_seq; [apply post_residents; exact (co_resident_once _ _ _ _ _ H)|]. cbv beta. intros _ ? [-> Honce].
  apply ends_bind. match goal with |- ends (writes ?f) ?Q _ _ ?s => change (Q tt (f s)) end. cbv beta.
  set (T1 := retire now (pg_SelectedProtocol request) (pg_OperationID request) (g_node_id gp) (g_generation_id gp)).
  eapply ends_seq; [apply (post_share nodeID (reg_SystemBootID registration) db _ T1); [done | simpl; rewrite <- Np; reflexivity|]|].
  { intros g. unfold T1, retire. destruct (of_generation _ _ g); done. }
  cbv beta. intros _ ? (T2 & -> & HT2). unfold finish_operation. wp.
  set (T3 := take_over now (pg_SelectedProtocol request) (n_authority_generation n + 1) (pg_OperationID request) (g_node_id gc) (g_generation_id gc)).
  eexists _, (fun g => T3 (T2 (T1 g))). split; [|split; [|reflexivity]; reflexivity].
  assert (Hrows := fun g Hg => promoted_rows db now (pg_SelectedProtocol request) (n_authority_generation n + 1) (pg_OperationID request)
                     gp gc T2 g H Hg Hgp Hgc Rp Rc (proj1 (HT2 g Hg))). cbv zeta in Hrows. fold T1 T3 in Hrows.
  split; try done.
  - exists (promoted_node now registration a). done.
  - simpl. rewrite !map_map. apply map_ext. intros g. unfold T3, take_over, T1, retire. by rewrite Np, Nc.
  - intros g Hg. destruct (Hrows g Hg) as (? & ? & ? & ? & ? & _). done.
  - intros g Hg Hng Hsys Hr. destruct (Hrows g Hg) as (_ & _ & _ & _ & _ & ->). destruct (HT2 g Hg) as (_ & Hb & Hc).
    destruct Hr as [->|Hr]; [apply Hc; by right | by apply Hb].
  - intros g Hg Hng. destruct (Hrows g Hg) as (_ & _ & _ & _ & _ & ->). apply (HT2 g Hg). by left.
  - intros k Hk'. simpl. destruct (decide (k = nodeID)) as [->|N]; [rewrite lookup_alter_eq | by rewrite lookup_alter_ne].
    destruct Hk' as [? ->]. done.
Qed.

Lemma expected_candidate request nodeID db primary candidate :
  expected_inventory request (readNodeGenerations nodeID db) = Some (primary, candidate) ->
  pg_CandidateGenerationID request = ng_AgentGenerationID candidate.
Proof.
  unfold expected_inventory. intros H. destruct (last _) as [p|] eqn:Ep; [|done]. destruct (last (List.filter _ _)) as [c|] eqn:Ec; [|done].
  destruct (_ && _); [|done]. injection H as -> ->. apply last_Some_elem_of in Ec. rewrite elem_of_filter_bool, bool_decide_eq_true in Ec.
  by destruct Ec.
Qed.

Lemma post_promote at_ identity nodeID request db db1 (K : result ErrorCode NodeGenerationInventory -> DB -> Prop)
    (canonical := request <| pg_ResidentAttempts := canonicalResidents (pg_ResidentAttempts request) |>
                          <| pg_RetiringGenerationIDs := sort_strings (pg_RetiringGenerationIDs request) |>) :
  db1 = (withLeaseSleepGap true (at_sample at_) db).2 -> sessions_ok db1 ->
  post (PromoteNodeGeneration lower_table at_ identity nodeID request)
    (fun inventory db' => exists db2 n gp gc T, promoted nodeID db1 db2 n gp gc T
       /\ db_generation_operations db2 = db_generation_operations db
       /\ db_generation_operations db !! (nodeID, pg_OperationID request) = None
       /\ g_generation_id gc = pg_CandidateGenerationID request
       /\ db' = record_operation nodeID (pg_OperationID request) (PromoteOperation canonical) (OperationInventory inventory) db2) K db.
Proof.
  intros Edb1 H. unfold PromoteNodeGeneration. cbv zeta. fold canonical. apply ends_bind, ends_check; [intros _|done]. apply ends_bind, ends_begin.
  rewrite <- Edb1. assert (Hledger : db_generation_operations db1 = db_generation_operations db).
  { rewrite Edb1. apply (ss_ledger _ _ (same_begin at_ db)). }
  eapply ends_seq; [apply post_identity|]. cbv beta. intros _ ? [-> _]. eapply ends_seq; [apply post_replay|]. cbv beta. intros _ ? [-> Hk].
  apply ends_bind. match goal with |- ends (reads ?f) ?Q _ _ ?s => change (Q (f s) s) end. cbv beta.
  apply ends_bind, ends_need; [intros [primary candidate] Hex|done].
  assert (Hid : pg_CandidateGenerationID request = ng_AgentGenerationID candidate) by exact (expected_candidate canonical _ _ _ _ Hex).
  apply expected_inventory_spec in Hex as [(gp & Hgp & Np & Rp & ->) (gc & Hgc & Nc & Rc & ->)]. cbv iota beta.
  apply ends_bind, ends_need; [intros n Hn|done]. apply ends_bind, ends_check; [intros _|done].
  apply ends_bind. match goal with |- ends (reads ?f) ?Q _ _ ?s => change (Q (f s) s) end. cbv beta.
  apply ends_bind, ends_check; [intros _|done]. apply ends_bind.
  match goal with |- ends (reads ?f) ?Q _ _ ?s => change (Q (f s) s) end. cbv beta.
  apply ends_bind, ends_lift; [intros work _|done]. cbv zeta. apply ends_bind, ends_check; [intros _|done].
  apply ends_bind, ends_check; [intros _|done].
  eapply ends_mono; [..|apply (post_promotion (at_now at_) nodeID canonical db1 n gp gc)]; try done.
  - cbv beta. intros inventory db' (db2 & T & Hp & Ho & ->). exists db2, n, gp, gc, T. rewrite <- Hledger. done.
  - assert (Hs := co_primary _ _ _ _ _ H gp Hgp Rp ltac:(done)). rewrite Np in Hs. unfold node_sessions in Hs.
    rewrite lookup_fmap, Hn in Hs. simpl in Hs. congruence.
Qed.

(** ** A promotion keeps the sessions sound *)
Lemma promoted_sessions nodeID db db' n gp gc T : promoted nodeID db db' n gp gc T -> sessions_ok db ->
  node_sessions db' = <[nodeID := (g_boot_session_id gc, n_authority_generation n + 1)]> (node_sessions db).
Proof.
  intros Hp H. destruct (pr_nodes _ _ _ _ _ _ _ Hp) as (f & Hf & _ & Hs).
  destruct (pr_candidate _ _ _ _ _ _ _ Hp) as (Hgc & _). destruct (co_registration _ _ _ _ _ H gc Hgc) as (_ & _ & Eb).
  unfold node_sessions. rewrite Hf. apply map_eq. intros k. rewrite lookup_fmap. destruct (decide (k = nodeID)) as [->|N].
  - by rewrite lookup_alter_eq, (pr_node _ _ _ _ _ _ _ Hp), lookup_insert_eq, <- Eb, <- Hs.
  - by rewrite lookup_alter_ne, lookup_insert_ne, lookup_fmap.
Qed.

(** A new resident was active in the session that retires. *)
Lemma primary_resident nodeID boot authority db r :
  r ∈ readPrimaryResidents nodeID boot authority db <->
  exists a, db_attempts db !! ra_AttemptID r = Some a /\ a_node_id a = nodeID /\ a_boot_session_id a = boot
    /\ a_authority_generation a = authority /\ active_attempt (a_state a) = true
    /\ r = mkResidentAttempt (a_job_id a) (ra_AttemptID r) (a_boot_session_id a) (a_authority_generation a) (a_fencing_token a).
Proof.
  unfold readPrimaryResidents, canonicalResidents. rewrite elem_of_sort_by, elem_of_map. split.
  - intros ([id a] & Hin & ->). rewrite elem_of_filter_bool, !andb_true_iff, !bool_decide_eq_true, Z.eqb_eq in Hin.
    destruct Hin as (Ha%elem_of_map_to_list & (((? & ?) & ?) & ?)). exists a. done.
  - intros (a & Ha & Hn & Hb & Hauth & Hact & ->). exists (ra_AttemptID r, a). split; [|done].
    rewrite elem_of_filter_bool, !andb_true_iff, !bool_decide_eq_true, Z.eqb_eq. by rewrite elem_of_map_to_list.
Qed.

Lemma promoted_cases nodeID db db' n gp gc T g : promoted nodeID db db' n gp gc T -> sessions_ok db -> g ∈ db_generations db ->
  relabel g (T g) /\ g_closed_ns (T g) = g_closed_ns g
  /\ (g = gp /\ g_role (T g) = NodeGenerationRetiring /\ g_authority_generation (T g) = n_authority_generation n
      \/ g = gc /\ g_role (T g) = NodeGenerationPrimary /\ g_authority_generation (T g) = n_authority_generation n + 1
      \/ g_role (T g) = g_role g /\ g_authority_generation (T g) = g_authority_generation g
         /\ (g_node_id g = nodeID -> g_role g <> NodeGenerationPrimary)).
Proof.
  intros Hp H Hg. destruct (pr_rows _ _ _ _ _ _ _ Hp g Hg) as (Hr & Hc & H1 & H2 & H3). split; [done|]. split; [done|].
  destruct (pr_primary _ _ _ _ _ _ _ Hp) as (Hgp & Np & Rp & Hs), (pr_candidate _ _ _ _ _ _ _ Hp) as (Hgc & Nc & Rc). injection Hs as _ Ha.
  destruct (decide (key g = key gp)) as [Ep|Ep].
  - left. assert (g = gp) as -> by (by apply (co_key _ _ _ _ _ H)). destruct (H1 Ep) as [-> ->]. by rewrite Ha.
  - destruct (decide (key g = key gc)) as [Ec|Ec].
    + right. left. assert (g = gc) as -> by (by apply (co_key _ _ _ _ _ H)). destruct (H2 Ec) as [-> ->]. done.
    + right. right. destruct (H3 Ep Ec) as [-> ->]. split_and!; [done | done|]. intros Hn R. apply Ep. f_equal.
      apply (co_one _ _ _ _ _ H); congruence.
Qed.

Lemma promoted_residents nodeID db db' n gp gc T r : promoted nodeID db db' n gp gc T -> sessions_ok db ->
  r ∈ db_residents db' -> r ∈ db_residents db \/ key gp = (r_node_id r, r_generation_id r)
    /\ g_boot_session_id gp = r_boot_session_id r /\ n_authority_generation n = r_authority_generation r.
Proof.
  intros Hp H. rewrite (pr_residents _ _ _ _ _ _ _ Hp), elem_of_app. intros [Hr|(x & Hx & ->)%elem_of_map]; [by left|]. right.
  apply primary_resident in Hx as (a & _ & Hn & Hb & Ha & _ & ->). destruct (pr_primary _ _ _ _ _ _ _ Hp) as (_ & Np & _ & Hs).
  injection Hs as Hbp Hap. unfold key. rewrite Np. simpl. rewrite Hb, Ha. done.
Qed.

Lemma promoted_ok nodeID db db' n gp gc T : promoted nodeID db db' n gp gc T -> sessions_ok db -> sessions_ok db'.
Proof.
  intros Hp H. assert (HS := promoted_sessions _ _ _ _ _ _ _ Hp H).
  destruct (pr_primary _ _ _ _ _ _ _ Hp) as (Hgp & Np & Rp & Hs), (pr_candidate _ _ _ _ _ _ _ Hp) as (Hgc & Nc & Rc).
  assert (Hcase := fun g => promoted_cases _ _ _ _ _ _ _ g Hp H). injection Hs as Hb Ha.
  assert (HSn : node_sessions db !! nodeID = Some (g_boot_session_id gp, g_authority_generation gp)).
  { rewrite <- Np. by apply (co_primary _ _ _ _ _ H). }
  assert (Hold : forall g, g ∈ db_generations db -> g_role g = NodeGenerationRetiring -> g_node_id g = nodeID ->
            g_authority_generation g < n_authority_generation n).
  { intros g Hg Rg Ng. rewrite Ha. eapply (co_older _ _ _ _ _ H g); [done | done | by rewrite Ng]. }
  unfold sessions_ok. rewrite (pr_generations _ _ _ _ _ _ _ Hp), HS.
  eapply coherent_catalog; [|exact (pr_catalog _ _ _ _ _ _ _ Hp)].
  eapply (coherent_map None (node_sessions db)); [exact H | intros g Hg; apply (Hcase g Hg)|..].
  - intros g Hg. destruct (decide (g_node_id g = nodeID)) as [->|N]; [by rewrite lookup_insert_eq|].
    rewrite lookup_insert_ne by done. by apply (co_node _ _ _ _ _ H).
  - intros g Hg. destruct (Hcase g Hg) as (_ & -> & [(-> & -> & _)|[(-> & -> & _)|(-> & _)]]); [done | done|]. by apply (co_closed _ _ _ _ _ H).
  - intros g h Hg Hh Hn. destruct (Hcase g Hg) as (_ & _ & [(-> & -> & _)|[(-> & -> & _)|(-> & _ & N)]]); [done|..];
      destruct (Hcase h Hh) as (_ & _ & [(-> & -> & _)|[(-> & -> & _)|(-> & _ & N')]]); try done; intros R1 R2.
    + destruct N'; [congruence | done].
    + destruct N; [congruence | done].
    + by apply (co_one _ _ _ _ _ H).
  - intros g Hg Hr _. destruct (Hcase g Hg) as (_ & _ & [(-> & E & _)|[(-> & _ & ->)|(E & -> & N)]]); [by rewrite E in Hr | |].
    + by rewrite Nc, lookup_insert_eq.
    + rewrite E in Hr. rewrite lookup_insert_ne by (intros Hn; by apply N). by apply (co_primary _ _ _ _ _ H).
  - intros g b a Hg Hr. destruct (decide (g_node_id g = nodeID)) as [Hn|N].
    + rewrite Hn, lookup_insert_eq. intros [= <- <-].
      destruct (Hcase g Hg) as (_ & _ & [(-> & _ & ->)|[(-> & E & _)|(E & -> & N)]]); [lia | by rewrite E in Hr|].
      rewrite E in Hr. assert (Hlt := Hold g Hg Hr Hn). lia.
    + rewrite lookup_insert_ne by done. destruct (Hcase g Hg) as (_ & _ & [(-> & _)|[(-> & _)|(E & -> & _)]]); [done | done|].
      rewrite E in Hr. by apply (co_older _ _ _ _ _ H).
  - intros g h Hg Hh Hn R1 R2. destruct (Hcase h Hh) as (_ & _ & [(-> & E & _)|[(-> & _ & ->)|(E & -> & N')]]); [by rewrite E in R2|..];
      destruct (Hcase g Hg) as (_ & _ & [(-> & E' & ->)|[(-> & E' & _)|(E' & -> & N)]]); try (by rewrite E' in R1).
    + lia.
    + rewrite E' in R1. assert (Hlt := Hold g Hg R1 ltac:(congruence)). lia.
    + destruct N'; congruence.
    + rewrite E' in R1. rewrite E in R2. by apply (co_order _ _ _ _ _ H).
  - intros r [Hr|(K & Eb & Ea)]%(promoted_residents _ _ _ _ _ _ _ _ Hp H).
    + destruct (co_resident _ _ _ _ _ H r Hr) as (g & Hg & Kg & Rg & Bg & Ag). exists g.
      destruct (Hcase g Hg) as (_ & _ & [(-> & _)|[(-> & _)|(-> & -> & _)]]); [rewrite Rp in Rg; by destruct Rg | rewrite Rc in Rg; by destruct Rg | done].
    + exists gp. destruct (Hcase gp Hgp) as (_ & _ & [(_ & -> & ->)|[(-> & _)|(_ & _ & N)]]); [auto | by rewrite Rp in Rc | by destruct N].
  - apply (pr_once _ _ _ _ _ _ _ Hp).
Qed.

Lemma advances_promote at_ identity nodeID request db :
  sessions_ok db -> advances db (run (PromoteNodeGeneration lower_table at_ identity nodeID request) db).1.
Proof.
  intros H. apply post_run; [by apply advances_refl|]. assert (Hsame := same_begin at_ db).
  set (db1 := (withLeaseSleepGap true (at_sample at_) db).2) in *. assert (H1 : sessions_ok db1) by (by eapply same_ok).
  eapply ends_mono; [..|exact (post_promote at_ identity nodeID request db db1 (fun _ => advances db) eq_refl H1)]; [|done|done].
  cbv beta. intros inventory db' (db2 & n & gp & gc & T & Hp & Hl & Hk & _ & ->). apply (same_advances _ db1); [done|].
  assert (Hl1 := ss_ledger _ _ Hsame). rewrite <- Hl1 in Hl, Hk. apply record_advances; [|done|done].
  split; [by eapply promoted_ok|]. assert (HS := promoted_sessions _ _ _ _ _ _ _ Hp H1).
  destruct (pr_primary _ _ _ _ _ _ _ Hp) as (Hgp & Np & Rp & Hs).
  assert (HSn : node_sessions db1 !! nodeID = Some (session n)) by (rewrite Hs, <- Np; by apply (co_primary _ _ _ _ _ H1)).
  split.
  - intros k b a E. rewrite HS. destruct (decide (k = nodeID)) as [->|N]; [|rewrite lookup_insert_ne by done; eauto 6].
    rewrite lookup_insert_eq. eexists _, _. split; [done|]. right. rewrite HSn in E. injection E as _ <-. lia.
  - eexists. split; [exact (pr_residents _ _ _ _ _ _ _ Hp)|]. apply Forall_forall. intros x (r & Hr & ->)%elem_of_map.
    apply primary_resident in Hr as (a & _ & Hn & Hb & Hauth & _ & ->). simpl. rewrite HSn, Hb, Hauth. done.
  - rewrite (pr_generations _ _ _ _ _ _ _ Hp). apply onward_map. intros g Hg.
    destruct (promoted_cases _ _ _ _ _ _ _ g Hp H1 Hg) as (Hr & _ & Hc). split; [apply Hr|].
    destruct (pr_candidate _ _ _ _ _ _ _ Hp) as (_ & _ & Rc).
    destruct Hc as [(-> & -> & _)|[(-> & -> & _)|(-> & _)]]; [rewrite Rp | rewrite Rc | lia]; vm_compute; discriminate.
  - by rewrite Hl.
Qed.
End Nodes.
