(* ===== verification/NodePreservation.v ===== *)
(** * Node transactions leave jobs, attempts and logs alone

    After the sleep credit that opens a transaction, no operation of
    NodeSessions.v writes a job, an attempt or a log row. *)
From S2P Require Import Prelude Order States Contract GoStrings JobSpec L1Types NodeTypes RestartPolicy Database.
From S2P Require Import UpgradeCompat LeaseClock Authority Credentials Summaries Lifecycle Placement LogRetention Logs LogStreams Ingestion Claim.
From S2P Require Import ServiceOperator Reconcile Invariant Preservation LogPreservation NodeSessions.
#[local] Open Scope string_scope.
#[local] Open Scope list_scope.
#[local] Open Scope Z_scope.

Definition kept (db db' : DB) : Prop := same_rows db db' /\ log_tables db' = log_tables db.

(** The transaction wrote nothing, or only the sleep credit on these tables. *)
Definition spared (at_ : instant) (db db' : DB) : Prop := db' = db \/ kept (withLeaseSleepGap true (at_sample at_) db).2 db'.

Lemma kept_refl db : kept db db.
Proof. done. Qed.

Lemma wf_spared at_ db db' : spared at_ db db' -> wf db -> wf db'.
Proof. intros [->|[Hr _]] H; [done|]. eapply wf_rows; [exact Hr|]. by apply wf_sleep_gap. Qed.

Section Nodes.
Context (lower_table : Z -> Z).

Lemma kept_refresh {R} nodeID now db0 db (K : result ErrorCode R -> DB -> Prop) :
  kept db0 db -> post (refreshPrimaryGenerationObservation lower_table nodeID now) (fun _ => kept db0) K db.
Proof. intros H. unfold refreshPrimaryGenerationObservation. wp; exact H. Qed.

Lemma kept_validate {R} nodeID capabilities db (K : result ErrorCode R -> DB -> Prop) Q :
  Q tt db -> post (validateGenerationProtocolObservation lower_table nodeID capabilities) Q K db.
Proof. intros H. unfold validateGenerationProtocolObservation. wp; exact H. Qed.

Lemma kept_upsert row db0 db : kept db0 db -> kept db0 (upsert_primary row db).
Proof. intros H. unfold upsert_primary. by destruct (generation_row _ _ _). Qed.

Lemma kept_record {R} registration now db0 db (K : result ErrorCode R -> DB -> Prop) :
  kept db0 db -> post (recordPrimaryGeneration lower_table registration now) (fun _ => kept db0) K db.
Proof.
  intros H. unfold recordPrimaryGeneration. wp; try exact H.
  all: match goal with |- context [upsert_primary ?r ?d] => assert (Hu := kept_upsert r db0 d H) end.
  all: match goal with |- kept _ (match ?c with _ => _ end) => destruct c end; exact Hu.
Qed.

Lemma spared_registerNode at_ identity registration policy expected admission db :
  spared at_ db (run (registerNode lower_table at_ identity registration policy expected admission) db).1.
Proof.
  apply post_run; [by left|]. unfold registerNode, spared. set (db1 := (withLeaseSleepGap true (at_sample at_) db).2).
  apply ends_bind, ends_lift; [intros [[reg incoming] legacy] _|done]. cbv zeta iota beta. apply ends_bind, ends_begin. fold db1.
  apply (ends_seq (fun _ db' => db' = db1)); [unfold guardGenerationRegistration; by wp|]. intros _ ? ->.
  apply ends_bind. match goal with |- ends (reads ?f) ?Q _ _ ?s => change (Q (f s) s) end. cbv beta.
  apply (ends_seq (fun _ => kept db1)); [destruct (db_nodes db1 !! _); by wp|]. intros [[change policy'] claims] db2 H2. cbv iota beta.
  apply (ends_seq (fun _ => kept db1)); [destruct (db_nodes db1 !! _); by wp|]. intros _ db3 H3.
  apply (ends_seq (fun _ => kept db1)); [by wp|]. intros _ db4 H4.
  apply (ends_seq (fun _ => kept db1)); [destruct (registration_condition _ _ _ _) as [[[? ?] ?]|]; by wp|]. intros _ db5 H5.
  apply (ends_seq (fun _ => kept db1)); [destruct (bool_decide _); wp; [done | by apply kept_validate]|]. intros _ db6 H6.
  apply (ends_seq (fun _ => kept db1)); [by apply kept_record|]. intros _ db7 H7.
  apply (ends_seq (fun _ => kept db1)); [by apply kept_refresh|]. intros _ db8 H8. wp. by right.
Qed.

Lemma spared_heartbeatNode at_ identity nodeID boot observation policy refresh db :
  spared at_ db (run (heartbeatNode lower_table at_ identity nodeID boot observation policy refresh) db).1.
Proof.
  apply post_run; [by left|]. unfold heartbeatNode, spared. set (db1 := (withLeaseSleepGap true (at_sample at_) db).2).
  apply ends_bind, ends_check; [intros _|done]. apply ends_bind, ends_begin. fold db1.
  apply ends_bind, ends_need; [intros n Hn|done]. apply (ends_seq (fun _ db' => db' = db1)); [by wp|]. intros _ ? ->. cbv zeta.
  apply (ends_seq (fun _ db' => db' = db1)); [destruct observation; by wp|]. intros observed ? ->.
  apply (ends_seq (fun _ db' => db' = db1)); [destruct observed as [[incoming []]|]; wp; by try apply kept_validate|]. intros _ ? ->.
  apply (ends_seq (fun _ => kept db1)); [by wp|]. intros _ db2 H2.
  apply (ends_seq (fun _ => kept db1)); [destruct (if refresh then _ else _); by wp|]. intros _ db3 H3.
  apply (ends_seq (fun _ => kept db1)); [destruct (bool_decide _); by wp|]. intros _ db4 H4.
  apply (ends_seq (fun _ => kept db1)); [destruct observed as [[incoming []]|]; by wp|]. intros _ db5 H5.
  apply (ends_seq (fun _ => kept db1)); [by apply kept_refresh|]. intros _ db6 H6. wp. by right.
Qed.

Lemma spared_StageNodeGeneration at_ identity registration db :
  spared at_ db (run (StageNodeGeneration lower_table at_ identity registration) db).1.
Proof.
  apply post_run; [by left|]. unfold StageNodeGeneration, spared, requireGenerationIdentity. cbv zeta.
  apply ends_bind, ends_check; [intros _|done]. apply ends_bind, ends_check; [intros _|done].
  apply ends_bind, ends_lift; [intros incoming _|done]. apply ends_bind, ends_lift; [intros protocols _|done].
  apply ends_bind, ends_check; [intros _|done]. apply ends_bind, ends_begin. wp; by right.
Qed.

Lemma kept_residents nodeID generation residents db0 db (K : result ErrorCode NodeGenerationInventory -> DB -> Prop) :
  kept db0 db -> post (insert_residents nodeID generation residents) (fun _ => kept db0) K db.
Proof. revert db. induction residents as [|r residents IH]; intros db H; simpl; wp; [exact H|]. by apply IH. Qed.

Lemma kept_survivors nodeID systemBoot l db0 db (K : result ErrorCode NodeGenerationInventory -> DB -> Prop) :
  kept db0 db -> post (bind_survivors nodeID systemBoot l) (fun _ => kept db0) K db.
Proof. revert db. induction l as [|e l IH]; intros db H; simpl; wp; [exact H| |]; by apply IH. Qed.

Lemma spared_PromoteNodeGeneration at_ identity nodeID request db :
  spared at_ db (run (PromoteNodeGeneration lower_table at_ identity nodeID request) db).1.
Proof.
  apply post_run; [by left|]. unfold PromoteNodeGeneration, spared. set (db1 := (withLeaseSleepGap true (at_sample at_) db).2). cbv zeta.
  apply ends_bind, ends_check; [intros _|done]. apply ends_bind, ends_begin. fold db1.
  unfold requireGenerationIdentity, replay_operation. wp.
  all: eapply ends_mono; [..|by apply (kept_residents _ _ _ db1)]; [|intros ? ? Hk; exact Hk|done]; cbv beta; intros _ db2 Hkept.
  all: unfold finish_operation; wp; try (by right).
  eapply ends_mono; [..|by apply (kept_survivors _ _ _ db1)]; [|intros ? ? Hk; exact Hk|done]; cbv beta; intros _ db3 Hkept3. wp. by right.
Qed.

Lemma spared_HeartbeatRetiring at_ identity nodeID generation boot db :
  spared at_ db (run (HeartbeatRetiringNodeGeneration at_ identity nodeID generation boot) db).1.
Proof.
  apply post_run; [by left|]. unfold HeartbeatRetiringNodeGeneration, requireGenerationIdentity. apply ends_bind, ends_begin. wp. by right.
Qed.

Lemma spared_abort at_ identity nodeID generation request abort db :
  spared at_ db (run (abortStagedGeneration at_ identity nodeID generation request abort) db).1.
Proof.
  apply post_run; [by left|]. unfold abortStagedGeneration, requireGenerationIdentity, replay_operation, finish_operation.
  apply ends_bind, ends_check; [intros _|done]. apply ends_bind, ends_begin. wp; by right.
Qed.

Lemma spared_CloseNodeGeneration at_ identity nodeID generation request db :
  spared at_ db (run (CloseNodeGeneration at_ identity nodeID generation request) db).1.
Proof.
  unfold CloseNodeGeneration. destruct (cg_Abort request); [apply spared_abort|]. apply post_run; [by left|].
  unfold requireGenerationIdentity. apply ends_bind, ends_begin. wp; by right.
Qed.

Lemma spared_DeEnroll at_ identity nodeID r db : spared at_ db (run (DeEnrollNodeGeneration at_ identity nodeID r) db).1.
Proof.
  apply post_run; [by left|]. unfold DeEnrollNodeGeneration, requireGenerationIdentity, replay_operation, finish_operation.
  apply ends_bind, ends_check; [intros _|done]. apply ends_bind, ends_begin. wp; by right.
Qed.
End Nodes.
