(* ===== verification/SessionFrame.v ===== *)
(** * The other transactions leave node sessions alone

    No transaction on jobs, attempts, services or logs changes the session of a
    node, its generations, their residents or the ledger of their operations. *)
From S2P Require Import Prelude Order States Contract GoStrings JobSpec L1Types NodeTypes RestartPolicy Database.
From S2P Require Import LeaseClock Authority Credentials Summaries LogRetention Lifecycle Logs Completion Placement Claim.
From S2P Require Import ServiceOperator Submit Reconcile Invariant Preservation LogPreservation NodeSessions SessionInvariant.
#[local] Open Scope string_scope.
#[local] Open Scope list_scope.
#[local] Open Scope Z_scope.

(** What a node row says of the node itself: its session, the identity it is bound
    to and the capabilities it was observed with. *)
Definition observed (n : NodeRow) : Z * gmap string bool * list string * string :=
  (n_capability_revision n, n_capabilities n, n_missing_capabilities n, n_capability_reason_code n).
Definition facts (n : NodeRow) := (session n, n_identity_node_id n, observed n).

(** The tables of sessions, as one value. *)
Definition session_tables (db : DB) :=
  (facts <$> db_nodes db, db_generations db, db_residents db, db_generation_catalog db, db_generation_operations db).
Definition stays (db0 db : DB) : Prop := session_tables db = session_tables db0.

Lemma node_sessions_facts db : node_sessions db = (fun f => f.1.1) <$> (facts <$> db_nodes db).
Proof. unfold node_sessions. rewrite <- map_fmap_compose. by apply map_fmap_ext. Qed.

Lemma stays_same db0 db : stays db0 db -> same_sessions db0 db.
Proof. intros [= E ? ? ? ?]. split; try done. by rewrite !node_sessions_facts, E. Qed.

Lemma stays_keep db0 db db' : session_tables db' = session_tables db -> stays db0 db -> stays db0 db'.
Proof. unfold stays. congruence. Qed.

Lemma begin_tables at_ db : session_tables (withLeaseSleepGap true (at_sample at_) db).2 = session_tables db.
Proof.
  destruct (sleep_gap_rows true (at_sample at_) db) as (f & h & _ & Hn & _ & Hh).
  destruct (sleep_gap_frame true (at_sample at_) db) as (attempts & nodes & clock & E). rewrite E in *. simpl in Hn. subst nodes.
  unfold session_tables. simpl. rewrite <- map_fmap_compose. do 4 f_equal. apply map_fmap_ext. intros k n _. simpl.
  destruct (Hh n) as [s ->]. done.
Qed.

Lemma stays_begin {R} db0 at_ (Q : attemptClock -> DB -> Prop) (K : result ErrorCode R -> DB -> Prop) db :
  stays db0 db -> (forall clock db', stays db0 db' -> Q clock db') -> post (beginWriteTransaction at_) Q K db.
Proof. intros H HQ. apply ends_begin, HQ. apply (stays_keep _ db); [apply begin_tables | done]. Qed.

Lemma stays_node db0 id f db : (forall n, facts (f n) = facts n) -> stays db0 db -> stays db0 (exec_node id f db).
Proof.
  intros Hf. apply stays_keep. unfold session_tables, exec_node. simpl. do 4 f_equal. apply map_eq. intros k. rewrite !lookup_fmap.
  destruct (decide (k = id)) as [->|N]; [rewrite lookup_alter_eq | by rewrite lookup_alter_ne].
  destruct (db_nodes db !! id); simpl; [by rewrite Hf | done].
Qed.

Lemma exec_job_state_sessions id f db : session_tables (exec_job_state id f db) = session_tables db.
Proof. unfold exec_job_state. by repeat case_match. Qed.
Lemma promote_sessions now id db : session_tables (promoteExecution now id db) = session_tables db.
Proof. unfold promoteExecution. repeat case_match; try done. by rewrite exec_job_state_sessions. Qed.
Lemma health_sessions clock now id cause db : session_tables (establishHealth clock now id cause db) = session_tables db.
Proof. unfold establishHealth. by repeat case_match. Qed.
Lemma recover_sessions jitter now att reason db : session_tables (recoverOneshot jitter now att reason db).2 = session_tables db.
Proof. unfold recoverOneshot. by repeat case_match. Qed.

Lemma settle_sessions jitter now att j db : session_tables (settle_expired jitter now att j db) = session_tables db.
Proof.
  unfold settle_expired. assert (Hr := recover_sessions jitter now att InterruptionLeaseExpired db).
  destruct (recoverOneshot jitter now att InterruptionLeaseExpired db) as [st1 db1]. simpl in Hr.
  match goal with |- context [let '(_, _) := ?c in _] => set (chosen := c) end.
  assert (Hc : session_tables chosen.2 = session_tables db) by (subst chosen; by case_match). destruct chosen as [st2 db2]. simpl in Hc.
  repeat case_match; simpl; rewrite <- Hc; apply (exec_job_state_sessions _ _ db2).
Qed.

Lemma expire_sessions clock jitter now att db : session_tables (expireAttempt clock jitter now att db) = session_tables db.
Proof. unfold expireAttempt. repeat case_match; try done. by rewrite settle_sessions. Qed.

Lemma prune_sessions window now jobID db : session_tables (pruneServiceAttemptSummaries window now jobID db) = session_tables db.
Proof. unfold pruneServiceAttemptSummaries, pruneListedAttemptSummaries. by repeat case_match. Qed.

Lemma chown_sessions jobID db : session_tables (clear_chown jobID db) = session_tables db.
Proof. unfold clear_chown. by repeat case_match. Qed.

Lemma spawn_sessions jobID nodeID r resource db : session_tables (record_spawn_failures jobID nodeID r resource db) = session_tables db.
Proof. unfold record_spawn_failures, recordPublishedPortOccupied. by repeat case_match. Qed.

Lemma computer_sessions now att request computerID db : session_tables (settle_computer now att request computerID db) = session_tables db.
Proof. unfold settle_computer, recordOwedComputerRevocation. by repeat case_match. Qed.

Lemma prestart_sessions now db : session_tables (fail_prestart_gaps now db) = session_tables db.
Proof.
  unfold fail_prestart_gaps. generalize (map fst (List.filter (fun r => prestart_gap db now r.1 r.2) (map_to_list (db_jobs db)))).
  intros ids. revert db. induction ids as [|id ids IH]; intros db; simpl; [done|]. rewrite IH. apply exec_job_state_sessions.
Qed.

(** [stay] closes the goals [wp] leaves when a handler is followed by [stays]. *)
Ltac stay :=
  repeat first
    [ assumption
    | apply stays_node; [intros ?; cbv beta; by repeat case_match|]
    | match goal with |- stays ?d0 (?f ?d) => first
        [ apply (stays_keep d0 d); [first [reflexivity | apply expire_sessions | apply promote_sessions | apply health_sessions
            | apply prune_sessions | apply exec_job_state_sessions | apply chown_sessions | apply spawn_sessions
            | apply computer_sessions | apply prestart_sessions]|] ] end
    | match goal with H : stays ?d0 ?d |- stays ?d0 _ => by apply (stays_keep d0 d) end ].

#[local] Ltac wp_extra ::=
  lazymatch goal with
  | |- ends (beginWriteTransaction _) _ _ _ _ => apply (stays_begin _ _ _ _ _ ltac:(eassumption)); intros ? ? ?
  | |- ends (readAttemptAuthority _) _ _ _ _ => unfold readAttemptAuthority
  | |- ends (read_job _) _ _ _ _ => unfold read_job
  | |- ends (read_cancellation _) _ _ _ _ => unfold read_cancellation
  | |- ends (expire_and_refuse _ _ _ _) _ _ _ _ => unfold expire_and_refuse
  end.

Lemma stays_run {R} (m : tx DB ErrorCode R R) db :
  (stays db db -> post m (fun _ => stays db) (fun _ => stays db) db) -> stays db (run m db).1.
Proof. intros H. apply post_run; [reflexivity|]. apply H. reflexivity. Qed.

Section Attempts.
Context (cfg : config).

Lemma stays_RenewLease at_ identity jobID attemptID token db : stays db (run (RenewLease cfg at_ identity jobID attemptID token) db).1.
Proof. apply stays_run. intros H. unfold RenewLease. wp; stay. Qed.

Lemma stays_ObserveAttemptImage at_ identity jobID attemptID request db :
  stays db (run (ObserveAttemptImage cfg at_ identity jobID attemptID request) db).1.
Proof. apply stays_run. intros H. unfold ObserveAttemptImage. wp; stay. Qed.

Lemma stays_StartAttempt at_ identity jobID attemptID token db : stays db (run (StartAttempt cfg at_ identity jobID attemptID token) db).1.
Proof. apply stays_run. intros H. unfold StartAttempt. wp; stay. Qed.

Lemma stays_SetAttemptPublication at_ identity jobID attemptID request db :
  stays db (run (SetAttemptPublication cfg at_ identity jobID attemptID request) db).1.
Proof. apply stays_run. intros H. unfold SetAttemptPublication. wp; stay. Qed.

Lemma stays_InterruptRestartableAttempt at_ nodeID attemptID request db :
  stays db (run (InterruptRestartableAttempt cfg at_ nodeID attemptID request) db).1.
Proof. apply stays_run. intros H. unfold InterruptRestartableAttempt. wp; stay. Qed.

Lemma stays_CancelJob at_ jobID caller db : stays db (run (CancelJob at_ jobID caller) db).1.
Proof. apply stays_run. intros H. unfold CancelJob. wp; stay. Qed.

Lemma stays_verdict {R} now att request canceled job service resource (K : result ErrorCode R -> DB -> Prop) db0 db :
  stays db0 db -> post (completion_verdict cfg now att request canceled job service resource) (fun _ => stays db0) K db.
Proof.
  intros H.
  assert (Hr : forall reason, post (recover cfg now att reason) (fun _ => stays db0) K db).
  { intros reason. unfold ends, recover. assert (Hr := recover_sessions (cfg_restartJitter cfg) now att reason db).
    destruct (recoverOneshot _ _ _ _ _). by apply (stays_keep _ db). }
  unfold completion_verdict. wp; try done; (eapply ends_mono; [| | |apply Hr]; [|done..]); intros ? ? ?; wp; done.
Qed.

Lemma stays_complete_active now att request canceled db0 db :
  stays db0 db -> post (complete_active cfg now att request canceled) (fun _ => stays db0) (fun _ => stays db0) db.
Proof.
  intros H. unfold complete_active. wp. eapply ends_mono; [| |done|by apply (stays_verdict _ _ _ _ _ _ _ (fun _ => stays db0))]; [|done].
  intros [[[js ast] reason] policy] db1 H1. apply (ends_seq (fun _ => stays db0)); [wp; stay|].
  intros js' db2 H2. apply (ends_seq (fun _ => stays db0)); [wp; stay|].
  intros _ db3 H3. apply (ends_seq (fun _ => stays db0)); [wp; stay|].
  intros _ db4 H4. apply (ends_seq (fun _ => stays db0)); [wp; stay|].
  intros _ db5 H5. apply (ends_seq (fun _ => stays db0)); [wp; stay|].
  intros _ db6 H6. apply (ends_seq (fun _ => stays db0)); [wp; stay|].
  intros _ db7 H7. wp; stay.
Qed.

Lemma stays_CompleteAttemptOutcome at_ identity jobID attemptID request db :
  stays db (run (CompleteAttemptOutcome cfg at_ identity jobID attemptID request) db).1.
Proof.
  apply stays_run. intros H. unfold CompleteAttemptOutcome. wp; unfold record_late_result; stay; apply stays_complete_active; stay.
Qed.

(** ** Claims *)
Lemma stays_frame {R A} (m : tx DB ErrorCode R A) (K : result ErrorCode R -> DB -> Prop) db0 db :
  (forall db, match m db with Next _ db' => session_tables db' = session_tables db | Return _ _ => False | Abort _ => True end) ->
  stays db0 db -> post m (fun _ => stays db0) K db.
Proof. intros Hm H. unfold ends. specialize (Hm db). destruct (m db); [|done..]. by apply (stays_keep _ db). Qed.

Lemma bind_row_sessions {V} (get : DB -> gmap string V) set id p f db :
  (forall m db, session_tables (set m db) = session_tables db) ->
  match bind_row get set id p f db with
  | Next _ db' => session_tables db' = session_tables db | Return _ _ => False | Abort _ => True end.
Proof. intros Hs. unfold bind_row. destruct (get db !! id) as [v|]; [|done]. destruct (p v); [apply Hs | done]. Qed.

Lemma stays_bind_service (K : result ErrorCode (option Claim * bool) -> DB -> Prop) nodeID jobID now db0 db :
  stays db0 db -> post (bind_service nodeID jobID now) (fun _ => stays db0) K db.
Proof.
  intros H. unfold bind_service. apply (ends_seq (fun _ => stays db0)).
  { by apply stays_frame; [intros; apply bind_row_sessions|]. }
  intros _ db1 H1. apply ends_bind. unfold ends at 1, reads at 1. destruct (db_projections db1 !! jobID); [|done].
  apply (ends_seq (fun _ => stays db0)); [by apply stays_frame; [intros; apply bind_row_sessions|]|]. intros _ db2 H2. by wp.
Qed.

Lemma stays_claim_selected clock now class nodeID boot generation attemptID token hash jobID hint db0 db :
  stays db0 db ->
  post (claim_selected cfg clock now class nodeID boot generation attemptID token hash jobID hint)
    (fun _ => stays db0) (fun _ => stays db0) db.
Proof.
  intros H. unfold claim_selected. apply (ends_seq (fun _ => stays db0)); [wp; stay|].
  intros _ db1 H1. apply ends_bind. unfold read_job at 1. apply ends_need; [intros job Hjob | done].
  apply (ends_seq (fun _ => stays db0)); [wp; stay|].
  intros _ db2 H2. apply ends_bind, ends_lift; [intros spec _ | done].
  apply ends_bind. unfold ends at 1, reads at 1. apply (ends_seq (fun _ => stays db0)).
  { apply stays_frame; [|done]. intros d. unfold insert_attempt. by destruct (db_attempts d !! attemptID). }
  intros _ db3 H3. apply (ends_seq (fun _ => stays db0)).
  { apply stays_frame; [|done]. intros d. unfold insertAttemptCredential. by destruct (db_credentials d !! hash). }
  intros _ db4 H4. apply (ends_seq (fun _ => stays db0)); [case_match; [by apply stays_bind_service | by wp]|].
  intros storage db5 H5. wp; stay.
Qed.

Lemma stays_claimJob lower_table at_ identity nodeID boot class poll excluded attemptID token hash db :
  stays db (run (claimJob cfg lower_table at_ identity nodeID boot class poll excluded attemptID token hash) db).1.
Proof. apply stays_run. intros H. unfold claimJob. wp; stay; apply stays_claim_selected; stay. Qed.
End Attempts.

(** ** Operators and reconciliation *)
Lemma stays_latch at_ identity jobID nodeID boot failure db :
  stays db (run (LatchServiceImageReconciliationFailure at_ identity jobID nodeID boot failure) db).1.
Proof. apply stays_run. intros H. unfold LatchServiceImageReconciliationFailure, transitionServiceJob. wp; stay. Qed.

Lemma stays_setServiceDesiredState lower_table at_ jobID desired actor db :
  stays db (run (setServiceDesiredState lower_table at_ jobID desired actor) db).1.
Proof. apply stays_run. intros H. unfold setServiceDesiredState, transitionServiceJob. wp; stay. Qed.

Lemma stays_restartService lower_table digest at_ jobID request actor db :
  stays db (run (restartService lower_table digest at_ jobID request actor) db).1.
Proof. apply stays_run. intros H. unfold restartService, transitionServiceJob. wp; stay. Qed.

Lemma stays_DrainNode at_ identity nodeID boot db : stays db (run (DrainNode at_ identity nodeID boot) db).1.
Proof. apply stays_run. intros H. unfold DrainNode. wp; stay. Qed.

Lemma stays_setNodeIntent lower_table at_ nodeID verb actor request db :
  stays db (run (setNodeIntentByOperator lower_table at_ nodeID verb actor request) db).1.
Proof. apply stays_run. intros H. unfold setNodeIntentByOperator. wp; stay. Qed.

Lemma stays_CreateJobAs lower_table digest hashKey admission at_ spec origin jobID db :
  stays db (run (CreateJobAs lower_table digest hashKey admission at_ spec origin jobID) db).1.
Proof.
  apply stays_run. intros H. unfold CreateJobAs.
  apply ends_bind, ends_lift; [intros spec' _ | done]. apply ends_bind, ends_lift; [intros a _ | done].
  apply ends_bind, ends_check; [intros _ | done]. apply ends_bind, (stays_begin db); [done|]. intros clock db0 H0.
  do 4 (apply (ends_seq (fun _ => stays db)); [unfold replay_submission; by wp | clear db0 H0; intros _ db0 H0]).
  apply ends_bind. unfold ends at 1, reads at 1. apply ends_bind, ends_lift; [intros _ _ | done].
  apply ends_bind, ends_check; [intros _ | done]. apply ends_bind, ends_insert; [intros _ | done].
  wp. apply (stays_keep _ db0); [|done]. unfold initialize_service. by repeat case_match.
Qed.

Lemma interrupt_sessions seen db : session_tables (interruptServiceStability seen db).1 = session_tables db.
Proof.
  unfold interruptServiceStability. destruct seen as [seen|]; [|done]. simpl.
  generalize ((List.filter (fun p => node_to_visit seen p.1 p.2) (map_to_list (readNodeLivenessKeys db))).*1).
  intros ids. revert db. induction ids as [|id ids IH]; intros db; simpl; [done|].
  by rewrite (IH (interruptNodeServiceStability id db)).
Qed.

Lemma mark_sessions p state now db : session_tables (mark_nodes p state now db) = session_tables db.
Proof.
  unfold session_tables, mark_nodes. simpl. do 4 f_equal. rewrite <- map_fmap_compose. apply map_fmap_ext.
  intros k n _. simpl. by case_match.
Qed.

Lemma stays_expire_all {R} cfg clock now ids (K : result ErrorCode R -> DB -> Prop) db0 db :
  stays db0 db -> post (expire_all cfg clock now ids) (fun _ => stays db0) K db.
Proof. revert db. induction ids as [|id ids IH]; intros db H; simpl; wp; [exact H|]. apply IH. stay. Qed.

Lemma stays_reconcile cfg at_ seen db : stays db (run (reconcile_leases cfg at_ seen) db).1.
Proof.
  apply stays_run. intros H. unfold reconcile_leases. apply ends_bind, (stays_begin db); [done|]. intros clock db1 H1.
  wp. unfold ends at 1. match goal with |- context [interruptServiceStability seen ?d] =>
    assert (E := interrupt_sessions seen d); destruct (interruptServiceStability seen d) as [db3 keys] end.
  simpl in E. wp. eapply ends_mono; [..|apply (stays_expire_all _ _ _ _ (fun _ => stays db) db)];
    [intros ? ? Hw; wp; exact Hw | done | done|].
  apply (stays_keep _ db1); [|done]. change (session_tables db3 = session_tables db1). rewrite E. unfold mark_stale.
  rewrite mark_sessions. apply (mark_sessions _ NodeDead (at_now at_) db1).
Qed.

(** ** Logs *)
Definition same_session_tables (db db' : DB) : Prop := session_tables db' = session_tables db.
#[export] Instance same_session_tables_preorder : PreOrder same_session_tables.
Proof. split; [done|]. intros a b c ? ?. unfold same_session_tables in *. congruence. Qed.

Lemma delete_log_sessions ordinal db : same_session_tables db (delete_log_row ordinal db).
Proof.
  unfold delete_log_row. set (gone := List.filter _ _).
  induction gone as [|g gone IH] using rev_ind; [done|]. rewrite fold_left_app. exact IH.
Qed.

Lemma evict_row_sessions c e : same_session_tables (ev_db e) (ev_db (evict_row c e).2).
Proof.
  unfold evict_row, deleteLogEvent. assert (H := delete_log_sessions (l_ordinal c) (ev_db e)).
  repeat (case_match; simplify_eq/=); done.
Qed.

Lemma evict_batch_sessions target l d e : same_session_tables (ev_db e) (ev_db (evict_batch target l d e).2).
Proof.
  revert d e. induction l as [|c l IH]; intros d e; simpl; [done|]. destruct (eviction_done target e); [done|].
  destruct (_ <? _); [done|]. assert (H := evict_row_sessions c e). destruct (evict_row c e) as [gone e1]. simpl in H.
  etrans; [exact H|apply IH].
Qed.

Lemma evict_rounds_sessions fuel jobID target e : same_session_tables (ev_db e) (ev_db (evict_rounds fuel jobID target e)).
Proof.
  revert e. induction fuel as [|fuel IH]; intros e; simpl; [done|]. destruct (eviction_done target e); [done|].
  set (l := logEvictionCandidates _ _ _). assert (H := evict_batch_sessions target l 0 e).
  destruct (evict_batch target l 0 e) as [[returned d] e1]. simpl in H. repeat case_match; try exact H.
  etrans; [exact H|apply IH].
Qed.

Lemma evict_record_sessions jobID budget target bound now db :
  let e := evictLogEvents jobID budget target db in
  same_session_tables db (recordLogTruncations (ev_perJob e) bound now (ev_db e)).2.
Proof.
  simpl. etrans; [exact (evict_rounds_sessions (S (length (db_log_events db))) jobID target (mkeviction budget 0 ∅ db))|].
  unfold recordLogTruncations. match goal with |- context [fold_left ?f ?l _] =>
    enough (G : forall total d, same_session_tables d (fold_left f l (total, d)).2) by apply G end.
  induction (sort_by _ _) as [|id ids IH]; intros total d; simpl; [done|]. etrans; [|apply IH].
  unfold recordLogTruncation. by case_match.
Qed.

Lemma cap_sessions bounds jobID now budget db : same_session_tables db (enforceJobLogByteRetention bounds jobID now budget db).2.
Proof.
  unfold enforceJobLogByteRetention. cbv zeta. destruct (_ <=? _); [done|].
  match goal with |- context [evictLogEvents _ _ ?t _] => assert (H := evict_record_sessions jobID budget t LogRetentionBytes now db) end.
  simpl in H. by destruct (recordLogTruncations _ _ _ _).
Qed.

Lemma ceiling_sessions bounds now budget db : same_session_tables db (enforceLogRetentionTotal bounds now budget db).2.
Proof.
  unfold enforceLogRetentionTotal. cbv zeta. destruct (_ <=? _); [done|].
  assert (H := evict_record_sessions "" budget (db_log_usage_total db - lb_totalBytes bounds) LogRetentionTotal now db).
  simpl in H. by destruct (recordLogTruncations _ _ _ _).
Qed.

Lemma store_events_sessions {R} jobID attemptID events (K : result ErrorCode R -> DB -> Prop) db0 db :
  stays db0 db -> post (store_events jobID attemptID events) (fun _ => stays db0) K db.
Proof. revert db. induction events as [|p events IH]; intros db H; simpl; wp; [exact H|]. unfold store_event. wp. by apply IH. Qed.

Lemma marks_sessions attemptID next db : same_session_tables db (record_marks attemptID next db).
Proof.
  unfold record_marks. apply (map_fold_weak_ind (fun db' _ => same_session_tables db db')); [done|]. by intros s n m db' _ H.
Qed.

Lemma stays_AppendLogs cfg bounds source_digest at_ identity jobID attemptID request db :
  stays db (run (AppendLogs cfg bounds source_digest at_ identity jobID attemptID request) db).1.
Proof.
  apply stays_run. intros Hr. unfold AppendLogs. apply (ends_seq (fun _ => stays db)); [unfold admit_upload; wp; stay|].
  intros ad db0 H. wp; [done|]. unfold append_batch. wp.
  eapply ends_mono; [| |done|by apply (store_events_sessions _ _ _ (fun _ => stays db) db)]; [|done].
  intros u db1 Hs. apply (stays_keep _ _ _ (marks_sessions attemptID (bt_next a) db1)) in Hs.
  wp; (eapply stays_keep; [apply prune_sessions|]); (eapply stays_keep; [apply cap_sessions|]); stay.
Qed.
