(* ===== verification/CompletionReplay.v ===== *)
(** * Completion is settled once

    What an accepted completion leaves in the store, and that no later
    completion of the attempt changes it: [CompleteAttemptOutcome] of
    [l1/store.go] answers an identical retry from the record and refuses
    anything else. *)
From S2P Require Import Prelude Order States Contract GoStrings JobSpec L1Types RestartPolicy Database.
From S2P Require Import LeaseClock Authority Credentials Summaries Lifecycle Completion Preservation.
#[local] Open Scope string_scope.
#[local] Open Scope list_scope.
#[local] Open Scope Z_scope.

(** The columns of an attempt that a completion is checked against. *)
Definition evidence (a : AttemptRow) : string * string * string * option Z :=
  (a_job_id a, a_node_id a, a_fencing_token a, a_started_ns a).

(** What the statements of a completion keep of the rows it was checked
    against; [record] and [binding] say what they have established so far. *)
Definition kept (att : attemptAuthority) (record : AttemptRow -> Prop) (binding : JobRow -> Prop) (db : DB) : Prop :=
  (forall a, db_attempts db !! aa_attemptID att = Some a ->
     evidence a = (aa_jobID att, aa_nodeID att, aa_fencingToken att, aa_startedNS att) /\ record a)
  /\ (exists j, db_jobs db !! aa_jobID att = Some j /\ js_Kind (j_spec j) = js_Kind (aa_spec att) /\ binding j)
  /\ (exists n, db_nodes db !! aa_nodeID att = Some n /\ n_identity_node_id n = aa_identityNodeID att)
  /\ aa_jobID att ∉ db_service_removals db.

Section Kept.
Context (att : attemptAuthority) (record : AttemptRow -> Prop) (binding : JobRow -> Prop).

Lemma kept_same db db' :
  db_attempts db' = db_attempts db -> db_jobs db' = db_jobs db -> db_nodes db' = db_nodes db ->
  db_service_removals db' = db_service_removals db -> kept att record binding db -> kept att record binding db'.
Proof. intros HA HJ HN HR. unfold kept. by rewrite HA, HJ, HN, HR. Qed.

Lemma kept_attempt (record' : AttemptRow -> Prop) f db :
  (forall a, evidence (f a) = evidence a) -> (forall a, record a -> record' (f a)) ->
  kept att record binding db -> kept att record' binding (exec_attempt (aa_attemptID att) f db).
Proof.
  intros Hf Hr (HA & HJ & HN & HR). split; [|done]. intros a. simpl. rewrite lookup_alter_eq.
  destruct (db_attempts db !! _) as [b|]; [|done]. intros [= <-]. destruct (HA b eq_refl) as [He Hb].
  rewrite Hf. auto.
Qed.

Lemma kept_job (binding' : JobRow -> Prop) jobID f db :
  (forall j, js_Kind (j_spec (f j)) = js_Kind (j_spec j)) -> (forall j, binding j -> binding' (f j)) ->
  (forall j, binding j -> binding' j) ->
  kept att record binding db -> kept att record binding' (exec_job jobID f db).
Proof.
  intros Hk Hb Hi (HA & (j & Hj & Ej & Bj) & HN & HR). split; [done|]. split; [|done]. simpl.
  destruct (decide (jobID = aa_jobID att)) as [->|N].
  - exists (f j). rewrite lookup_alter_eq, Hj. rewrite Hk. auto.
  - exists j. rewrite lookup_alter_ne by done. auto.
Qed.

Lemma kept_job_state jobID f db :
  (forall j, js_Kind (j_spec (f j)) = js_Kind (j_spec j)) -> (forall j, binding j -> binding (f j)) ->
  (forall j, binding j -> binding (scrub_row j)) ->
  kept att record binding db -> kept att record binding (exec_job_state jobID f db).
Proof.
  intros Hk Hb Hs (HA & (j & Hj & Ej & Bj) & HN & HR). unfold exec_job_state.
  destruct (db_jobs db !! jobID) as [i|] eqn:Hi; [|split; eauto 6].
  assert (kept att record binding (db <| db_jobs := <[jobID := scrub_row (f i)]> (db_jobs db) |>)).
  { split; [done|]. split; [|done]. simpl. destruct (decide (jobID = aa_jobID att)) as [->|N].
    - simplify_eq. exists (scrub_row (f j)). rewrite lookup_insert_eq. split_and!; auto.
      rewrite <- Ej, <- (Hk j). unfold scrub_row. by case_match.
    - exists j. rewrite lookup_insert_ne by done. auto. }
  by case_match.
Qed.
End Kept.

Section Replay.
Context (cfg : config).

(** An abort of a completion is a refusal. *)
Definition refusal {R} (r : result ErrorCode R) : Prop := match r with Ok _ => False | Err _ => True end.

(** A verdict: the attempt ended, and not by losing its lease. *)
Definition ended (s : AttemptState) : Prop := active_attempt s = false /\ s <> AttemptLost.

Lemma classify_ended lease jitter job request failure now started restart :
  ended (scp_attemptState (classifyServiceCompletion lease jitter job request failure now started restart)).
Proof.
  assert (E : ended (completionStatesAttempt (cr_Result request)))
    by (unfold completionStatesAttempt; by case_match).
  unfold classifyServiceCompletion. repeat case_match; exact E.
Qed.

Lemma completionStates_ended r js ast : completionStates r = (js, ast) -> ended ast.
Proof. unfold completionStates. case_match; by intros [= <- <-]. Qed.

(** The record of the completion, and where the job keeps it for a replay. *)
Definition settled (request : CompletionRequest) (a : AttemptRow) : Prop :=
  ended (a_state a) /\ a_completion_key a = Some (cr_IdempotencyKey request)
  /\ a_completion_hash a = Some (cfg_completion_digest cfg request).

Definition replayable (id : string) (j : JobRow) : Prop :=
  j_current_attempt_id j = Some id
  \/ (j_current_attempt_id j = None /\ j_completion_replay_attempt_id j = Some id).

Lemma replayable_scrub id j : replayable id j -> replayable id (scrub_row j).
Proof. unfold scrub_row. by case_match. Qed.

Section Steps.
Context (att : attemptAuthority).

Abbreviation current j := (j_current_attempt_id j = Some (aa_attemptID att)).
Abbreviation anything := (fun _ : AttemptRow => True).

Lemma kept_verdict {R} now request canceled job service resource Q (K : result ErrorCode R -> DB -> Prop) db :
  kept att anything (fun j => current j) db ->
  (forall js ast reason policy db', kept att anything (fun j => current j) db' -> ended ast ->
     Q (js, ast, reason, policy) db') ->
  ends (completion_verdict cfg now att request canceled job service resource) Q K refusal db.
Proof.
  intros H HQ.
  assert (Hr : forall reason (Q' : JobState * AttemptState -> DB -> Prop),
    (forall st db', kept att anything (fun j => current j) db' -> Q' (st, AttemptInterrupted) db') ->
    ends (recover cfg now att reason) Q' K refusal db).
  { intros reason Q' HQ'. unfold ends, recover.
    destruct (recoverOneshot _ _ _ _ _) as [st db'] eqn:E. apply HQ'. unfold recoverOneshot in E.
    repeat case_match; simplify_eq; by apply (kept_job _ _ (fun j => current j)). }
  unfold completion_verdict. wp; try (apply Hr; intros; wp); simplify_eq; apply HQ;
    eauto using classify_ended, completionStates_ended; done.
Qed.

Lemma kept_promote record now db :
  kept att record (fun j => current j) db ->
  kept att record (fun j => current j) (promoteExecution now (aa_attemptID att) db).
Proof.
  intros H. unfold promoteExecution. repeat case_match; try done. apply kept_job_state; try done.
  intros ?. unfold scrub_row. by case_match.
Qed.

Lemma kept_prune record binding window now jobID db :
  kept att record binding db -> kept att record binding (pruneServiceAttemptSummaries window now jobID db).
Proof.
  intros (HA & HJ & HN & HR).
  destruct (prune_cases window now jobID db) as [->|(? & ? & _ & _ & _ & ->)]; [by split|].
  split; [|done]. intros a Ha. apply HA. unfold delete_attempts in Ha. simpl in Ha.
  by apply map_lookup_filter_Some in Ha as [? _].
Qed.

(** An accepted completion is on record. *)
Lemma kept_complete now request canceled db :
  kept att anything (fun j => current j) db ->
  ends (complete_active cfg now att request canceled)
    (fun o db' => co_Replayed o = false /\ kept att (settled request) (replayable (aa_attemptID att)) db')
    (fun _ _ => False) refusal db.
Proof.
  intros H0. unfold complete_active. set (id := aa_attemptID att). set (jobID := aa_jobID att).
  set (K1 := kept att anything (fun j => current j)). set (K2 := kept att (settled request) (replayable id)).
  wp. apply kept_verdict; [done|]. intros js ast reason policy db1 H1 Hast.
  apply (ends_seq (fun _ => K1)).
  { wp; [|done]. apply (kept_job _ _ (fun j => current j)); try done; intros i;
      match goal with E : prestart_retry _ _ _ = _ |- _ => unfold prestart_retry in E; case_match; by simplify_eq end. }
  intros js' db2 H2. apply (ends_seq (fun _ => K1)).
  { wp; [|done]. apply kept_promote. by apply (kept_attempt _ anything). }
  intros _ db3 H3. apply (ends_seq (fun _ => kept att (settled request) (fun j => current j))).
  { wp. by apply (kept_attempt _ anything). }
  intros _ db4 H4. apply (ends_seq (fun _ => K2)).
  { wp.
    - apply (kept_job _ _ (fun j => current j)); try done; intros i; unfold replayable; by auto.
    - destruct H4 as (HA & (i & Hi & Ei & Bi) & HN). split; [done|]. split; [|done]. exists i. unfold replayable. auto. }
  intros _ db5 H5. apply (ends_seq (fun _ => K2)).
  { wp. apply kept_job_state; try done. intros i. apply replayable_scrub. }
  intros _ db6 H6. apply (ends_seq (fun _ => K2)).
  { wp; [|done]. by apply (kept_same _ _ _ db6). }
  intros _ db7 H7. apply (ends_seq (fun _ => K2)).
  { wp. apply (kept_same _ _ _ db7); try done; unfold record_spawn_failures, recordPublishedPortOccupied;
      by repeat case_match. }
  intros _ db8 H8. apply (ends_seq (fun _ => K2)); [wp; by apply kept_prune|].
  intros _ db9 H9. wp. split; [done|].
  match goal with |- context [settle_computer _ _ _ _ ?d] => apply (kept_same _ _ _ d); try done end;
    unfold settle_computer, recordOwedComputerRevocation; by repeat case_match.
Qed.
End Steps.

(** Once a completion is recorded, no completion changes the store. *)
Lemma recorded_completion_final at_ identity jobID attemptID request db a key :
  db_attempts db !! attemptID = Some a -> a_completion_key a = Some key ->
  (run (CompleteAttemptOutcome cfg at_ identity jobID attemptID request) db).1 = db.
Proof.
  intros Ha Hk. apply (ends_run _ (fun db' _ => db' = db)). unfold CompleteAttemptOutcome. case_match; [done|].
  apply ends_bind, ends_lift; [intros _ _ | done]. apply ends_bind, ends_lift; [intros _ _ | done].
  apply ends_bind, ends_check; [intros _ | done]. apply ends_bind, ends_begin.
  destruct (sleep_gap_rows true (at_sample at_) db) as (f & _ & EA & _ & Hf & _).
  set (begun := withLeaseSleepGap true (at_sample at_) db) in *. apply ends_bind. unfold readAttemptAuthority.
  apply ends_need; [intros att Hatt | done].
  assert (Hkey : aa_completionKey att = Some key).
  { unfold read_authority in Hatt. rewrite EA, lookup_fmap, Ha in Hatt. simpl in Hatt.
    destruct (Hf a) as (d & e & Ea). repeat case_match; simplify_eq. by rewrite Ea. }
  wp; try done; exfalso;
    match goal with
    | E : aa_completionKey (if ?b then _ else _) = None |- _ => destruct b; simpl in E; congruence
    | _ => congruence
    end.
Qed.

(** An attempt that ended has no lease left to lose. *)
Lemma ended_lease clock now att : ended (aa_state att) -> exists b, attemptLeaseExpired clock now att = Ok b.
Proof.
  intros [Hact _]. unfold attemptLeaseExpired. rewrite Hact, !andb_false_r. repeat case_match; simplify_eq; eauto.
Qed.

Lemma expire_ended clock jitter now db att a :
  db_attempts db !! aa_attemptID att = Some a -> active_attempt (a_state a) = false ->
  expireAttempt clock jitter now att db = db.
Proof. intros Ha Hact. unfold expireAttempt. by rewrite Ha, Hact. Qed.

(** The checks a completion passes before the store decides. *)
Record acceptable (identity jobID attemptID : string) (request : CompletionRequest) (att : attemptAuthority) : Prop := {
  acc_fields : bool_decide (cr_FencingToken request = "") || bool_decide (cr_IdempotencyKey request = "") = false;
  acc_result : validateProcessResult (cr_Result request) = Ok tt;
  acc_initiator : validateTerminationInitiator request = Ok tt;
  acc_quiescence : bool_decide (cr_RuntimeQuiescenceEvidence request = "")
                   || validRuntimeQuiescenceEvidence (cr_RuntimeQuiescenceEvidence request) = true;
  acc_evidence : validateAttemptEvidence identity jobID attemptID (cr_FencingToken request) att = Ok tt;
  acc_phase : validateOCICompletionPhase att (cr_Result request) = Ok tt;
  acc_attempt : aa_attemptID att = attemptID
}.

Lemma kept_read db att id :
  read_authority id db = Some att -> aa_jobID att ∉ db_service_removals db ->
  aa_attemptID att = id /\ kept att (fun _ => True) (fun j => j_current_attempt_id j = aa_currentAttempt att) db.
Proof.
  unfold read_authority. intros H Hr. destruct (db_attempts db !! id) as [a|] eqn:Ha; [|done].
  destruct (db_jobs db !! a_job_id a) as [j|] eqn:Hj, (db_nodes db !! a_node_id a) as [n|] eqn:Hn; simplify_eq.
  split; [done|]. split; simpl; [|split; [|split]]; try done.
  - intros b Hb. by simplify_eq.
  - by exists j.
  - by exists n.
Qed.

Lemma evidence_matches identity jobID attemptID token att u :
  validateAttemptEvidence identity jobID attemptID token att = Ok u ->
  aa_identityNodeID att = identity /\ aa_jobID att = jobID /\ aa_attemptID att = attemptID /\ aa_fencingToken att = token.
Proof.
  unfold validateAttemptEvidence. intros H. repeat case_match; simplify_eq;
  repeat match goal with
  | E : negb _ = false |- _ => apply negb_false_iff in E
  | E : bool_decide _ = true |- _ => apply bool_decide_eq_true in E
  | E : _ || _ = false |- _ => apply orb_false_iff in E as [? ?]
  end; done.
Qed.

Lemma complete_accepts at_ identity jobID attemptID request db db' o :
  run (CompleteAttemptOutcome cfg at_ identity jobID attemptID request) db = (db', Ok o) -> co_Replayed o = false ->
  exists att, acceptable identity jobID attemptID request att /\ kept att (settled request) (replayable attemptID) db'.
Proof.
  intros Hrun Ho.
  assert (H := ends_run (CompleteAttemptOutcome cfg at_ identity jobID attemptID request) (fun db' r =>
    match r with
    | Ok o => co_Replayed o = false -> exists att, acceptable identity jobID attemptID request att
                /\ kept att (settled request) (replayable attemptID) db'
    | Err _ => True end) db).
  rewrite Hrun in H. apply H; [|done]. clear db' o Hrun Ho H.
  unfold CompleteAttemptOutcome. case_match eqn:Hfields; [done|].
  apply ends_bind, ends_lift; [intros [] Hresult | done]. apply ends_bind, ends_lift; [intros [] Hinit | done].
  apply ends_bind, ends_check; [intros Hq | done]. apply ends_bind, ends_begin.
  generalize (withLeaseSleepGap true (at_sample at_) db). intros [clock begun]. simpl.
  apply ends_bind. unfold readAttemptAuthority. apply ends_need; [intros att Hatt | done].
  apply ends_bind. unfold ends at 1, reads at 1. apply ends_bind, ends_check; [intros Hr | done].
  apply ends_bind, ends_lift; [intros [] Hev | done]. apply ends_bind, ends_lift; [intros [] Hphase | done].
  destruct (evidence_matches _ _ _ _ _ _ Hev) as (_ & Hj & _ & _).
  apply negb_true_iff, bool_decide_eq_false in Hr. rewrite <- Hj in Hr.
  destruct (kept_read _ _ _ Hatt Hr) as [Hid Hkept].
  assert (Hacc : acceptable identity jobID attemptID request att) by by split.
  wp; try done.
  all: match goal with E : validateAttemptAuthority _ _ _ _ _ = Ok _ |- _ =>
         apply validateAttemptAuthority_current in E as (Hc & _) end.
  - exfalso. destruct (active_attempt (aa_state att)) eqn:E; [done | congruence].
  - eapply ends_mono; [..|eapply (kept_complete att)]; [| done | by intros [] |].
    + intros o d [_ Hk] _. rewrite Hid in Hk. by exists att.
    + by rewrite Hid, <- Hc.
Qed.

(** The authority a retry reads back from the record, under any clock. *)
Lemma kept_reads at_ request att db :
  kept att (settled request) (replayable (aa_attemptID att)) db -> is_Some (db_attempts db !! aa_attemptID att) ->
  exists att', read_authority (aa_attemptID att) (withLeaseSleepGap true (at_sample at_) db).2 = Some att'
    /\ (forall identity jobID attemptID token,
          validateAttemptEvidence identity jobID attemptID token att' = validateAttemptEvidence identity jobID attemptID token att)
    /\ (forall r, validateOCICompletionPhase att' r = validateOCICompletionPhase att r)
    /\ ended (aa_state att') /\ aa_completionKey att' = Some (cr_IdempotencyKey request)
    /\ aa_completionHash att' = Some (cfg_completion_digest cfg request)
    /\ validateCompletionReplayBinding (aa_attemptID att) att' = Ok tt.
Proof.
  intros (HA & (j & Hj & Ek & Bj) & (n & Hn & En) & _) [a Ha].
  destruct (HA a Ha) as [Heq (Hend & Hkey & Hhash)]. injection Heq as E1 E2 E3 E4.
  destruct (sleep_gap_rows true (at_sample at_) db) as (fa & fn & EA & EN & Hfa & Hfn).
  destruct (sleep_gap_frame true (at_sample at_) db) as (attempts & nodes & anchor & Hframe).
  set (begun := withLeaseSleepGap true (at_sample at_) db) in *.
  assert (HJ : db_jobs begun.2 = db_jobs db) by by rewrite Hframe.
  destruct (Hfa a) as (d & e & Ea). destruct (Hfn n) as (s & Es).
  exists (authority_of begun.2 (aa_attemptID att) (fa a) j (fn n)). split.
  { assert (EJ : a_job_id (fa a) = aa_jobID att) by by rewrite Ea.
    assert (EI : a_node_id (fa a) = aa_nodeID att) by by rewrite Ea.
    unfold read_authority. rewrite EA, lookup_fmap, Ha. simpl. by rewrite EJ, EI, HJ, Hj, EN, lookup_fmap, Hn. }
  unfold validateAttemptEvidence, validateOCICompletionPhase, validateCompletionReplayBinding, authority_of. simpl.
  rewrite Ea, Es. simpl. rewrite E1, E3, E4, En, Ek. split_and!; try done; try apply Hend.
  destruct (bool_decide _ && _ && _); [done|].
  destruct Bj as [-> | [-> ->]]; by rewrite bool_decide_eq_true_2.
Qed.

(** The record answers the same request again. *)
Lemma recorded_replays at_ identity jobID attemptID request att db :
  acceptable identity jobID attemptID request att -> kept att (settled request) (replayable attemptID) db ->
  is_Some (db_attempts db !! attemptID) ->
  exists job, db_jobs db !! jobID = Some job
    /\ run (CompleteAttemptOutcome cfg at_ identity jobID attemptID request) db
       = (db, Ok (mkCompletionOutcome job true (computerForJob db jobID))).
Proof.
  intros [Hf Hres Hini Hq Hev Hphase Hid] Hkept Ha. subst attemptID.
  destruct (evidence_matches _ _ _ _ _ _ Hev) as (_ & <- & _ & _).
  destruct (kept_reads at_ _ _ _ Hkept Ha) as (att' & Hread & Hev' & Hphase' & [Hact Hlost] & Hkey & Hhash & Hbind).
  destruct Hkept as (_ & (j & Hj & _) & _ & Hr). exists j. split; [done|].
  enough (Hends : ends (CompleteAttemptOutcome cfg at_ identity (aa_jobID att) (aa_attemptID att) request)
            (fun _ _ => False) (fun _ _ => False)
            (fun r => r = Ok (mkCompletionOutcome j true (computerForJob db (aa_jobID att)))) db).
  { unfold ends, run in *. destruct (CompleteAttemptOutcome _ _ _ _ _ _ _); [done.. | by subst]. }
  unfold CompleteAttemptOutcome. rewrite Hf, Hres, Hini, Hq.
  do 3 (apply ends_bind; first [apply ends_lift | apply ends_check]; [intros _ _ || intros _ | congruence]).
  apply ends_bind, ends_begin.
  destruct (sleep_gap_frame true (at_sample at_) db) as (attempts & nodes & anchor & Hframe).
  set (begun := withLeaseSleepGap true (at_sample at_) db) in *.
  assert (HJ : db_jobs begun.2 = db_jobs db) by by rewrite Hframe.
  apply ends_bind, ends_need; rewrite Hread; [intros ? [= <-] | done].
  apply ends_bind. unfold ends at 1, reads at 1. apply ends_bind, ends_check; [intros _|].
  2: { rewrite Hframe. simpl. intros E%negb_false_iff%bool_decide_eq_true. done. }
  apply ends_bind, ends_lift; [intros _ _ | rewrite Hev'; congruence].
  apply ends_bind, ends_lift; [intros _ _ | rewrite Hphase'; congruence].
  apply ends_bind. unfold read_cancellation. apply ends_need; rewrite HJ, Hj; [intros [canceled settleBy] _ | done].
  apply ends_bind, ends_lift; [intros expired _ | intros e E; by destruct (ended_lease begun.1 (at_now at_) att') as [? ?];
    [|congruence]].
  rewrite Hact, (bool_decide_eq_false_2 _ Hlost). apply (ends_seq (fun x s => x = att' /\ s = begun.2)).
  { destruct (read_authority_rows _ _ _ Hread) as (a & _ & Ha' & _ & Hid & _ & Est & _).
    wp; [|done]. split; [done|]. eapply expire_ended; [by rewrite Hid | by rewrite <- Est]. }
  intros ? ? [-> ->]. rewrite Hkey, Hhash, (bool_decide_eq_false_2 _ Hlost). simpl.
  rewrite !bool_decide_eq_true_2 by done. simpl. rewrite Hbind. apply ends_bind, ends_lift; [intros _ _ | done].
  apply ends_bind. unfold read_job. apply ends_need; rewrite HJ, Hj; [intros ? [= <-] | done].
  apply ends_bind. unfold ends, reads, answer. by rewrite Hframe.
Qed.


End Replay.

(** ** Witness *)
Definition sample_result : ProcessResult := mkProcessResult None "" None None "" (Some 0) "" "" false false false.
Definition sample_completion : CompletionRequest := mkCompletionRequest "" "" "1" "key" sample_result "" "" "".
Definition completed_db : DB :=
  (run (CompleteAttemptOutcome sample_config (sample_instant 500) "id1" "j1" "a1" sample_completion) sample_db).1.
Definition completed_job : JobRow := default (sample_job example_process_stored JobRunning None 0) (db_jobs completed_db !! "j1").

