(* ===== verification/OperatorPreservation.v ===== *)
(** * Submission, operators and reconciliation preserve the fencing invariant *)
From S2P Require Import Prelude Order States Contract GoStrings JobSpec L1Types RestartPolicy Database.
From S2P Require Import LeaseClock Authority Credentials Summaries Lifecycle Completion Placement Claim.
From S2P Require Import ServiceOperator Submit Reconcile Invariant Preservation.
#[local] Open Scope string_scope.
#[local] Open Scope list_scope.
#[local] Open Scope Z_scope.

(** ** Submission *)

(** A new job has no fence and no attempt. *)
Lemma wf_insert_job jobID j db :
  wf db -> db_jobs db !! jobID = None -> j_fence_counter j = 0 -> j_current_attempt_id j = None ->
  wf (db <| db_jobs := <[jobID := j]> (db_jobs db) |>).
Proof.
  intros H Hn Hf Hc. unfold wf. simpl.
  assert (Hkeep : forall k i, db_jobs db !! k = Some i -> <[jobID := j]> (db_jobs db) !! k = Some i).
  { intros k i Hk. rewrite lookup_insert_ne; [done|]. intros ->. congruence. }
  split.
  - intros k i [[<- <-]|[_ Hk]]%lookup_insert_Some; [lia | by eapply (fenced_counter _ _ H)].
  - intros id a Ha Hact. destruct (fenced_active _ _ H id a Ha Hact) as (i & ? & ?). exists i. eauto.
  - intros id a Ha. destruct (fenced_token _ _ H id a Ha) as (i & n & ? & ?). exists i, n. eauto.
  - intros k i id [[<- <-]|[_ Hk]]%lookup_insert_Some Hi; [congruence | by eapply (fenced_current _ _ H)].
  - apply (fenced_unique _ _ H).
Qed.

Lemma wf_initialize_service jobID spec db : wf db -> wf (initialize_service jobID spec db).
Proof. intros H. unfold initialize_service. by destruct (bool_decide _). Qed.

Lemma wf_CreateJobAs lower_table digest hash seats at_ spec origin jobID db :
  wf db -> wf (run (CreateJobAs lower_table digest hash seats at_ spec origin jobID) db).1.
Proof.
  intros H. apply post_run; [done|]. unfold CreateJobAs.
  apply ends_bind, ends_lift; [intros spec' _ | done]. apply ends_bind, ends_lift; [intros a _ | done].
  apply ends_bind, ends_check; [intros _ | done]. apply ends_bind, post_begin; [done|]. clear db H. intros clock db H.
  (* the checks read the store and leave it *)
  apply (ends_seq (fun _ => wf)); [wp; exact H|]. intros _ db1 H1.
  apply (ends_seq (fun _ => wf)); [apply ends_replay; [intros _ _; exact H1 | done]|]. intros _ db2 H2.
  apply (ends_seq (fun _ => wf)); [wp; exact H2|]. intros _ db3 H3.
  apply (ends_seq (fun _ => wf)); [wp; exact H3|]. intros _ db4 H4.
  apply (ends_seq (fun _ => wf)); [wp; exact H4|]. intros verdict db5 H5.
  apply (ends_seq (fun _ => wf)); [wp; exact H5|]. intros _ db6 H6.
  apply (ends_seq (fun _ => wf)); [wp; exact H6|]. intros _ db7 H7.
  apply ends_bind, ends_insert; [intros Hn | done].
  assert (H8 := wf_insert_job jobID (queued_job digest spec' origin a (at_now at_)) db7 H7 Hn eq_refl eq_refl).
  set (db8 := db7 <| db_jobs := _ |>) in *. clearbody db8.
  apply (ends_seq (fun _ => wf)); [wp; exact H8|]. intros admitted db9 H9.
  apply (ends_seq (fun _ => wf)); [wp; exact H9|]. intros _ db10 H10. wp.
  match goal with |- context [initialize_service ?id ?spec ?db] =>
    apply (wf_same (initialize_service id spec db)); [done | done|]; apply wf_initialize_service end.
  by apply (wf_same db10).
Qed.

(** ** Operators *)
Lemma post_transition {R} jobID desired next now (Q : unit -> DB -> Prop) (K : result ErrorCode R -> DB -> Prop) db :
  wf db -> (forall j, db_jobs db !! jobID = Some j -> busy (j_state j) = true -> busy next = true) ->
  (forall db', wf db' -> Q tt db') -> post (transitionServiceJob jobID desired next now) Q K db.
Proof.
  intros H Hb HQ. unfold transitionServiceJob. wp. apply HQ.
  apply wf_exec_job_state; [by apply wf_exec_service|]. intros i Hi. unfold settles. simpl.
  split_and!; [done | by left | left; by apply Hb].
Qed.

(** Why a decided transition never idles a job under an active attempt. *)
Lemma operator_edge db jobID job s next :
  getServiceJob db jobID = Some job -> sj_service job = Some s -> busy next = true \/ busy (sj_state job) = false ->
  forall j, db_jobs db !! jobID = Some j -> busy (j_state j) = true -> busy next = true.
Proof.
  intros Hjob Hs Hb j Hj Hj'. destruct (getServiceJob_rows _ _ _ _ Hjob Hs) as (i & Hi & _ & Hst & _).
  destruct Hb as [|Hb]; [done|]. simplify_eq. by rewrite Hst, Hj' in Hb.
Qed.

Ltac operator_transition :=
  match goal with E : sj_state _ = _ |- ends (transitionServiceJob _ _ _ _) _ _ _ _ =>
    apply post_transition; [assumption | eapply operator_edge; [eassumption | eassumption | rewrite E; by auto]|];
    intros ? ?; wp
  end.

Lemma wf_setServiceDesiredState lower_table at_ jobID desired actor db :
  wf db -> wf (run (setServiceDesiredState lower_table at_ jobID desired actor) db).1.
Proof.
  intros H. apply post_run; [done|]. unfold setServiceDesiredState. wp; try operator_transition; eauto with wefty.
Qed.

Lemma wf_restartService lower_table digest at_ jobID request actor db :
  wf db -> wf (run (restartService lower_table digest at_ jobID request actor) db).1.
Proof.
  intros H. apply post_run; [done|]. unfold restartService. wp; try operator_transition.
  all: apply wf_exec_job; [|by intros ? _; unfold settles; simpl; auto]; assumption.
Qed.

(** ** Nodes *)
Lemma wf_DrainNode at_ identity nodeID boot db : wf db -> wf (run (DrainNode at_ identity nodeID boot) db).1.
Proof. intros H. apply post_run; [done|]. unfold DrainNode. wp; eauto with wefty. Qed.

Lemma wf_setNodeIntentByOperator lower_table at_ nodeID verb actor request db :
  wf db -> wf (run (setNodeIntentByOperator lower_table at_ nodeID verb actor request) db).1.
Proof. intros H. apply post_run; [done|]. unfold setNodeIntentByOperator. wp; eauto with wefty. Qed.

(** ** Reconciliation *)

(** A pass that only ends work: attempts and jobs survive with their lease,
    ownership and cancellation columns, and no attempt becomes active. *)
Record only_ends (db db' : DB) : Prop := {
  oe_attempts : forall id a', db_attempts db' !! id = Some a' -> exists a, db_attempts db !! id = Some a
    /\ a_job_id a' = a_job_id a /\ a_node_id a' = a_node_id a /\ a_lease_expires_ns a' = a_lease_expires_ns a
    /\ a_lease_boot_id a' = a_lease_boot_id a /\ a_lease_deadline_ns a' = a_lease_deadline_ns a
    /\ (active_attempt (a_state a') = true -> active_attempt (a_state a) = true);
  oe_jobs : forall id j', db_jobs db' !! id = Some j' -> exists j, db_jobs db !! id = Some j
    /\ j_outcome j' = j_outcome j /\ j_cancel_settle_by_ns j' = j_cancel_settle_by_ns j;
  oe_kept : forall id, is_Some (db_attempts db !! id) -> is_Some (db_attempts db' !! id);
  oe_nodes : db_nodes db' = db_nodes db
}.

Lemma only_ends_refl db : only_ends db db.
Proof. split; eauto 10. Qed.

Lemma only_ends_trans db1 db2 db3 : only_ends db1 db2 -> only_ends db2 db3 -> only_ends db1 db3.
Proof.
  intros [A1 J1 K1 N1] [A2 J2 K2 N2]. split; [| | by auto | congruence].
  - intros id a' (a & (b & ? & ? & ? & ? & ? & ? & ?)%A1 & ? & ? & ? & ? & ? & ?)%A2. exists b.
    split_and!; try congruence. auto.
  - intros id j' (j & (i & ? & ? & ?)%J1 & ? & ?)%J2. exists i. split_and!; congruence.
Qed.

Lemma only_ends_exec_attempt id f db :
  (forall a, a_job_id (f a) = a_job_id a /\ a_node_id (f a) = a_node_id a
     /\ a_lease_expires_ns (f a) = a_lease_expires_ns a /\ a_lease_boot_id (f a) = a_lease_boot_id a /\ a_lease_deadline_ns (f a) = a_lease_deadline_ns a
     /\ (active_attempt (a_state (f a)) = true -> active_attempt (a_state a) = true)) ->
  only_ends db (exec_attempt id f db).
Proof.
  intros Hf. split; [|by eauto | |done]; unfold exec_attempt; simpl.
  - intros k a' [(-> & b & Hb & ->)|[? Hk]]%lookup_alter_Some; [exists b | exists a']; auto 10.
  - intros k Hk. by rewrite lookup_alter_is_Some.
Qed.

Lemma only_ends_exec_job id f db :
  (forall j, j_outcome (f j) = j_outcome j /\ j_cancel_settle_by_ns (f j) = j_cancel_settle_by_ns j) ->
  only_ends db (exec_job id f db).
Proof.
  intros Hf. split; [by eauto 10| |done|done]. unfold exec_job. simpl.
  intros k j' [(-> & b & Hb & ->)|[? Hk]]%lookup_alter_Some; [exists b | exists j']; auto.
Qed.

Lemma only_ends_exec_job_state id f db :
  (forall j, j_outcome (f j) = j_outcome j /\ j_cancel_settle_by_ns (f j) = j_cancel_settle_by_ns j) ->
  only_ends db (exec_job_state id f db).
Proof.
  intros Hf. unfold exec_job_state. destruct (db_jobs db !! id) as [j|] eqn:E; [|apply only_ends_refl].
  split; [case_match; simpl; by eauto 10| |by case_match|by case_match].
  intros k j'. assert (Hs : db_jobs (if scrub_due (f j) then db <| db_jobs := <[id:=scrub_row (f j)]> (db_jobs db) |>
      <| db_scrub_generation := db_scrub_generation db + 1 |> else db <| db_jobs := <[id:=scrub_row (f j)]> (db_jobs db) |>)
    = <[id:=scrub_row (f j)]> (db_jobs db)) by by case_match.
  simpl in *. rewrite Hs. intros [[<- <-]|[_ Hk]]%lookup_insert_Some; [|eauto].
  exists j. split; [done|]. unfold scrub_row. case_match; simpl; apply Hf.
Qed.

Lemma only_ends_service jobID f db : only_ends db (exec_service jobID f db).
Proof. split; simpl; eauto 10. Qed.

Lemma only_ends_settle_expired jitter now attempt j db : only_ends db (settle_expired jitter now attempt j db).
Proof.
  unfold settle_expired.
  match goal with |- context [match ?x with (_, _) => _ end] => destruct x as [next db1] eqn:E end.
  assert (H1 : only_ends db db1).
  { revert E. case_match; [|intros [= <- <-]; apply only_ends_refl]. unfold recoverOneshot.
    match goal with |- context [match ?x with (_, _) => _ end] => destruct x as [[state nxt] terminal] end.
    intros [= <- <-]. eapply only_ends_trans; [|by apply only_ends_exec_attempt]. by apply only_ends_exec_job. }
  eapply only_ends_trans; [exact H1|]. clear H1 E.
  cbv zeta. set (db2 := exec_job_state _ _ db1).
  assert (H2 : only_ends db1 db2) by by apply only_ends_exec_job_state.
  match goal with |- context [if ?b then detachAttempt ?i ?c ?d else ?d] =>
    set (db3 := if b then detachAttempt i c d else d) end.
  assert (H3 : only_ends db2 db3).
  { subst db3. case_match; [|apply only_ends_refl]. by apply only_ends_exec_job. }
  eapply only_ends_trans; [exact H2|]. eapply only_ends_trans; [exact H3|].
  case_match; [apply only_ends_service | apply only_ends_refl].
Qed.

Lemma only_ends_expireAttempt clock jitter now attempt db :
  only_ends db (expireAttempt clock jitter now attempt db)
  /\ forall a', db_attempts (expireAttempt clock jitter now attempt db) !! aa_attemptID attempt = Some a' ->
       active_attempt (a_state a') = false.
Proof.
  unfold expireAttempt. destruct (db_attempts db !! aa_attemptID attempt) as [a|] eqn:Ha; [|split; [apply only_ends_refl|]].
  2: { intros a'. by rewrite Ha. }
  destruct (active_attempt (a_state a)) eqn:Hact; [|split; [apply only_ends_refl|]].
  2: { intros a'. rewrite Ha. by intros [= <-]. }
  set (db1 := invalidateAttempts clock now (aa_attemptID attempt) invalidateLeaseSettlement db).
  assert (H1 : only_ends db db1).
  { split; [|by eauto | |done]; intros id; subst db1; unfold invalidateAttempts; simpl; rewrite map_lookup_imap;
      (destruct (db_attempts db !! id) as [b|]; [|done]); simpl; [|done].
    intros a' [= <-]. exists b. by case_match. }
  assert (Hend : forall a', db_attempts db1 !! aa_attemptID attempt = Some a' -> active_attempt (a_state a') = false).
  { intros a'. subst db1. unfold invalidateAttempts. simpl. rewrite map_lookup_imap, Ha. simpl. intros [= <-].
    by rewrite bool_decide_eq_true_2, Hact by done. }
  assert (Hrest : forall db2, only_ends db1 db2 -> only_ends db db2 /\
    forall a', db_attempts db2 !! aa_attemptID attempt = Some a' -> active_attempt (a_state a') = false).
  { intros db2 H2. split; [by eapply only_ends_trans|]. intros a' (b & Hb & _ & _ & _ & _ & _ & Hact')%(oe_attempts _ _ H2).
    specialize (Hend _ Hb). destruct (active_attempt (a_state a')); [|done]. by rewrite Hact' in Hend. }
  destruct (db_jobs db1 !! aa_jobID attempt); [|apply Hrest, only_ends_refl].
  case_match; apply Hrest; [apply only_ends_settle_expired | apply only_ends_refl].
Qed.

(** Every attempt's job and node rows exist, as the schema's foreign keys have it. *)
Definition attempts_anchored (db : DB) : Prop :=
  forall id a, db_attempts db !! id = Some a -> is_Some (db_nodes db !! a_node_id a).

Lemma anchored_only_ends db db' : only_ends db db' -> attempts_anchored db -> attempts_anchored db'.
Proof.
  intros H Ha id a' (a & Hin & _ & E & _)%(oe_attempts _ _ H). rewrite E, (oe_nodes _ _ H). by eapply Ha.
Qed.

Lemma read_authority_total id db :
  wf db -> attempts_anchored db -> is_Some (db_attempts db !! id) -> is_Some (read_authority id db).
Proof.
  intros H Hn [a Ha]. unfold read_authority. rewrite Ha.
  destruct (fenced_token _ _ H id a Ha) as (j & _ & -> & _). destruct (Hn id a Ha) as [n ->]. eauto.
Qed.

Section Sweep.
Context (cfg : config).

(** Expiring a list of attempts succeeds, only ends work, and ends all of them. *)
Lemma ends_expire_all {R} clock now ids K (X : result ErrorCode R -> Prop) db :
  wf db -> attempts_anchored db -> (forall id, id ∈ ids -> is_Some (db_attempts db !! id)) ->
  ends (expire_all cfg clock now ids)
    (fun _ db' => wf db' /\ only_ends db db' /\
       forall id a, id ∈ ids -> db_attempts db' !! id = Some a -> active_attempt (a_state a) = false) K X db.
Proof.
  revert db. induction ids as [|id ids IH]; intros db H Hn Hin; simpl.
  - wp. split_and!; [done | apply only_ends_refl|]. by intros ? ? ?%elem_of_nil.
  - destruct (read_authority_total id db H Hn (Hin id ltac:(by left))) as [att Hatt].
    apply ends_bind. unfold readAttemptAuthority, ends at 1, need. rewrite Hatt.
    apply ends_bind. unfold ends at 1, writes.
    destruct (read_authority_rows _ _ _ Hatt) as (a & j & _ & _ & Hid & _).
    destruct (only_ends_expireAttempt clock (cfg_restartJitter cfg) now att db) as [He Hend]. rewrite Hid in Hend.
    set (db1 := expireAttempt _ _ _ _ db) in *.
    eapply ends_mono; [| by intros ? ? Hk; exact Hk | by intros ? Hk; exact Hk | apply IH].
    + intros _ db' (H' & He' & Hall). split_and!; [done | by eapply only_ends_trans|].
      intros k b [->|Hk]%elem_of_cons Hb; [|by eapply Hall].
      destruct (oe_attempts _ _ He' _ _ Hb) as (c & Hc & _ & _ & _ & _ & _ & Hact). specialize (Hend _ Hc).
      destruct (active_attempt (a_state b)); [|done]. by rewrite Hact in Hend.
    + by apply wf_expireAttempt.
    + by eapply anchored_only_ends.
    + intros k Hk. apply (oe_kept _ _ He), Hin. by right.
Qed.

(** The steps of the pass before the sweep leave jobs and attempts as they are. *)
Lemma only_ends_same db db' :
  db_jobs db' = db_jobs db -> db_attempts db' = db_attempts db -> db_nodes db' = db_nodes db -> only_ends db db'.
Proof. intros E1 E2 E3. split; rewrite ?E1, ?E2; eauto 10. Qed.

Lemma interrupt_stability_frame seen db :
  db_jobs (interruptServiceStability seen db).1 = db_jobs db
  /\ db_attempts (interruptServiceStability seen db).1 = db_attempts db
  /\ db_nodes (interruptServiceStability seen db).1 = db_nodes db.
Proof.
  unfold interruptServiceStability. destruct seen as [seen|]; [|done]. simpl.
  generalize ((List.filter (fun p => node_to_visit seen p.1 p.2) (map_to_list (readNodeLivenessKeys db))).*1).
  intros ids. revert db. induction ids as [|id ids IH]; intros db; simpl; [done|].
  destruct (IH (interruptNodeServiceStability id db)) as (-> & -> & ->). done.
Qed.

Lemma anchored_sleep_gap write sample db :
  attempts_anchored db -> attempts_anchored (withLeaseSleepGap write sample db).2.
Proof.
  intros H id a. unfold withLeaseSleepGap. repeat (case_match; simpl; try apply H); rewrite !lookup_fmap;
    destruct (db_attempts db !! id) as [b|] eqn:Hb; simpl; try done; intros [= <-];
    rewrite fmap_is_Some; replace (a_node_id (credit_attempt _ _ b)) with (a_node_id b) by (unfold credit_attempt; by case_match);
    by eapply H.
Qed.

Lemma anchored_mark p s now db : attempts_anchored db -> attempts_anchored (mark_nodes p s now db).
Proof. intros H id a Ha. simpl. rewrite lookup_fmap, fmap_is_Some. by eapply H. Qed.

Lemma anchored_same db db' :
  db_attempts db' = db_attempts db -> db_nodes db' = db_nodes db -> attempts_anchored db -> attempts_anchored db'.
Proof. intros E1 E2 H id a. rewrite E1, E2. apply H. Qed.

(** The store the sweep reads: the pass has changed only nodes, services and
    owed revocations by then. *)
Lemma ends_before_sweep at_ seen Q K X db :
  wf db -> attempts_anchored db ->
  (forall keys db1, let begun := withLeaseSleepGap true (at_sample at_) db in
     db_jobs db1 = db_jobs begun.2 -> db_attempts db1 = db_attempts begun.2 -> wf db1 -> attempts_anchored db1 ->
     ends (let! ids := reads (expiredAttempts begun.1 (at_now at_)) in
           let! _ := expire_all cfg begun.1 (at_now at_) ids in pure (ids, keys)) Q K X db1) ->
  ends (reconcile_leases cfg at_ seen) Q K X db.
Proof.
  intros H Hn HQ. unfold reconcile_leases. apply ends_bind, ends_begin. cbv zeta in HQ.
  assert (H1 := wf_sleep_gap true (at_sample at_) db H).
  assert (Hn1 := anchored_sleep_gap true (at_sample at_) db Hn).
  destruct (withLeaseSleepGap true (at_sample at_) db) as [clock begun]. simpl in *.
  set (db2 := mark_stale cfg clock (at_now at_) (settle_dead_hosts (at_now at_) (mark_dead cfg clock (at_now at_) begun))).
  assert (Hn2 : attempts_anchored db2).
  { apply anchored_mark. eapply anchored_same; [done | done | by apply anchored_mark]. }
  wp. fold db2. unfold ends at 1. destruct (interrupt_stability_frame seen db2) as (EJ & EA & EN).
  destruct (interruptServiceStability seen db2) as [db3 keys]. simpl in *.
  apply ends_bind. unfold ends at 1, writes at 1. apply HQ; simpl.
  - by rewrite EJ.
  - by rewrite EA.
  - eapply wf_same; [| |exact H1]; simpl; by rewrite ?EJ, ?EA.
  - eapply (anchored_same db3); [done | done|]. by eapply anchored_same; [..|exact Hn2].
Qed.

Lemma expiredAttempts_elem clock now db id :
  id ∈ expiredAttempts clock now db <-> exists a, db_attempts db !! id = Some a /\ expired_attempt clock now db id a = true.
Proof.
  unfold expiredAttempts. rewrite list_elem_of_fmap. split.
  - intros ([k a] & -> & Hin). apply list_elem_of_In, filter_In in Hin as [Hin He].
    apply list_elem_of_In, elem_of_map_to_list in Hin. eauto.
  - intros (a & Ha & He). exists (id, a). split; [done|]. apply list_elem_of_In, filter_In. split; [|done].
    by apply list_elem_of_In, elem_of_map_to_list.
Qed.

(** An active attempt that the sweep did not list still holds its lease. *)
Lemma unlisted_is_live clock now db id a :
  wf db -> ac_err clock = false -> db_attempts db !! id = Some a -> active_attempt (a_state a) = true ->
  expired_attempt clock now db id a = false ->
  lease_live_row (withAttemptExpiryClock clock) now a = true
  /\ forall j, db_jobs db !! a_job_id a = Some j -> cancellation_overdue now j = false.
Proof.
  intros H He Ha Hact Hx. destruct (fenced_active _ _ H id a Ha Hact) as (j & Hj & Hc & Hb).
  unfold expired_attempt, current_active in Hx. rewrite Hj in Hx. simpl in Hx.
  rewrite Hact, (bool_decide_eq_true_2 _ Hc) in Hx. change (job_active (j_state j)) with (busy (j_state j)) in Hx.
  rewrite Hb in Hx. simpl in Hx. apply orb_false_iff in Hx as [Hx Hov]. split; [|intros i Hi; by simplify_eq].
  destruct (lease_live_row _ _ _) eqn:E; [done|]. rewrite <- Hx. apply expired_branches. by rewrite E.
Qed.

End Sweep.

