(* ===== verification/Machine.v ===== *)
(** * The control plane as a transition system

    Every modelled transaction is a step from the store before it to the store
    after it, whatever it answers.  Transactions that are not modelled enter as
    steps that leave the jobs, the attempts, the log and the sessions of the nodes
    as they are.  The invariants are proved over every store reachable from the empty one. *)
From S2P Require Import Prelude Order States Contract GoStrings JobSpec L1Types RestartPolicy Database.
From S2P Require Import LeaseClock Authority Credentials Summaries Lifecycle Completion Placement Claim.
From S2P Require Import ServiceOperator Submit Reconcile ClaimCorrect Invariant Preservation.
From S2P Require Import LogRetention Logs LogStreams Ingestion LogPreservation OperatorPreservation.
From S2P Require Import NodeTypes NodeSessions SessionInvariant NodePreservation SessionFrame.
#[local] Open Scope string_scope.
#[local] Open Scope list_scope.
#[local] Open Scope Z_scope.

(** What the transactions are parameterised by. *)
Record environment := mkenvironment {
  env_cfg : config;
  env_lower_table : Z -> Z;
  env_spec_digest : JobSpec -> string;
  env_hashDispatchKey : string -> string;
  env_admitSeatRun : string -> JobRow -> bool -> DB -> result ErrorCode unit;
  env_restart_digest : ServiceRestartRequest -> string;
  env_log_bounds : log_bounds;
  env_source_digest : LogEvent -> string
}.

Section Machine.
Context (env : environment).
Abbreviation cfg := (env_cfg env).
Abbreviation lower_table := (env_lower_table env).

(** The transactions on nodes and their generations. *)
Inductive node_step (db : DB) : DB -> Prop :=
| StepRegister at_ identity registration policy expected admission :
    node_step db (run (registerNode lower_table at_ identity registration policy expected admission) db).1
| StepHeartbeat at_ identity nodeID boot observation policy refresh :
    node_step db (run (heartbeatNode lower_table at_ identity nodeID boot observation policy refresh) db).1
| StepStage at_ identity registration : node_step db (run (StageNodeGeneration lower_table at_ identity registration) db).1
| StepPromote at_ identity nodeID request : node_step db (run (PromoteNodeGeneration lower_table at_ identity nodeID request) db).1
| StepRetiringHeartbeat at_ identity nodeID generation boot :
    node_step db (run (HeartbeatRetiringNodeGeneration at_ identity nodeID generation boot) db).1
| StepCloseGeneration at_ identity nodeID generation request :
    node_step db (run (CloseNodeGeneration at_ identity nodeID generation request) db).1
| StepDeEnroll at_ identity nodeID request : node_step db (run (DeEnrollNodeGeneration at_ identity nodeID request) db).1.

Inductive step (db : DB) : DB -> Prop :=
| StepCreateJobAs at_ spec origin jobID :
    step db (run (CreateJobAs lower_table (env_spec_digest env) (env_hashDispatchKey env) (env_admitSeatRun env)
                    at_ spec origin jobID) db).1
| StepClaim at_ identity nodeID boot class poll excluded attemptID token hash :
    step db (run (claimJob cfg lower_table at_ identity nodeID boot class poll excluded attemptID token hash) db).1
| StepRenew at_ identity jobID attemptID token :
    step db (run (RenewLease cfg at_ identity jobID attemptID token) db).1
| StepObserveImage at_ identity jobID attemptID request :
    step db (run (ObserveAttemptImage cfg at_ identity jobID attemptID request) db).1
| StepStart at_ identity jobID attemptID token :
    step db (run (StartAttempt cfg at_ identity jobID attemptID token) db).1
| StepPublish at_ identity jobID attemptID request :
    step db (run (SetAttemptPublication cfg at_ identity jobID attemptID request) db).1
| StepInterrupt at_ nodeID attemptID request :
    step db (run (InterruptRestartableAttempt cfg at_ nodeID attemptID request) db).1
| StepComplete at_ identity jobID attemptID request :
    step db (run (CompleteAttemptOutcome cfg at_ identity jobID attemptID request) db).1
| StepCancel at_ jobID caller : step db (run (CancelJob at_ jobID caller) db).1
| StepLatchImage at_ identity jobID nodeID boot failure :
    step db (run (LatchServiceImageReconciliationFailure at_ identity jobID nodeID boot failure) db).1
| StepDesiredState at_ jobID desired actor :
    step db (run (setServiceDesiredState lower_table at_ jobID desired actor) db).1
| StepRestartService at_ jobID request actor :
    step db (run (restartService lower_table (env_restart_digest env) at_ jobID request actor) db).1
| StepReconcile at_ seen : step db (run (reconcile_leases cfg at_ seen) db).1
| StepPruneSummaries now jobID : step db (pruneServiceAttemptSummaries (cfg_lateEvidenceWindow cfg) now jobID db)
| StepDrain at_ identity nodeID boot : step db (run (DrainNode at_ identity nodeID boot) db).1
| StepNodeIntent at_ nodeID verb actor request :
    step db (run (setNodeIntentByOperator lower_table at_ nodeID verb actor request) db).1
| StepAppendLogs at_ identity jobID attemptID request :
    Forall uint64_event (lr_Events request) ->
    step db (run (AppendLogs cfg (env_log_bounds env) (env_source_digest env) at_ identity jobID attemptID request) db).1
| StepJobLogCap jobID now budget : step db (enforceJobLogByteRetention (env_log_bounds env) jobID now budget db).2
| StepLogCeiling now budget : step db (enforceLogRetentionTotal (env_log_bounds env) now budget db).2
| StepNode db' : node_step db db' -> step db db'
| StepOther db' :
    db_jobs db' = db_jobs db -> db_attempts db' = db_attempts db -> log_tables db' = log_tables db ->
    stays db db' -> step db db'.

Definition reachable : DB -> Prop := rtc step empty_db.

Lemma wf_empty : wf empty_db.
Proof. apply wf_eval. vm_compute. reflexivity. Qed.

Lemma post_expire_all {R} clock now ids (K : result ErrorCode R -> DB -> Prop) db :
  wf db -> post (expire_all cfg clock now ids) (fun _ => wf) K db.
Proof.
  revert db. induction ids as [|id ids IH]; intros db H; simpl; wp; [exact H|]. by apply IH, wf_expireAttempt.
Qed.

Lemma wf_reconcile_leases at_ seen db : wf db -> wf (run (reconcile_leases cfg at_ seen) db).1.
Proof.
  intros H. apply post_run; [done|]. unfold reconcile_leases. apply ends_bind, post_begin; [done|]. intros clock db1 H1.
  wp. unfold ends at 1. match goal with |- context [interruptServiceStability seen ?d] =>
    destruct (interrupt_stability_frame seen d) as (EJ & EA & _); destruct (interruptServiceStability seen d) as [db3 keys] end.
  simpl in EJ, EA. wp. eapply ends_mono; [..|apply post_expire_all]; [intros ? ? Hw; wp; exact Hw | intros ? ? Hk; exact Hk | done|].
  eapply wf_same; [exact EJ | exact EA | exact H1].
Qed.

Lemma node_step_spared db db' : node_step db db' -> exists at_, spared at_ db db'.
Proof.
  intros []; eexists; eauto using spared_registerNode, spared_heartbeatNode, spared_StageNodeGeneration,
    spared_PromoteNodeGeneration, spared_HeartbeatRetiring, spared_CloseNodeGeneration, spared_DeEnroll.
Qed.

(** Every other transaction leaves the sessions of nodes alone. *)
Lemma step_stays db db' : step db db' -> stays db db' \/ node_step db db'.
Proof.
  intros []; [left..|by right|by left]; eauto using stays_CreateJobAs, stays_claimJob, stays_RenewLease, stays_ObserveAttemptImage,
    stays_StartAttempt, stays_SetAttemptPublication, stays_InterruptRestartableAttempt, stays_CompleteAttemptOutcome, stays_CancelJob,
    stays_latch, stays_setServiceDesiredState, stays_restartService, stays_reconcile, stays_DrainNode, stays_setNodeIntent, stays_AppendLogs.
  - apply prune_sessions.
  - apply cap_sessions.
  - apply ceiling_sessions.
Qed.

Lemma wf_step db db' : step db db' -> wf db -> wf db'.
Proof.
  intros Hstep H. destruct Hstep; eauto using wf_CreateJobAs, wf_claimJob, wf_RenewLease, wf_ObserveAttemptImage, wf_StartAttempt,
    wf_SetAttemptPublication, wf_InterruptRestartableAttempt, wf_CompleteAttemptOutcome, wf_CancelJob,
    wf_LatchServiceImageReconciliationFailure, wf_setServiceDesiredState, wf_restartService, wf_reconcile_leases,
    wf_prune, wf_DrainNode, wf_setNodeIntentByOperator, wf_same, wf_AppendLogs, wf_rows, cap_rows, ceiling_rows.
  match goal with Hn : node_step _ _ |- _ => destruct (node_step_spared _ _ Hn) end. by eapply wf_spared.
Qed.

Lemma wf_reachable db : reachable db -> wf db.
Proof. apply (rtc_ind_r wf empty_db); [apply wf_empty|]. intros db1 db2 _ Hstep. by apply wf_step. Qed.

(** ** One writer per job *)
Lemma active_exclusive db id1 a1 id2 a2 :
  wf db -> db_attempts db !! id1 = Some a1 -> db_attempts db !! id2 = Some a2 -> a_job_id a1 = a_job_id a2 ->
  active_attempt (a_state a1) = true -> active_attempt (a_state a2) = true -> id1 = id2.
Proof.
  intros H H1 H2 Ej A1 A2. destruct (fenced_active _ _ H _ _ H1 A1) as (j1 & Hj1 & Hc1 & _).
  destruct (fenced_active _ _ H _ _ H2 A2) as (j2 & Hj2 & Hc2 & _). rewrite Ej in Hj1. congruence.
Qed.

(** C1: in every reachable store a job has at most one active attempt, and an
    active attempt is the current attempt of a job that is claimed, running,
    awaiting input or stopping. *)
Theorem reachable_active_attempt_exclusive db id a :
  reachable db -> db_attempts db !! id = Some a -> active_attempt (a_state a) = true ->
  (exists j, db_jobs db !! a_job_id a = Some j /\ j_current_attempt_id j = Some id /\ busy (j_state j) = true)
  /\ forall id2 a2, db_attempts db !! id2 = Some a2 -> a_job_id a2 = a_job_id a ->
       active_attempt (a_state a2) = true -> id2 = id.
Proof.
  intros H%wf_reachable Ha Hact. split; [by apply (fenced_active _ _ H)|].
  intros id2 a2 H2 Ej Hact2. by eapply active_exclusive.
Qed.

(** C3: a claim fences every predecessor.  In every reachable store, once a claim
    succeeds, each other attempt of the job has ended, and its fencing token is
    the decimal of a smaller number than the one in the new lease. *)
Theorem claim_fences_predecessors db at_ identity nodeID boot class poll excluded attemptID token hash db' cl hint :
  reachable db ->
  run (claimJob cfg lower_table at_ identity nodeID boot class poll excluded attemptID token hash) db
    = (db', Ok (Some cl, hint)) ->
  exists fence, al_FencingToken (cl_Lease cl) = pretty fence /\
    forall id a, db_attempts db' !! id = Some a -> a_job_id a = cl_JobID cl -> id <> attemptID ->
      active_attempt (a_state a) = false /\ exists n, a_fencing_token a = pretty n /\ 1 <= n < fence.
Proof.
  intros H%wf_reachable Hrun.
  assert (H' : wf db').
  { assert (Hw := wf_claimJob cfg lower_table at_ identity nodeID boot class poll excluded attemptID token hash db H).
    by rewrite Hrun in Hw. }
  apply claimJob_outcome in Hrun as (n & ex & _ & _ & _ & j & _ & Hg).
  destruct (granted_attempt _ _ _ _ _ _ _ _ _ _ _ _ _ _ Hg) as [restartable Hnew].
  destruct (granted_job _ _ _ _ _ _ _ _ _ _ _ _ _ _ Hg) as (j' & EJ & _ & _ & Hf).
  destruct (granted_lease _ _ _ _ _ _ _ _ _ _ _ _ _ _ Hg) as (_ & _ & _ & _ & Htok & _).
  exists (j_fence_counter j + 1). split; [done|]. intros id a Ha Hj Hne. split.
  - destruct (active_attempt (a_state a)) eqn:E; [|done]. destruct Hne. by eapply active_exclusive; [exact H'|..].
  - destruct (fenced_token _ _ H' id a Ha) as (i & m & Hi & Ht & Hm). exists m. split; [done|].
    rewrite Hj, EJ, lookup_insert_eq in Hi. injection Hi as <-.
    assert (m <> j_fence_counter j + 1); [|lia]. intros ->. apply Hne.
    by eapply (fenced_unique _ _ H'); [exact Ha | exact Hnew | ..].
Qed.

(** ** A superseded attempt *)

(** The writes a node makes in the name of an attempt. *)
Inductive attempt_write :=
| WriteRenew (token : string)
| WriteStart (token : string)
| WriteObserveImage (request : ImageObservationRequest)
| WritePublish (request : PublicationRequest)
| WriteComplete (request : CompletionRequest).

Definition perform (at_ : instant) (identity jobID attemptID : string) (w : attempt_write) (db : DB) : DB :=
  match w with
  | WriteRenew token => (run (RenewLease cfg at_ identity jobID attemptID token) db).1
  | WriteStart token => (run (StartAttempt cfg at_ identity jobID attemptID token) db).1
  | WriteObserveImage request => (run (ObserveAttemptImage cfg at_ identity jobID attemptID request) db).1
  | WritePublish request => (run (SetAttemptPublication cfg at_ identity jobID attemptID request) db).1
  | WriteComplete request => (run (CompleteAttemptOutcome cfg at_ identity jobID attemptID request) db).1
  end.

(** The attempt has ended and its job has moved on. *)
Definition superseded (db : DB) (id : string) : Prop :=
  forall att, read_authority id db = Some att ->
    aa_attemptID att = id /\ aa_currentAttempt att <> Some id /\ active_attempt (aa_state att) = false.

Lemma superseded_intro db id a j :
  wf db -> db_attempts db !! id = Some a -> db_jobs db !! a_job_id a = Some j -> j_current_attempt_id j <> Some id ->
  superseded db id.
Proof.
  intros H Ha Hj Hc att (b & i & Hb & Hi & Eid & _ & Es & _ & Ec & _)%read_authority_rows. simplify_eq.
  rewrite Ec, Es. split_and!; [done | done|]. destruct (active_attempt (a_state a)) eqn:E; [|done].
  destruct (fenced_active _ _ H _ _ Ha E) as (j' & Hj' & Hc' & _). congruence.
Qed.

Lemma superseded_refused identity jobID id token att :
  aa_currentAttempt att <> Some id -> exists e, validateAttemptAuthority identity jobID id token att = Err e.
Proof.
  intros Hc. unfold validateAttemptAuthority. rewrite (bool_decide_eq_false_2 _ Hc). simpl. repeat case_match; eauto.
Qed.

Lemma expire_inactive clock jitter now db id att :
  superseded db id -> read_authority id db = Some att -> expireAttempt clock jitter now att db = db.
Proof.
  intros Hs Hatt. destruct (Hs att Hatt) as (Eid & _ & Hact).
  destruct (read_authority_rows _ _ _ Hatt) as (a & j & Ha & _ & _ & _ & Es & _).
  unfold expireAttempt. by rewrite Eid, Ha, <- Es, Hact.
Qed.

(** At most the attempt's own row is written. *)
Definition own_row_only (begun : DB) (id : string) (db' : DB) : Prop := exists f, db' = exec_attempt id f begun.

Ltac refused :=
  match goal with Hs : superseded ?db ?id, Hatt : read_authority ?id ?db = Some ?att,
      E : validateAttemptAuthority ?i ?j ?id ?t ?att = Ok _ |- _ =>
    exfalso; destruct (Hs att Hatt) as (_ & Hc & _);
    destruct (superseded_refused i j id t att Hc) as [? Hr]; rewrite Hr in E; discriminate E
  end.

Lemma superseded_handlers at_ identity jobID id db (begun := withLeaseSleepGap true (at_sample at_) db) :
  superseded begun.2 id ->
  (forall token, ends (RenewLease cfg at_ identity jobID id token) (fun _ _ => False) (fun _ => own_row_only begun.2 id)
     (fun _ => True) db)
  /\ (forall token, ends (StartAttempt cfg at_ identity jobID id token) (fun _ _ => False)
       (fun _ => own_row_only begun.2 id) (fun _ => True) db)
  /\ (forall r, ends (ObserveAttemptImage cfg at_ identity jobID id r) (fun _ _ => False)
       (fun _ => own_row_only begun.2 id) (fun _ => True) db)
  /\ (forall r, ends (SetAttemptPublication cfg at_ identity jobID id r) (fun _ _ => False)
       (fun _ => own_row_only begun.2 id) (fun _ => True) db).
Proof.
  intros Hs. subst begun. split_and!; intros w.
  - unfold RenewLease. apply ends_bind, ends_begin. apply ends_bind. unfold readAttemptAuthority. apply ends_need; [|done].
    intros att Hatt. apply ends_bind, ends_lift; [intros ? ?; refused | done].
  - unfold StartAttempt. case_match; [done|]. apply ends_bind, ends_begin. apply ends_bind. unfold readAttemptAuthority.
    apply ends_need; [|done]. intros att Hatt. apply ends_bind, ends_lift; [intros ? ?; refused | done].
  - unfold ObserveAttemptImage. apply ends_bind, ends_lift; [|done]. intros _ _. apply ends_bind, ends_begin.
    apply ends_bind. unfold readAttemptAuthority. apply ends_need; [|done]. intros att Hatt.
    wp; refused.
  - unfold SetAttemptPublication. destruct (pub_Ready w); [|done].
    destruct (bool_decide (pub_FencingToken w = "")); [done|]. apply ends_bind, ends_begin.
    apply ends_bind. unfold readAttemptAuthority. apply ends_need; [|done]. intros att Hatt.
    apply ends_bind, ends_lift; [intros ? ?; refused | done].
Qed.

Lemma superseded_completion at_ identity jobID id request db (begun := withLeaseSleepGap true (at_sample at_) db) :
  superseded begun.2 id ->
  ends (CompleteAttemptOutcome cfg at_ identity jobID id request) (fun _ _ => False) (fun _ => own_row_only begun.2 id)
    (fun _ => True) db.
Proof.
  intros Hs. subst begun. unfold CompleteAttemptOutcome. wp; try done. apply ends_begin.
  apply ends_bind. unfold readAttemptAuthority. apply ends_need; [|done]. intros att Hatt.
  destruct (Hs att Hatt) as (Eid & _ & Hact).
  apply ends_bind. unfold ends at 1, reads at 1. do 3 (apply ends_bind; first [apply ends_check | apply ends_lift]; [|done]; intros).
  wp; try refused.
  all: rewrite ?(expire_inactive _ _ _ _ _ _ Hs Hatt), ?Hact in *; try refused.
  all: rewrite <- Eid; by eexists.
Qed.


(** ** An expired lease *)

(** A lease that ran out is never extended.  Renewing it settles the attempt
    (it is no longer active afterwards), commits, and answers [lease_expired],
    however the node retries. *)
Theorem expired_renewal_settles at_ identity jobID id token db att :
  let begun := withLeaseSleepGap true (at_sample at_) db in
  read_authority id begun.2 = Some att -> validateAttemptAuthority identity jobID id token att = Ok tt ->
  active_attempt (aa_state att) = true -> attemptLeaseExpired begun.1 (at_now at_) att = Ok true ->
  let r := run (RenewLease cfg at_ identity jobID id token) db in
  r.2 = Err ErrorLeaseExpired /\ forall a, db_attempts r.1 !! id = Some a -> active_attempt (a_state a) = false.
Proof.
  intros begun Hatt Hv Hact Hx.
  destruct (read_authority_rows _ _ _ Hatt) as (a & j & _ & Hj & Hid & Hjob & _).
  assert (Hjid : jobID = a_job_id a).
  { unfold validateAttemptAuthority in Hv. destruct (bool_decide (aa_jobID att = jobID)) eqn:E.
    - apply bool_decide_eq_true in E. congruence.
    - repeat case_match; simpl in *; congruence. }
  apply (ends_run _ (fun db' r => r = Err ErrorLeaseExpired /\
    forall a, db_attempts db' !! id = Some a -> active_attempt (a_state a) = false)).
  unfold RenewLease. apply ends_bind, ends_begin. fold begun. apply ends_bind. unfold readAttemptAuthority.
  apply ends_need; rewrite Hatt; [intros ? [= <-]|done]. apply ends_bind, ends_lift; rewrite Hv; [intros _ _|done].
  apply ends_bind. unfold read_cancellation. apply ends_need; rewrite Hjid, Hj; simpl; [intros [canceled by_] _|done].
  rewrite bool_decide_eq_false_2, Hact by (intros E; by rewrite E in Hact). simpl.
  apply ends_bind, ends_lift; rewrite Hx; [intros ? [= <-]|done]. simpl. unfold expire_and_refuse. wp.
  split; [done|]. rewrite <- Hid. apply only_ends_expireAttempt.
Qed.
End Machine.

(** ** Witnesses: a restartable one-shot that is submitted, claimed, lost and claimed again *)
Definition sample_env : environment :=
  mkenvironment sample_config (fun r => r) js_DispatchKey (fun k => k) (fun _ _ _ _ => Ok tt) sr_IdempotencyKey
    sample_bounds (fun _ => "").
Definition fleet_registration : NodeRegistration :=
  mkNodeRegistration "" "" "n1" "b1" "10.0.0.1" "root" "linux" "amd64" "1.0" {[ "kind:process" := true; "oneshot:restartable" := true ]}
    1 10 [] "" false.
Definition fleet0 : DB :=
  (run (registerNode (fun r => r) (sample_instant 50) "id1" fleet_registration (DefaultNodePolicy ["linux"]) true
          (mknodeRegistrationAdmission false false)) empty_db).1.
Definition fleet_node : NodeRow := default (sample_node "id1" "b1") (db_nodes fleet0 !! "n1").
Definition fleet1 : DB :=
  (run (CreateJobAs (fun r => r) js_DispatchKey (fun k => k) (fun _ _ _ _ => Ok tt) (sample_instant 100) example_process_spec
          (mkJobOrigin "client" false None) "j1") fleet0).1.
Definition fleet_claim (t : Z) (attemptID hash : string) (db : DB) : DB * result ErrorCode (option Claim * bool) :=
  run (claimJob sample_config (fun r => r) (sample_instant t) "id1" "n1" "b1" JobClassOneShot false [] attemptID "secret" hash) db.
Definition fleet2 : DB := (fleet_claim 200 "a1" "digest1" fleet1).1.
Definition fleet3 : DB := (run (reconcile_leases sample_config (sample_instant (40 * second)) None) fleet2).1.

Lemma fleet_reachable : reachable sample_env fleet2 /\ reachable sample_env fleet3.
Proof.
  assert (H1 : reachable sample_env fleet1).
  { apply (rtc_r _ fleet0); [apply rtc_once, StepNode, (StepRegister sample_env) | apply (StepCreateJobAs sample_env)]. }
  assert (H2 : reachable sample_env fleet2) by (eapply rtc_r; [exact H1 | apply (StepClaim sample_env)]).
  split; [exact H2|]. eapply rtc_r; [exact H2 | apply (StepReconcile sample_env)].
Qed.

(** Rows of the sample stores, evaluated. *)
Definition attempt_row (db : DB) (id : string) : AttemptRow :=
  default (sample_attempt "" "" "" AttemptLost "" 0) (db_attempts db !! id).
Definition job_row (db : DB) (id : string) : JobRow :=
  default (sample_job example_process_spec JobQueued None 0) (db_jobs db !! id).

Lemma reachable_active_attempt_exclusive_witness :
  exists j, db_jobs fleet2 !! "j1" = Some j /\ j_current_attempt_id j = Some "a1" /\ busy (j_state j) = true.
Proof.
  apply (reachable_active_attempt_exclusive sample_env fleet2 "a1" (attempt_row fleet2 "a1") (proj1 fleet_reachable));
    vm_compute; reflexivity.
Defined.

Definition fleet_granted : Claim :=
  match (fleet_claim (55 * second) "a2" "digest2" fleet3).2 with Ok (Some cl, _) => cl | _ => sample_granted end.

Lemma fleet_granted_ok :
  fleet_claim (55 * second) "a2" "digest2" fleet3
  = ((fleet_claim (55 * second) "a2" "digest2" fleet3).1, Ok (Some fleet_granted, false)).
Proof. vm_compute. reflexivity. Qed.

Lemma claim_fences_predecessors_witness :
  cl_JobID fleet_granted = "j1" /\ exists fence, al_FencingToken (cl_Lease fleet_granted) = pretty fence /\
    forall id a, db_attempts (fleet_claim (55 * second) "a2" "digest2" fleet3).1 !! id = Some a ->
      a_job_id a = cl_JobID fleet_granted -> id <> "a2" ->
      active_attempt (a_state a) = false /\ exists n, a_fencing_token a = pretty n /\ 1 <= n < fence.
Proof.
  split; [vm_compute; reflexivity|].
  exact (claim_fences_predecessors sample_env fleet3 (sample_instant (55 * second)) "id1" "n1" "b1" JobClassOneShot false []
           "a2" "secret" "digest2" _ fleet_granted false (proj2 fleet_reachable) fleet_granted_ok).
Defined.


Definition fleet_authority : attemptAuthority :=
  authority_of fleet2 "a1" (attempt_row fleet2 "a1") (job_row fleet2 "j1") fleet_node.

Lemma expired_renewal_settles_witness :
  (run (RenewLease sample_config (sample_instant (40 * second)) "id1" "j1" "a1" "1") fleet2).2 = Err ErrorLeaseExpired.
Proof.
  refine (proj1 (expired_renewal_settles sample_env (sample_instant (40 * second)) "id1" "j1" "a1" "1" fleet2
                   fleet_authority _ _ _ _)); vm_compute; reflexivity.
Defined.
