(* ===== verification/NodeIdentity.v ===== *)
(** * What a node row keeps

    A node stays bound to the identity that first registered it, and within a boot
    session the capabilities it is known by only advance. *)
From S2P Require Import Prelude Order States Contract GoStrings JobSpec L1Types NodeTypes RestartPolicy Database.
From S2P Require Import UpgradeCompat LeaseClock Authority Credentials Summaries Lifecycle Completion Placement LogRetention Logs Claim.
From S2P Require Import ServiceOperator Submit Reconcile LogPreservation NodeSessions SessionInvariant Promotion.
From S2P Require Import NodePreservation SessionFrame Machine.
#[local] Open Scope string_scope.
#[local] Open Scope list_scope.
#[local] Open Scope Z_scope.

(** The same identity; in the same boot session a newer observation, or the same. *)
Definition follows (n n' : NodeRow) : Prop :=
  n_identity_node_id n' = n_identity_node_id n
  /\ (n_boot_session_id n' = n_boot_session_id n -> n_capability_revision n < 2 ^ 63 ->
      n_capability_revision n < n_capability_revision n' \/ observed n' = observed n).

Definition nodes_follow (db db' : DB) : Prop :=
  forall k n, db_nodes db !! k = Some n -> exists n', db_nodes db' !! k = Some n' /\ follows n n'.

(** The columns this speaks of. *)
Definition look (n : NodeRow) := (n_identity_node_id n, n_boot_session_id n, observed n).

Lemma follows_look n n1 n2 : look n2 = look n1 -> follows n n1 -> follows n n2.
Proof. unfold look, follows, observed. intros [= -> -> -> -> -> ->]. done. Qed.

Lemma nodes_follow_refl db : nodes_follow db db.
Proof. intros k n Hn. exists n. split; [done|]. split; [done | by right]. Qed.

Lemma nodes_follow_nodes db0 db db' : db_nodes db' = db_nodes db -> nodes_follow db0 db -> nodes_follow db0 db'.
Proof. intros E H k n Hn. rewrite E. by apply H. Qed.

Lemma nodes_follow_exec db0 db id f : (forall n, look (f n) = look n) -> nodes_follow db0 db -> nodes_follow db0 (exec_node id f db).
Proof.
  intros Hf H k n Hn. destruct (H k n Hn) as (n1 & Hn1 & Hfol). unfold exec_node. simpl. destruct (decide (k = id)) as [->|N].
  - rewrite lookup_alter_eq, Hn1. exists (f n1). split; [done|]. eapply follows_look; [apply Hf | done].
  - rewrite lookup_alter_ne by done. eauto.
Qed.

(** A statement that moves one node on. *)
Lemma nodes_follow_step db id f :
  (forall n, db_nodes db !! id = Some n -> follows n (f n)) -> nodes_follow db (exec_node id f db).
Proof.
  intros Hf k n Hn. unfold exec_node. simpl. destruct (decide (k = id)) as [->|N].
  - rewrite lookup_alter_eq, Hn. exists (f n). split; [done | by apply Hf].
  - rewrite lookup_alter_ne by done. by apply nodes_follow_refl.
Qed.

Lemma stays_follow db db' : stays db db' -> nodes_follow db db'.
Proof.
  intros [= E _ _ _ _] k n Hn. assert (El : (facts <$> db_nodes db') !! k = Some (facts n)) by (by rewrite E, lookup_fmap, Hn).
  rewrite lookup_fmap in El. destruct (db_nodes db' !! k) as [n'|]; [|done]. simpl in El. unfold facts, session in El. simplify_eq.
  exists n'. split; [done|]. split; [done|]. intros _ _. right. unfold observed in *. congruence.
Qed.

Lemma follow_begin at_ db db' : nodes_follow (withLeaseSleepGap true (at_sample at_) db).2 db' -> nodes_follow db db'.
Proof.
  intros H k n Hn. destruct (sleep_gap_rows true (at_sample at_) db) as (_ & h & _ & E & _ & Hh).
  destruct (H k (h n)) as (n' & Hn' & Hf); [by rewrite E, lookup_fmap, Hn|]. exists n'. split; [done|].
  destruct (Hh n) as [s Es]. rewrite Es in Hf. exact Hf.
Qed.

(** ** Observations *)
Lemma decide_observation_advances incoming n change :
  decide_observation incoming n = Ok change -> match change with ReplaceObservation o => n_capability_revision n < st_Revision o | _ => True end.
Proof.
  unfold decide_observation, decideCapabilityObservation. intros H. destruct (_ <? _) eqn:E1; simpl in H; [by simplify_eq|].
  destruct (Z.ltb_spec (n_capability_revision n) (st_Revision incoming)); simpl in H; [by simplify_eq|].
  destruct (negb _); simpl in H; simplify_eq. by destruct (n_capability_observed_ns n <? _).
Qed.

Lemma canonical_revision lower o st : canonicalCapabilityObservation lower o = Ok st -> st_Revision st = ob_Revision o /\ 1 <= ob_Revision o.
Proof.
  unfold canonicalCapabilityObservation. intros H. destruct (Z.ltb_spec (ob_Revision o) 1); simpl in H; [done|].
  destruct (_ || _); [done|]. destruct (canonical_capabilities _ _ _) as [capabilities|]; simpl in H; [|done]. destruct (_ <? _)%nat; [done|].
  destruct (canonical_missing _ _ _ _) as [missing|]; simpl in H; [|done]. destruct (_ && _); [done|]. destruct (_ && _); by simplify_eq.
Qed.

Lemma supersede_advances lower o n st :
  canonicalCapabilityObservation lower o = Ok st -> ob_Revision o = int64 (n_capability_revision n + 1) ->
  n_capability_revision n < 2 ^ 63 -> n_capability_revision n < st_Revision st.
Proof.
  intros [-> Hpos]%canonical_revision E Hlt. rewrite E in *. destruct (Z.le_gt_cases (n_capability_revision n) 0) as [Hle|Hgt]; [lia|].
  unfold int64 in *. destruct (Z.eq_dec (n_capability_revision n + 1) (2 ^ 63)) as [E2|Hne].
  - rewrite E2 in Hpos. exfalso. revert Hpos. vm_compute. intros Hc. by apply Hc.
  - rewrite Z.mod_small by lia. lia.
Qed.

Lemma registration_observation_advances lower registration incoming legacy n change :
  registration_observation lower registration incoming legacy n = Ok change -> n_boot_session_id n = reg_BootSessionID registration ->
  n_capability_revision n < 2 ^ 63 -> match change with ReplaceObservation o => n_capability_revision n < st_Revision o | _ => True end.
Proof.
  unfold registration_observation. intros H Eb Hlt. rewrite (bool_decide_eq_true_2 _ Eb) in H. simpl in H.
  destruct (reg_SupersedeCapabilityRevision registration).
  - destruct (canonicalCapabilityObservation _ _) as [o|] eqn:Ec; simpl in H; [|done]. injection H as <-.
    by eapply supersede_advances.
  - destruct legacy; [by injection H as <-|]. by eapply decide_observation_advances.
Qed.

Lemma apply_observation_follows n m change incoming :
  n_identity_node_id m = n_identity_node_id n -> observed m = observed n ->
  (n_boot_session_id m = n_boot_session_id n -> n_capability_revision n < 2 ^ 63 ->
   match change with ReplaceObservation o => n_capability_revision n < st_Revision o | _ => True end) ->
  follows n (apply_observation change incoming m).
Proof.
  intros Hi Ho Hc. split; [by destruct change|]. intros Hb Hlt. assert (Hb' : n_boot_session_id m = n_boot_session_id n) by (by destruct change).
  specialize (Hc Hb' Hlt). destruct change; [by right.. | by left].
Qed.

Section Nodes.
Context (lower_table : Z -> Z).

Ltac looks := match goal with
  | H : nodes_follow ?d0 ?d |- nodes_follow ?d0 _ => first [exact H | by apply (nodes_follow_nodes d0 d) | apply nodes_follow_exec; [done | exact H]]
  end.

Lemma follow_record {R} registration now db0 db (K : result ErrorCode R -> DB -> Prop) :
  nodes_follow db0 db -> post (recordPrimaryGeneration lower_table registration now) (fun _ => nodes_follow db0) K db.
Proof.
  intros H. unfold recordPrimaryGeneration. destruct (bool_decide _); [by wp|]. apply ends_bind, ends_lift; [intros _ _|done].
  apply ends_bind. match goal with |- ends (reads ?f) ?Q _ _ ?s => change (Q (f s) s) end. cbv beta.
  apply (ends_seq (fun _ => nodes_follow db0)); [destruct (generation_row _ _ _); wp; first [exact H | by apply nodes_follow_exec]|].
  intros _ db1 H1. wp. match goal with |- nodes_follow _ (match ?c with _ => _ end) => destruct c end;
    apply (nodes_follow_nodes _ db1); try done; unfold upsert_primary; by destruct (generation_row _ _ _).
Qed.

Lemma follow_refresh {R} nodeID now db0 db (K : result ErrorCode R -> DB -> Prop) :
  nodes_follow db0 db -> post (refreshPrimaryGenerationObservation lower_table nodeID now) (fun _ => nodes_follow db0) K db.
Proof. intros H. unfold refreshPrimaryGenerationObservation. wp; exact H. Qed.

Lemma follow_registerNode at_ identity registration policy expected admission db :
  nodes_follow db (run (registerNode lower_table at_ identity registration policy expected admission) db).1.
Proof.
  apply post_run; [apply nodes_follow_refl|]. unfold registerNode. apply ends_bind, ends_lift; [intros [[reg incoming] legacy] _|done].
  cbv zeta iota beta. apply ends_bind, ends_begin. set (db1 := (withLeaseSleepGap true (at_sample at_) db).2).
  apply (ends_mono _ (fun _ => nodes_follow db1) _ (fun _ => nodes_follow db1) _ (fun _ => True));
    [by intros ? ? Hf; apply (follow_begin at_) | by intros ? ? Hf; apply (follow_begin at_) | done|].
  apply (ends_seq (fun _ db' => db' = db1)); [unfold guardGenerationRegistration; by wp|]. intros _ ? ->.
  apply ends_bind. match goal with |- ends (reads ?f) ?Q _ _ ?s => change (Q (f s) s) end. cbv beta.
  apply (ends_seq (fun _ => nodes_follow db1)).
  { destruct (db_nodes db1 !! reg_NodeID reg) as [n|] eqn:En; wp.
    - apply nodes_follow_step. intros m Hm. rewrite En in Hm. injection Hm as <-.
      match goal with E : registration_observation _ _ _ _ _ = Ok _ |- _ => rename E into Ho end.
      apply apply_observation_follows; [done | done|]. intros Hb. by apply (registration_observation_advances _ _ _ _ _ _ Ho).
    - intros k n Hn. exists n. simpl. rewrite lookup_insert_ne by congruence. split; [done|]. split; [done | by right]. }
  intros [[change policy'] claims] db2 H2. cbv iota beta.
  apply (ends_seq (fun _ => nodes_follow db1)); [destruct (db_nodes db1 !! _); wp; looks|]. intros _ db3 H3.
  apply (ends_seq (fun _ => nodes_follow db1)); [wp; looks|]. intros _ db4 H4.
  apply (ends_seq (fun _ => nodes_follow db1)); [destruct (registration_condition _ _ _ _) as [[[? ?] ?]|]; wp; looks|]. intros _ db5 H5.
  apply (ends_seq (fun _ => nodes_follow db1)); [destruct (bool_decide _); wp; [done | by apply kept_validate]|]. intros _ db6 H6.
  apply (ends_seq (fun _ => nodes_follow db1)); [by apply follow_record|]. intros _ db7 H7.
  apply (ends_seq (fun _ => nodes_follow db1)); [by apply follow_refresh|]. intros _ db8 H8. wp. looks.
Qed.

Lemma follow_heartbeatNode at_ identity nodeID boot observation policy refresh db :
  nodes_follow db (run (heartbeatNode lower_table at_ identity nodeID boot observation policy refresh) db).1.
Proof.
  apply post_run; [apply nodes_follow_refl|]. unfold heartbeatNode. apply ends_bind, ends_check; [intros _|done].
  apply ends_bind, ends_begin. set (db1 := (withLeaseSleepGap true (at_sample at_) db).2).
  apply (ends_mono _ (fun _ => nodes_follow db1) _ (fun _ => nodes_follow db1) _ (fun _ => True));
    [by intros ? ? Hf; apply (follow_begin at_) | by intros ? ? Hf; apply (follow_begin at_) | done|].
  apply ends_bind, ends_need; [intros n Hn|done]. apply (ends_seq (fun _ db' => db' = db1)); [by wp|]. intros _ ? ->. cbv zeta.
  apply (ends_seq (fun o db' => db' = db1 /\ forall incoming change, o = Some (incoming, change) -> decide_observation incoming n = Ok change)).
  { destruct observation; wp; try done. split; [done|]. by intros ? ? [= <- <-]. }
  intros obs ? [-> Hobs]. apply (ends_seq (fun _ db' => db' = db1)); [destruct obs as [[incoming []]|]; wp; by try apply kept_validate|].
  intros _ ? ->. apply (ends_seq (fun _ => nodes_follow db1)).
  { wp. apply nodes_follow_step. intros m Hm. rewrite Hn in Hm. injection Hm as <-.
    destruct obs as [[incoming change]|]; [|by destruct (if refresh then _ else _); (split; [done | by right])].
    assert (Hc := decide_observation_advances _ _ _ (Hobs incoming change eq_refl)).
    destruct (if refresh then _ else _); by apply apply_observation_follows. }
  intros _ db2 H2. apply (ends_seq (fun _ => nodes_follow db1)); [destruct (if refresh then _ else _); wp; looks|].
  intros _ db3 H3. apply (ends_seq (fun _ => nodes_follow db1)); [destruct (bool_decide _); wp; looks|].
  intros _ db4 H4. apply (ends_seq (fun _ => nodes_follow db1)); [destruct obs as [[incoming []]|]; wp; looks|].
  intros _ db5 H5. apply (ends_seq (fun _ => nodes_follow db1)); [by apply follow_refresh|]. intros _ db6 H6. wp. looks.
Qed.

(** The candidate of a promotion has a boot session of its own. *)
Lemma follow_promote at_ identity nodeID request db :
  sessions_ok db -> nodes_follow db (run (PromoteNodeGeneration lower_table at_ identity nodeID request) db).1.
Proof.
  intros H. apply post_run; [apply nodes_follow_refl|]. set (db1 := (withLeaseSleepGap true (at_sample at_) db).2).
  assert (H1 : sessions_ok db1) by (eapply same_ok; [exact H | apply same_begin]).
  eapply ends_mono; [..|exact (post_promote lower_table at_ identity nodeID request db db1 (fun _ => nodes_follow db) eq_refl H1)]; [|done|done].
  cbv beta. intros inventory db' (db2 & n & gp & gc & T & Hp & _ & _ & _ & ->). apply (follow_begin at_). fold db1.
  destruct (pr_nodes _ _ _ _ _ _ _ Hp) as (f & Hf & Hid & Hs). assert (Hn := pr_node _ _ _ _ _ _ _ Hp).
  apply (nodes_follow_nodes _ (exec_node nodeID f db1)); [done|]. apply nodes_follow_step. intros m Hm. rewrite Hn in Hm. injection Hm as <-.
  split; [done|]. intros Hb. exfalso. injection Hs as Hb' _.
  destruct (pr_primary _ _ _ _ _ _ _ Hp) as (Hgp & Np & Rp & Hsp), (pr_candidate _ _ _ _ _ _ _ Hp) as (Hgc & Nc & Rc). injection Hsp as Hbp _.
  destruct (co_registration _ _ _ _ _ H1 gc Hgc) as (_ & _ & Eb).
  assert (gp = gc) as -> by (apply (co_boot _ _ _ _ _ H1); congruence). by rewrite Rp in Rc.
Qed.
End Nodes.

Lemma follow_untouched db db' : db_nodes db' = db_nodes db -> nodes_follow db db'.
Proof. intros E. apply (nodes_follow_nodes _ db); [done | apply nodes_follow_refl]. Qed.

(** Transactions that touch no node once begun. *)
Lemma follow_run at_ {R} (m : tx DB ErrorCode R R) db :
  (forall db1, db1 = (withLeaseSleepGap true (at_sample at_) db).2 ->
     post m (fun _ => nodes_follow db1) (fun _ => nodes_follow db1) db) -> nodes_follow db (run m db).1.
Proof.
  intros Hm. apply post_run; [apply nodes_follow_refl|]. eapply ends_mono; [..|by apply Hm]; [..|done];
    intros ? ? Hf; by apply (follow_begin at_).
Qed.

Lemma follow_stage lower_table at_ identity registration db :
  nodes_follow db (run (StageNodeGeneration lower_table at_ identity registration) db).1.
Proof.
  apply (follow_run at_). intros db1 ->. unfold StageNodeGeneration, requireGenerationIdentity. cbv zeta.
  apply ends_bind, ends_check; [intros _|done]. apply ends_bind, ends_check; [intros _|done].
  apply ends_bind, ends_lift; [intros incoming _|done]. apply ends_bind, ends_lift; [intros protocols _|done].
  apply ends_bind, ends_check; [intros _|done]. apply ends_bind, ends_begin. wp; by apply follow_untouched.
Qed.

Lemma follow_heartbeat_retiring at_ identity nodeID generation boot db :
  nodes_follow db (run (HeartbeatRetiringNodeGeneration at_ identity nodeID generation boot) db).1.
Proof.
  apply (follow_run at_). intros db1 ->. unfold HeartbeatRetiringNodeGeneration, requireGenerationIdentity.
  apply ends_bind, ends_begin. wp; by apply follow_untouched.
Qed.

Lemma follow_close at_ identity nodeID generation request db :
  nodes_follow db (run (CloseNodeGeneration at_ identity nodeID generation request) db).1.
Proof.
  apply (follow_run at_). intros db1 ->. unfold CloseNodeGeneration, requireGenerationIdentity. destruct (cg_Abort request) as [abort|].
  - unfold abortStagedGeneration, requireGenerationIdentity, replay_operation, finish_operation.
    apply ends_bind, ends_check; [intros _|done]. apply ends_bind, ends_begin. wp; by apply follow_untouched.
  - apply ends_bind, ends_begin. wp; by apply follow_untouched.
Qed.

Lemma follow_deenroll at_ identity nodeID r db : nodes_follow db (run (DeEnrollNodeGeneration at_ identity nodeID r) db).1.
Proof.
  apply (follow_run at_). intros db1 ->. unfold DeEnrollNodeGeneration, requireGenerationIdentity, replay_operation, finish_operation.
  apply ends_bind, ends_check; [intros _|done]. apply ends_bind, ends_begin. set (db1 := (withLeaseSleepGap true (at_sample at_) db).2).
  wp; try (by apply follow_untouched). set (f := fun n => n <| n_boot_session_id := _ |> <| n_authority_generation := _ |>).
  apply (nodes_follow_nodes _ (exec_node nodeID f db1)); [done|]. apply nodes_follow_step. intros n _. split; [done | by right].
Qed.

Lemma sessions_ok_empty : sessions_ok empty_db.
Proof. split; intros *; simpl; try (by intros ?%elem_of_nil). Qed.

Section Machine.
Context (env : environment).

Lemma advances_stays db db' : stays db db' -> sessions_ok db -> advances db db'.
Proof. intros Hs%stays_same H. eapply advances_same; [by apply advances_refl | done]. Qed.

Lemma step_advances db db' : step env db db' -> sessions_ok db -> advances db db'.
Proof.
  intros [Hs|[]]%step_stays H; eauto using advances_stays, advances_registerNode, advances_heartbeatNode, advances_stage, advances_promote,
    advances_heartbeat_retiring, advances_close, advances_deenroll.
Qed.

(** A property of stores that every step keeps holds in every later store. *)
Lemma steps_keep (P : DB -> Prop) db db' :
  (forall db1 db2, sessions_ok db1 -> advances db1 db2 -> P db1 -> P db2) ->
  rtc (step env) db db' -> sessions_ok db -> P db -> sessions_ok db' /\ P db'.
Proof.
  intros HP. induction 1 as [db|db db1 db2 Hstep _ IH]; intros H HPdb; [done|].
  assert (Ha := step_advances _ _ Hstep H). apply IH; [apply Ha | by eapply HP].
Qed.

Lemma reachable_sessions db : reachable env db -> sessions_ok db.
Proof. intros H. by apply (steps_keep (fun _ => True) empty_db db); [..|apply sessions_ok_empty|]. Qed.

Lemma follow_step db db' : step env db db' -> sessions_ok db -> nodes_follow db db'.
Proof.
  intros [Hs|[]]%step_stays H; eauto using stays_follow, follow_registerNode, follow_heartbeatNode, follow_stage, follow_promote,
    follow_heartbeat_retiring, follow_close, follow_deenroll.
Qed.

Lemma follow_identity db db' k n :
  nodes_follow db db' -> db_nodes db !! k = Some n -> exists n', db_nodes db' !! k = Some n' /\ n_identity_node_id n' = n_identity_node_id n.
Proof. intros H Hn. destruct (H k n Hn) as (n' & Hn' & Hi & _). eauto. Qed.

Lemma identity_permanent db db' k identity :
  sessions_ok db -> rtc (step env) db db' -> n_identity_node_id <$> db_nodes db !! k = Some identity ->
  n_identity_node_id <$> db_nodes db' !! k = Some identity.
Proof.
  intros H Hsteps. revert H. induction Hsteps as [db|db db1 db2 Hstep _ IH]; intros H Hid; [done|]. apply IH; [by apply (step_advances db)|].
  destruct (db_nodes db !! k) as [n|] eqn:En; [|done]. destruct (follow_identity _ _ _ _ (follow_step _ _ Hstep H) En) as (n' & -> & E).
  simpl in *. congruence.
Qed.

(** C21: a node keeps the identity it was first registered by.  No transaction
    removes a node or binds its stable name to another Fabric identity. *)
Theorem node_identity_is_permanent db db' k n :
  reachable env db -> rtc (step env) db db' -> db_nodes db !! k = Some n ->
  exists n', db_nodes db' !! k = Some n' /\ n_identity_node_id n' = n_identity_node_id n.
Proof.
  intros H%reachable_sessions Hsteps Hn.
  assert (Hid := identity_permanent db db' k (n_identity_node_id n) H Hsteps). rewrite Hn in Hid. specialize (Hid eq_refl).
  destruct (db_nodes db' !! k) as [n'|]; [|done]. exists n'. split; [done|]. by injection Hid.
Qed.

(** within a boot session the capabilities of a node only advance.  A step that
    leaves a node in its boot session, with a revision below the width of its column,
    leaves its capability observation as it is or replaces it by one of a higher
    revision; a delayed or repeated report never brings an older set back. *)
Theorem capabilities_only_advance db db' k n n' :
  reachable env db -> step env db db' -> db_nodes db !! k = Some n -> db_nodes db' !! k = Some n' ->
  n_boot_session_id n' = n_boot_session_id n -> n_capability_revision n < 2 ^ 63 ->
  n_capability_revision n < n_capability_revision n'
  \/ n_capability_revision n' = n_capability_revision n /\ n_capabilities n' = n_capabilities n
     /\ n_missing_capabilities n' = n_missing_capabilities n /\ n_capability_reason_code n' = n_capability_reason_code n.
Proof.
  intros H%reachable_sessions Hstep Hn Hn' Hb Hlt. destruct (follow_step _ _ Hstep H k n Hn) as (m & Hm & _ & Hf).
  rewrite Hn' in Hm. injection Hm as <-. destruct (Hf Hb Hlt) as [?|[= ? ? ? ?]]; [by left | by right].
Qed.
End Machine.

(** ** Witnesses *)
Definition fleet_observation : CapabilityObservation :=
  mkCapabilityObservation 2 [("kind:process", true)] 20 false [] "".
Definition fleet_beat : DB :=
  (run (heartbeatNode (fun r => r) (sample_instant 60) "id1" "n1" "b1" (Some fleet_observation) None false) fleet0).1.
Definition beat_node : NodeRow := default (sample_node "" "") (db_nodes fleet_beat !! "n1").

Lemma fleet0_reachable : reachable sample_env fleet0.
Proof. apply rtc_once, StepNode, (StepRegister sample_env). Qed.

Lemma node_identity_is_permanent_witness : exists n', db_nodes fleet_beat !! "n1" = Some n' /\ n_identity_node_id n' = "id1".
Proof.
  exact (node_identity_is_permanent sample_env fleet0 fleet_beat "n1" fleet_node fleet0_reachable
           (rtc_once _ _ (StepNode sample_env _ _ (StepHeartbeat sample_env _ _ _ _ _ _ _ _))) ltac:(vm_compute; reflexivity)).
Defined.

Lemma capabilities_only_advance_witness : n_capability_revision fleet_node < n_capability_revision beat_node.
Proof.
  destruct (capabilities_only_advance sample_env fleet0 fleet_beat "n1" fleet_node beat_node fleet0_reachable
              (StepNode sample_env _ _ (StepHeartbeat sample_env _ _ _ _ _ _ _ _)) ltac:(vm_compute; reflexivity)
              ltac:(vm_compute; reflexivity) ltac:(vm_compute; reflexivity) ltac:(vm_compute; reflexivity)) as [Hlt|(E & _)].
  - exact Hlt.
  - vm_compute in E. discriminate E.
Defined.
