(* ===== verification/NodeUpgrade.v ===== *)
(** * What an upgrade keeps and what it takes away

    The sessions of NodeSessions.v over the runs of the control plane: the
    invariant in every reachable store, a replaced session that never acts again,
    a promotion that keeps the running attempts, and operations that answer the
    same for ever. *)
From S2P Require Import Prelude Order States Contract GoStrings JobSpec L1Types NodeTypes RestartPolicy Database.
From S2P Require Import UpgradeCompat LeaseClock Authority Credentials Summaries Lifecycle Completion Placement LogRetention Logs Claim.
From S2P Require Import ServiceOperator Submit Reconcile LogPreservation NodeSessions SessionInvariant Promotion.
From S2P Require Import NodePreservation SessionFrame Machine NodeIdentity.
#[local] Open Scope string_scope.
#[local] Open Scope list_scope.
#[local] Open Scope Z_scope.

Section Upgrade.
Context (env : environment).
Abbreviation cfg := (env_cfg env).
Abbreviation lower_table := (env_lower_table env).

(** ** A session that is over *)
Definition spent (db : DB) (node boot : string) (authority : Z) : Prop :=
  exists b a, node_sessions db !! node = Some (b, a) /\ (authority < a \/ authority = a /\ boot <> b).

(** A generation past every role that can act. *)
Definition ended (g : GenerationRow) : Prop :=
  g_role g <> NodeGenerationStaged /\ g_role g <> NodeGenerationPrimary /\ g_role g <> NodeGenerationRetiring.

(** The node has moved on from the session, and what the session left behind for
    the attempt has ended. *)
Definition over (db : DB) (id node boot : string) (authority : Z) : Prop :=
  spent db node boot authority
  /\ forall r, r ∈ db_residents db -> r_attempt_id r = id -> r_node_id r = node -> r_boot_session_id r = boot ->
       r_authority_generation r = authority ->
       exists g, g ∈ db_generations db /\ key g = (node, r_generation_id r) /\ ended g.

Lemma ended_rank g : ended g <-> 3 <= role_rank (g_role g).
Proof.
  unfold ended, role_rank. repeat case_bool_decide; split; try lia; try (intros (? & ? & ?); done). done.
Qed.

Lemma spent_advances db db' node boot authority : moves db db' -> spent db node boot authority -> spent db' node boot authority.
Proof.
  intros M (b & a & E & H). destruct (mv_sessions _ _ M _ _ _ E) as (b' & a' & E' & Hc). exists b', a'. split; [done|].
  destruct Hc as [[-> ->]|Hlt]; [done|]. left. lia.
Qed.

Lemma over_advances db db' id node boot authority : moves db db' -> over db id node boot authority -> over db' id node boot authority.
Proof.
  intros M [Hs Hr]. split; [by eapply spent_advances|]. destruct (mv_residents _ _ M) as (new & -> & Hnew). rewrite Forall_forall in Hnew.
  intros r [Hin|Hin]%elem_of_app Ei En Eb Ea.
  - destruct (Hr r Hin Ei En Eb Ea) as (g & Hg & Kg & Eg%ended_rank). destruct (mv_onward _ _ M g Hg) as (g' & Hg' & Kg' & Rg').
    exists g'. split_and!; [done | congruence|]. apply ended_rank. lia.
  - exfalso. specialize (Hnew r Hin). rewrite En, Eb, Ea in Hnew. destruct Hs as (b & a & E & Hs). rewrite E in Hnew. injection Hnew as -> ->.
    destruct Hs as [?|[_ ?]]; [lia | done].
Qed.

Lemma over_unauthorized db id a :
  sessions_ok db -> over db id (a_node_id a) (a_boot_session_id a) (a_authority_generation a) -> retiringAttemptAuthority db id a = false.
Proof.
  intros H [_ Hr]. apply not_true_iff_false. unfold retiringAttemptAuthority. rewrite existsb_exists.
  intros (r & Hin%list_elem_of_In & [Hres Hex]%andb_true_iff). apply existsb_exists in Hex as (h & Hh%list_elem_of_In & Hs).
  unfold resident_of in Hres. unfold retiring_session in Hs. rewrite !andb_true_iff, !bool_decide_eq_true, ?Z.eqb_eq in Hres, Hs.
  destruct Hres as (((((Ei & En) & _) & Eb) & Ea) & _), Hs as (((((Hn & Hg) & Hrole) & _) & _) & _).
  destruct (Hr r Hin Ei En Eb Ea) as (g & Hgin & Kg & (_ & _ & Ne)). apply Ne.
  rewrite (co_key _ _ _ _ _ H g h Hgin Hh); [exact Hrole|]. rewrite Kg. unfold key. congruence.
Qed.

(** What an attempt of such a session is told. *)
Lemma over_refused db id a att identity jobID token :
  sessions_ok db -> db_attempts db !! id = Some a -> read_authority id db = Some att ->
  over db id (a_node_id a) (a_boot_session_id a) (a_authority_generation a) ->
  exists e, validateAttemptAuthority identity jobID id token att = Err e.
Proof.
  intros H Ha Hr Ho. unfold read_authority in Hr. rewrite Ha in Hr.
  destruct (db_jobs db !! a_job_id a) as [j|]; [|done]. destruct (db_nodes db !! a_node_id a) as [n|] eqn:En; [|done]. injection Hr as <-.
  unfold validateAttemptAuthority. simpl. rewrite (over_unauthorized db id a H Ho). simpl.
  destruct Ho as [(b & c & E & Hs) _]. unfold node_sessions in E. rewrite lookup_fmap, En in E. injection E as Eb Ec.
  assert (Hne : negb (bool_decide (a_boot_session_id a = n_boot_session_id n))
                || negb (a_authority_generation a =? n_authority_generation n) = true).
  { rewrite orb_true_iff, !negb_true_iff, bool_decide_eq_false, Z.eqb_neq. destruct Hs as [Hlt|[_ Hne]]; [right; lia | left; congruence]. }
  rewrite Hne. repeat case_match; eauto.
Qed.


(** C11: the sessions of a node are sound in every reachable store.  A node has at
    most one primary generation, which holds the node's current session; every
    generation has its own boot session; a retiring generation is older than the
    node's session; and every resident attempt belongs to one generation that is
    retiring or closed and whose session it carries, and to no other. *)
Theorem reachable_sessions_are_sound db g :
  reachable env db -> g ∈ db_generations db ->
  (g_role g = NodeGenerationPrimary -> exists n, db_nodes db !! g_node_id g = Some n
     /\ n_boot_session_id n = g_boot_session_id g /\ n_authority_generation n = g_authority_generation g)
  /\ (g_role g = NodeGenerationRetiring -> exists n, db_nodes db !! g_node_id g = Some n /\ g_authority_generation g < n_authority_generation n)
  /\ (forall h, h ∈ db_generations db -> g_node_id h = g_node_id g ->
        g_boot_session_id h = g_boot_session_id g \/ g_role g = NodeGenerationPrimary /\ g_role h = NodeGenerationPrimary -> h = g)
  /\ (forall r, r ∈ db_residents db -> r_node_id r = g_node_id g -> r_generation_id r = g_generation_id g ->
        (g_role g = NodeGenerationRetiring \/ g_role g = NodeGenerationClosed) /\ r_boot_session_id r = g_boot_session_id g
        /\ r_authority_generation r = g_authority_generation g
        /\ forall r', r' ∈ db_residents db -> r_attempt_id r' = r_attempt_id r -> r' = r).
Proof.
  intros H%reachable_sessions Hg. split_and!.
  - intros Hr. apply (node_sessions_lookup db). by apply (co_primary _ _ _ _ _ H).
  - intros Hr. destruct (co_node _ _ _ _ _ H g Hg) as [[b a] E]. assert (Hlt := co_older _ _ _ _ _ H g b a Hg Hr E).
    destruct (node_sessions_lookup _ _ _ _ E) as (n & Hn & _ & Ha). exists n. split; [done | lia].
  - intros h Hh Hn [Eb|[Rg Rh]]; [by apply (co_boot _ _ _ _ _ H) | by apply (co_one _ _ _ _ _ H)].
  - intros r Hr En Eg. destruct (co_resident _ _ _ _ _ H r Hr) as (h & Hh & Kh & Rh & Bh & Ah).
    assert (h = g) as -> by (apply (co_key _ _ _ _ _ H); [done | done | unfold key in *; congruence]).
    split_and!; [done | done | done|]. intros r' Hr' E. by apply (co_resident_once _ _ _ _ _ H).
Qed.

(** ** A promotion keeps the running attempts *)
Lemma promote_run at_ identity nodeID request db db' inventory (db1 := (withLeaseSleepGap true (at_sample at_) db).2) :
  sessions_ok db -> run (PromoteNodeGeneration lower_table at_ identity nodeID request) db = (db', Ok inventory) ->
  db' = db \/ exists db2 n gp gc T operation, promoted nodeID db1 db2 n gp gc T /\ g_generation_id gc = pg_CandidateGenerationID request
    /\ db' = record_operation nodeID (pg_OperationID request) operation (OperationInventory inventory) db2.
Proof.
  intros H Hrun. assert (H1 : sessions_ok db1) by (eapply same_ok; [exact H | apply same_begin]).
  assert (Hp := post_promote lower_table at_ identity nodeID request db db1 (fun _ _ => False) eq_refl H1).
  unfold run in Hrun. unfold ends in Hp. destruct (PromoteNodeGeneration _ _ _ _ _ db) as [inv d|r d|r]; [|done|by injection Hrun; left].
  injection Hrun as <- <-. right. destruct Hp as (db2 & n & gp & gc & T & Hp & _ & _ & Hid & ->). by eexists db2, n, gp, gc, T, _.
Qed.

Lemma primary_system_boot_of db g :
  sessions_ok db -> g ∈ db_generations db -> g_role g = NodeGenerationPrimary -> primary_system_boot db (g_node_id g) = g_system_boot_id g.
Proof.
  intros H Hg Hr. unfold primary_system_boot. destruct (List.find _ _) as [h|] eqn:Ef.
  - apply find_Some in Ef as [Hh Hp]. rewrite andb_true_iff, !bool_decide_eq_true in Hp. destruct Hp as [Hn Hrole].
    by rewrite (co_one _ _ _ _ _ H h g).
  - apply (find_None _ _ _ Ef) in Hg. by rewrite !bool_decide_eq_true_2 in Hg.
Qed.

Lemma no_primary_system_boot db node :
  (forall g, g ∈ db_generations db -> g_node_id g = node -> g_role g <> NodeGenerationPrimary) -> primary_system_boot db node = "".
Proof.
  intros Hn. unfold primary_system_boot. destruct (List.find _ _) as [h|] eqn:Ef; [|done].
  apply find_Some in Ef as [Hh Hp]. rewrite andb_true_iff, !bool_decide_eq_true in Hp. destruct Hp. by destruct (Hn h Hh).
Qed.

Section Promoted.
Context (nodeID : string) (db db' : DB) (n : NodeRow) (gp gc : GenerationRow) (T : GenerationRow -> GenerationRow).
Context (Hp : promoted nodeID db db' n gp gc T) (H : sessions_ok db).

Lemma promoted_elem g : g ∈ db_generations db -> T g ∈ db_generations db'.
Proof. intros Hg. rewrite (pr_generations _ _ _ _ _ _ _ Hp). apply elem_of_map. eauto. Qed.

(** The system boot of the cohort is the candidate's. *)
Lemma promoted_boot g :
  g ∈ db_generations db -> g_role g = NodeGenerationRetiring \/ g = gp -> g_system_boot_id gc <> "" ->
  (g_node_id g <> nodeID -> g_system_boot_id g = primary_system_boot db (g_node_id g)) ->
  g_system_boot_id (T g) = primary_system_boot db' (g_node_id g).
Proof.
  intros Hg Hr Hsys Helse. assert (H' := promoted_ok _ _ _ _ _ _ _ Hp H).
  destruct (pr_primary _ _ _ _ _ _ _ Hp) as (Hgp & Np & Rp & _), (pr_candidate _ _ _ _ _ _ _ Hp) as (Hgc & Nc & Rc).
  destruct (promoted_cases _ _ _ _ _ _ _ gc Hp H Hgc) as (Lc & _ & Hcc).
  assert (Hprim : g_role (T gc) = NodeGenerationPrimary).
  { destruct Hcc as [(-> & _)|[(_ & -> & _)|(E & _)]]; [by rewrite Rp in Rc | done|].
    destruct (pr_rows _ _ _ _ _ _ _ Hp gc Hgc) as (_ & _ & _ & Hc & _). by apply Hc. }
  destruct (decide (g_node_id g = nodeID)) as [En|Ne].
  - rewrite (pr_system _ _ _ _ _ _ _ Hp g Hg En Hsys) by (destruct Hr as [?| ->]; auto).
    rewrite <- (pr_system _ _ _ _ _ _ _ Hp gc Hgc Nc Hsys) by auto. rewrite En, <- Nc.
    rewrite <- (proj1 (relabel_node _ _ Lc)). symmetry. apply primary_system_boot_of; [done | by apply promoted_elem | done].
  - rewrite (pr_elsewhere _ _ _ _ _ _ _ Hp g Hg Ne), (Helse Ne).
    destruct (decide (Exists (fun h => g_node_id h = g_node_id g /\ g_role h = NodeGenerationPrimary) (db_generations db))) as [Hex|Hno].
    + apply Exists_exists in Hex as (h & Hh & Hnh & Rh). rewrite <- Hnh.
      destruct (promoted_cases _ _ _ _ _ _ _ h Hp H Hh) as (Lh & _ & Hch).
      rewrite primary_system_boot_of, <- (pr_elsewhere _ _ _ _ _ _ _ Hp h Hh) by (congruence || done).
      rewrite <- (proj1 (relabel_node _ _ Lh)). symmetry. apply primary_system_boot_of; [done | by apply promoted_elem|].
      destruct Hch as [(-> & _)|[(-> & _)|(-> & _)]]; [congruence.. | done].
    + assert (Hnone : forall d (G : db_generations d = db_generations db \/ d = db'), primary_system_boot d (g_node_id g) = "").
      { intros d Hd. apply no_primary_system_boot. intros h' Hh' Hn' Rh'. destruct Hd as [Hd| ->].
        - apply Hno, Exists_exists. exists h'. rewrite <- Hd. done.
        - rewrite (pr_generations _ _ _ _ _ _ _ Hp) in Hh'. apply elem_of_map in Hh' as (h & Hh & ->).
          destruct (promoted_cases _ _ _ _ _ _ _ h Hp H Hh) as (Lh & _ & Hch). rewrite (proj1 (relabel_node _ _ Lh)) in Hn'.
          destruct Hch as [(-> & _)|[(-> & _)|(E & _)]]; [congruence.. |]. apply Hno, Exists_exists. exists h. by rewrite <- E. }
      rewrite !Hnone; auto.
Qed.

(** An attempt held by [r] in the generation [g] acts through it. *)
Lemma retiring_authority d id a r g :
  r ∈ db_residents d -> resident_of id a r = true -> g ∈ db_generations d -> key g = (r_node_id r, r_generation_id r) ->
  g_role g = NodeGenerationRetiring -> g_boot_session_id g = a_boot_session_id a -> g_authority_generation g = a_authority_generation a ->
  g_system_boot_id g = primary_system_boot d (g_node_id g) -> retiringAttemptAuthority d id a = true.
Proof.
  intros Hr Hres Hg Kg Rg Bg Ag Sg. unfold retiringAttemptAuthority. apply existsb_exists. exists r. split; [by apply list_elem_of_In|].
  rewrite Hres. simpl. apply existsb_exists. exists g. split; [by apply list_elem_of_In|]. unfold retiring_session.
  rewrite !andb_true_iff, !bool_decide_eq_true, Z.eqb_eq. injection Kg as Kn Kgen. done.
Qed.

Lemma retiring_authority_inv d id a :
  retiringAttemptAuthority d id a = true -> exists r g, r ∈ db_residents d /\ resident_of id a r = true /\ g ∈ db_generations d
    /\ key g = (r_node_id r, r_generation_id r) /\ g_role g = NodeGenerationRetiring /\ g_boot_session_id g = a_boot_session_id a
    /\ g_authority_generation g = a_authority_generation a /\ g_system_boot_id g = primary_system_boot d (g_node_id g).
Proof.
  unfold retiringAttemptAuthority. rewrite existsb_exists. intros (r & Hr%list_elem_of_In & [Hres Hex]%andb_true_iff).
  apply existsb_exists in Hex as (g & Hg%list_elem_of_In & Hs). unfold retiring_session in Hs.
  rewrite !andb_true_iff, !bool_decide_eq_true, Z.eqb_eq in Hs. destruct Hs as (((((Hn & Hgen) & Hrole) & Hb) & Ha) & Hsys).
  exists r, g. unfold key. rewrite Hn, Hgen in *. by split_and!.
Qed.

Lemma promoted_survivor id a :
  g_system_boot_id gc <> "" -> retiringAttemptAuthority db id a = true -> retiringAttemptAuthority db' id a = true.
Proof.
  intros Hsys (r & g & Hr & Hres & Hg & Kg & Rg & Bg & Ag & Sg)%retiring_authority_inv.
  destruct (pr_primary _ _ _ _ _ _ _ Hp) as (_ & _ & Rp & _), (pr_candidate _ _ _ _ _ _ _ Hp) as (_ & _ & Rc).
  destruct (promoted_cases _ _ _ _ _ _ _ g Hp H Hg) as ([Kt Bt _] & _ & Hc).
  destruct Hc as [(-> & _)|[(-> & _)|(Et & At & _)]]; [by rewrite Rp in Rg | by rewrite Rc in Rg|].
  apply (retiring_authority db' id a r (T g)); try congruence.
  - rewrite (pr_residents _ _ _ _ _ _ _ Hp). apply elem_of_app. by left.
  - by apply promoted_elem.
  - assert (Hn : g_node_id (T g) = g_node_id g) by (unfold key in Kt; congruence). rewrite Hn. apply promoted_boot; auto.
Qed.

Lemma promoted_resident id a :
  g_system_boot_id gc <> "" -> db_attempts db !! id = Some a -> a_node_id a = nodeID -> active_attempt (a_state a) = true ->
  a_boot_session_id a = n_boot_session_id n -> a_authority_generation a = n_authority_generation n -> retiringAttemptAuthority db' id a = true.
Proof.
  intros Hsys Ha Hn Hact Hb Hauth. destruct (pr_primary _ _ _ _ _ _ _ Hp) as (Hgp & Np & Rp & Hs). injection Hs as Hbp Hap.
  destruct (promoted_cases _ _ _ _ _ _ _ gp Hp H Hgp) as ([Kt Bt _] & _ & Hc).
  assert (Et : g_role (T gp) = NodeGenerationRetiring /\ g_authority_generation (T gp) = n_authority_generation n).
  { destruct (pr_rows _ _ _ _ _ _ _ Hp gp Hgp) as (_ & _ & Hr & _). destruct (Hr eq_refl) as [-> ->]. by rewrite Hap. }
  set (x := mkResidentAttempt (a_job_id a) id (a_boot_session_id a) (a_authority_generation a) (a_fencing_token a)).
  apply (retiring_authority db' id a (resident_row nodeID (g_generation_id gp) x) (T gp)); try (simpl; congruence).
  - rewrite (pr_residents _ _ _ _ _ _ _ Hp). apply elem_of_app. right. apply elem_of_map. exists x. split; [|done].
    apply primary_resident. exists a. by split_and!.
  - unfold resident_of. simpl. rewrite !andb_true_iff, !bool_decide_eq_true, Z.eqb_eq. done.
  - by apply promoted_elem.
  - rewrite Kt. unfold key. by rewrite Np.
  - apply Et.
  - rewrite (proj2 Et). congruence.
  - assert (Hng : g_node_id (T gp) = g_node_id gp) by (unfold key in Kt; congruence). rewrite Hng. apply promoted_boot; auto. congruence.
Qed.
End Promoted.

(** The authority of an attempt reads what the transaction keeps. *)
Lemma begin_authority at_ id db att (db1 := (withLeaseSleepGap true (at_sample at_) db).2) :
  read_authority id db = Some att -> exists a1 n1 j, db_attempts db1 !! id = Some a1 /\ db_nodes db1 !! a_node_id a1 = Some n1
    /\ db_jobs db1 !! a_job_id a1 = Some j /\ a_state a1 = aa_state att
    /\ forall identity jobID token, validateAttemptAuthority identity jobID id token (authority_of db1 id a1 j n1)
                                  = validateAttemptAuthority identity jobID id token att.
Proof.
  unfold read_authority. destruct (db_attempts db !! id) as [a|] eqn:Ha; [|done]. destruct (db_jobs db !! a_job_id a) as [j|] eqn:Hj; [|done].
  destruct (db_nodes db !! a_node_id a) as [n|] eqn:Hn; [|done]. intros [= <-].
  destruct (sleep_gap_rows true (at_sample at_) db) as (f & h & Ef & Eh & Hf & Hh). fold db1 in Ef, Eh.
  destruct (Hf a) as (x & y & Fa), (Hh n) as (z & Fn). exists (f a), (h n), j.
  assert (Hjobs : db_jobs db1 = db_jobs db).
  { unfold db1. destruct (sleep_gap_frame true (at_sample at_) db) as (? & ? & ? & ->). done. }
  assert (Hret : retiringAttemptAuthority db1 id (f a) = retiringAttemptAuthority db id a).
  { destruct (same_begin at_ db) as [_ G R _ _]. fold db1 in G, R.
    unfold retiringAttemptAuthority, retiring_session, primary_system_boot. by rewrite R, G, Fa. }
  split_and!.
  - by rewrite Ef, lookup_fmap, Ha.
  - rewrite Eh, lookup_fmap, Fa. simpl. by rewrite Hn.
  - by rewrite Hjobs, Fa.
  - by rewrite Fa.
  - intros identity jobID token. unfold validateAttemptAuthority. simpl. rewrite Hret, Fa, Fn. done.
Qed.

Lemma validate_ok identity jobID id token att :
  validateAttemptAuthority identity jobID id token att = Ok tt <->
  aa_identityNodeID att = identity /\ aa_jobID att = jobID /\ aa_attemptID att = id /\ aa_currentAttempt att = Some id
  /\ aa_fencingToken att = token /\ (aa_retiringSessionAuthorized att = true
      \/ aa_bootSessionID att = aa_currentBootSessionID att /\ aa_authorityGeneration att = aa_currentAuthorityGeneration att).
Proof.
  unfold validateAttemptAuthority. split.
  - do 5 (case_bool_decide; simpl; [|discriminate]). destruct (aa_retiringSessionAuthorized att); simpl; [by auto 8|].
    case_bool_decide; simpl; [|discriminate]. destruct (Z.eqb_spec (aa_authorityGeneration att) (aa_currentAuthorityGeneration att)); simpl;
      [by auto 8 | discriminate].
  - intros (E1 & E2 & E3 & E4 & E5 & E6). rewrite !bool_decide_eq_true_2 by done. simpl.
    destruct E6 as [->|[E6 E7]]; [done|]. rewrite (bool_decide_eq_true_2 _ E6), E7, Z.eqb_refl. by destruct (aa_retiringSessionAuthorized att).
Qed.

(** C10: a promotion keeps the authority of every running attempt.  If the request
    is answered with an inventory and the candidate has reported the boot of its
    system, an active attempt that its node could write for before, in the session
    that retires or in one that retired earlier, can still be written for. *)
Theorem promotion_keeps_running_attempts db at_ identity nodeID request db' inventory id att caller jobID token :
  reachable env db -> run (PromoteNodeGeneration lower_table at_ identity nodeID request) db = (db', Ok inventory) ->
  default "" (g_system_boot_id <$> generation_row db nodeID (pg_CandidateGenerationID request)) <> "" ->
  read_authority id db = Some att -> active_attempt (aa_state att) = true ->
  validateAttemptAuthority caller jobID id token att = Ok tt ->
  exists att', read_authority id db' = Some att' /\ aa_state att' = aa_state att
    /\ validateAttemptAuthority caller jobID id token att' = Ok tt.
Proof.
  intros H%reachable_sessions Hrun Hcand Hatt Hact Hv.
  apply (promote_run _ _ _ _ _ _ _ H) in Hrun as [->|(db2 & n & gp & gc & T & operation & Hp & Hid & ->)]; [by exists att|].
  assert (Hsame := same_begin at_ db). destruct (begin_authority at_ id db att Hatt) as (a & m & j & Ha & Hm & Hj & Hst & Hval).
  set (db1 := (withLeaseSleepGap true (at_sample at_) db).2) in *. assert (H1 : sessions_ok db1) by (by eapply same_ok).
  assert (Hsys : g_system_boot_id gc <> "").
  { destruct (pr_candidate _ _ _ _ _ _ _ Hp) as (Hgc & Nc & _). unfold generation_row in Hcand. rewrite <- (ss_generations _ _ Hsame) in Hcand.
    destruct (List.find _ _) as [g|] eqn:Ef; [|done]. apply find_Some in Ef as [Hg Kg%of_generation_key].
    rewrite (co_key _ _ _ _ _ H1 gc g Hgc Hg); [done|]. rewrite Kg. unfold key. congruence. }
  rewrite <- Hval in Hv. apply validate_ok in Hv as (E1 & E2 & E3 & E4 & E5 & E6). simpl in *.
  destruct (pr_nodes _ _ _ _ _ _ _ Hp) as (f & Hf & Hfid & _). assert (Hn := pr_node _ _ _ _ _ _ _ Hp).
  set (m' := if decide (a_node_id a = nodeID) then f m else m).
  set (db3 := record_operation _ _ _ _ db2).
  exists (authority_of db3 id a j m'). split_and!; [|done|].
  - unfold read_authority. simpl. rewrite (pr_attempts _ _ _ _ _ _ _ Hp), Ha, (pr_jobs _ _ _ _ _ _ _ Hp), Hj, Hf. unfold m'.
    destruct (decide (a_node_id a = nodeID)) as [E|N]; [rewrite E in *; by rewrite lookup_alter_eq, Hm | by rewrite lookup_alter_ne, Hm].
  - apply validate_ok. simpl. assert (Hm' : n_identity_node_id m' = n_identity_node_id m).
    { unfold m'. destruct (decide _) as [E|]; [|done]. rewrite E, Hn in Hm. by injection Hm as <-. }
    split_and!; try done; [congruence|]. destruct E6 as [Hr|[Eb Ea]].
    + left. exact (promoted_survivor _ _ _ _ _ _ _ Hp H1 id a Hsys Hr).
    + destruct (decide (a_node_id a = nodeID)) as [E|N]; [|right; unfold m'; by destruct (decide (a_node_id a = nodeID))].
      left. rewrite E, Hn in Hm. injection Hm as <-. apply (promoted_resident _ _ _ _ _ _ _ Hp H1 id a Hsys Ha E); congruence.
Qed.

(** ** Operations answer the same for ever *)
Definition refuses {R} (r : result ErrorCode R) : Prop := exists e, r = Err e.

Lemma ends_residents nodeID generation residents db (Q : unit -> DB -> Prop) (K : result ErrorCode NodeGenerationInventory -> DB -> Prop) :
  (forall db', Q tt db') -> ends (insert_residents nodeID generation residents) Q K refuses db.
Proof. intros HQ. revert db. induction residents as [|r residents IH]; intros db; simpl; wp; first [apply IH | by eexists | apply HQ]. Qed.

Lemma ends_survivors nodeID systemBoot l db (Q : unit -> DB -> Prop) (K : result ErrorCode NodeGenerationInventory -> DB -> Prop) :
  (forall db', Q tt db') -> ends (bind_survivors nodeID systemBoot l) Q K refuses db.
Proof. intros HQ. revert db. induction l as [|e l IH]; intros db; simpl; wp; first [apply IH | by eexists | apply HQ]. Qed.

Lemma ledger_grows db db' :
  rtc (step env) db db' -> sessions_ok db -> db_generation_operations db ⊆ db_generation_operations db'.
Proof.
  intros Hsteps H. apply (steps_keep env (fun d => db_generation_operations db ⊆ db_generation_operations d) db db'); [|done..].
  intros d1 d2 _ [_ M] Hd. etrans; [exact Hd | apply M].
Qed.

(** The identity a node is bound to. *)
Definition bound (db : DB) (nodeID : string) : option string := n_identity_node_id <$> db_nodes db !! nodeID.

Lemma begin_bound at_ nodeID db : bound (withLeaseSleepGap true (at_sample at_) db).2 nodeID = bound db nodeID.
Proof.
  unfold bound. destruct (sleep_gap_rows true (at_sample at_) db) as (_ & h & _ & -> & _ & Hh). rewrite lookup_fmap.
  destruct (db_nodes db !! nodeID) as [n|]; [|done]. simpl. by destruct (Hh n) as [? ->].
Qed.

Lemma ends_identity nodeID identity db Q K (X : result ErrorCode NodeGenerationInventory -> Prop) :
  (bound db nodeID = Some identity -> Q tt db) ->
  (bound db nodeID <> Some identity -> forall e, e <> ErrorDeEnrollmentNotCommitted -> X (Err e)) ->
  ends (requireGenerationIdentity nodeID identity) Q K X db.
Proof.
  intros HQ HX. unfold requireGenerationIdentity. unfold bound in *.
  apply ends_bind, ends_need; [intros n Hn | intros Hn]; rewrite Hn in HQ, HX; simpl in *; [|by apply HX].
  apply ends_check; [intros E%bool_decide_eq_true; apply HQ; congruence | intros E%bool_decide_eq_false; apply HX; [congruence | done]].
Qed.

(** The request as the ledger keeps it. *)
Definition canonical_promotion (request : PromoteNodeGenerationRequest) : PromoteNodeGenerationRequest :=
  request <| pg_ResidentAttempts := canonicalResidents (pg_ResidentAttempts request) |>
          <| pg_RetiringGenerationIDs := sort_strings (pg_RetiringGenerationIDs request) |>.

Definition promotion_recorded (nodeID : string) (request : PromoteNodeGenerationRequest) (db : DB) (inventory : NodeGenerationInventory) : Prop :=
  db_generation_operations db !! (nodeID, pg_OperationID request)
    = Some (PromoteOperation (canonical_promotion request), OperationInventory inventory).

Lemma replay_recorded nodeID op_key operation db Q K (X : result ErrorCode NodeGenerationInventory -> Prop) :
  (db_generation_operations db !! (nodeID, op_key) = None -> Q tt db) ->
  (forall inventory, db_generation_operations db !! (nodeID, op_key) = Some (operation, OperationInventory inventory) -> X (Ok inventory)) ->
  (db_generation_operations db !! (nodeID, op_key) = Some (operation, OperationRefused) -> X (Err ErrorDeEnrollmentNotCommitted)) ->
  (forall previous outcome, db_generation_operations db !! (nodeID, op_key) = Some (previous, outcome) -> previous <> operation ->
     X (Err ErrorConflict)) -> ends (replay_operation nodeID op_key operation) Q K X db.
Proof.
  intros HQ Hok Href Herr. unfold replay_operation. apply ends_bind.
  match goal with |- ends (reads ?f) ?Q' _ _ ?s => change (Q' (f s) s) end. cbv beta.
  destruct (db_generation_operations db !! (nodeID, op_key)) as [[previous outcome]|] eqn:E; [|by apply HQ].
  apply ends_bind, ends_check; [intros Hp%bool_decide_eq_true; subst previous|intros Hp%bool_decide_eq_false; by eapply Herr].
  destruct outcome; [by apply Hok | by apply Href].
Qed.

Lemma record_lookup nodeID op_key operation outcome db :
  db_generation_operations (record_operation nodeID op_key operation outcome db) !! (nodeID, op_key) = Some (operation, outcome).
Proof. apply lookup_insert_eq. Qed.

Lemma promote_records at_ identity nodeID request db
    (accepted := valid_promotion request = true /\ bound db nodeID = Some identity) :
  ends (PromoteNodeGeneration lower_table at_ identity nodeID request)
    (fun inventory db' => accepted /\ promotion_recorded nodeID request db' inventory) (fun _ _ => False)
    (fun r => forall inventory, r = Ok inventory -> accepted /\ promotion_recorded nodeID request db inventory) db.
Proof.
  unfold PromoteNodeGeneration. cbv zeta. fold (canonical_promotion request). apply ends_bind, ends_check; [intros Hvalid|done].
  apply ends_bind, ends_begin. assert (HO := ss_ledger _ _ (same_begin at_ db)). assert (HB := begin_bound at_ nodeID db).
  set (db1 := (withLeaseSleepGap true (at_sample at_) db).2) in *.
  apply ends_bind, ends_identity; [rewrite HB; intros Hid|done]. assert (Hacc : accepted) by done.
  apply ends_bind, replay_recorded; [intros Hnew; clear HO | |done|done].
  2: { intros inventory E ? [= <-]. split; [done|]. unfold promotion_recorded. by rewrite <- HO. }
  wp; try done.
  all: apply (ends_mono _ (fun _ _ => True) _ (fun _ _ => False) _ refuses);
    [intros _ db2 _ | done | by intros ? [? ->] | by apply ends_residents].
  all: unfold finish_operation; wp; try done; try (split; [done | apply record_lookup]).
  apply (ends_mono _ (fun _ _ => True) _ (fun _ _ => False) _ refuses); [intros _ db3 _ | done | by intros ? [? ->] | by apply ends_survivors].
  wp; try done. split; [done | apply record_lookup].
Qed.

(** What is answered when the ledger holds the operation. *)
Definition recorded_answer (outcome : operation_outcome) : result ErrorCode NodeGenerationInventory :=
  match outcome with OperationInventory inventory => Ok inventory | OperationRefused => Err ErrorDeEnrollmentNotCommitted end.

Lemma replay_answers at_ identity nodeID op_key operation outcome db (m : generation_tx NodeGenerationInventory) :
  bound db nodeID = Some identity -> db_generation_operations db !! (nodeID, op_key) = Some (operation, outcome) ->
  run (let! _ := beginWriteTransaction at_ in let! _ := requireGenerationIdentity nodeID identity in
       let! _ := replay_operation nodeID op_key operation in m) db = (db, recorded_answer outcome).
Proof.
  intros Hid HO. rewrite (surjective_pairing (run _ db)). apply (ends_run _ (fun db' r => (db', r) = (db, recorded_answer outcome))).
  apply ends_bind, ends_begin. rewrite <- (begin_bound at_) in Hid. rewrite <- (ss_ledger _ _ (same_begin at_ db)) in HO.
  set (db1 := (withLeaseSleepGap true (at_sample at_) db).2) in *.
  apply ends_bind, ends_identity; [intros _|done]. apply ends_bind, replay_recorded; rewrite HO; try done.
  - by intros inventory [= ->].
  - by intros [= ->].
  - by intros ? ? [= -> ->].
Qed.

(** a promotion is answered once.  When a promotion is answered with an
    inventory, the same request from the same caller, however much later and
    whatever happened in between, gets that inventory again and changes nothing. *)
Theorem promotion_is_answered_once db at1 identity nodeID request db1 inventory db2 at2 :
  reachable env db -> run (PromoteNodeGeneration lower_table at1 identity nodeID request) db = (db1, Ok inventory) ->
  rtc (step env) db1 db2 ->
  run (PromoteNodeGeneration lower_table at2 identity nodeID request) db2 = (db2, Ok inventory).
Proof.
  intros H%reachable_sessions Hrun Hsteps.
  assert (Hrec : (valid_promotion request = true /\ bound db nodeID = Some identity) /\ promotion_recorded nodeID request db1 inventory).
  { assert (Hp := promote_records at1 identity nodeID request db). unfold run in Hrun. unfold ends in Hp.
    destruct (PromoteNodeGeneration _ _ _ _ _ db); [by injection Hrun as <- <- | done | injection Hrun as <- ->; by apply Hp]. }
  destruct Hrec as [[Hvalid Hid] HO].
  assert (Hstep : step env db db1) by (change db1 with (db1, Ok inventory : result ErrorCode _).1; rewrite <- Hrun; apply StepNode, StepPromote).
  unfold PromoteNodeGeneration. rewrite Hvalid. cbv zeta. fold (canonical_promotion request).
  eapply (replay_answers at2 identity nodeID (pg_OperationID request) _ (OperationInventory inventory)).
  - eapply identity_permanent; [exact H | by eapply rtc_l | exact Hid].
  - eapply lookup_weaken; [exact HO|]. apply ledger_grows; [done|]. by apply (step_advances env db).
Qed.

Lemma deenroll_records at_ identity nodeID r db
    (refused := fun d => (deenrollment_guard r = true /\ bound db nodeID = Some identity)
                 /\ db_generation_operations d !! (nodeID, "de-enroll:" +:+ dg_OperationID r) = Some (DeEnrollOperation r, OperationRefused)) :
  ends (DeEnrollNodeGeneration at_ identity nodeID r) (fun _ _ => True) (fun a db' => refused db')
    (fun a => a = Err ErrorDeEnrollmentNotCommitted -> refused db) db.
Proof.
  unfold DeEnrollNodeGeneration. cbv zeta. apply ends_bind, ends_check; [intros Hguard|done].
  apply ends_bind, ends_begin. assert (HO := ss_ledger _ _ (same_begin at_ db)). assert (HB := begin_bound at_ nodeID db).
  set (db1 := (withLeaseSleepGap true (at_sample at_) db).2) in *.
  apply ends_bind, ends_identity; [rewrite HB; intros Hid|by intros _ e He [= ->]].
  apply ends_bind, replay_recorded; [intros Hnew; clear HO | done | |done].
  - assert (Hrej : forall d, refused (record_operation nodeID ("de-enroll:" +:+ dg_OperationID r) (DeEnrollOperation r) OperationRefused d)).
    { intros d. split; [done | apply record_lookup]. }
    unfold finish_operation. wp; first [done | apply Hrej].
  - intros E _. split; [done|]. by rewrite <- HO.
Qed.

(** a refused de-enrollment is refused for ever.  Once an operation has been
    answered with the terminal refusal, the same request from the same caller never
    commits, even if what it was refused for has cleared in the meantime. *)
Theorem refused_deenrollment_never_commits db at1 identity nodeID request db1 db2 at2 :
  reachable env db -> run (DeEnrollNodeGeneration at1 identity nodeID request) db = (db1, Err ErrorDeEnrollmentNotCommitted) ->
  rtc (step env) db1 db2 ->
  run (DeEnrollNodeGeneration at2 identity nodeID request) db2 = (db2, Err ErrorDeEnrollmentNotCommitted).
Proof.
  intros H%reachable_sessions Hrun Hsteps. assert (Hrec := deenroll_records at1 identity nodeID request db). unfold ends in Hrec.
  assert (Href : (deenrollment_guard request = true /\ bound db nodeID = Some identity)
    /\ db_generation_operations db1 !! (nodeID, "de-enroll:" +:+ dg_OperationID request) = Some (DeEnrollOperation request, OperationRefused)).
  { unfold run in Hrun. destruct (DeEnrollNodeGeneration _ _ _ _ db); [done | by injection Hrun as <- -> | injection Hrun as <- ->; by apply Hrec]. }
  destruct Href as [[Hguard Hid] HO].
  assert (Hstep : step env db db1).
  { change db1 with (db1, Err ErrorDeEnrollmentNotCommitted : result ErrorCode NodeGenerationInventory).1.
    rewrite <- Hrun. apply StepNode, StepDeEnroll. }
  unfold DeEnrollNodeGeneration. rewrite Hguard. cbv zeta.
  eapply (replay_answers at2 identity nodeID _ (DeEnrollOperation request) OperationRefused).
  - eapply identity_permanent; [exact H | by eapply rtc_l | exact Hid].
  - eapply lookup_weaken; [exact HO|]. apply ledger_grows; [done|]. by apply (step_advances env db).
Qed.
End Upgrade.

(** ** Witnesses: a Mac whose agent is upgraded while an attempt runs *)
Definition boot_uuid : string := "darwin:6f1f3b52-11aa-4c5e-9d01-2b3c4d5e6f70".
Definition mac_registration (generation boot systemBoot : string) : NodeRegistration :=
  mkNodeRegistration systemBoot generation "n1" boot "10.0.0.1" "root" "darwin" "arm64" "1.0"
    {[ "kind:process" := true; "oneshot:restartable" := true; "upgrade:retirement:v1" := true ]} 1 10 [] "" false.
Definition mac_register (t : Z) (generation boot systemBoot : string) (db : DB) : DB :=
  (run (registerNode (fun r => r) (sample_instant t) "id1" (mac_registration generation boot systemBoot) (DefaultNodePolicy ["linux"]) true
          (mknodeRegistrationAdmission false false)) db).1.
Definition mac_submit (db : DB) : DB :=
  (run (CreateJobAs (fun r => r) js_DispatchKey (fun k => k) (fun _ _ _ _ => Ok tt) (sample_instant 100) example_process_spec
          (mkJobOrigin "client" false None) "j1") db).1.
Definition mac_claim (boot : string) (db : DB) : DB :=
  (run (claimJob sample_config (fun r => r) (sample_instant 200) "id1" "n1" boot JobClassOneShot false [] "a1" "secret" "digest1") db).1.
Definition mac_close_admission (db : DB) : DB :=
  (run (setNodeIntentByOperator (fun r => r) (sample_instant 300) "n1" "intent" (mknodeIntentActor "op" ["tag:client"] "tag:client")
          (mkNodeIntentRequest false 0 "upgrade")) db).1.
Definition mac_stage (systemBoot : string) (db : DB) : DB :=
  (run (StageNodeGeneration (fun r => r) (sample_instant 400) "id1" (mac_registration "g2" "b2" systemBoot)) db).1.
Definition mac_promotion : PromoteNodeGenerationRequest :=
  mkPromoteNodeGenerationRequest "op1" "g1" "b1" 1 "g2" "b2" 0 1 1 1 [] [mkResidentAttempt "j1" "a1" "b1" 1 "1"].
Definition mac_promote (db : DB) : DB * result ErrorCode NodeGenerationInventory :=
  run (PromoteNodeGeneration (fun r => r) (sample_instant 500) "id1" "n1" mac_promotion) db.

(** A store per stage of the upgrade, on a host with or without a known boot. *)
Definition mac_running (systemBoot : string) : DB := mac_claim "b1" (mac_submit (mac_register 50 "g1" "b1" systemBoot empty_db)).
Definition mac_staged (systemBoot : string) : DB := mac_stage systemBoot (mac_close_admission (mac_running systemBoot)).
Definition mac_promoted (systemBoot : string) : DB := (mac_promote (mac_staged systemBoot)).1.

Lemma mac_running_reachable systemBoot : reachable sample_env (mac_running systemBoot).
Proof.
  apply (rtc_r _ (mac_submit (mac_register 50 "g1" "b1" systemBoot empty_db))); [|apply (StepClaim sample_env)].
  eapply rtc_r; [apply rtc_once, StepNode, (StepRegister sample_env) | apply (StepCreateJobAs sample_env)].
Qed.

Lemma mac_staged_reachable systemBoot : reachable sample_env (mac_staged systemBoot).
Proof.
  eapply rtc_r; [|apply StepNode, (StepStage sample_env)]. eapply rtc_r; [apply mac_running_reachable | apply (StepNodeIntent sample_env)].
Qed.

Lemma mac_promoted_reachable systemBoot : reachable sample_env (mac_promoted systemBoot).
Proof. eapply rtc_r; [apply mac_staged_reachable | apply StepNode, (StepPromote sample_env)]. Qed.

Definition mac_row (db : DB) (generation : string) : GenerationRow :=
  default (mkGenerationRow "" "" "" 0 "" (mac_registration "" "" "") [] 0 "" 0 0 None None) (generation_row db "n1" generation).

Lemma reachable_sessions_are_sound_witness :
  g_role (mac_row (mac_promoted boot_uuid) "g1") = NodeGenerationRetiring
  /\ exists n, db_nodes (mac_promoted boot_uuid) !! "n1" = Some n /\ 1 < n_authority_generation n.
Proof.
  split; [vm_compute; reflexivity|].
  destruct (reachable_sessions_are_sound sample_env (mac_promoted boot_uuid) (mac_row (mac_promoted boot_uuid) "g1")
              (mac_promoted_reachable boot_uuid) ltac:(vm_compute; apply list_elem_of_here)) as (_ & Hold & _).
  exact (Hold ltac:(vm_compute; reflexivity)).
Defined.

(** The host is rebooted: the session that claimed [a1] is gone. *)
Definition mac_rebooted : DB := mac_register 1000 "g1" "b3" boot_uuid (mac_running boot_uuid).

Lemma mac_rebooted_over : over mac_rebooted "a1" "n1" "b1" 1.
Proof.
  split.
  - exists "b3", 2. split; [vm_compute; reflexivity | left; lia].
  - intros r Hr. vm_compute in Hr. by apply elem_of_nil in Hr.
Qed.

Definition authority_in (db : DB) (id : string) : attemptAuthority :=
  default (authority_of db id (attempt_row db id) (job_row db "j1") (sample_node "id1" "b1")) (read_authority id db).


Definition mac_inventory : NodeGenerationInventory :=
  match (mac_promote (mac_staged boot_uuid)).2 with Ok inventory => inventory | Err _ => mkNodeGenerationInventory "" 0 [] end.

Lemma mac_promote_ok : mac_promote (mac_staged boot_uuid) = (mac_promoted boot_uuid, Ok mac_inventory).
Proof. vm_compute. reflexivity. Qed.

Lemma promotion_keeps_running_attempts_witness :
  exists att', read_authority "a1" (mac_promoted boot_uuid) = Some att' /\ aa_state att' = AttemptClaimed
    /\ validateAttemptAuthority "id1" "j1" "a1" "1" att' = Ok tt.
Proof.
  exact (promotion_keeps_running_attempts sample_env (mac_staged boot_uuid) (sample_instant 500) "id1" "n1" mac_promotion
           (mac_promoted boot_uuid) mac_inventory "a1" (authority_in (mac_staged boot_uuid) "a1") "id1" "j1" "1"
           (mac_staged_reachable boot_uuid) mac_promote_ok ltac:(vm_compute; discriminate) ltac:(vm_compute; reflexivity)
           ltac:(vm_compute; reflexivity) ltac:(vm_compute; reflexivity)).
Defined.

Definition mac_later : DB :=
  (run (HeartbeatRetiringNodeGeneration (sample_instant 600) "id1" "n1" "g1" "b1") (mac_promoted boot_uuid)).1.

Lemma promotion_is_answered_once_witness :
  run (PromoteNodeGeneration (fun r => r) (sample_instant 700) "id1" "n1" mac_promotion) mac_later = (mac_later, Ok mac_inventory).
Proof.
  exact (promotion_is_answered_once sample_env (mac_staged boot_uuid) (sample_instant 500) "id1" "n1" mac_promotion
           (mac_promoted boot_uuid) mac_inventory mac_later (sample_instant 700) (mac_staged_reachable boot_uuid) mac_promote_ok
           (rtc_once _ _ (StepNode sample_env _ _ (StepRetiringHeartbeat sample_env _ _ _ _ _ _)))).
Defined.

(** De-enrollment while a session is still retiring. *)
Definition mac_deenrollment : DeEnrollNodeGenerationRequest :=
  mkDeEnrollNodeGenerationRequest "op2" "g2" "b2" 2 1 1 "wefty maintenance op2" true true.
Definition mac_refused : DB := (run (DeEnrollNodeGeneration (sample_instant 600) "id1" "n1" mac_deenrollment) (mac_promoted boot_uuid)).1.

Lemma mac_refused_ok :
  run (DeEnrollNodeGeneration (sample_instant 600) "id1" "n1" mac_deenrollment) (mac_promoted boot_uuid)
  = (mac_refused, Err ErrorDeEnrollmentNotCommitted).
Proof. vm_compute. reflexivity. Qed.

Lemma refused_deenrollment_never_commits_witness :
  run (DeEnrollNodeGeneration (sample_instant 700) "id1" "n1" mac_deenrollment) mac_refused
  = (mac_refused, Err ErrorDeEnrollmentNotCommitted).
Proof.
  exact (refused_deenrollment_never_commits sample_env (mac_promoted boot_uuid) (sample_instant 600) "id1" "n1" mac_deenrollment
           mac_refused mac_refused (sample_instant 700) (mac_promoted_reachable boot_uuid) mac_refused_ok (rtc_refl _ _)).
Defined.

(** ** A new boot that adopts the cohort after all *)
Definition mac_authority (db : DB) : result ErrorCode unit := validateAttemptAuthority "id1" "j1" "a1" "1" (authority_in db "a1").
Definition mac_new_boot : DB := mac_register 1000 "g2" "b3" boot_uuid (mac_promoted "").
Definition mac_rejoined : DB := mac_register 2000 "g2" "b3" boot_uuid mac_new_boot.

(** C32: the cohort of a rebooted host is adopted by a rejoin.  The retiring session
    of a host whose boot was never reported may act while the host is up, and is
    fenced when the primary comes back in a new boot session and reports its boot;
    the next registration of that same session gives the retiring session its
    authority back. *)
Example rebooted_cohort_is_adopted :
  reachable sample_env mac_rejoined /\ mac_authority (mac_promoted "") = Ok tt
  /\ mac_authority mac_new_boot = Err ErrorNodeSessionReplaced /\ mac_authority mac_rejoined = Ok tt.
Proof.
  split; [|vm_compute; auto].
  eapply rtc_r; [|apply StepNode, (StepRegister sample_env)]. eapply rtc_r; [apply mac_promoted_reachable | apply StepNode, (StepRegister sample_env)].
Qed.
