(* ===== verification/History.v ===== *)
(** * The history of a job row

    Whatever the control plane does, a job keeps its identity, its fence never
    goes back, a cancellation is never withdrawn, a restartable one-shot stays
    within its restart budget, and a one-shot that has ended no longer holds
    the secrets it was submitted with (the trigger of [l1/secret_scrub.go]). *)
From S2P Require Import Prelude Order States Contract GoStrings JobSpec L1Types RestartPolicy Database.
From S2P Require Import LeaseClock Authority Credentials Summaries Lifecycle Completion Placement Claim.
From S2P Require Import ServiceOperator Submit Reconcile ClaimCorrect Invariant Preservation.
From S2P Require Import LogRetention Logs LogStreams Ingestion LogPreservation OperatorPreservation Machine.
From S2P Require Import NodePreservation.
#[local] Open Scope string_scope.
#[local] Open Scope list_scope.
#[local] Open Scope Z_scope.

(** ** Row invariants *)
Definition clean_spec (spec : JobSpec) : Prop :=
  exec_SensitiveEnv (js_Execution spec) = ∅ /\ ex_InlineBase64 (exec_Executable (js_Execution spec)) = ""
  /\ js_Labels spec !! LabelRunParams = None.

Definition ended_oneshot (j : JobRow) : Prop :=
  (j_state j = JobSucceeded \/ j_state j = JobFailed) /\ js_Class (j_spec j) = JobClassOneShot.

(** An ended one-shot is scrubbed, and a scrubbed row holds no secret. *)
Definition clean_job (j : JobRow) : Prop :=
  (ended_oneshot j -> is_Some (j_secrets_scrubbed_ns j)) /\ (is_Some (j_secrets_scrubbed_ns j) -> clean_spec (j_spec j)).

(** The restarts used, and whether another one is scheduled. *)
Definition within_budget (j : JobRow) : Prop :=
  0 <= j_restart_count j <= MaximumOneshotRestarts
  /\ (is_Some (j_next_restart_at_ns j) -> j_restart_count j < MaximumOneshotRestarts).

Definition sound_job (j : JobRow) : Prop := clean_job j /\ within_budget j.

(** The columns fixed at submission. *)
Definition identity_of (j : JobRow) :=
  (j_dispatch_key j, j_request_hash j, j_parent_job_id j, j_parent_attempt_id j, j_originating_submitter j,
   j_submitted_by_run_ledger j, j_spawn_depth j, j_instance_namespace j, j_instance_key j, j_instance_class j,
   j_created_ns j).

(** One row against a later version of it. *)
Record evolves (j j' : JobRow) : Prop := {
  evolves_identity : identity_of j' = identity_of j;
  evolves_fence : j_fence_counter j <= j_fence_counter j';
  evolves_spec : j_spec j' = j_spec j \/ j_spec j' = scrub_spec (j_spec j);
  evolves_cancel : j_outcome j = OutcomeCanceled -> j_outcome j' = OutcomeCanceled;
  evolves_sound : sound_job j -> sound_job j'
}.

Lemma scrub_spec_idem spec : scrub_spec (scrub_spec spec) = scrub_spec spec.
Proof. unfold scrub_spec. simpl. by rewrite delete_delete_eq. Qed.

#[export] Instance evolves_preorder : PreOrder evolves.
Proof.
  split.
  - intros j. split; auto; lia.
  - intros j1 j2 j3 [I1 F1 S1 C1 H1] [I2 F2 S2 C2 H2]. split; try congruence; [lia | | auto | auto].
    destruct S1 as [S1|S1], S2 as [S2|S2]; rewrite S2, S1; auto. rewrite scrub_spec_idem. auto.
Qed.

(** An update that leaves the state, the description and the budget alone. *)
Lemma evolves_keep j j' :
  identity_of j' = identity_of j -> j_fence_counter j' = j_fence_counter j -> j_spec j' = j_spec j ->
  (j_outcome j' = j_outcome j \/ j_outcome j' = OutcomeCanceled) -> j_state j' = j_state j ->
  j_secrets_scrubbed_ns j' = j_secrets_scrubbed_ns j -> j_restart_count j' = j_restart_count j ->
  (j_next_restart_at_ns j' = j_next_restart_at_ns j \/ j_next_restart_at_ns j' = None) -> evolves j j'.
Proof.
  intros HI HF HS HO HT HC HR HN. split; auto; [lia | intuition congruence|].
  unfold sound_job, clean_job, ended_oneshot, within_budget. rewrite HT, HS, HC, HR.
  destruct HN as [-> | ->]; [done|]. intros (HC' & Hb & _). split; [done|]. split; [done|]. by intros [].
Qed.

Lemma scrub_spec_clean spec : clean_spec (scrub_spec spec).
Proof. unfold clean_spec, scrub_spec. simpl. by rewrite lookup_delete_eq. Qed.

(** An update of the state, with the trigger. *)
Lemma evolves_state j j' :
  identity_of j' = identity_of j -> j_fence_counter j <= j_fence_counter j' -> j_spec j' = j_spec j ->
  (j_outcome j = OutcomeCanceled -> j_outcome j' = OutcomeCanceled) ->
  j_secrets_scrubbed_ns j' = j_secrets_scrubbed_ns j ->
  (within_budget j -> within_budget j') -> evolves j (scrub_row j').
Proof.
  intros HI HF HS HO HC HB. unfold scrub_row. destruct (scrub_due j') eqn:Hdue.
  - split; simpl; try done; [right; by rewrite HS|]. intros [_ Hb]. split; [|by apply HB].
    split; [by eauto|]. intros _. apply scrub_spec_clean.
  - split; simpl; try done; [by left|]. intros [[H1 H2] Hb]. split; [|by apply HB]. split; simpl.
    + intros [Hst Hcl]. destruct (j_secrets_scrubbed_ns j') eqn:E; [by eauto|]. exfalso.
      unfold scrub_due in Hdue. rewrite Hcl, E in Hdue.
      destruct Hst as [Hst|Hst]; rewrite Hst in Hdue; discriminate Hdue.
    + rewrite HC, HS. apply H2.
Qed.

(** ** Stores *)

(** Every job is still there, evolved; a job that came began as a row of [new]. *)
Record later_ (new : JobRow -> Prop) (db db' : DB) : Prop := {
  later_jobs : forall id j, db_jobs db !! id = Some j -> exists j', db_jobs db' !! id = Some j' /\ evolves j j';
  later_new : forall id j', db_jobs db !! id = None -> db_jobs db' !! id = Some j' -> exists j, new j /\ evolves j j';
  later_logs : logs_sound db -> logs_sound db'
}.

#[export] Instance later_preorder new : PreOrder (later_ new).
Proof.
  split.
  - intros db. split; [|congruence|done]. intros id j Hj. by exists j.
  - intros db1 db2 db3 [J1 N1 L1] [J2 N2 L2]. split; [..|auto].
    + intros id j Hj. destruct (J1 id j Hj) as (j2 & Hj2 & E2). destruct (J2 id j2 Hj2) as (j3 & Hj3 & E3).
      exists j3. split; [done | by etrans].
    + intros id j3 Hn Hj3. destruct (db_jobs db2 !! id) as [j2|] eqn:Hj2; [|by eapply N2].
      destruct (J2 id j2 Hj2) as (j3' & Hj3' & E3). simplify_eq.
      destruct (N1 id j2 Hn Hj2) as (j & Hj & E). exists j. split; [done | by etrans].
Qed.

Section Later.
Context (new : JobRow -> Prop).
Abbreviation later := (later_ new).

Lemma later_same db db1 db2 :
  db_jobs db2 = db_jobs db1 -> log_tables db2 = log_tables db1 -> later db db1 -> later db db2.
Proof. intros E T [J N L]. split; rewrite ?E; eauto using logs_sound_tables. Qed.

Lemma later_update db db1 db2 id (f : JobRow -> JobRow) :
  db_jobs db2 = alter f id (db_jobs db1) -> log_tables db2 = log_tables db1 ->
  (forall j, db_jobs db1 !! id = Some j -> evolves j (f j)) -> later db db1 -> later db db2.
Proof.
  intros E T Hf H. etrans; [exact H|]. split; [rewrite E; intros k j..|eauto using logs_sound_tables].
  - intros Hj. destruct (decide (k = id)) as [->|Ne].
    + exists (f j). rewrite lookup_alter_eq, Hj. auto.
    + exists j. by rewrite lookup_alter_ne.
  - intros Hn. destruct (decide (k = id)) as [->|Ne]; [by rewrite lookup_alter_eq, Hn | by rewrite lookup_alter_ne, Hn].
Qed.

Lemma later_exec_job db db1 id f :
  later db db1 -> (forall j, db_jobs db1 !! id = Some j -> evolves j (f j)) -> later db (exec_job id f db1).
Proof. intros H Hf. by eapply (later_update _ db1). Qed.

Lemma later_exec_job_state db db1 id f :
  later db db1 -> (forall j, db_jobs db1 !! id = Some j -> evolves j (scrub_row (f j))) ->
  later db (exec_job_state id f db1).
Proof.
  intros H Hf. unfold exec_job_state. destruct (db_jobs db1 !! id) as [i|] eqn:Hi; [|done].
  apply (later_update _ db1 _ id (fun j => scrub_row (f j))); [| by case_match | by rewrite Hi | done].
  case_match; simpl; (apply map_eq; intros k; destruct (decide (k = id)) as [->|Ne];
    [by rewrite lookup_insert_eq, lookup_alter_eq, Hi | by rewrite lookup_insert_ne, lookup_alter_ne]).
Qed.

Ltac keeps := intros; apply evolves_keep; simpl; auto.
Ltac restates := intros; apply evolves_state; simpl; auto using Z.le_refl; first
  [ exact (fun H => H) | lia | by intros [Hb _]; split; [exact Hb | intros []] ].

Lemma later_service db0 id f db : later db0 db -> later db0 (exec_service id f db).
Proof. by apply later_same. Qed.
Lemma later_attempt db0 id f db : later db0 db -> later db0 (exec_attempt id f db).
Proof. by apply later_same. Qed.
Lemma later_node db0 id f db : later db0 db -> later db0 (exec_node id f db).
Proof. by apply later_same. Qed.

Lemma later_begin {R} db0 at_ (Q : attemptClock -> DB -> Prop) (K : result ErrorCode R -> DB -> Prop) db :
  later db0 db -> (forall clock db', later db0 db' -> Q clock db') -> post (beginWriteTransaction at_) Q K db.
Proof.
  intros H HQ. apply ends_begin, HQ. destruct (sleep_gap_frame true (at_sample at_) db) as (? & ? & ? & ->).
  by apply (later_same _ db).
Qed.

Lemma later_promote db0 now id db : later db0 db -> later db0 (promoteExecution now id db).
Proof.
  intros H. unfold promoteExecution. repeat case_match; try exact H. apply later_exec_job_state; [done|]. restates.
Qed.

Lemma health_jobs clock now id cause db : db_jobs (establishHealth clock now id cause db) = db_jobs db.
Proof. unfold establishHealth. by repeat case_match. Qed.

Lemma later_health db0 clock now id cause db : later db0 db -> later db0 (establishHealth clock now id cause db).
Proof. intros H. apply (later_same _ db); [apply health_jobs | apply health_logs | done]. Qed.

Lemma later_detach db0 jobID cause db : later db0 db -> later db0 (detachAttempt jobID cause db).
Proof. intros H. apply later_exec_job; [done|]. intros j _. destruct cause; keeps. Qed.

Lemma later_invalidate db0 clock now target cause db : later db0 db -> later db0 (invalidateAttempts clock now target cause db).
Proof. by apply later_same. Qed.

Lemma later_recover db0 jitter now att reason db : later db0 db -> later db0 (recoverOneshot jitter now att reason db).2.
Proof.
  intros H. unfold recoverOneshot. repeat case_match; simplify_eq/=; (apply later_exec_job; [done|]); intros i Hi; simplify_eq.
  all: split; simpl; auto; [lia|]; intros [Hc Hb]; split; [exact Hc|]; unfold within_budget in *; simpl.
  all: split; [apply Hb|]; intros []; try done; try lia.
Qed.

Lemma later_prune db0 window now jobID db : later db0 db -> later db0 (pruneServiceAttemptSummaries window now jobID db).
Proof.
  intros H. etrans; [exact H|]. assert (E := prune_jobs window now jobID db). split; [rewrite E..|].
  - intros id j Hj. by exists j.
  - congruence.
  - intros [Hok Hs]. destruct (prune_logs window now jobID db) as (E1 & E2 & E3 & E4 & M & C).
    split; [by apply (log_ok_frame db)|]. apply (streams_shrink db _ (fun _ => true)); [|done| |done].
    + rewrite E1. symmetry. apply list_filter_true. by apply Forall_forall.
    + intros r Hr. rewrite C; [done|]. right. exists r. by rewrite <- E1.
Qed.

Lemma later_settle db0 jitter now att j db : later db0 db -> later db0 (settle_expired jitter now att j db).
Proof.
  intros H. unfold settle_expired.
  assert (Hr := later_recover db0 jitter now att InterruptionLeaseExpired db H).
  destruct (recoverOneshot jitter now att InterruptionLeaseExpired db) as [st1 db1]. simpl in Hr.
  match goal with |- context [let '(_, _) := ?c in _] => set (chosen := c) end.
  assert (Hc : later db0 chosen.2)
    by (subst chosen; case_match; [by apply (later_same _ db1) | exact H]).
  destruct chosen as [st2 db2]. simpl in Hc.
  assert (H3 : later db0 (exec_job_state (aa_jobID att) (fun j => j <| j_state := st2 |> <| j_updated_ns := now |>) db2))
    by (apply later_exec_job_state; [done|]; restates).
  repeat case_match; try apply later_service; try apply later_detach; exact H3.
Qed.

Lemma later_expire db0 clock jitter now att db : later db0 db -> later db0 (expireAttempt clock jitter now att db).
Proof.
  intros H. unfold expireAttempt. repeat case_match; try exact H; try (by apply later_invalidate).
  by apply later_settle, later_invalidate.
Qed.

Lemma later_chown db0 jobID db : later db0 db -> later db0 (clear_chown jobID db).
Proof. apply later_same; unfold clear_chown; by repeat case_match. Qed.

Lemma later_spawn_failures db0 jobID nodeID r resource db :
  later db0 db -> later db0 (record_spawn_failures jobID nodeID r resource db).
Proof. apply later_same; unfold record_spawn_failures, recordPublishedPortOccupied; by repeat case_match. Qed.

Lemma later_computer db0 now att request computerID db :
  later db0 db -> later db0 (settle_computer now att request computerID db).
Proof. apply later_same; unfold settle_computer, recordOwedComputerRevocation; by repeat case_match. Qed.

Lemma later_credentials db0 db : later db0 db -> later db0 (pruneAttemptCredentials db).
Proof. by apply later_same. Qed.

Lemma later_requests db0 v db : later db0 db -> later db0 (db <| db_restart_requests := v |>).
Proof. by apply later_same. Qed.

(** [hist] closes the goals [wp] leaves when a handler is followed by [later]. *)
Ltac hist :=
  repeat first
    [ assumption
    | apply later_expire | apply later_promote | apply later_health | apply later_detach | apply later_prune
    | apply later_exec_job; [|keeps]
    | apply later_exec_job_state; [|restates]
    | apply later_credentials | apply later_requests | apply later_chown | apply later_spawn_failures | apply later_computer | apply later_service | apply later_attempt | apply later_node
    | match goal with H : later_ _ ?d0 ?d |- later_ _ ?d0 _ => by apply (later_same d0 d) end ].

Ltac wp_extra ::=
  lazymatch goal with
  | |- ends (beginWriteTransaction _) _ _ _ _ => apply (later_begin _ _ _ _ _ ltac:(eassumption)); intros ? ? ?
  | |- ends (readAttemptAuthority _) _ _ _ _ => unfold readAttemptAuthority
  | |- ends (read_job _) _ _ _ _ => unfold read_job
  | |- ends (read_cancellation _) _ _ _ _ => unfold read_cancellation
  | |- ends (expire_and_refuse _ _ _ _) _ _ _ _ => unfold expire_and_refuse
  end.

Section Attempts.
Context (cfg : config).

Lemma later_run {R} (m : tx DB ErrorCode R R) db :
  (later db db -> post m (fun _ => later db) (fun _ => later db) db) -> later db (run m db).1.
Proof. intros H. apply post_run; [reflexivity|]. apply H. reflexivity. Qed.

Lemma later_RenewLease at_ identity jobID attemptID token db :
  later db (run (RenewLease cfg at_ identity jobID attemptID token) db).1.
Proof. apply later_run. intros H. unfold RenewLease. wp; hist. Qed.

Lemma later_ObserveAttemptImage at_ identity jobID attemptID request db :
  later db (run (ObserveAttemptImage cfg at_ identity jobID attemptID request) db).1.
Proof. apply later_run. intros H. unfold ObserveAttemptImage. wp; hist. Qed.

Lemma later_StartAttempt at_ identity jobID attemptID token db :
  later db (run (StartAttempt cfg at_ identity jobID attemptID token) db).1.
Proof. apply later_run. intros H. unfold StartAttempt. wp; hist. Qed.

Lemma later_SetAttemptPublication at_ identity jobID attemptID request db :
  later db (run (SetAttemptPublication cfg at_ identity jobID attemptID request) db).1.
Proof. apply later_run. intros H. unfold SetAttemptPublication. wp; hist. Qed.

Lemma later_InterruptRestartableAttempt at_ nodeID attemptID request db :
  later db (run (InterruptRestartableAttempt cfg at_ nodeID attemptID request) db).1.
Proof. apply later_run. intros H. unfold InterruptRestartableAttempt. wp; hist. Qed.

Lemma later_CancelJob at_ jobID caller db : later db (run (CancelJob at_ jobID caller) db).1.
Proof. apply later_run. intros H. unfold CancelJob. wp; hist. Qed.

(** ** Completion *)
Lemma later_verdict {R} now att request canceled job service resource (K : result ErrorCode R -> DB -> Prop) db0 db :
  later db0 db ->
  post (completion_verdict cfg now att request canceled job service resource) (fun _ => later db0) K db.
Proof.
  intros H.
  assert (Hr : forall reason, post (recover cfg now att reason) (fun _ => later db0) K db).
  { intros reason. unfold ends, recover. assert (Hr := later_recover db0 (cfg_restartJitter cfg) now att reason db H).
    by destruct (recoverOneshot _ _ _ _ _). }
  unfold completion_verdict. wp; try done; (eapply ends_mono; [| | |apply Hr]; [|done..]); intros ? ? ?; wp; done.
Qed.

Lemma later_complete_active now att request canceled db0 db :
  later db0 db -> post (complete_active cfg now att request canceled) (fun _ => later db0) (fun _ => later db0) db.
Proof.
  intros H. unfold complete_active. wp. eapply ends_mono; [| |done|by apply (later_verdict _ _ _ _ _ _ _ (fun _ => later db0))]; [|done].
  intros [[[js ast] reason] policy] db1 H1. apply (ends_seq (fun _ => later db0)).
  { wp; [|done]. match goal with E : prestart_retry _ _ _ = _ |- _ => unfold prestart_retry in E; case_match; simplify_eq end; hist. }
  intros js' db2 H2. apply (ends_seq (fun _ => later db0)); [wp; hist|].
  intros _ db3 H3. apply (ends_seq (fun _ => later db0)); [wp; hist|].
  intros _ db4 H4. apply (ends_seq (fun _ => later db0)); [wp; hist|].
  intros _ db5 H5. apply (ends_seq (fun _ => later db0)); [wp; hist|].
  intros _ db6 H6. apply (ends_seq (fun _ => later db0)); [wp; hist|].
  intros _ db7 H7. wp; hist.
Qed.

Lemma later_CompleteAttemptOutcome at_ identity jobID attemptID request db :
  later db (run (CompleteAttemptOutcome cfg at_ identity jobID attemptID request) db).1.
Proof.
  apply later_run. intros H. unfold CompleteAttemptOutcome. wp; unfold record_late_result; hist;
    apply later_complete_active; hist.
Qed.

(** ** Claims *)
Lemma claimed_evolves attemptID now j : evolves j (scrub_row (claimed_job attemptID now j)).
Proof.
  apply evolves_state; simpl; auto; [lia|]. intros [Hb Hn]. unfold within_budget. simpl.
  case_bool_decide as E; split; try lia; try (by intros []); auto.
  specialize (Hn E). lia.
Qed.

Lemma later_fail_prestart_gaps db0 now db : later db0 db -> later db0 (fail_prestart_gaps now db).
Proof.
  unfold fail_prestart_gaps. generalize (map fst (List.filter (fun r => prestart_gap db now r.1 r.2) (map_to_list (db_jobs db)))).
  intros ids. revert db. induction ids as [|id ids IH]; intros db H; simpl; [done|]. apply IH. hist.
Qed.

Definition spares (db db' : DB) : Prop := db_jobs db' = db_jobs db /\ log_tables db' = log_tables db.

Lemma later_frame {R A} (m : tx DB ErrorCode R A) (K : result ErrorCode R -> DB -> Prop) db0 db :
  (forall db, match m db with Next _ db' => spares db db' | Return _ _ => False | Abort _ => True end) ->
  later db0 db -> post m (fun _ => later db0) K db.
Proof.
  intros Hm H. unfold ends. specialize (Hm db). destruct (m db); [|done..]. destruct Hm. by apply (later_same _ db).
Qed.

Lemma insert_attempt_frame attemptID a db :
  match insert_attempt attemptID a db with Next _ db' => spares db db' | Return _ _ => False | Abort _ => True end.
Proof. unfold insert_attempt. by destruct (db_attempts db !! attemptID). Qed.

Lemma credential_frame {R} hash scope now db :
  match insertAttemptCredential (R := R) hash scope now db with
  | Next _ db' => spares db db' | Return _ _ => False | Abort _ => True end.
Proof. unfold insertAttemptCredential. by destruct (db_credentials db !! hash). Qed.

Lemma bind_row_frame {V} (get : DB -> gmap string V) set id p f db :
  (forall m db, spares db (set m db)) ->
  match bind_row get set id p f db with Next _ db' => spares db db' | Return _ _ => False | Abort _ => True end.
Proof. intros Hs. unfold bind_row. destruct (get db !! id) as [v|]; [|done]. by destruct (p v). Qed.

Lemma later_bind_service (K : result ErrorCode (option Claim * bool) -> DB -> Prop) nodeID jobID now db0 db :
  later db0 db -> post (bind_service nodeID jobID now) (fun _ => later db0) K db.
Proof.
  intros H. unfold bind_service. apply (ends_seq (fun _ => later db0)).
  { by apply later_frame; [intros; apply bind_row_frame|]. }
  intros _ db1 H1. apply ends_bind. unfold ends at 1, reads at 1. destruct (db_projections db1 !! jobID); [|done].
  apply (ends_seq (fun _ => later db0)); [by apply later_frame; [intros; apply bind_row_frame|]|]. intros _ db2 H2. by wp.
Qed.

Lemma later_claim_selected clock now class nodeID boot generation attemptID token hash jobID hint db0 db :
  later db0 db ->
  post (claim_selected cfg clock now class nodeID boot generation attemptID token hash jobID hint)
    (fun _ => later db0) (fun _ => later db0) db.
Proof.
  intros H. unfold claim_selected. apply (ends_seq (fun _ => later db0)).
  { wp. apply later_exec_job_state; [done|]. intros j _. apply claimed_evolves. }
  intros _ db1 H1. apply ends_bind. unfold read_job at 1. apply ends_need; [intros job Hjob | done].
  apply (ends_seq (fun _ => later db0)); [wp; hist|].
  intros _ db2 H2. apply ends_bind, ends_lift; [intros spec _ | done].
  apply ends_bind. unfold ends at 1, reads at 1. apply (ends_seq (fun _ => later db0)).
  { apply later_frame; [intros; apply insert_attempt_frame | done]. }
  intros _ db3 H3. apply (ends_seq (fun _ => later db0)).
  { apply later_frame; [intros; apply credential_frame | done]. }
  intros _ db4 H4. apply (ends_seq (fun _ => later db0)).
  { case_match; [by apply later_bind_service | by wp]. }
  intros storage db5 H5. wp; hist.
Qed.

Lemma later_claimJob lower_table at_ identity nodeID boot class poll excluded attemptID token hash db :
  later db (run (claimJob cfg lower_table at_ identity nodeID boot class poll excluded attemptID token hash) db).1.
Proof.
  apply later_run. intros H. unfold claimJob. wp; hist.
  all: try (apply later_fail_prestart_gaps; hist); apply later_claim_selected; hist; apply later_fail_prestart_gaps; hist.
Qed.
End Attempts.

(** ** Operators and reconciliation *)
Lemma later_transition {R} jobID desired next now (K : result ErrorCode R -> DB -> Prop) db0 db :
  later db0 db -> post (transitionServiceJob jobID desired next now) (fun _ => later db0) K db.
Proof. intros H. unfold transitionServiceJob. wp; hist. Qed.

Lemma later_latch at_ identity jobID nodeID boot failure db :
  later db (run (LatchServiceImageReconciliationFailure at_ identity jobID nodeID boot failure) db).1.
Proof.
  apply later_run. intros H. unfold LatchServiceImageReconciliationFailure, transitionServiceJob. wp; hist;
    apply later_invalidate; hist.
Qed.

Lemma later_setServiceDesiredState lower_table at_ jobID desired actor db :
  later db (run (setServiceDesiredState lower_table at_ jobID desired actor) db).1.
Proof. apply later_run. intros H. unfold setServiceDesiredState, transitionServiceJob. wp; hist. Qed.

Lemma later_restartService lower_table digest at_ jobID request actor db :
  later db (run (restartService lower_table digest at_ jobID request actor) db).1.
Proof. apply later_run. intros H. unfold restartService, transitionServiceJob. wp; hist. Qed.

Lemma later_DrainNode at_ identity nodeID boot db : later db (run (DrainNode at_ identity nodeID boot) db).1.
Proof. apply later_run. intros H. unfold DrainNode. wp; hist. Qed.

Lemma later_setNodeIntent lower_table at_ nodeID verb actor request db :
  later db (run (setNodeIntentByOperator lower_table at_ nodeID verb actor request) db).1.
Proof. apply later_run. intros H. unfold setNodeIntentByOperator. wp; hist. Qed.

(** ** The machine *)
Section Machine.
Context (env : environment).
Abbreviation cfg := (env_cfg env).
Abbreviation lower_table := (env_lower_table env).

Lemma queued_sound digest spec origin a now : sound_job (queued_job digest spec origin a now).
Proof. split; split; simpl; try (by intros []); try (by intros [[] ?]). unfold MaximumOneshotRestarts. lia. Qed.

Lemma CreateJobAs_logs at_ spec origin jobID db :
  log_tables (run (CreateJobAs lower_table (env_spec_digest env) (env_hashDispatchKey env) (env_admitSeatRun env)
                     at_ spec origin jobID) db).1 = log_tables db.
Proof.
  apply (post_run _ (fun s => log_tables s = log_tables db)); [done|]. unfold CreateJobAs.
  apply ends_bind, ends_lift; [intros spec' _ | done]. apply ends_bind, ends_lift; [intros a _ | done].
  apply ends_bind, ends_check; [intros _ | done]. apply ends_bind, ends_begin.
  destruct (begin_logs at_ db) as [Hb _]. revert Hb. generalize (withLeaseSleepGap true (at_sample at_) db).2. intros db0 H0.
  do 4 (apply (ends_seq (fun _ s => log_tables s = log_tables db));
    [unfold replay_submission, read_cancellation; by wp | clear db0 H0; intros _ db0 H0]).
  apply ends_bind. unfold ends at 1, reads at 1. apply ends_bind, ends_lift; [intros _ _ | done].
  apply ends_bind, ends_check; [intros _ | done]. apply ends_bind, ends_insert; [intros _ | done].
  wp. unfold initialize_service. by repeat case_match.
Qed.

Lemma later_CreateJobAs at_ spec origin jobID db :
  (forall spec' a, new (queued_job (env_spec_digest env) spec' origin a (at_now at_))) ->
  later db (run (CreateJobAs lower_table (env_spec_digest env) (env_hashDispatchKey env) (env_admitSeatRun env)
                   at_ spec origin jobID) db).1.
Proof.
  intros Hnew. assert (H := CreateJobAs_created lower_table (env_spec_digest env) (env_hashDispatchKey env) (env_admitSeatRun env)
                 at_ spec origin jobID db).
  assert (HL := CreateJobAs_logs at_ spec origin jobID db).
  destruct (run _ db) as [db' [[id j|id j|row]|e]]; simpl in *; try by subst.
  destruct H as (-> & EJ & spec' & a & Hacc & ->). assert (Hid := accepted_id _ _ _ _ _ _ _ _ _ Hacc).
  split; [..|by apply logs_sound_tables].
  - intros k i Hi. exists i. rewrite EJ, lookup_insert_ne by congruence. by split.
  - intros k i Hn. rewrite EJ. destruct (decide (k = jobID)) as [->|Ne].
    + rewrite lookup_insert_eq. intros [= <-]. by eexists.
    + rewrite lookup_insert_ne by done. congruence.
Qed.

Lemma later_expire_all {R} clock now ids (K : result ErrorCode R -> DB -> Prop) db0 db :
  later db0 db -> post (expire_all cfg clock now ids) (fun _ => later db0) K db.
Proof.
  revert db. induction ids as [|id ids IH]; intros db H; simpl; wp; [exact H|]. apply IH. hist.
Qed.

Lemma interrupt_stability_logs seen db : log_tables (interruptServiceStability seen db).1 = log_tables db.
Proof.
  unfold interruptServiceStability. destruct seen as [seen|]; [|done]. simpl.
  generalize ((List.filter (fun p => node_to_visit seen p.1 p.2) (map_to_list (readNodeLivenessKeys db))).*1).
  intros ids. revert db. induction ids as [|id ids IH]; intros db; simpl; [done|].
  by rewrite (IH (interruptNodeServiceStability id db)).
Qed.

Lemma later_reconcile at_ seen db : later db (run (reconcile_leases cfg at_ seen) db).1.
Proof.
  apply later_run. intros H. unfold reconcile_leases. apply ends_bind, (later_begin db); [done|]. intros clock db1 H1.
  wp. unfold ends at 1. match goal with |- context [interruptServiceStability seen ?d] =>
    destruct (interrupt_stability_frame seen d) as (EJ & _); assert (EL := interrupt_stability_logs seen d);
    destruct (interruptServiceStability seen d) as [db3 keys] end.
  simpl in EJ, EL. wp. eapply ends_mono; [..|apply (later_expire_all _ _ _ (fun _ => later db) db)];
    [intros ? ? Hw; wp; exact Hw | done | done|].
  by apply (later_same _ db1).
Qed.

(** An upload writes the log in several statements; its jobs are followed in
    the store with the log put back. *)
Definition relog (db s : DB) : DB :=
  s <| db_log_events := db_log_events db |> <| db_next_ordinal := db_next_ordinal db |>
    <| db_log_continuity := db_log_continuity db |> <| db_log_usage := db_log_usage db |>
    <| db_log_usage_total := db_log_usage_total db |>.

Lemma later_relog db s s' : db_jobs s' = db_jobs s -> later db (relog db s) -> later db (relog db s').
Proof. intros E. by apply later_same. Qed.

Lemma relog_prune db window now jobID s : later db (relog db s) -> later db (relog db (pruneServiceAttemptSummaries window now jobID s)).
Proof. apply later_relog, prune_jobs. Qed.
Lemma relog_cap db bounds jobID now budget s :
  later db (relog db s) -> later db (relog db (enforceJobLogByteRetention bounds jobID now budget s).2).
Proof. apply later_relog, cap_rows. Qed.
Lemma relog_health db clock now id cause s : later db (relog db s) -> later db (relog db (establishHealth clock now id cause s)).
Proof. apply later_relog, health_jobs. Qed.
Lemma relog_attempt db id f s : later db (relog db s) -> later db (relog db (exec_attempt id f s)).
Proof. by apply later_relog. Qed.

Lemma relog_promote db now id s : later db (relog db s) -> later db (relog db (promoteExecution now id s)).
Proof.
  intros H. apply (later_promote _ now id) in H. revert H. apply later_same; unfold promoteExecution, exec_job_state; simpl;
    repeat (case_match; simpl in *; simplify_eq; try done).
Qed.

Lemma later_upload_jobs at_ identity jobID attemptID request db :
  later db (relog db (run (AppendLogs cfg (env_log_bounds env) (env_source_digest env) at_ identity jobID attemptID request) db).1).
Proof.
  assert (H0 : later db (relog db db)) by (by apply (later_same _ db)).
  apply (post_run _ (fun s => later db (relog db s))); [done|]. unfold AppendLogs.
  apply (ends_seq (fun _ s => later db (relog db s))).
  { apply (ends_mono _ (fun _ => later db) _ (fun _ _ => False) _ (fun _ => True)); [|done|done|].
    - intros ad db0 [J N _]. split; [exact J | exact N | by apply logs_sound_tables].
    - assert (Hr : later db db) by done. unfold admit_upload. wp; hist. }
  intros ad db0 H. wp; [done|]. unfold append_batch. wp.
  eapply ends_mono; [| |done|by apply (store_events_rows _ _ _ (fun _ s => later db (relog db s)) db0)]; [|done].
  intros u db1 [E1 _].
  assert (HM : later db (relog db (record_marks attemptID (bt_next a) db1))).
  { apply (later_relog db db0); [|done]. rewrite (proj1 (record_marks_rows attemptID (bt_next a) db1)). exact E1. }
  wp; apply relog_prune, relog_cap; try apply relog_health; try (by apply relog_promote, relog_attempt); exact HM.
Qed.

Lemma later_AppendLogs at_ identity jobID attemptID request db :
  Forall uint64_event (lr_Events request) ->
  later db (run (AppendLogs cfg (env_log_bounds env) (env_source_digest env) at_ identity jobID attemptID request) db).1.
Proof.
  intros Hu. destruct (later_upload_jobs at_ identity jobID attemptID request db) as [J N _]. split; [exact J | exact N|].
  intros Hs. by apply (append_later _ _ _ ""%string).
Qed.

Lemma later_shrinks db db' : same_rows db db' -> (log_ok db -> shrinks db db') -> later db db'.
Proof.
  intros [E _] Hs. split; [rewrite E; intros id j Hj; by exists j | congruence|].
  intros [Hok Hst]. specialize (Hs Hok). split; [apply Hs | by eapply shrinks_streams].
Qed.

Lemma later_spared at_ db db' : spared at_ db db' -> later db db'.
Proof.
  intros [->|[[E _] EL]]; [done|]. apply (later_same _ (withLeaseSleepGap true (at_sample at_) db).2); [done | done|].
  destruct (sleep_gap_frame true (at_sample at_) db) as (? & ? & ? & ->). by apply (later_same _ db).
Qed.

(** Only a submission makes a job. *)
Lemma step_later db db' :
  step env db db' ->
  (exists at_ spec origin jobID, db' = (run (CreateJobAs lower_table (env_spec_digest env) (env_hashDispatchKey env)
      (env_admitSeatRun env) at_ spec origin jobID) db).1) \/ later db db'.
Proof.
  intros Hstep. destruct Hstep; [left; by repeat eexists | right..]; eauto using later_claimJob, later_RenewLease,
    later_ObserveAttemptImage, later_StartAttempt, later_SetAttemptPublication, later_InterruptRestartableAttempt,
    later_CompleteAttemptOutcome, later_CancelJob, later_latch, later_setServiceDesiredState, later_restartService,
    later_reconcile, later_DrainNode, later_setNodeIntent.
  - by apply later_prune.
  - by apply later_AppendLogs.
  - apply later_shrinks; [apply cap_rows | apply cap_shrinks].
  - apply later_shrinks; [apply ceiling_rows | apply ceiling_shrinks].
  - match goal with Hn : node_step _ _ _ |- _ => destruct (node_step_spared _ _ _ Hn) end. by eapply later_spared.
  - by apply (later_same _ db).
Qed.
End Machine.
End Later.

(** A row as a submission stores it. *)
Definition submitted_row (digest : JobSpec -> string) (j : JobRow) : Prop :=
  exists spec origin a now, j = queued_job digest spec origin a now.

Section Histories.
Context (env : environment).
Abbreviation later := (later_ (submitted_row (env_spec_digest env))).

Lemma later_step db db' : step env db db' -> later db db'.
Proof.
  intros [(at_ & spec & origin & jobID & ->)|H]%(step_later (submitted_row (env_spec_digest env))); [|done].
  apply later_CreateJobAs. intros spec' a. by repeat eexists.
Qed.

Lemma later_steps db db' : rtc (step env) db db' -> later db db'.
Proof. induction 1 as [|db1 db2 db3 Hstep _ IH]; [done|]. etrans; [by eapply later_step | exact IH]. Qed.

Lemma reachable_sound db id j : reachable env db -> db_jobs db !! id = Some j -> sound_job j.
Proof.
  intros H Hj. destruct (later_new _ _ _ (later_steps _ _ H) id j eq_refl Hj) as (? & (spec & origin & a & now & ->) & E).
  eapply evolves_sound; [exact E | apply queued_sound].
Qed.


(** C34: no secret outlives a one-shot.  In every reachable store, a one-shot that
    succeeded or failed, however it got there, no longer holds the sensitive
    environment, the inline executable or the run parameters it was submitted
    with. *)
Theorem ended_oneshots_hold_no_secrets db id j :
  reachable env db -> db_jobs db !! id = Some j -> ended_oneshot j -> clean_spec (j_spec j).
Proof. intros H Hj He. destruct (reachable_sound _ _ _ H Hj) as [[H1 H2] _]. by apply H2, H1. Qed.

(** no job is restarted more than [MaximumOneshotRestarts] times: in every
    reachable store the restarts used are within the budget, and while another
    one is scheduled at least one is left. *)
Theorem restarts_within_budget db id j :
  reachable env db -> db_jobs db !! id = Some j ->
  0 <= j_restart_count j <= MaximumOneshotRestarts
  /\ (is_Some (j_next_restart_at_ns j) -> j_restart_count j < MaximumOneshotRestarts).
Proof. intros H Hj. apply (reachable_sound _ _ _ H Hj). Qed.

(** C25: the log is sound in every reachable store.  Two different events of one
    stream of an attempt never overlap, each lies at or below the highest
    sequence accepted on its stream and is stored under its own range, and the
    retained-bytes counters, per job and in total, are exactly the bytes of the
    rows. *)
Theorem reachable_log_is_sound db :
  reachable env db ->
  (forall r1 r2, r1 ∈ db_log_events db -> r2 ∈ db_log_events db -> l_attempt_id r1 = l_attempt_id r2 ->
     l_stream r1 = l_stream r2 -> r1 = r2 \/ l_sequence_end r1 < l_sequence r2 \/ l_sequence_end r2 < l_sequence r1)
  /\ (forall r, r ∈ db_log_events db ->
       0 <= l_sequence r <= l_sequence_end r /\ l_sequence_end r <= readLogContinuity db (l_attempt_id r) (l_stream r)
       /\ l_sequence r = le_Sequence (l_event r) /\ l_sequence_end r = logEventEndSequence (l_event r))
  /\ (forall jobID, default 0 (db_log_usage db !! jobID) = total_bytes (List.filter (of_job jobID) (db_log_events db)))
  /\ db_log_usage_total db = total_bytes (db_log_events db).
Proof.
  intros H. destruct (later_logs _ _ _ (later_steps _ _ H) logs_sound_empty) as [Hok [Hr Hs _]]. rewrite Forall_forall in Hr.
  split_and!; [| |apply (ok_usage _ Hok)|apply (ok_total _ Hok)].
  - intros r1 r2 H1 H2 Ea Es. apply (sorted_precedes _ _ _ (Hs (l_attempt_id r1) (l_stream r1)));
      apply list_elem_of_In, filter_In; (split; [by apply list_elem_of_In|]); by rewrite !bool_decide_eq_true_2.
  - intros r Hin. destruct (Hr r Hin) as [? ? ? (_ & _ & ? & ?)]. by split_and!.
Qed.
End Histories.

(** ** Witnesses *)
Definition canceled_fleet : DB := (run (CancelJob (sample_instant 300) "j1" (CancelSubmitter "client")) fleet1).1.

Lemma canceled_reachable : reachable sample_env canceled_fleet.
Proof.
  apply (rtc_r _ fleet1); [|apply (StepCancel sample_env)].
  apply (rtc_r _ fleet0); [apply rtc_once, StepNode, (StepRegister sample_env) | apply (StepCreateJobAs sample_env)].
Qed.


Lemma ended_oneshots_hold_no_secrets_witness : clean_spec (j_spec (job_row canceled_fleet "j1")).
Proof.
  apply (ended_oneshots_hold_no_secrets sample_env canceled_fleet "j1"); [apply canceled_reachable | vm_compute; reflexivity|].
  split; [right|]; vm_compute; reflexivity.
Defined.

Lemma restarts_within_budget_witness : 0 <= j_restart_count (job_row fleet3 "j1") <= MaximumOneshotRestarts.
Proof.
  apply (restarts_within_budget sample_env fleet3 "j1"); [apply fleet_reachable | vm_compute; reflexivity].
Defined.

Definition logged_fleet : DB :=
  (run (AppendLogs (env_cfg sample_env) (env_log_bounds sample_env) (env_source_digest sample_env) (sample_instant 300)
          "id1" "j1" "a1" sample_upload) fleet2).1.

Lemma logged_reachable : reachable sample_env logged_fleet.
Proof.
  exact (rtc_r _ fleet2 _ (proj1 fleet_reachable)
           (StepAppendLogs sample_env fleet2 (sample_instant 300) "id1" "j1" "a1" sample_upload sample_uint64)).
Qed.

Lemma reachable_log_is_sound_witness :
  map l_sequence (db_log_events logged_fleet) = [1; 0]
  /\ db_log_usage_total logged_fleet = total_bytes (db_log_events logged_fleet).
Proof.
  split; [vm_compute; reflexivity|].
  exact (proj2 (proj2 (proj2 (reachable_log_is_sound sample_env logged_fleet logged_reachable)))).
Defined.
