(* ===== verification/LogSpool.v ===== *)
(** * The agent's log spool

    The SQLite spool of [agent/log_spool.go]: output events and completions a
    node has produced and L1 has not acknowledged.  A row keeps an event's
    timestamp as [int64] nanoseconds; the JSON documents of gaps, completions,
    tombstones and audits are the values they encode.  [sp_events] is in the
    order of the rows' ordinals, which only grow.  Every operation is one SQLite
    transaction; where the code ranges over a Go map, the writes of two keys are
    independent and the order is immaterial. *)
From S2P Require Import Prelude Order States Contract GoStrings JobSpec L1Types RestartPolicy Database.
From S2P Require Import LeaseClock Authority Credentials Summaries Lifecycle LogRetention Logs Claim.
#[local] Open Scope string_scope.
#[local] Open Scope list_scope.
#[local] Open Scope Z_scope.

Definition DefaultLogSpoolMaxBytes : Z := Z.shiftl 64 20.
Definition DefaultServiceLogSpoolMaxBytes : Z := Z.shiftl 32 20.
Definition maxSuppressedCompletionPayloadsPerJob : nat := 16.
Definition maxCompletionInspectionReceipts : nat := 1024.

(** ** Completions *)
Record durableCompletion := mkdurableCompletion {
  dc_InterruptionReason : string;
  dc_InterruptionRequestKey : string;
  dc_Result : ProcessResult;
  dc_RuntimeQuiescenceEvidence : string;
  dc_TerminationInitiator : string
}.
#[export] Instance durableCompletion_eq_dec : EqDecision durableCompletion.
Proof. solve_decision. Defined.

Definition durableCompletionOf (request : CompletionRequest) : durableCompletion :=
  mkdurableCompletion (cr_InterruptionReason request) (cr_InterruptionRequestKey request) (cr_Result request)
    (cr_RuntimeQuiescenceEvidence request) (cr_TerminationInitiator request).

Record terminalCompletionAudit := mkterminalCompletionAudit {
  ta_SpawnFailureCode : string;
  ta_RuntimeFailureCode : string;
  ta_OutputError : bool;
  ta_ExitCode : option Z;
  ta_Signal : string;
  ta_TerminationCause : string;
  ta_OOM : bool;
  ta_DiskExhausted : bool;
  ta_LogEvidenceIncomplete : bool;
  ta_QuiescenceEvidence : string
}.

Definition newTerminalCompletionAudit (completion : durableCompletion) : terminalCompletionAudit :=
  let result := dc_Result completion in
  mkterminalCompletionAudit
    (match pr_SpawnError result with Some failure => sf_Code failure | None => "" end)
    (match pr_RuntimeFailure result with Some failure => rf_Code failure | None => "" end)
    (negb (bool_decide (pr_OutputError result = ""))) (pr_ExitCode result) (pr_Signal result)
    (pr_TerminationCause result) (pr_OOM result) (pr_DiskExhausted result) (pr_LogEvidenceIncomplete result)
    (dc_RuntimeQuiescenceEvidence completion).

(** ** Rows *)
Record incompleteEvidenceTombstone := mkincompleteEvidenceTombstone {
  it_Reason : string;
  it_ErrorCode : option ErrorCode;
  it_SealedAt : Z;
  it_LostEventCount : Z;
  it_LostByteCount : Z;
  it_CompletionUndelivered : bool;
  it_FinishedAt : option Z
}.

(** [result_json] and [finished_ns] are NULL together (a CHECK of the table). *)
Record SpoolAttempt := mkSpoolAttempt {
  sa_job_id : string;
  sa_fencing_token : string;
  sa_class : string;
  sa_kind : string;
  sa_created_ns : Z;
  sa_owner_generation : string;
  sa_result : option (durableCompletion * Z);
  sa_incomplete : option incompleteEvidenceTombstone;
  sa_completion_disposition : option string;
  sa_completion_reason : option string;
  sa_intent_revision : option Z;
  sa_l1_refused_ns : option Z;
  sa_l1_refusal_code : option (option ErrorCode)
}.
#[export] Instance SpoolAttempt_eta : Eta SpoolAttempt := fun r =>
  mkSpoolAttempt (sa_job_id r) (sa_fencing_token r) (sa_class r) (sa_kind r) (sa_created_ns r)
    (sa_owner_generation r) (sa_result r) (sa_incomplete r) (sa_completion_disposition r) (sa_completion_reason r)
    (sa_intent_revision r) (sa_l1_refused_ns r) (sa_l1_refusal_code r).

Record SpoolRow := mkSpoolRow {
  sr_ordinal : Z;
  sr_attempt_id : string;
  sr_stream : string;
  sr_sequence : Z;
  sr_timestamp_ns : Z;
  sr_bytes : string;
  sr_gap : option LogGap;
  sr_payload_bytes : Z
}.
#[export] Instance SpoolRow_eta : Eta SpoolRow := fun r =>
  mkSpoolRow (sr_ordinal r) (sr_attempt_id r) (sr_stream r) (sr_sequence r) (sr_timestamp_ns r) (sr_bytes r)
    (sr_gap r) (sr_payload_bytes r).
#[export] Instance SpoolRow_eq_dec : EqDecision SpoolRow.
Proof. solve_decision. Defined.

Record SpoolReceipt := mkSpoolReceipt {
  rc_disposition : string;
  rc_reason : string;
  rc_observed_ns : Z;
  rc_intent_revision : option Z;
  rc_job_id : option string;
  rc_finished_ns : option Z;
  rc_terminal_audit : option terminalCompletionAudit
}.

Record Spool := mkSpool {
  sp_attempts : gmap string SpoolAttempt;
  sp_events : list SpoolRow;
  sp_next_ordinal : Z;
  sp_acknowledgements : gmap (string * string) Z;
  sp_receipts : gmap string SpoolReceipt;
  sp_attempt_manifests : gset string;
  sp_closed_generations : gset string;
  sp_evidence_custody : gset string
}.
#[export] Instance Spool_eta : Eta Spool := fun r =>
  mkSpool (sp_attempts r) (sp_events r) (sp_next_ordinal r) (sp_acknowledgements r) (sp_receipts r)
    (sp_attempt_manifests r) (sp_closed_generations r) (sp_evidence_custody r).

Record logSpool := mklogSpool {
  ls_generationID : string;
  ls_maxOneShotBytes : Z;
  ls_maxServiceBytes : Z
}.

(** Why an operation refuses. *)
Inductive spoolError :=
| SequenceRange | AttemptMissing | AuthorityConflict | EventConflict | ErrLogSpoolFull | CannotRelease
| UnsupportedAttemptClass | CompletionConflict | GapReplacement | NotContiguous.

(** ** Statements *)
Definition rows_of (attemptID : string) (sp : Spool) : list SpoolRow :=
  List.filter (fun r => bool_decide (sr_attempt_id r = attemptID)) (sp_events sp).

Definition class_of (sp : Spool) (attemptID : string) : option string := sa_class <$> sp_attempts sp !! attemptID.

Definition in_class (class : string) (sp : Spool) (r : SpoolRow) : bool :=
  bool_decide (class_of sp (sr_attempt_id r) = Some class).

Definition payload (rows : list SpoolRow) : Z := fold_right (fun r n => sr_payload_bytes r + n) 0 rows.

(** [SUM(payload_bytes)] over the rows of a class. *)
Definition class_used (class : string) (sp : Spool) : Z := payload (List.filter (in_class class sp) (sp_events sp)).

Definition update_event (ordinal : Z) (attemptID stream : string) (f : SpoolRow -> SpoolRow) (sp : Spool) : Spool :=
  sp <| sp_events := map (fun r => if (sr_ordinal r =? ordinal) && bool_decide (sr_attempt_id r = attemptID)
                                      && bool_decide (sr_stream r = stream) then f r else r) (sp_events sp) |>.

Definition delete_events (p : SpoolRow -> bool) (sp : Spool) : Spool :=
  sp <| sp_events := List.filter (fun r => negb (p r)) (sp_events sp) |>.

(** [DELETE FROM spool_attempts], with its cascades. *)
Definition delete_attempts_where (p : string -> SpoolAttempt -> bool) (sp : Spool) : Spool :=
  let gone id := match sp_attempts sp !! id with Some a => p id a | None => false end in
  let sp' := delete_events (fun r => gone (sr_attempt_id r)) sp in
  sp' <| sp_attempts := filter (fun '(id, a) => p id a = false) (sp_attempts sp) |>
      <| sp_acknowledgements := filter (fun '(k, _) => gone k.1 = false) (sp_acknowledgements sp) |>.

Definition has_events (sp : Spool) (attemptID : string) : bool :=
  existsb (fun r => bool_decide (sr_attempt_id r = attemptID)) (sp_events sp).

(** Rows in the order of a descending integer key and then of [b]. *)
Definition newest_first (a b : string * SpoolReceipt) : Prop := rc_observed_ns b.2 <= rc_observed_ns a.2.
#[export] Instance newest_first_dec a b : Decision (newest_first a b).
Proof. unfold newest_first. apply _. Defined.

Definition bound_receipts (sp : Spool) : Spool :=
  sp <| sp_receipts := list_to_map
          (firstn maxCompletionInspectionReceipts (merge_sort newest_first (map_to_list (sp_receipts sp)))) |>.

Section Spool.
Context (ls : logSpool).

Definition generationPredicate (sp : Spool) (a : SpoolAttempt) : bool :=
  bool_decide (sa_owner_generation a = ls_generationID ls)
  || negb (bool_decide (ls_generationID ls = "")) && bool_decide (sa_owner_generation a ∈ sp_closed_generations sp).

(** ** Attempts *)
Definition ensureAttempt (claim : Claim) : tx Spool spoolError unit unit :=
  let attemptID := al_AttemptID (cl_Lease claim) in
  let token := al_FencingToken (cl_Lease claim) in
  let class := js_Class (cl_Spec claim) in
  let kind := js_Kind (cl_Spec claim) in
  let! stored := reads (fun sp => sp_attempts sp !! attemptID) in
  match stored with
  | None =>
      writes (fun sp => sp <| sp_attempts := <[attemptID := mkSpoolAttempt (cl_JobID claim) token class kind
        (int64 (cl_CreatedAt claim)) (ls_generationID ls) None None None None None None None]> (sp_attempts sp) |>)
  | Some a =>
      check (bool_decide (sa_owner_generation a = ls_generationID ls) && bool_decide (sa_job_id a = cl_JobID claim)
             && bool_decide (sa_fencing_token a = token) && bool_decide (sa_class a = class)
             && bool_decide (sa_kind a = kind)) AuthorityConflict
  end.

(** ** Eviction of service output *)
Fixpoint eviction_prefix (required released : Z) (rows : list SpoolRow) : list SpoolRow :=
  if required <=? released then [] else
  match rows with
  | [] => []
  | r :: rows => r :: eviction_prefix required (released + sr_payload_bytes r) rows
  end.

Definition stream_key (r : SpoolRow) : string * string := (sr_attempt_id r, sr_stream r).

Fixpoint key_order (rows : list SpoolRow) : list (string * string) :=
  match rows with
  | [] => []
  | r :: rows => stream_key r :: List.filter (fun k => negb (bool_decide (k = stream_key r))) (key_order rows)
  end.

Definition of_key (k : string * string) (r : SpoolRow) : bool := bool_decide (stream_key r = k).

(** The maximal runs of consecutive sequences. *)
Fixpoint runs (rows : list SpoolRow) : list (list SpoolRow) :=
  match rows with
  | [] => []
  | r :: rows =>
      match runs rows with
      | (next :: run) :: rest => if sr_sequence next =? sr_sequence r + 1 then (r :: next :: run) :: rest
                                 else [r] :: (next :: run) :: rest
      | rest => [r] :: rest
      end
  end.

Definition gap_row (gap : LogGap) (r : SpoolRow) : SpoolRow :=
  r <| sr_bytes := "" |> <| sr_gap := Some gap |> <| sr_payload_bytes := 0 |>.

(** Rows replaced by one gap at the first of them. *)
Definition replace_run (gap : LogGap) (first : SpoolRow) (rest : list SpoolRow) (sp : Spool) : Spool :=
  fold_left (fun sp r => delete_events (fun x => (sr_ordinal x =? sr_ordinal r)
                                                 && bool_decide (sr_attempt_id x = sr_attempt_id r)) sp) rest
    (update_event (sr_ordinal first) (sr_attempt_id first) (sr_stream first) (gap_row gap) sp).

Definition replaceEvictedServiceRun (events : list SpoolRow) (sp : Spool) : Spool :=
  match events with
  | [] => sp
  | first :: rest =>
      let gap := mkLogGap (sr_sequence (List.last events first)) (Z.of_nat (length events)) (payload events)
                   LogGapSpoolEviction "" in
      replace_run gap first rest sp
  end.

Definition evictServicePrefix (required : Z) (sp : Spool) : result spoolError Spool :=
  let rows := List.filter (fun r => in_class JobClassService sp r && (0 <? sr_payload_bytes r)) (sp_events sp) in
  let candidates := eviction_prefix required 0 rows in
  if payload candidates <? required then Err CannotRelease
  else Ok (fold_left (fun sp key => fold_left (fun sp run => replaceEvictedServiceRun run sp)
                                      (runs (List.filter (of_key key) candidates)) sp) (key_order candidates) sp).

(** ** Appending *)
Definition stored_form (class : string) (event : LogEvent) : LogEvent :=
  if bool_decide (class = JobClassService) && bool_decide (le_Gap event = None)
     && (ls_maxServiceBytes ls <? strlen (le_Bytes event))
  then event <| le_Bytes := "" |>
             <| le_Gap := Some (mkLogGap (le_Sequence event) 1 (strlen (le_Bytes event)) LogGapOversizedEvent "") |>
  else event.

Definition event_row (ordinal : Z) (event : LogEvent) : SpoolRow :=
  mkSpoolRow ordinal (le_AttemptID event) (le_Stream event) (le_Sequence event) (int64 (le_Timestamp event))
    (le_Bytes event) (le_Gap event) (strlen (le_Bytes event)).

Definition insert_event (event : LogEvent) (sp : Spool) : Spool :=
  sp <| sp_events := sp_events sp ++ [event_row (sp_next_ordinal sp) event] |>
     <| sp_next_ordinal := sp_next_ordinal sp + 1 |>.

Definition find_event (sp : Spool) (attemptID stream : string) (sequence : Z) : option SpoolRow :=
  List.find (fun r => bool_decide (sr_attempt_id r = attemptID) && bool_decide (sr_stream r = stream)
                      && (sr_sequence r =? sequence)) (sp_events sp).

(** The room an event needs: one-shot output is refused, service output evicts. *)
Definition make_room (class : string) (payloadBytes : Z) (sp : Spool) : result spoolError Spool :=
  let used := class_used class sp in
  if bool_decide (class = JobClassOneShot) then
    if ls_maxOneShotBytes ls - used <? payloadBytes then Err ErrLogSpoolFull else Ok sp
  else if bool_decide (class = JobClassService) then
    let required := used + payloadBytes - ls_maxServiceBytes ls in
    if 0 <? required then evictServicePrefix required sp else Ok sp
  else Err UnsupportedAttemptClass.

Definition append (event : LogEvent) : tx Spool spoolError unit unit :=
  let! _ := check (le_Sequence event <=? MaxInt64) SequenceRange in
  let! class := need (fun sp => class_of sp (le_AttemptID event)) AttemptMissing in
  let event := stored_form class event in
  let! existing := reads (fun sp => find_event sp (le_AttemptID event) (le_Stream event) (le_Sequence event)) in
  match existing with
  | Some r =>
      let! _ := check ((sr_timestamp_ns r =? int64 (le_Timestamp event)) && bool_decide (sr_bytes r = le_Bytes event)
                       && bool_decide (sr_gap r = le_Gap event)) EventConflict in
      answer tt
  | None =>
      let! sp := reads (fun sp => sp) in
      let! sp := lift (make_room class (strlen (le_Bytes event)) sp) in
      writes (fun _ => insert_event event sp)
  end.

(** ** Uploading *)
Definition pendingCount (attemptID : string) (sp : Spool) : Z := Z.of_nat (length (rows_of attemptID sp)).

Record durableSpoolEvent := mkdurableSpoolEvent {
  de_ordinal : Z;
  de_event : LogEvent
}.

Definition row_event (r : SpoolRow) : LogEvent :=
  mkLogEvent (sr_attempt_id r) (sr_stream r) (sr_sequence r) (sr_timestamp_ns r) (sr_bytes r) (sr_gap r).

Definition pendingBatch (attemptID : string) (limit : nat) (sp : Spool) : list durableSpoolEvent :=
  map (fun r => mkdurableSpoolEvent (sr_ordinal r) (row_event r)) (firstn limit (rows_of attemptID sp)).

Definition pending (attemptID : string) (limit : nat) (sp : Spool) : list LogEvent :=
  map de_event (pendingBatch attemptID limit sp).

(** [ORDER BY finished_ns DESC, created_ns DESC, attempt_id DESC] of the
    completions kept for a job after a newer intent suppressed them. *)
Definition suppression_key (entry : string * SpoolAttempt) : Z * (Z * string) :=
  (match sa_result entry.2 with Some (_, finished) => finished | None => 0 end, (sa_created_ns entry.2, entry.1)).
Definition latest_first (a b : string * SpoolAttempt) : Prop :=
  let '(fa, ka) := suppression_key a in
  let '(fb, kb) := suppression_key b in
  fb < fa \/ (fb = fa /\ key_le kb ka).
#[export] Instance latest_first_dec a b : Decision (latest_first a b).
Proof. unfold latest_first. destruct (suppression_key a), (suppression_key b). apply _. Defined.

Definition suppressed_payloads (jobID : string) (sp : Spool) : list (string * SpoolAttempt) :=
  merge_sort latest_first
    (List.filter (fun '(id, a) => bool_decide (sa_job_id a = jobID)
                    && bool_decide (sa_completion_disposition a = Some "suppressed")
                    && bool_decide (is_Some (sa_result a)) && negb (has_events sp id)) (map_to_list (sp_attempts sp))).

Definition compactSuppressedCompletionPayloads (jobID : string) (sp : Spool) : Spool :=
  let compacted := map fst (List.filter (fun '(_, a) => generationPredicate sp a)
                      (skipn maxSuppressedCompletionPayloadsPerJob (suppressed_payloads jobID sp))) in
  let sp' := delete_attempts_where (fun id _ => bool_decide (id ∈ compacted)) sp in
  sp' <| sp_attempt_manifests := sp_attempt_manifests sp ∖ list_to_set compacted |>.

Definition acknowledge_stream (attemptID stream : string) (sequence : Z) (sp : Spool) : Spool :=
  let sp' := delete_events (fun r => bool_decide (sr_attempt_id r = attemptID) && bool_decide (sr_stream r = stream)
                                     && (sr_sequence r <=? sequence)) sp in
  sp' <| sp_acknowledgements :=
    <[(attemptID, stream) := match sp_acknowledgements sp !! (attemptID, stream) with
                             | Some known => Z.max known sequence | None => sequence end]>
    (sp_acknowledgements sp) |>.

Definition acknowledge (attemptID : string) (acknowledged : gmap string Z) : tx Spool spoolError unit unit :=
  let! stored := reads (fun sp => sp_attempts sp !! attemptID) in
  let! _ := check (bool_decide (map_Forall (fun _ sequence => sequence <= MaxInt64) acknowledged)) SequenceRange in
  let! _ := check (bool_decide (acknowledged = ∅) || bool_decide (is_Some stored)) AttemptMissing in
  let! _ := writes (fun sp => map_fold (fun stream sequence sp => acknowledge_stream attemptID stream sequence sp) sp acknowledged) in
  let! _ := writes (fun sp => delete_attempts_where (fun id a => bool_decide (id = attemptID)
                      && bool_decide (sa_result a = None) && bool_decide (sa_incomplete a = None)
                      && negb (has_events sp attemptID)
                      && bool_decide (sa_completion_disposition a = Some "delivered")) sp) in
  match stored with
  | Some a => if bool_decide (sa_job_id a = "") then pure tt else writes (compactSuppressedCompletionPayloads (sa_job_id a))
  | None => pure tt
  end.

Definition highWater (attemptID stream : string) (sp : Spool) : option Z := sp_acknowledgements sp !! (attemptID, stream).

(** ** Completions kept for delivery *)
Definition storeDurableCompletion (attemptID : string) (completion : durableCompletion) (finishedAt : Z) :
    tx Spool spoolError unit unit :=
  let! a := need (fun sp => sp_attempts sp !! attemptID) CompletionConflict in
  let! _ := check (match sa_result a with None => true | Some (stored, _) => bool_decide (stored = completion) end
                   && bool_decide (sa_incomplete a = None)) CompletionConflict in
  writes (fun sp => sp <| sp_attempts := <[attemptID := a <| sa_result :=
    Some (match sa_result a with Some stored => stored | None => (completion, int64 finishedAt) end) |>]> (sp_attempts sp) |>).

(** The method [durableCompletion]. *)
Definition read_durableCompletion (attemptID : string) (sp : Spool) : option (durableCompletion * Z) :=
  match sp_attempts sp !! attemptID with
  | Some a => match sa_incomplete a with Some _ => None | None => sa_result a end
  | None => None
  end.

(** A revision column: NULL when the caller has none. *)
Definition stored_revision (revision : Z) : option Z := if 0 <? revision then Some (int64 revision) else None.

Definition completionDelivered (now : Z) (attemptID : string) (intentRevision : Z) : tx Spool spoolError unit unit :=
  let revision := stored_revision intentRevision in
  let! _ := writes (fun sp =>
    let prior := sp_receipts sp !! attemptID in
    let receipt := mkSpoolReceipt "delivered" "acknowledged_by_l1" now revision
      (match prior with Some r => rc_job_id r | None => sa_job_id <$> sp_attempts sp !! attemptID end)
      (prior ≫= rc_finished_ns) (prior ≫= rc_terminal_audit) in
    sp <| sp_receipts := <[attemptID := receipt]> (sp_receipts sp) |>) in
  let! _ := writes (fun sp => sp <| sp_attempts := alter (fun a => a <| sa_result := None |>
    <| sa_completion_disposition := Some "delivered" |> <| sa_completion_reason := Some "acknowledged_by_l1" |>
    <| sa_intent_revision := revision |>) attemptID (sp_attempts sp) |>) in
  let! _ := writes (fun sp => sp <| sp_attempt_manifests := sp_attempt_manifests sp ∖ {[ attemptID ]} |>) in
  let! _ := writes (fun sp => delete_attempts_where (fun id a => bool_decide (id = attemptID)
    && bool_decide (sa_result a = None) && bool_decide (sa_incomplete a = None) && negb (has_events sp attemptID)) sp) in
  writes bound_receipts.

(** The revision a suppression keeps: the earliest observed. *)
Definition suppression_revision (disposition : string) (revision : Z) (existingDisposition : option string)
    (existingRevision : option Z) : option Z :=
  match existingRevision with
  | Some existing =>
      if bool_decide (disposition = "suppressed") && bool_decide (existingDisposition = Some "suppressed")
         && ((revision =? 0) || (existing <? int64 revision))
      then Some existing else stored_revision revision
  | None => stored_revision revision
  end.

Definition coalesce {A} (a b : option A) : option A := match a with Some _ => a | None => b end.

Definition recordCompletionDisposition (now : Z) (attemptID disposition reason : string) (revision : Z) :
    tx Spool spoolError unit unit :=
  let! stored := reads (fun sp => sp_attempts sp !! attemptID) in
  let! prior := reads (fun sp => sp_receipts sp !! attemptID) in
  let storedRevision :=
    match stored with
    | Some a => suppression_revision disposition revision
                  (coalesce (sa_completion_disposition a) (rc_disposition <$> prior))
                  (coalesce (sa_intent_revision a) (prior ≫= rc_intent_revision))
    | None => stored_revision revision
    end in
  let result := stored ≫= sa_result in
  let! _ := writes (fun sp => sp <| sp_receipts := <[attemptID := mkSpoolReceipt disposition reason now storedRevision
    (coalesce (sa_job_id <$> stored) (prior ≫= rc_job_id)) (coalesce (snd <$> result) (prior ≫= rc_finished_ns))
    (coalesce (newTerminalCompletionAudit <$> (fst <$> result)) (prior ≫= rc_terminal_audit))]> (sp_receipts sp) |>) in
  let! _ := writes (fun sp => sp <| sp_attempts := alter (fun a => a <| sa_completion_disposition := Some disposition |>
    <| sa_completion_reason := Some reason |> <| sa_intent_revision := storedRevision |>) attemptID (sp_attempts sp) |>) in
  let! _ := match stored with
            | Some a => if bool_decide (disposition = "suppressed")
                        then writes (compactSuppressedCompletionPayloads (sa_job_id a)) else pure tt
            | None => pure tt
            end in
  writes bound_receipts.

Definition completionDisposition (attemptID : string) (sp : Spool) : string * string * Z :=
  match sp_attempts sp !! attemptID with
  | Some a => match sa_completion_disposition a with
              | Some disposition => (disposition, default "" (sa_completion_reason a),
                                     default 0 (sa_intent_revision a) `mod` 2 ^ 64)
              | None => ("", "", 0)
              end
  | None => ("", "", 0)
  end.

(** ** Evidence L1 refused *)

(** A rejected batch becomes one gap per stream. *)
Definition batch_streams (batch : list durableSpoolEvent) : list string :=
  fold_right (fun e streams => le_Stream (de_event e) :: List.filter (fun s => negb (bool_decide (s = le_Stream (de_event e)))) streams)
    [] batch.

Definition consecutive (first : LogEvent) (events : list durableSpoolEvent) : bool :=
  forallb (fun '(index, e) => le_Sequence (de_event e) =? le_Sequence first + Z.of_nat index) (imap pair events).

Definition replay_gap (first last : LogEvent) (events : list durableSpoolEvent) : LogGap :=
  mkLogGap (le_Sequence last) (le_Sequence last - le_Sequence first + 1)
    (fold_right (fun e n => strlen (le_Bytes (de_event e)) + n) 0 events) LogGapReplayRejected "".

Definition replace_stream (attemptID stream : string) (batch : list durableSpoolEvent) : tx Spool spoolError unit unit :=
  match List.filter (fun e => bool_decide (le_Stream (de_event e) = stream)) batch with
  | [] => pure tt
  | first :: rest =>
      let events := first :: rest in
      let! _ := check (consecutive (de_event first) events) NotContiguous in
      let gap := replay_gap (de_event first) (de_event (List.last events first)) events in
      let! _ := writes (update_event (de_ordinal first) attemptID stream (gap_row gap)) in
      writes (fun sp => fold_left (fun sp e => delete_events (fun x => (sr_ordinal x =? de_ordinal e)
                                                  && bool_decide (sr_attempt_id x = attemptID)) sp) rest sp)
  end.

Fixpoint replace_streams (attemptID : string) (streams : list string) (batch : list durableSpoolEvent) :
    tx Spool spoolError unit unit :=
  match streams with
  | [] => pure tt
  | stream :: streams => let! _ := replace_stream attemptID stream batch in replace_streams attemptID streams batch
  end.

Definition replaceBatchWithReplayGaps (attemptID : string) (batch : list durableSpoolEvent) : tx Spool spoolError unit unit :=
  let! _ := check (forallb (fun e => bool_decide (le_Gap (de_event e) = None)) batch) GapReplacement in
  replace_streams attemptID (batch_streams batch) batch.

Definition l1ClosedEvidence (code : ErrorCode) : bool :=
  match code with
  | ErrorAttemptNotFound | ErrorNotFound | ErrorStaleFence | ErrorAttemptMismatch | ErrorInvalidRequest
  | ErrorUnsupportedClass | ErrorUnsupportedKind | ErrorUnsupportedRuntimeHandler | ErrorNotImplemented => true
  | _ => false
  end.

Definition lost_evidence (rows : list SpoolRow) : Z * Z :=
  fold_left (fun '(events, bytes) r =>
    match sr_gap r with
    | None => (int64 (events + 1), int64 (bytes + sr_payload_bytes r))
    | Some gap => (int64 (events + int64 (gap_LostEventCount gap)), int64 (bytes + int64 (gap_LostByteCount gap)))
    end) rows (0, 0).

Definition sealIncomplete (attemptID reason : string) (code : option ErrorCode) (sealedAt : Z) : tx Spool spoolError unit unit :=
  let! lost := reads (fun sp => lost_evidence (rows_of attemptID sp)) in
  let! a := need (fun sp => sp_attempts sp !! attemptID) AttemptMissing in
  let tombstone := mkincompleteEvidenceTombstone reason code sealedAt lost.1 lost.2
    (bool_decide (is_Some (sa_result a))) (snd <$> sa_result a) in
  let! _ := writes (delete_events (fun r => bool_decide (sr_attempt_id r = attemptID))) in
  let! _ := writes (fun sp => sp <| sp_acknowledgements :=
    filter (fun '(k, _) => k.1 <> attemptID) (sp_acknowledgements sp) |>) in
  let refused := match code with Some c => if l1ClosedEvidence c then Some (int64 sealedAt) else None | None => None end in
  writes (fun sp => sp <| sp_attempts := <[attemptID := a <| sa_result := None |> <| sa_incomplete := Some tombstone |>
    <| sa_l1_refused_ns := refused |> <| sa_l1_refusal_code := Some code |>]> (sp_attempts sp) |>).

(** ** What is left to deliver, and what may go *)
Definition created_order (a b : string * SpoolAttempt) : Prop :=
  key_le (sa_created_ns a.2, a.1) (sa_created_ns b.2, b.1).
#[export] Instance created_order_dec a b : Decision (created_order a b).
Proof. unfold created_order. apply _. Defined.

Definition owes_delivery (sp : Spool) (entry : string * SpoolAttempt) : bool :=
  let '(id, a) := entry in
  bool_decide (sa_incomplete a = None) && generationPredicate sp a
  && (has_events sp id || bool_decide (is_Some (sa_result a))
                          && negb (bool_decide (sa_completion_disposition a = Some "suppressed"))).

Definition pendingAttempts (sp : Spool) : list (string * SpoolAttempt) :=
  merge_sort created_order (List.filter (owes_delivery sp) (map_to_list (sp_attempts sp))).

Definition spoolEmptyLeftover (sp : Spool) (id : string) (a : SpoolAttempt) : bool :=
  bool_decide (sa_result a = None) && bool_decide (sa_incomplete a = None)
  && bool_decide (sa_completion_disposition a = None) && bool_decide (sa_l1_refused_ns a = None)
  && bool_decide (sa_l1_refusal_code a = None) && negb (has_events sp id)
  && bool_decide (sp_receipts sp !! id = None) && negb (bool_decide (id ∈ sp_attempt_manifests sp)).

Definition spoolSweepPredicate (sp : Spool) (id : string) (a : SpoolAttempt) : bool :=
  bool_decide (sa_class a = JobClassOneShot)
  && (bool_decide (is_Some (sa_l1_refused_ns a)) || spoolEmptyLeftover sp id a).

Record spoolSweep := mkspoolSweep {
  ss_refused : Z;
  ss_empty : Z;
  ss_full : bool
}.

Definition sweep_candidates (limit : nat) (sp : Spool) : list (string * SpoolAttempt) :=
  firstn limit (merge_sort created_order
    (List.filter (fun '(id, a) => spoolSweepPredicate sp id a && generationPredicate sp a
                    && negb (bool_decide (id ∈ sp_evidence_custody sp))) (map_to_list (sp_attempts sp)))).

Definition sweep_takes (live createdHere : string -> bool) (entry : string * SpoolAttempt) : bool :=
  negb (live entry.1) && (bool_decide (is_Some (sa_l1_refused_ns entry.2)) || negb (createdHere entry.1)).

(** Deleting one row leaves the others as the candidates' scan saw them. *)
Definition sweepDeadOneShotAttempts (limit : nat) (live createdHere : string -> bool) (sp : Spool) : spoolSweep * Spool :=
  let candidates := sweep_candidates limit sp in
  let swept := List.filter (sweep_takes live createdHere) candidates in
  let refused := Z.of_nat (length (List.filter (fun e => bool_decide (is_Some (sa_l1_refused_ns e.2))) swept)) in
  let removed := Z.of_nat (length swept) in
  (mkspoolSweep refused (removed - refused) ((limit <=? length candidates)%nat && (0 <? removed)),
   delete_attempts_where (fun id _ => bool_decide (id ∈ map fst swept)) sp).

Definition purgeJob (jobID : string) (sp : Spool) : Spool :=
  let sp' := delete_attempts_where (fun _ a => bool_decide (sa_job_id a = jobID)) sp in
  sp' <| sp_receipts := filter (fun '(_, r) => rc_job_id r <> Some jobID) (sp_receipts sp) |>.
End Spool.
