(* ===== verification/LogUpload.v ===== *)
(** * Uploading the spool

    The two readers of the spool: the live sink of [agent/logs.go] and the
    recovery of [agent/evidence_outbox.go], each as one turn of its loop with
    L1's answer (or its absence) as an argument. *)
From S2P Require Import Prelude Order States Contract GoStrings JobSpec L1Types RestartPolicy Database.
From S2P Require Import LeaseClock Authority Credentials Summaries Lifecycle LogRetention Logs Claim LogSpool.
#[local] Open Scope string_scope.
#[local] Open Scope list_scope.
#[local] Open Scope Z_scope.

(** ** Where a refusal is decided *)
Inductive errorDestination :=
| errorDestinationUnclassified | errorDestinationTransient | errorDestinationAttemptAuthority
| errorDestinationNodeSession.
#[export] Instance errorDestination_eq_dec : EqDecision errorDestination.
Proof. solve_decision. Defined.

Inductive nodeSessionReaction :=
| nodeSessionNoReaction | nodeSessionReregister | nodeSessionDrain | nodeSessionStopRecordAndEscalate.

Definition agentProtocolErrorClassifications (code : ErrorCode) : option (errorDestination * nodeSessionReaction) :=
  match code with
  | ErrorInternal | ErrorRunLedgerUnavailable => Some (errorDestinationTransient, nodeSessionNoReaction)
  | ErrorLeaseExpired | ErrorStaleFence | ErrorAttemptMismatch | ErrorAttemptNotFound | ErrorAttemptNotOwned =>
      Some (errorDestinationAttemptAuthority, nodeSessionNoReaction)
  | ErrorNodeNotRegistered | ErrorNodeDead => Some (errorDestinationNodeSession, nodeSessionReregister)
  | ErrorNodeDraining => Some (errorDestinationNodeSession, nodeSessionDrain)
  | ErrorNodeSessionReplaced | ErrorIdentityBound | ErrorPrincipalForbidden =>
      Some (errorDestinationNodeSession, nodeSessionStopRecordAndEscalate)
  | _ => None
  end.

(** What came back from L1: its answer, or a failure of the transport. *)
Inductive reply :=
| Answered (r : result ErrorCode AppendLogsResponse)
| NoAnswer.

(** [classifyAgentProtocolError] of an error of a client call. *)
Definition classifyAgentProtocolError (code : option ErrorCode) : errorDestination * nodeSessionReaction :=
  match code with
  | Some code => default (errorDestinationTransient, nodeSessionNoReaction) (agentProtocolErrorClassifications code)
  | None => (errorDestinationTransient, nodeSessionNoReaction)
  end.

Definition permanentEvidenceRejection (code : option ErrorCode) : bool :=
  match code with
  | Some (ErrorInvalidRequest | ErrorConflict | ErrorIdempotencyConflict | ErrorNotFound | ErrorUnsupportedClass
         | ErrorUnsupportedKind | ErrorUnsupportedRuntimeHandler | ErrorNotImplemented) => true
  | _ => false
  end.

(** ** Acknowledgements *)
Definition eventEndSequence (event : LogEvent) : Z :=
  match le_Gap event with Some gap => gap_ThroughSequence gap | None => le_Sequence event end.

Definition note_highest (known : gmap string Z) (event : LogEvent) : gmap string Z :=
  match known !! le_Stream event with
  | Some sequence => if sequence <? eventEndSequence event
                     then <[le_Stream event := eventEndSequence event]> known else known
  | None => <[le_Stream event := eventEndSequence event]> known
  end.

Definition highest (events : list LogEvent) : gmap string Z := fold_left note_highest events ∅.

Definition validateLogAcknowledgement (events : list LogEvent) (acknowledged : gmap string Z) : bool :=
  forallb (fun '(stream, sequence) =>
    match acknowledged !! stream with Some accepted => sequence <=? accepted | None => false end)
    (map_to_list (highest events)).

Definition eventsContainGap (events : list LogEvent) : bool :=
  existsb (fun event => bool_decide (is_Some (le_Gap event))) events.

(** ** The live sink *)
Record batchingLogSink := mkbatchingLogSink {
  bs_attemptID : string;
  bs_batchSize : nat;
  bs_pendingEvents : Z
}.
#[export] Instance batchingLogSink_eta : Eta batchingLogSink := fun r =>
  mkbatchingLogSink (bs_attemptID r) (bs_batchSize r) (bs_pendingEvents r).

(** How a turn ends: the batch is settled, it is sent again, or the uploader
    stops. *)
Inductive turn := Settled | Retry | Stopped.

Section Upload.
Context (ls : logSpool).

(** [newBatchingLogSink]. *)
Definition open_sink (claim : Claim) (batchSize : nat) (sp : Spool) : Spool * result spoolError batchingLogSink :=
  let '(sp, ensured) := run (ensureAttempt ls claim) sp in
  let attemptID := al_AttemptID (cl_Lease claim) in
  (sp, let? _ := ensured in Ok (mkbatchingLogSink attemptID batchSize (pendingCount attemptID sp))).

(** [WriteOutput]; [wake] says whether the uploader is woken. *)
Definition WriteOutput (now : Z) (event : LogEvent) (sink : batchingLogSink) (sp : Spool) :
    Spool * result spoolError (batchingLogSink * bool) :=
  let event := if le_Timestamp event =? zero_time then event <| le_Timestamp := now |> else event in
  let '(sp, appended) := run (append ls event) sp in
  let pending := bs_pendingEvents sink + 1 in
  (sp, let? _ := appended in Ok (sink <| bs_pendingEvents := pending |>, Z.of_nat (bs_batchSize sink) <=? pending)).

(** One turn of the loop of [uploadContext]. *)
Definition upload_turn (attemptID : string) (batch : list LogEvent) (answer : reply) (sp : Spool) : turn * Spool :=
  match answer with
  | Answered (Ok response) =>
      if validateLogAcknowledgement batch (lp_Acknowledged response) then
        match run (acknowledge ls attemptID (lp_Acknowledged response)) sp with
        | (sp, Ok _) => (Settled, sp)
        | (sp, Err _) => (Stopped, sp)
        end
      else (Stopped, sp)
  | Answered (Err code) =>
      if bool_decide ((classifyAgentProtocolError (Some code)).1 = errorDestinationTransient) then (Retry, sp) else (Stopped, sp)
  | NoAnswer => (Retry, sp)
  end.

Definition settle_sink (batch : list LogEvent) (sink : batchingLogSink) : batchingLogSink :=
  sink <| bs_pendingEvents := bs_pendingEvents sink - Z.of_nat (length batch) |>.

(** ** Recovery *)
Inductive recovery :=
| RecoveryContinue (lost : bool)
| RecoveryFailed.

(** One turn of [recoverLogsRetaining]; [fenced] says that an upgrade owns the
    attempt, or took ownership while the request was out. *)
Definition recover_turn (now : Z) (fenced : bool) (attemptID : string) (batch : list durableSpoolEvent) (answer : reply)
    (sp : Spool) : recovery * Spool :=
  let events := map de_event batch in
  let seal reason code := (RecoveryFailed, (run (sealIncomplete attemptID reason code now) sp).1) in
  match answer with
  | Answered (Ok response) =>
      if validateLogAcknowledgement events (lp_Acknowledged response) then
        match run (acknowledge ls attemptID (lp_Acknowledged response)) sp with
        | (sp, Ok _) => (RecoveryContinue (bool_decide (lp_AttemptState response = AttemptLost)), sp)
        | (sp, Err _) => (RecoveryFailed, sp)
        end
      else (RecoveryFailed, sp)
  | Answered (Err _) | NoAnswer =>
      let code := match answer with Answered (Err code) => Some code | _ => None end in
      if fenced then (RecoveryFailed, sp)
      else if permanentEvidenceRejection code then
        if eventsContainGap events then seal "replacement gap was rejected" code
        else match run (replaceBatchWithReplayGaps attemptID batch) sp with
             | (sp, Ok _) => (RecoveryContinue false, sp)
             | (_, Err _) => seal "rejected replay could not be replaced with a gap" code
             end
      else match (classifyAgentProtocolError code).1 with
           | errorDestinationAttemptAuthority => seal "attempt authority no longer accepts evidence" code
           | _ => (RecoveryFailed, sp)
           end
  end.

(** The completion request rebuilt from the spool by [recoverCompletion]. *)
Definition recovered_request (attemptID : string) (sp : Spool) : option CompletionRequest :=
  match sp_attempts sp !! attemptID, read_durableCompletion attemptID sp with
  | Some a, Some (completion, _) =>
      Some (mkCompletionRequest (dc_InterruptionReason completion) (dc_InterruptionRequestKey completion)
        (sa_fencing_token a) ("completion:" +:+ attemptID) (dc_Result completion) (dc_RuntimeQuiescenceEvidence completion)
        "" (dc_TerminationInitiator completion))
  | _, _ => None
  end.
End Upload.
