(* ===== verification/SpoolStreams.v ===== *)
(** * What the spool promises

    The rows of a stream are consecutive ranges; appending, eviction and
    acknowledgement keep them so.  One-shot output is never dropped and both
    classes stay within their budgets. *)
From S2P Require Import Prelude Order States Contract GoStrings JobSpec L1Types RestartPolicy Database.
From S2P Require Import LeaseClock Authority Credentials Summaries Lifecycle LogRetention Logs LogStreams Claim LogSpool.
#[local] Open Scope string_scope.
#[local] Open Scope list_scope.
#[local] Open Scope Z_scope.

(** ** Rows *)
Definition row_end (r : SpoolRow) : Z := match sr_gap r with Some gap => gap_ThroughSequence gap | None => sr_sequence r end.

(** A row is an event's payload, or the declaration of a loss. *)
Record row_ok (r : SpoolRow) : Prop := {
  row_ok_start : 0 <= sr_sequence r;
  row_ok_range : sr_sequence r <= row_end r <= MaxInt64;
  row_ok_payload : sr_payload_bytes r = strlen (sr_bytes r);
  row_ok_gap : forall gap, sr_gap r = Some gap -> sr_bytes r = ""
}.

(** Rows without a hole between them. *)
Fixpoint linked (start : Z) (rows : list SpoolRow) (last : Z) : Prop :=
  match rows with
  | [] => last = start - 1
  | r :: rows => sr_sequence r = start /\ linked (row_end r + 1) rows last
  end.

Lemma linked_app start a b last :
  linked start (a ++ b) last <-> exists mid, linked start a mid /\ linked (mid + 1) b last.
Proof.
  revert start. induction a as [|r a IH]; intros start; simpl.
  - split; [intros H; exists (start - 1); split; [done|]; by replace (start - 1 + 1) with start by lia|].
    intros (? & -> & H). by replace (start - 1 + 1) with start in H by lia.
  - rewrite IH. split; [intros (E & mid & H1 & H2); by exists mid | intros (mid & [E H1] & H2); split; [done | by exists mid]].
Qed.

Lemma linked_bounds start rows last r :
  Forall row_ok rows -> linked start rows last -> r ∈ rows -> start <= sr_sequence r /\ row_end r <= last.
Proof.
  intros Hok. revert start. induction Hok as [|x rows Hx Hok IH]; intros start; simpl; [by intros _ ?%elem_of_nil|].
  assert (Hl : forall s, linked s rows last -> s - 1 <= last).
  { clear -Hok. intros s. revert s. induction Hok as [|y rows Hy _ IH]; intros s; simpl; [lia|]. intros [E H%IH].
    assert (H1 := row_ok_range _ Hy). lia. }
  intros [E H] [->|Hr]%elem_of_cons; [apply Hl in H; assert (H1 := row_ok_range _ Hx); lia|].
  apply (IH _ H) in Hr. assert (H1 := row_ok_range _ Hx). lia.
Qed.

(** ** A stream of the spool *)
Definition stream_of (sp : Spool) (k : string * string) : list SpoolRow := List.filter (of_key k) (sp_events sp).

Definition ordinal_lt (a b : SpoolRow) : Prop := sr_ordinal a < sr_ordinal b.

(** The tables' own constraints: ordinals grow, rows are well formed and belong
    to a known attempt. *)
Record spool_ok (sp : Spool) : Prop := {
  spool_sorted : StronglySorted ordinal_lt (sp_events sp);
  spool_fresh : Forall (fun r => sr_ordinal r < sp_next_ordinal sp) (sp_events sp);
  spool_rows : Forall row_ok (sp_events sp);
  spool_owned : Forall (fun r => is_Some (sp_attempts sp !! sr_attempt_id r)) (sp_events sp)
}.

(** A stream from [start] to [last]. *)
Definition spans (sp : Spool) (k : string * string) (start last : Z) : Prop := linked start (stream_of sp k) last.

Definition all_linked (sp : Spool) : Prop := forall k, exists start last, spans sp k start last.

Lemma sorted_app_inv {A} (R : A -> A -> Prop) a b :
  StronglySorted R (a ++ b) -> StronglySorted R a /\ StronglySorted R b /\ forall x y, x ∈ a -> y ∈ b -> R x y.
Proof.
  induction a as [|x a IH]; simpl; [intros H; split_and!; [constructor|done|by intros ? ? ?%elem_of_nil]|].
  intros H. inversion H as [|? ? H1 H2]; subst. destruct (IH H1) as (Ha & Hb & Hab). apply Forall_app in H2 as [H2 H3].
  rewrite Forall_forall in H3. split_and!; [by constructor|done|]. intros y z [->|Hy]%elem_of_cons Hz; auto.
Qed.

Lemma ordinal_unique rows r1 r2 :
  StronglySorted ordinal_lt rows -> r1 ∈ rows -> r2 ∈ rows -> sr_ordinal r1 = sr_ordinal r2 -> r1 = r2.
Proof.
  unfold ordinal_lt. induction 1 as [|x rows Hs IH Hall]; [by intros ?%elem_of_nil|]. rewrite Forall_forall in Hall.
  intros [->|H1]%elem_of_cons [->|H2]%elem_of_cons E; [done|apply Hall in H2; lia|apply Hall in H1; lia|auto].
Qed.

Lemma ordinal_nodup rows : StronglySorted ordinal_lt rows -> NoDup rows.
Proof.
  induction 1 as [|x l Hs IH Hall]; constructor; [|done].
  intros Hx. rewrite Forall_forall in Hall. apply Hall in Hx. unfold ordinal_lt in Hx. lia.
Qed.

(** ** Runs of consecutive rows *)
Fixpoint consecutive_from (q : Z) (rows : list SpoolRow) : Prop :=
  match rows with
  | [] => True
  | r :: rows => sr_sequence r = q /\ consecutive_from (q + 1) rows
  end.

Record is_run (k : string * string) (run : list SpoolRow) : Prop := {
  run_key : Forall (fun r => stream_key r = k) run;
  run_raw : Forall (fun r => sr_gap r = None) run;
  run_consecutive : exists q, consecutive_from q run
}.

Lemma runs_spec rows : concat (runs rows) = rows /\ Forall (fun run => run <> [] /\ exists q, consecutive_from q run) (runs rows).
Proof.
  induction rows as [|r rows [IH1 IH2]]; simpl; [done|].
  assert (H1 : [r] <> [] /\ exists q, consecutive_from q [r]) by (split; [done|]; by exists (sr_sequence r)).
  destruct (runs rows) as [|[|next run] rest]; simpl in *.
  - split; [by rewrite <- IH1 | by constructor].
  - exfalso. apply Forall_cons in IH2 as [[H _] _]. by apply H.
  - inversion IH2 as [|? ? [_ [q Hq]] IH3]; subst. destruct (Z.eqb_spec (sr_sequence next) (sr_sequence r + 1)) as [E|N]; simpl.
    + split; [done|]. constructor; [|done]. split; [done|]. exists (sr_sequence r). simpl. split; [done|].
      destruct Hq as [<- Hq]. split; [done|]. by rewrite <- E.
    + split; [done|]. constructor; [done|]. constructor; [|done]. split; [done|]. by exists q.
Qed.

(** In a linked stream such a run is a segment. *)
Lemma run_segment start rows last r run :
  Forall row_ok rows -> linked start rows last -> Forall (fun x => sr_gap x = None) (r :: run) ->
  consecutive_from (sr_sequence r) (r :: run) -> Forall (fun x => x ∈ rows) (r :: run) ->
  exists pre post, rows = pre ++ (r :: run) ++ post.
Proof.
  intros Hok Hl Hraw [_ Hc] Hin. inversion Hin as [|? ? Hr Hin']; subst. apply list_elem_of_split in Hr as (pre & post & ->).
  exists pre. enough (H : exists post', post = run ++ post') by (destruct H as [post' ->]; by exists post').
  clear Hin. revert pre r post Hok Hl Hraw Hc Hin'. induction run as [|n run IH]; intros pre r post Hok Hl Hraw Hc Hin; [by exists post|].
  inversion Hin as [|? ? Hn Hin']; subst. inversion Hraw as [|? ? Hr Hraw']; subst. destruct Hc as [En Hc].
  apply linked_app in Hl as (mid & Hpre & Hl). assert (Hl0 := Hl). simpl in Hl. destruct Hl as [Er Hl].
  unfold row_end in Hl. rewrite Hr in Hl. apply Forall_app in Hok as [Hokp Hok]. inversion Hok as [|? ? Hokr Hok']; subst.
  assert (Hpost : n ∈ post).
  { apply elem_of_app in Hn as [Hn|[->|Hn]%elem_of_cons]; [|lia|done]. exfalso.
    destruct (linked_bounds _ _ _ _ Hokp Hpre Hn). rewrite Forall_forall in Hokp. destruct (Hokp n Hn). lia. }
  destruct post as [|y post]; [by apply elem_of_nil in Hpost|]. destruct Hl as [Ey Hl].
  apply elem_of_cons in Hpost as [->|Hpost].
  - destruct (IH (pre ++ [r]) y post) as [post' ->]; [..|by exists post'].
    + rewrite <- app_assoc. simpl. apply Forall_app. split; [done|]. by constructor.
    + rewrite <- app_assoc. simpl. apply linked_app. by exists mid.
    + done.
    + by rewrite En.
    + rewrite <- app_assoc. simpl. done.
  - exfalso. inversion Hok' as [|? ? Hoky Hok'']; subst. destruct (linked_bounds _ _ _ _ Hok'' Hl Hpost).
    destruct (row_ok_range _ Hoky). lia.
Qed.

(** ** Replacing a run by a gap *)
Definition hits (x r : SpoolRow) : bool := (sr_ordinal x =? sr_ordinal r) && bool_decide (sr_attempt_id x = sr_attempt_id r).

Definition in_run (run : list SpoolRow) (x : SpoolRow) : bool := existsb (hits x) run.

Definition onto_gap (gap : LogGap) (first x : SpoolRow) : SpoolRow :=
  if hits x first && bool_decide (sr_stream x = sr_stream first) then gap_row gap x else x.

Lemma delete_all_spec run sp :
  fold_left (fun sp r => delete_events (fun x => hits x r) sp) run sp
  = sp <| sp_events := List.filter (fun x => negb (in_run run x)) (sp_events sp) |>.
Proof.
  revert sp. induction run as [|r run IH]; intros sp; simpl.
  - rewrite list_filter_true; [by destruct sp|]. by apply Forall_forall.
  - rewrite IH. unfold delete_events. simpl. rewrite filter_filter_and. destruct sp; simpl. unfold set_field; simpl. f_equal.
    apply List.filter_ext. intros x. unfold in_run. simpl. by destruct (hits x r), (existsb (hits x) run).
Qed.

Lemma replace_run_spec gap first rest sp :
  replace_run gap first rest sp
  = sp <| sp_events := List.filter (fun x => negb (in_run rest x)) (map (onto_gap gap first) (sp_events sp)) |>.
Proof. unfold replace_run. rewrite delete_all_spec. done. Qed.

(** The rows left when [first :: rest] is replaced in a spool that holds it. *)
Section Replace.
Context (sp : Spool) (gap : LogGap) (first : SpoolRow) (rest : list SpoolRow).
Context (Hok : spool_ok sp) (Hin : Forall (fun r => r ∈ sp_events sp) (first :: rest)) (Hnd : NoDup (first :: rest)).

Lemma hits_spec x r : x ∈ sp_events sp -> r ∈ sp_events sp -> hits x r = true <-> x = r.
Proof.
  intros Hx Hr. unfold hits. rewrite andb_true_iff, Z.eqb_eq, bool_decide_eq_true. split; [|by intros ->].
  intros [E _]. by apply (ordinal_unique (sp_events sp)); [apply Hok|..].
Qed.

Lemma in_run_spec run x :
  x ∈ sp_events sp -> Forall (fun r => r ∈ sp_events sp) run -> in_run run x = true <-> x ∈ run.
Proof.
  intros Hx Hr. unfold in_run. rewrite existsb_exists. rewrite Forall_forall in Hr. split.
  - intros (r & H1%list_elem_of_In & H2). apply hits_spec in H2 as ->; auto.
  - intros H. exists x. split; [by apply list_elem_of_In|]. by apply hits_spec; auto.
Qed.

Lemma onto_gap_spec x : x ∈ sp_events sp -> onto_gap gap first x = if bool_decide (x = first) then gap_row gap first else x.
Proof.
  intros Hx. apply Forall_cons in Hin as [Hf _]. unfold onto_gap. destruct (decide (x = first)) as [->|N].
  - by rewrite (proj2 (hits_spec first first Hx Hx)), !bool_decide_eq_true_2 by done.
  - rewrite (bool_decide_eq_false_2 (x = first)) by done. destruct (hits x first) eqn:Eh; [|done]. by apply hits_spec in Eh.
Qed.

(** Views that do not meet the run, and views that have it as a segment. *)
Lemma replaced_other view :
  (forall x, x ∈ view -> x ∈ sp_events sp /\ x ∉ first :: rest) ->
  List.filter (fun x => negb (in_run rest x)) (map (onto_gap gap first) view) = view.
Proof.
  assert (Hr := Forall_inv_tail Hin). induction view as [|x view IH]; intros H; simpl; [done|].
  destruct (H x) as [Hx Hx']; [by left|].
  rewrite onto_gap_spec by auto. rewrite bool_decide_eq_false_2 by (intros ->; apply Hx'; by left).
  destruct (in_run rest x) eqn:E; simpl.
  - exfalso. apply in_run_spec in E; [|auto|done]. apply Hx'. by right.
  - f_equal. apply IH. intros y Hy. apply H. by right.
Qed.

Lemma replaced_segment pre post view :
  (forall x, x ∈ view -> x ∈ sp_events sp) -> view = pre ++ (first :: rest) ++ post -> NoDup view ->
  List.filter (fun x => negb (in_run rest x)) (map (onto_gap gap first) view) = pre ++ gap_row gap first :: post.
Proof.
  intros Hsub Hv Hn. inversion Hin as [|? ? Hf Hr]; subst x l.
  subst view. apply NoDup_app in Hn as (Hn1 & Hn2 & Hn3). apply NoDup_app in Hn3 as (Hn3 & Hn4 & Hn5).
  rewrite !map_app, !List.filter_app. rewrite (replaced_other pre), (replaced_other post); cycle 1.
  - intros x Hx. split; [apply Hsub; by rewrite !elem_of_app; auto|]. intros H. by apply (Hn4 x).
  - intros x Hx. split; [apply Hsub; by rewrite !elem_of_app; auto|]. intros H. apply (Hn2 x Hx). apply elem_of_app. by left.
  - f_equal. simpl. rewrite onto_gap_spec, bool_decide_eq_true_2 by done.
    apply NoDup_cons in Hnd as [Hfr Hnr].
    assert (Ef : in_run rest (gap_row gap first) = false).
    { destruct (in_run rest (gap_row gap first)) eqn:E; [|done]. exfalso. apply Hfr.
      apply (in_run_spec rest first Hf Hr). exact E. }
    rewrite Ef. simpl. f_equal. rewrite (list_filter_false _ (map _ rest)); [done|].
    apply Forall_forall. intros y (x & <- & Hx%list_elem_of_In)%list_elem_of_In%in_map_iff. rewrite Forall_forall in Hr.
    rewrite onto_gap_spec by auto. rewrite bool_decide_eq_false_2 by (intros ->; done).
    by apply negb_false_iff, in_run_spec; [auto|apply Forall_forall|].
Qed.

Definition others : list SpoolRow := List.filter (fun x => negb (in_run (first :: rest) x)) (sp_events sp).

Lemma events_split : sp_events sp ≡ₚ (first :: rest) ++ others.
Proof.
  rewrite (filter_partition (in_run (first :: rest)) (sp_events sp)) at 1. apply Permutation_app_tail.
  apply NoDup_Permutation; [|done|].
  - apply ordinal_nodup, sorted_filter, Hok.
  - intros x. rewrite elem_of_filter_bool. split.
    + intros [Hx E]. by apply in_run_spec in E.
    + intros Hx. assert (Hx' : x ∈ sp_events sp) by (rewrite Forall_forall in Hin; auto). split; [done|]. by apply in_run_spec.
Qed.

Lemma replaced_perm : sp_events (replace_run gap first rest sp) ≡ₚ gap_row gap first :: others.
Proof.
  rewrite replace_run_spec. cbn [set_field sp_events]. simpl.
  rewrite (list_filter_perm _ _ _ (Permutation_map (onto_gap gap first) events_split)).
  rewrite (replaced_segment [] others); [done| |done|].
  - intros x Hx. by rewrite events_split.
  - rewrite <- events_split. apply ordinal_nodup, Hok.
Qed.
End Replace.

(** ** Eviction *)
Definition uploadable (r : SpoolRow) : Prop := validateLogEvent (sr_attempt_id r) (row_event r) = Ok tt.

Record evicts (gone : list SpoolRow) (sp sp' : Spool) : Prop := {
  evicts_only : exists events, sp' = sp <| sp_events := events |>;
  evicts_ok : spool_ok sp';
  evicts_spans : forall k start last, spans sp k start last -> spans sp' k start last;
  evicts_kept : forall x, x ∈ sp_events sp -> x ∉ gone -> x ∈ sp_events sp';
  evicts_uploadable : Forall uploadable (sp_events sp) -> Forall uploadable (sp_events sp');
  evicts_used : forall class, class_used class sp' + payload (List.filter (in_class class sp) gone) = class_used class sp
}.

Lemma payload_app a b : payload (a ++ b) = payload a + payload b.
Proof. induction a as [|r a IH]; simpl; [done|]. rewrite IH. lia. Qed.

Lemma payload_perm a b : a ≡ₚ b -> payload a = payload b.
Proof. induction 1; simpl; lia. Qed.

Lemma in_class_only class sp events : in_class class (sp <| sp_events := events |>) = in_class class sp.
Proof. done. Qed.

Lemma evicts_nil sp : spool_ok sp -> evicts [] sp sp.
Proof.
  intros H. split; try done.
  - exists (sp_events sp). by destruct sp.
  - intros class. simpl. lia.
Qed.

Lemma evicts_app g1 g2 sp sp1 sp2 : evicts g1 sp sp1 -> evicts g2 sp1 sp2 -> evicts (g1 ++ g2) sp sp2.
Proof.
  intros [[e1 ->] O1 S1 K1 U1 C1] [[e2 ->] O2 S2 K2 U2 C2]. split; auto.
  - by exists e2.
  - intros x Hx Hg. apply not_elem_of_app in Hg as [H1 H2]. auto.
  - intros class. specialize (C1 class). specialize (C2 class). rewrite in_class_only in C2.
    rewrite List.filter_app, payload_app. lia.
Qed.

Lemma consecutive_last q run first : run <> [] -> consecutive_from q run ->
  sr_sequence (List.last run first) = q + Z.of_nat (length run) - 1.
Proof.
  revert q. induction run as [|r run IH]; intros q Hn; [done|]. intros [E H]. destruct run as [|r2 run]; [simpl; lia|].
  change (List.last (r :: r2 :: run) first) with (List.last (r2 :: run) first). rewrite (IH (q + 1)) by done.
  change (length (r :: r2 :: run)) with (S (length (r2 :: run))). lia.
Qed.

Lemma payload_positive run : run <> [] -> Forall (fun r => 0 < sr_payload_bytes r) run -> 0 < payload run.
Proof.
  intros Hn H. destruct H as [|r run Hr H]; [done|]. simpl.
  assert (0 <= payload run); [|lia]. clear Hn. induction H as [|x run Hx _ IH]; simpl; lia.
Qed.

Lemma gap_row_uploadable r gap :
  uploadable r -> sr_gap r = None -> sr_sequence r <= gap_ThroughSequence gap <= MaxInt64 ->
  gap_LostEventCount gap = gap_ThroughSequence gap - sr_sequence r + 1 -> 0 < gap_LostByteCount gap ->
  gap_Reason gap = LogGapSpoolEviction \/ gap_Reason gap = LogGapReplayRejected -> gap_SourceEventSHA256 gap = "" ->
  uploadable (gap_row gap r).
Proof.
  unfold uploadable, validateLogEvent. simpl. intros H E Hr Hc Hb Hreason ->. rewrite E in H.
  destruct (negb (bool_decide _)); [done|]. destruct (_ && _); [done|]. rewrite orb_false_r in H.
  destruct (Z.ltb_spec MaxInt64 (sr_sequence r)); [done|]. destruct (sr_timestamp_ns r =? zero_time); [done|].
  destruct (Z.ltb_spec MaxInt64 (gap_ThroughSequence gap)); [lia|]. simpl.
  rewrite Hc, Z.eqb_refl. destruct (Z.ltb_spec (gap_ThroughSequence gap) (sr_sequence r)); [lia|].
  destruct (Z.eqb_spec (gap_LostByteCount gap) 0); [lia|]. simpl. destruct Hreason as [-> | ->]; reflexivity.
Qed.

Lemma sorted_map f rows :
  (forall r, sr_ordinal (f r) = sr_ordinal r) -> StronglySorted ordinal_lt rows -> StronglySorted ordinal_lt (map f rows).
Proof.
  intros Hf. induction 1 as [|r rows Hs IH Hall]; simpl; constructor; [done|]. rewrite Forall_forall in *.
  intros y (x & <- & Hx%list_elem_of_In)%list_elem_of_In%in_map_iff. unfold ordinal_lt. rewrite !Hf. by apply Hall.
Qed.

Lemma filter_map_key k f rows :
  (forall r, stream_key (f r) = stream_key r) -> List.filter (of_key k) (map f rows) = map f (List.filter (of_key k) rows).
Proof.
  intros Hf. induction rows as [|r rows IH]; simpl; [done|]. rewrite IH. unfold of_key. rewrite Hf. by case_bool_decide.
Qed.

Lemma onto_gap_same gap first x :
  sr_ordinal (onto_gap gap first x) = sr_ordinal x /\ stream_key (onto_gap gap first x) = stream_key x.
Proof. unfold onto_gap. by case_match. Qed.

Section EvictRun.
Context (sp : Spool) (k : string * string) (first : SpoolRow) (rest : list SpoolRow) (gap : LogGap).
Context (Hok : spool_ok sp) (Hlinked : all_linked sp) (Hrun : is_run k (first :: rest)).
Context (Hin : Forall (fun r => r ∈ sp_events sp) (first :: rest)) (Hnd : NoDup (first :: rest)).
Context (Hgap : gap_ThroughSequence gap = sr_sequence first + Z.of_nat (length rest)).
#[local] Definition sp1 : Spool := replace_run gap first rest sp.

Lemma run_through : sr_sequence (List.last (first :: rest) first) = sr_sequence first + Z.of_nat (length rest).
Proof.
  destruct Hrun as [_ _ [q Hc]]. assert (Hq : q = sr_sequence first) by (by destruct Hc). subst q.
  rewrite (consecutive_last (sr_sequence first)) by done. simpl length. lia.
Qed.

Lemma run_range : sr_sequence first <= gap_ThroughSequence gap <= MaxInt64.
Proof.
  rewrite Hgap. split; [lia|]. rewrite <- run_through. assert (Hr := spool_rows _ Hok). rewrite Forall_forall in Hr, Hin.
  destruct (Hr (List.last (first :: rest) first)) as [_ [H1 H2] _ _]; [apply Hin|lia].
  apply list_elem_of_In. destruct (exists_last (l := first :: rest)) as (l' & x & ->); [done|]. rewrite List.last_last.
  apply in_or_app. right. by left.
Qed.

Lemma run_spool_ok : spool_ok sp1.
Proof.
  assert (Hperm := replaced_perm sp gap first rest Hok Hin Hnd). assert (Hsplit := events_split sp first rest Hok Hin Hnd).
  destruct Hok as [H1 H2 H3 H4]. unfold sp1. split.
  - rewrite replace_run_spec. apply sorted_filter, sorted_map; [|done]. intros x. apply onto_gap_same.
  - rewrite Hperm, replace_run_spec. rewrite Hsplit in H2. apply Forall_app in H2 as [Hf Ho].
    apply Forall_cons in Hf as [Hf _]. by constructor.
  - rewrite Hperm. rewrite Hsplit in H3. apply Forall_app in H3 as [Hf Ho]. apply Forall_cons in Hf as [Hf _].
    constructor; [|done]. assert (Hr := run_range). split; simpl; [apply Hf|unfold row_end; simpl; lia|done|done].
  - rewrite Hperm, replace_run_spec. rewrite Hsplit in H4. apply Forall_app in H4 as [Hf Ho].
    apply Forall_cons in Hf as [Hf _]. by constructor.
Qed.

Lemma run_spans k' start last : spans sp k' start last -> spans sp1 k' start last.
Proof.
  unfold spans, stream_of, sp1. rewrite replace_run_spec. cbn [set_field sp_events]. simpl. intros Hl.
  rewrite filter_filter_comm, filter_map_key by (intros; apply onto_gap_same).
  assert (Hview : forall x, x ∈ List.filter (of_key k') (sp_events sp) -> x ∈ sp_events sp /\ stream_key x = k').
  { intros x [Hx E]%elem_of_filter_bool. split; [done|]. by apply bool_decide_eq_true in E. }
  assert (Hokv : Forall row_ok (List.filter (of_key k') (sp_events sp))).
  { apply Forall_forall. intros x Hx. assert (Hr := spool_rows _ Hok). rewrite Forall_forall in Hr. by apply Hr, Hview. }
  destruct Hrun as [Hkey Hraw [q Hc]]. destruct (decide (k' = k)) as [->|N].
  - assert (Hq : q = sr_sequence first) by (by destruct Hc). subst q.
    assert (Hin' : Forall (fun x => x ∈ List.filter (of_key k) (sp_events sp)) (first :: rest)).
    { rewrite Forall_forall in Hin, Hkey |- *. intros x Hx. apply elem_of_filter_bool. split; [by apply Hin|].
      apply bool_decide_eq_true. by apply Hkey. }
    destruct (run_segment _ _ _ _ _ Hokv Hl Hraw Hc Hin') as (pre & post & E).
    rewrite (replaced_segment sp gap first rest Hok Hin Hnd pre post); [|intros x Hx; by apply Hview|done|].
    2: apply ordinal_nodup, sorted_filter, Hok.
    rewrite E in Hl. apply linked_app in Hl as (mid & Hpre & Hl). apply linked_app in Hl as (mid2 & Hm & Hpost).
    apply linked_app. exists mid. split; [done|]. simpl. split; [by destruct Hm|].
    replace (row_end (gap_row gap first)) with mid2; [done|]. unfold row_end. simpl. rewrite Hgap.
    clear -Hm Hraw Hc. revert mid first Hm Hraw Hc. induction rest as [|n run IH]; intros mid r Hm Hraw Hc.
    + simpl in Hm. apply Forall_cons in Hraw as [Hr _]. unfold row_end in Hm. rewrite Hr in Hm. simpl. lia.
    + destruct Hm as [E Hm]. destruct Hc as [_ Hc]. apply Forall_cons in Hraw as [Hr Hraw]. unfold row_end in Hm. rewrite Hr in Hm.
      destruct Hc as [En Hc]. rewrite (IH (sr_sequence r) n Hm Hraw); [|split; [done|by rewrite En]]. rewrite En. simpl length. lia.
  - rewrite (replaced_other sp gap first rest Hok Hin); [done|]. intros x [Hx E]%Hview. split; [done|]. intros Hx'.
    rewrite Forall_forall in Hkey. apply Hkey in Hx'. congruence.
Qed.

Lemma run_evicts :
  (Forall uploadable (first :: rest) -> uploadable (gap_row gap first)) -> evicts (first :: rest) sp sp1.
Proof.
  intros Hup. assert (Hperm := replaced_perm sp gap first rest Hok Hin Hnd).
  assert (Hsplit := events_split sp first rest Hok Hin Hnd). split.
  - eexists. apply replace_run_spec.
  - apply run_spool_ok.
  - apply run_spans.
  - intros x Hx Hg. unfold sp1. rewrite Hperm. right. apply elem_of_filter_bool. split; [done|].
    apply negb_true_iff, not_true_iff_false. rewrite in_run_spec by done. done.
  - intros H. unfold sp1. rewrite Hperm. rewrite Hsplit in H. apply Forall_app in H as [Hf Ho]. constructor; auto.
  - intros class. unfold class_used. replace (in_class class sp1) with (in_class class sp) by (unfold sp1; by rewrite replace_run_spec).
    unfold sp1. rewrite (payload_perm _ _ (list_filter_perm (in_class class sp) _ _ Hperm)).
    rewrite (payload_perm _ _ (list_filter_perm (in_class class sp) _ _ Hsplit)), List.filter_app, payload_app.
    simpl. replace (in_class class sp (gap_row gap first)) with (in_class class sp first) by done.
    destruct (in_class class sp first); simpl; lia.
Qed.
End EvictRun.

Lemma service_run_evicted sp k run :
  spool_ok sp -> all_linked sp -> is_run k run -> run <> [] -> Forall (fun r => r ∈ sp_events sp) run -> NoDup run ->
  Forall (fun r => 0 < sr_payload_bytes r) run -> evicts run sp (replaceEvictedServiceRun run sp).
Proof.
  intros Hok Hl Hr Hne Hin Hnd Hpay. destruct run as [|first rest]; [done|]. unfold replaceEvictedServiceRun.
  set (gap := mkLogGap _ _ _ _ _). assert (Ht := run_through k first rest Hr).
  apply (run_evicts sp k first rest gap); [done..|]. intros Hup. apply Forall_cons in Hup as [Hup _].
  assert (Hg := run_range sp k first rest gap Hok Hr Hin Ht).
  apply gap_row_uploadable; simpl; [done| |done| |by apply (payload_positive (first :: rest))|by left|done].
  - destruct Hr as [_ Hraw _]. by apply Forall_cons in Hraw as [? _].
  - change (match rest with [] => first | _ :: _ => List.last rest first end) with (List.last (first :: rest) first).
    rewrite Ht. lia.
Qed.

Lemma evicts_linked gone sp sp' : evicts gone sp sp' -> all_linked sp -> all_linked sp'.
Proof. intros [_ _ H _ _ _] Hl k. destruct (Hl k) as (start & last & Hk). exists start, last. by apply H. Qed.

Lemma service_runs_evicted rs sp :
  spool_ok sp -> all_linked sp -> Forall (fun run => run <> [] /\ exists k, is_run k run) rs -> NoDup (concat rs) ->
  Forall (fun r => r ∈ sp_events sp) (concat rs) -> Forall (fun r => 0 < sr_payload_bytes r) (concat rs) ->
  evicts (concat rs) sp (fold_left (fun sp run => replaceEvictedServiceRun run sp) rs sp).
Proof.
  revert sp. induction rs as [|run rs IH]; intros sp Hok Hl Hrs Hnd Hin Hpay; simpl; [by apply evicts_nil|].
  apply Forall_cons in Hrs as [[Hne [k Hr]] Hrs]. simpl in *. apply NoDup_app in Hnd as (Hn1 & Hn2 & Hn3).
  apply Forall_app in Hin as [Hin1 Hin2]. apply Forall_app in Hpay as [Hp1 Hp2].
  assert (H1 := service_run_evicted sp k run Hok Hl Hr Hne Hin1 Hn1 Hp1).
  eapply evicts_app; [exact H1|]. apply IH; [by apply H1|by eapply evicts_linked|done|done| |done].
  rewrite Forall_forall in Hin2 |- *. intros x Hx. apply (evicts_kept _ _ _ H1); [by apply Hin2|]. intros Hx'. by apply (Hn2 x).
Qed.

(** The candidates, grouped by stream. *)
Lemma fold_left_concat {A B C} (g : C -> B -> C) (h : A -> list B) keys c :
  fold_left (fun c key => fold_left g (h key) c) keys c = fold_left g (concat (map h keys)) c.
Proof. revert c. induction keys as [|key keys IH]; intros c; simpl; [done|]. by rewrite fold_left_app, IH. Qed.

Lemma key_order_spec rows : NoDup (key_order rows) /\ forall r, r ∈ rows -> stream_key r ∈ key_order rows.
Proof.
  induction rows as [|r rows [IH1 IH2]]; simpl; [split; [constructor|by intros ? ?%elem_of_nil]|]. split.
  - constructor.
    + rewrite elem_of_filter_bool. intros [_ E]. by rewrite bool_decide_eq_true_2 in E.
    + clear IH2. induction (key_order rows) as [|x l IH]; simpl; [constructor|]. apply NoDup_cons in IH1 as [Hx IH1].
      case_match; [|auto]. constructor; [|auto]. by rewrite elem_of_filter_bool; intros [? _].
  - intros x [->|Hx]%elem_of_cons; [by left|]. destruct (decide (stream_key x = stream_key r)) as [->|N]; [by left|].
    right. apply elem_of_filter_bool. split; [auto|]. by rewrite bool_decide_eq_false_2.
Qed.

Lemma group_perm keys (rows : list SpoolRow) :
  NoDup keys -> (forall r, r ∈ rows -> stream_key r ∈ keys) ->
  concat (map (fun k => List.filter (of_key k) rows) keys) ≡ₚ rows.
Proof.
  revert rows. induction keys as [|k keys IH]; intros rows Hnd Hall; simpl.
  - destruct rows as [|r rows]; [done|]. exfalso. by apply (elem_of_nil (stream_key r)), Hall; left.
  - apply NoDup_cons in Hnd as [Hk Hnd]. etrans; [|symmetry; apply (filter_partition (of_key k))]. apply Permutation_app_head.
    rewrite <- (IH (List.filter (fun x => negb (of_key k x)) rows)); [|done|].
    + erewrite map_ext_in; [done|]. intros k' Hk'%list_elem_of_In. simpl. rewrite filter_filter_and.
      apply List.filter_ext. intros x. unfold of_key. case_bool_decide; case_bool_decide; simpl; congruence.
    + intros r [Hr E]%elem_of_filter_bool. apply Hall, elem_of_cons in Hr as [Hr|?]; [|done].
      unfold of_key in E. by rewrite bool_decide_eq_true_2 in E.
Qed.

Lemma eviction_prefix_spec required released rows :
  exists rest, rows = eviction_prefix required released rows ++ rest
    /\ (required <= released + payload (eviction_prefix required released rows) \/ rest = []).
Proof.
  revert released. induction rows as [|r rows IH]; intros released; simpl.
  - exists []. case_match; auto.
  - destruct (Z.leb_spec required released); simpl; [exists (r :: rows); split; [done|left; lia]|].
    destruct (IH (released + sr_payload_bytes r)) as (rest & E & H'). exists rest. split; [by f_equal|]. destruct H'; [left; lia|auto].
Qed.

Lemma evicts_perm g g' sp sp' : g ≡ₚ g' -> evicts g sp sp' -> evicts g' sp sp'.
Proof.
  intros Hp [H1 H2 H3 H4 H5 H6]. split; try done.
  - intros x Hx. rewrite <- Hp. auto.
  - intros class. rewrite <- (payload_perm _ _ (list_filter_perm _ _ _ Hp)). auto.
Qed.

Lemma service_runs sp key rows :
  spool_ok sp -> (forall r, r ∈ rows -> r ∈ sp_events sp /\ 0 < sr_payload_bytes r) ->
  Forall (fun run => run <> [] /\ exists k, is_run k run) (runs (List.filter (of_key key) rows)).
Proof.
  intros Hok Hrows. destruct (runs_spec (List.filter (of_key key) rows)) as [Hc Hr]. rewrite Forall_forall in Hr |- *.
  intros run Hrun. destruct (Hr run Hrun) as [Hne Hq]. split; [done|]. exists key.
  assert (Hx : forall x, x ∈ run -> x ∈ List.filter (of_key key) rows).
  { intros x Hx. rewrite <- Hc. apply list_elem_of_In, in_concat. exists run. by rewrite <- !list_elem_of_In. }
  split; [..|done]; apply Forall_forall; intros x [Hin Hk]%Hx%elem_of_filter_bool; [by apply bool_decide_eq_true in Hk|].
  destruct (Hrows x Hin) as [He Hp]. assert (Ho := spool_rows _ Hok). rewrite Forall_forall in Ho. destruct (Ho x He) as [_ _ H1 H2].
  destruct (sr_gap x) as [gap|] eqn:Eg; [|done]. rewrite (H2 gap eq_refl) in H1. rewrite H1 in Hp. done.
Qed.

(** An eviction takes the oldest service payload, and enough of it. *)
Lemma evictServicePrefix_spec required sp :
  spool_ok sp -> all_linked sp ->
  match evictServicePrefix required sp with
  | Ok sp' => exists gone, evicts gone sp sp' /\ Forall (fun r => in_class JobClassService sp r = true) gone /\ required <= payload gone
  | Err e => e = CannotRelease /\ class_used JobClassService sp < required
  end.
Proof.
  intros Hok Hl. unfold evictServicePrefix. set (rows := List.filter _ (sp_events sp)). set (gone := eviction_prefix required 0 rows).
  destruct (eviction_prefix_spec required 0 rows) as (rest & E & Henough). fold gone in E, Henough.
  assert (Hrows : forall r, r ∈ rows -> r ∈ sp_events sp /\ in_class JobClassService sp r = true /\ 0 < sr_payload_bytes r).
  { intros r [Hr [H1 H2%Z.ltb_lt]%andb_true_iff]%elem_of_filter_bool. done. }
  assert (Hgone : forall r, r ∈ gone -> r ∈ rows) by (intros r Hr; rewrite E; apply elem_of_app; by left).
  destruct (Z.ltb_spec (payload gone) required) as [Hlt|Hge].
  - split; [done|]. destruct Henough as [?| ->]; [lia|]. rewrite app_nil_r in E.
    enough (class_used JobClassService sp = payload rows) as -> by (rewrite E; lia).
    unfold class_used, rows. assert (Hr := spool_rows _ Hok). clear -Hr.
    induction Hr as [|r l Hr _ IH]; simpl; [done|]. destruct (in_class JobClassService sp r); simpl; [|done].
    assert (0 <= sr_payload_bytes r) by (rewrite (row_ok_payload _ Hr); unfold strlen; lia).
    destruct (Z.ltb_spec 0 (sr_payload_bytes r)); simpl; lia.
  - exists gone. split_and!; [|apply Forall_forall; intros r Hr; by apply Hrows, Hgone|done].
    rewrite fold_left_concat. destruct (key_order_spec gone) as [Hk1 Hk2].
    assert (Hconcat : concat (concat (map (fun key => runs (List.filter (of_key key) gone)) (key_order gone)))
                      = concat (map (fun key => List.filter (of_key key) gone) (key_order gone))).
    { clear. induction (key_order gone) as [|key keys IH]; simpl; [done|].
      by rewrite concat_app, IH, (proj1 (runs_spec _)). }
    assert (Hperm := group_perm _ _ Hk1 Hk2). rewrite <- Hconcat in Hperm.
    eapply evicts_perm; [exact Hperm|]. apply service_runs_evicted; [done|done| |..].
    + apply Forall_concat, Forall_map, Forall_forall. intros key _. apply (service_runs sp); [done|]. intros r Hr.
      by destruct (Hrows r (Hgone r Hr)) as (? & _ & ?).
    + rewrite Hperm. apply ordinal_nodup. assert (Hs := sorted_filter ordinal_lt (fun r => in_class JobClassService sp r && (0 <? sr_payload_bytes r)) _ (spool_sorted _ Hok)).
      fold rows in Hs. rewrite E in Hs. by apply sorted_app_inv in Hs as [? _].
    + rewrite Hperm. apply Forall_forall. intros r Hr. by apply Hrows, Hgone.
    + rewrite Hperm. apply Forall_forall. intros r Hr. by apply Hrows, Hgone.
Qed.

(** ** Appending *)
Definition event_key (e : LogEvent) : string * string := (le_AttemptID e, le_Stream e).

Record well_formed (e : LogEvent) : Prop := {
  wf_start : 0 <= le_Sequence e;
  wf_range : le_Sequence e <= logEventEndSequence e <= MaxInt64;
  wf_gap : forall gap, le_Gap e = Some gap -> le_Bytes e = ""
}.

Lemma event_row_end n e : row_end (event_row n e) = logEventEndSequence e.
Proof. done. Qed.

Lemma stream_of_insert e sp k :
  stream_of (insert_event e sp) k
  = stream_of sp k ++ (if bool_decide (event_key e = k) then [event_row (sp_next_ordinal sp) e] else []).
Proof. unfold stream_of, insert_event. simpl. rewrite List.filter_app. done. Qed.

Lemma insert_ok e sp :
  spool_ok sp -> well_formed e -> is_Some (sp_attempts sp !! le_AttemptID e) -> spool_ok (insert_event e sp).
Proof.
  intros [H1 H2 H3 H4] [W1 W2 W3] Ha. split; unfold insert_event; simpl.
  - clear -H1 H2. induction H1 as [|x l Hs IH Hall]; simpl; [by repeat constructor|]. apply Forall_cons in H2 as [Hx H2].
    constructor; [by apply IH|]. apply Forall_app. split; [done|]. by repeat constructor.
  - apply Forall_app. split; [|repeat constructor; simpl; lia]. eapply Forall_impl; [exact H2|]. simpl. lia.
  - apply Forall_app. split; [done|]. constructor; [|done]. split; done.
  - apply Forall_app. split; [done|]. by repeat constructor.
Qed.

Lemma insert_spans e sp k start last :
  spans sp k start last -> (event_key e = k -> le_Sequence e = last + 1) ->
  spans (insert_event e sp) k start (if bool_decide (event_key e = k) then logEventEndSequence e else last).
Proof.
  intros H Hn. unfold spans. rewrite stream_of_insert. case_bool_decide as E; [|by rewrite app_nil_r].
  apply linked_app. exists last. split; [done|]. simpl. rewrite Hn by done. split; [done|]. rewrite event_row_end. lia.
Qed.

Lemma insert_used class e sp :
  class_used class (insert_event e sp)
  = class_used class sp + (if bool_decide (class_of sp (le_AttemptID e) = Some class) then strlen (le_Bytes e) else 0).
Proof.
  unfold class_used, insert_event. simpl. rewrite List.filter_app, payload_app. simpl.
  replace (in_class class _ (event_row _ _)) with (bool_decide (class_of sp (le_AttemptID e) = Some class)) by done.
  replace (List.filter (in_class class _) (sp_events sp)) with (List.filter (in_class class sp) (sp_events sp)) by done.
  case_bool_decide; simpl; lia.
Qed.

Section Append.
Context (ls : logSpool).

Lemma stored_form_same class e :
  le_AttemptID (stored_form ls class e) = le_AttemptID e /\ le_Stream (stored_form ls class e) = le_Stream e
  /\ le_Sequence (stored_form ls class e) = le_Sequence e /\ le_Timestamp (stored_form ls class e) = le_Timestamp e
  /\ logEventEndSequence (stored_form ls class e) = logEventEndSequence e.
Proof.
  unfold stored_form. destruct (_ && _) eqn:E; [|done]. apply andb_true_iff in E as [[_ E%bool_decide_eq_true]%andb_true_iff _].
  split_and!; try done. unfold logEventEndSequence. simpl. by rewrite E.
Qed.

Lemma stored_form_wf class e : well_formed e -> well_formed (stored_form ls class e).
Proof.
  intros [H1 H2 H3]. destruct (stored_form_same class e) as (_ & _ & Es & _ & Ee). split; rewrite ?Es, ?Ee; try done.
  intros gap. unfold stored_form. destruct (_ && _); [done|]. apply H3.
Qed.

Lemma stored_form_oneshot e : stored_form ls JobClassOneShot e = e.
Proof. unfold stored_form. by rewrite bool_decide_eq_false_2. Qed.

Lemma stored_form_fits e : well_formed e -> 0 <= ls_maxServiceBytes ls -> strlen (le_Bytes (stored_form ls JobClassService e)) <= ls_maxServiceBytes ls.
Proof.
  intros H Hm. unfold stored_form. rewrite bool_decide_eq_true_2 by done. simpl. destruct (le_Gap e) as [gap|] eqn:E.
  - rewrite bool_decide_eq_false_2 by done. simpl. by rewrite (wf_gap _ H gap E).
  - rewrite bool_decide_eq_true_2 by done. simpl. destruct (Z.ltb_spec (ls_maxServiceBytes ls) (strlen (le_Bytes e))); [done|lia].
Qed.

(** What [make_room] leaves. *)
Lemma make_room_spec class n sp :
  spool_ok sp -> all_linked sp -> 0 <= n ->
  match make_room ls class n sp with
  | Err e => (class = JobClassOneShot /\ e = ErrLogSpoolFull /\ ls_maxOneShotBytes ls < class_used class sp + n)
             \/ (class = JobClassService /\ e = CannotRelease /\ ls_maxServiceBytes ls < n)
             \/ (class <> JobClassOneShot /\ class <> JobClassService /\ e = UnsupportedAttemptClass)
  | Ok sp' => exists gone, evicts gone sp sp' /\ Forall (fun r => in_class JobClassService sp r = true) gone
      /\ ((class = JobClassOneShot /\ sp' = sp /\ gone = [] /\ class_used class sp + n <= ls_maxOneShotBytes ls)
          \/ (class = JobClassService /\ class_used class sp' + n <= ls_maxServiceBytes ls))
  end.
Proof.
  intros Hok Hl Hn. unfold make_room. case_bool_decide as E1; [subst|case_bool_decide as E2; [subst|]].
  - destruct (Z.ltb_spec (ls_maxOneShotBytes ls - class_used JobClassOneShot sp) n); [left; split_and!; [done|done|lia]|].
    exists []. split_and!; [by apply evicts_nil|done|]. left. split_and!; [done..|lia].
  - destruct (Z.ltb_spec 0 (class_used JobClassService sp + n - ls_maxServiceBytes ls)).
    + set (required := _ + n - _) in *. assert (H' := evictServicePrefix_spec required sp Hok Hl).
      destruct (evictServicePrefix required sp) as [sp'|e].
      * destruct H' as (gone & Hev & Hg & Hr). exists gone. split_and!; [done|done|]. right. split; [done|].
        assert (Hu := evicts_used _ _ _ Hev JobClassService). rewrite list_filter_true in Hu by done. lia.
      * destruct H' as [-> Hr]. right. left. split_and!; [done|done|lia].
    + exists []. split_and!; [by apply evicts_nil|done|]. right. split; [done|lia].
  - right. right. done.
Qed.

Lemma find_event_none sp e start :
  spool_ok sp -> spans sp (event_key e) start (le_Sequence e - 1) ->
  find_event sp (le_AttemptID e) (le_Stream e) (le_Sequence e) = None.
Proof.
  intros Hok Hs. unfold find_event. destruct (List.find _ _) as [r|] eqn:E; [|done]. exfalso.
  apply find_some in E as [Hr E]. apply andb_true_iff in E as [[E1%bool_decide_eq_true E2%bool_decide_eq_true]%andb_true_iff E3%Z.eqb_eq].
  apply list_elem_of_In in Hr. assert (Hx : r ∈ stream_of sp (event_key e)).
  { apply elem_of_filter_bool. split; [done|]. apply bool_decide_eq_true. unfold stream_key, event_key. by rewrite E1, E2. }
  assert (Hk : Forall row_ok (stream_of sp (event_key e))).
  { apply Forall_forall. intros x [Hx' _]%elem_of_filter_bool. assert (H := spool_rows _ Hok). rewrite Forall_forall in H. auto. }
  destruct (linked_bounds _ _ _ _ Hk Hs Hx). rewrite Forall_forall in Hk. destruct (Hk r Hx) as [_ ? _ _]. lia.
Qed.

(** Appending the next event of a stream. *)
Lemma append_next e sp start :
  spool_ok sp -> well_formed e -> spans sp (event_key e) start (le_Sequence e - 1) ->
  run (append ls e) sp
  = match class_of sp (le_AttemptID e) with
    | None => (sp, Err AttemptMissing)
    | Some class =>
        match make_room ls class (strlen (le_Bytes (stored_form ls class e))) sp with
        | Ok sp' => (insert_event (stored_form ls class e) sp', Ok tt)
        | Err err => (sp, Err err)
        end
    end.
Proof.
  intros Hok Hwf Hs. unfold append, run, bind, check, need, reads, lift, writes.
  rewrite (proj2 (Z.leb_le _ _)) by (destruct Hwf as [_ ? _]; lia). simpl. destruct (class_of sp (le_AttemptID e)) as [class|]; [|done].
  destruct (stored_form_same class e) as (-> & -> & -> & _ & _). rewrite (find_event_none sp e start Hok Hs). simpl.
  by destruct (make_room ls class _ sp).
Qed.

Definition within_budget (sp : Spool) : Prop :=
  class_used JobClassOneShot sp <= ls_maxOneShotBytes ls /\ class_used JobClassService sp <= ls_maxServiceBytes ls.

Lemma evicts_classes gone sp sp' id : evicts gone sp sp' -> class_of sp' id = class_of sp id.
Proof. by intros [[events ->] _ _ _ _ _]. Qed.

Lemma service_eviction_spares gone sp sp' :
  evicts gone sp sp' -> Forall (fun r => in_class JobClassService sp r = true) gone ->
  class_used JobClassOneShot sp' = class_used JobClassOneShot sp
  /\ forall x, x ∈ sp_events sp -> in_class JobClassOneShot sp x = true -> x ∈ sp_events sp'.
Proof.
  intros H Hg. assert (Hd : forall x, x ∈ gone -> in_class JobClassOneShot sp x = false).
  { rewrite Forall_forall in Hg. intros x Hx%Hg. unfold in_class in *. apply bool_decide_eq_true in Hx. rewrite Hx. by apply bool_decide_eq_false. }
  split.
  - rewrite <- (evicts_used _ _ _ H JobClassOneShot), list_filter_false by (by apply Forall_forall). simpl. lia.
  - intros x Hx Hc. apply (evicts_kept _ _ _ H); [done|]. intros Hx'%Hd. congruence.
Qed.

(** The wall times a row can hold are never Go's zero time. *)
Lemma stored_time t : int64 t <> zero_time.
Proof.
  unfold int64, zero_time. assert (H := Z.mod_pos_bound (t + 2 ^ 63) (2 ^ 64) eq_refl).
  change (-62135596800 * second) with (-62135596800000000000). lia.
Qed.

Lemma event_row_uploadable class n e :
  validateLogEvent (le_AttemptID e) e = Ok tt -> uploadable (event_row n (stored_form ls class e)).
Proof.
  unfold uploadable, validateLogEvent. simpl. destruct (stored_form_same class e) as (-> & -> & -> & -> & _).
  destruct (negb (bool_decide _)); [done|]. destruct (_ && _); [done|]. intros H.
  rewrite (proj2 (Z.eqb_neq (int64 _) zero_time)) by apply stored_time. unfold stored_form. destruct (le_Gap e) as [gap|] eqn:Eg.
  - rewrite (bool_decide_eq_false_2 (Some gap = None)), andb_false_r by done. simpl. rewrite Eg.
    destruct (_ || _); [done|]. by destruct (le_Timestamp e =? zero_time).
  - rewrite (bool_decide_eq_true_2 (None = None)), andb_true_r by done. destruct (_ && (_ <? _)); simpl.
    + destruct (Z.ltb_spec MaxInt64 (le_Sequence e)); [done|]. simpl in *. rewrite Z.ltb_irrefl. simpl.
      replace (le_Sequence e - le_Sequence e + 1) with 1 by lia. simpl.
      destruct (le_Timestamp e =? zero_time); [done|]. by destruct (strlen (le_Bytes e) =? 0).
    + rewrite Eg. destruct (_ || _); [done|]. by destruct (le_Timestamp e =? zero_time).
Qed.

(** the spool never loses track of output.  Appending the next event of a
    stream keeps both classes within their byte budgets.  The stream then
    reaches the event's last sequence, every other stream covers what it covered
    before, and no one-shot row goes; what room the event needs is taken from
    service payload, whose sequences stay declared by gaps.  Every row stays one
    L1's validation accepts.  A refused event changes nothing, and service output
    is never refused. *)
Theorem append_keeps_every_stream e sp start :
  spool_ok sp -> all_linked sp -> within_budget sp -> well_formed e ->
  spans sp (event_key e) start (le_Sequence e - 1) ->
  let '(sp', answer) := run (append ls e) sp in
  spool_ok sp' /\ within_budget sp'
  /\ (forall x, x ∈ sp_events sp -> in_class JobClassOneShot sp x = true -> x ∈ sp_events sp')
  /\ (forall k s last, k <> event_key e -> spans sp k s last -> spans sp' k s last)
  /\ (Forall uploadable (sp_events sp) -> validateLogEvent (le_AttemptID e) e = Ok tt -> Forall uploadable (sp_events sp'))
  /\ match answer with
     | Ok _ => spans sp' (event_key e) start (logEventEndSequence e)
     | Err _ => sp' = sp /\ class_of sp (le_AttemptID e) <> Some JobClassService
     end.
Proof.
  intros Hok Hl [B1 B2] Hwf Hs. rewrite (append_next e sp start Hok Hwf Hs).
  destruct (class_of sp (le_AttemptID e)) as [class|] eqn:Ec; [|by split_and!].
  set (e' := stored_form ls class e). destruct (stored_form_same class e) as (Ea & Est & Esq & _ & Ee). fold e' in Ea, Est, Esq, Ee.
  assert (Hk : event_key e' = event_key e) by (unfold event_key; by rewrite Ea, Est).
  assert (Hn : 0 <= strlen (le_Bytes e')) by (unfold strlen; lia).
  assert (Hm : 0 <= ls_maxServiceBytes ls).
  { etrans; [|exact B2]. unfold class_used. assert (Hr := spool_rows _ Hok). clear -Hr.
    induction Hr as [|r l Hr _ IH]; simpl; [done|]. case_match; simpl; [|done].
    rewrite (row_ok_payload _ Hr). unfold strlen. lia. }
  assert (H := make_room_spec class (strlen (le_Bytes e')) sp Hok Hl Hn).
  destruct (make_room ls class (strlen (le_Bytes e')) sp) as [sp1|err].
  2: { split_and!; try done. intros [= ->]. destruct H as [(? & _)|[(_ & _ & Hx)|(_ & ? & _)]]; [done| |done].
       assert (Hf := stored_form_fits e Hwf Hm). fold e' in Hf. lia. }
  destruct H as (gone & Hev & Hg & Hclass). destruct (service_eviction_spares _ _ _ Hev Hg) as [Hu Hkeep].
  assert (Hwf' := stored_form_wf class e Hwf). fold e' in Hwf'.
  assert (Hc1 : class_of sp1 (le_AttemptID e') = Some class) by (by rewrite (evicts_classes _ _ _ _ Hev), Ea).
  split_and!.
  - apply insert_ok; [apply Hev|done|]. unfold class_of in Hc1. by destruct (sp_attempts sp1 !! _).
  - unfold within_budget. rewrite !insert_used, Hc1, Hu. destruct Hclass as [(-> & -> & _ & H)|[-> H]].
    + rewrite bool_decide_eq_true_2, bool_decide_eq_false_2 by done. lia.
    + rewrite bool_decide_eq_false_2, bool_decide_eq_true_2 by done. lia.
  - intros x Hx Hc. unfold insert_event. simpl. apply elem_of_app. left. by apply Hkeep.
  - intros k s last Hne Hsp. assert (H := insert_spans e' sp1 k s last (evicts_spans _ _ _ Hev _ _ _ Hsp)).
    rewrite Hk, bool_decide_eq_false_2 in H by done. apply H. congruence.
  - intros Hup Hv. unfold insert_event. simpl. apply Forall_app. split; [by apply (evicts_uploadable _ _ _ Hev)|].
    constructor; [|done]. by apply event_row_uploadable.
  - assert (H := insert_spans e' sp1 (event_key e) start (le_Sequence e - 1) (evicts_spans _ _ _ Hev _ _ _ Hs)).
    rewrite Hk, bool_decide_eq_true_2, Ee, Esq in H by done. apply H. intros _. lia.
Qed.
End Append.

(** ** Acknowledging *)
Definition unacknowledged (acknowledged : gmap string Z) (r : SpoolRow) : bool :=
  match acknowledged !! sr_stream r with Some sequence => sequence <? sr_sequence r | None => true end.

Lemma acknowledge_rows attemptID acknowledged sp :
  let sp' := map_fold (fun stream sequence sp => acknowledge_stream attemptID stream sequence sp) sp acknowledged in
  sp_attempts sp' = sp_attempts sp /\ sp_next_ordinal sp' = sp_next_ordinal sp
  /\ sp_events sp' = List.filter (fun r => negb (bool_decide (sr_attempt_id r = attemptID)) || unacknowledged acknowledged r) (sp_events sp).
Proof.
  apply (map_fold_weak_ind (fun sp' acknowledged => sp_attempts sp' = sp_attempts sp /\ sp_next_ordinal sp' = sp_next_ordinal sp
    /\ sp_events sp' = List.filter (fun r => negb (bool_decide (sr_attempt_id r = attemptID)) || unacknowledged acknowledged r) (sp_events sp))).
  - split_and!; [done|done|]. symmetry. apply list_filter_true, Forall_forall. intros r _. unfold unacknowledged.
    rewrite lookup_empty. apply orb_true_r.
  - intros stream sequence m sp' Hm (Ha & Hn & He). split_and!; [done|done|]. unfold acknowledge_stream, delete_events. simpl.
    rewrite He, filter_filter_and. apply List.filter_ext. intros r. unfold unacknowledged.
    destruct (decide (sr_stream r = stream)) as [<-|N].
    + rewrite lookup_insert_eq, Hm, (bool_decide_eq_true_2 (sr_stream r = sr_stream r)) by done.
      destruct (bool_decide _); simpl; [|done]. by rewrite Z.leb_antisym, negb_involutive.
    + rewrite lookup_insert_ne by done. rewrite (bool_decide_eq_false_2 (sr_stream r = stream)) by done.
      rewrite andb_false_r. simpl. by rewrite andb_true_r.
Qed.

Lemma filter_events_ok keep sp sp' :
  sp_attempts sp' = sp_attempts sp -> sp_next_ordinal sp' = sp_next_ordinal sp -> sp_events sp' = List.filter keep (sp_events sp) ->
  spool_ok sp -> spool_ok sp'.
Proof.
  intros E1 E2 E3 [H1 H2 H3 H4]. split; rewrite E3, ?E1, ?E2; [by apply sorted_filter|..];
    apply Forall_forall; intros r [Hr _]%elem_of_filter_bool; rewrite Forall_forall in H2, H3, H4; auto.
Qed.

Lemma delete_attempts_rows p sp id :
  (forall a, sp_attempts sp !! id = Some a -> p id a = true -> has_events sp id = false) ->
  rows_of id (delete_attempts_where p sp) = rows_of id sp.
Proof.
  intros H. unfold rows_of, delete_attempts_where, delete_events. simpl. rewrite filter_filter_comm. apply list_filter_true.
  apply Forall_forall. intros r [Hr E%bool_decide_eq_true]%elem_of_filter_bool. apply negb_true_iff. rewrite E.
  destruct (sp_attempts sp !! id) as [a|] eqn:Ea; [|done]. destruct (p id a) eqn:Ep; [|done].
  assert (Hh := H a eq_refl Ep). unfold has_events in Hh. rewrite <- not_true_iff_false, existsb_exists in Hh. exfalso. apply Hh.
  exists r. split; [by apply list_elem_of_In|]. by apply bool_decide_eq_true.
Qed.

Lemma delete_attempts_ok p sp : spool_ok sp -> spool_ok (delete_attempts_where p sp).
Proof.
  intros [H1 H2 H3 H4]. unfold delete_attempts_where, delete_events. split; simpl; [by apply sorted_filter|..];
    apply Forall_forall; intros r [Hr E]%elem_of_filter_bool; rewrite Forall_forall in H2, H3, H4; auto.
  destruct (H4 r Hr) as [a Ha]. rewrite Ha in E. apply negb_true_iff in E. exists a. by apply map_lookup_filter_Some.
Qed.

Lemma delete_attempts_class p sp id :
  class_of (delete_attempts_where p sp) id = class_of sp id \/ class_of (delete_attempts_where p sp) id = None.
Proof.
  unfold class_of, delete_attempts_where. simpl. destruct (filter _ (sp_attempts sp) !! id) as [a|] eqn:E; [|by right].
  apply map_lookup_filter_Some in E as [-> _]. by left.
Qed.

Lemma compacted_drained ls jobID sp id :
  id ∈ map fst (List.filter (fun '(_, a) => generationPredicate ls sp a)
                  (skipn maxSuppressedCompletionPayloadsPerJob (suppressed_payloads jobID sp))) -> has_events sp id = false.
Proof.
  intros ([id' a] & <- & Hin)%list_elem_of_In%in_map_iff. apply filter_In in Hin as [Hin _]. apply list_elem_of_In in Hin.
  assert (Hs : (id', a) ∈ suppressed_payloads jobID sp).
  { rewrite <- (take_drop maxSuppressedCompletionPayloadsPerJob). apply elem_of_app. by right. }
  unfold suppressed_payloads in Hs. rewrite merge_sort_Permutation in Hs. apply elem_of_filter_bool in Hs as [_ E].
  apply andb_true_iff in E as [_ E]. by apply negb_true_iff in E.
Qed.

Lemma acknowledge_spec ls attemptID acknowledged sp :
  spool_ok sp -> is_Some (sp_attempts sp !! attemptID) -> map_Forall (fun _ sequence => sequence <= MaxInt64) acknowledged ->
  exists sp', run (acknowledge ls attemptID acknowledged) sp = (sp', Ok tt) /\ spool_ok sp'
    /\ (class_of sp' attemptID = class_of sp attemptID \/ class_of sp' attemptID = None)
    /\ rows_of attemptID sp' = List.filter (unacknowledged acknowledged) (rows_of attemptID sp).
Proof.
  intros Hok [a Ha] Hr. unfold run, acknowledge, bind, reads, check, writes.
  rewrite (bool_decide_eq_true_2 (map_Forall _ _)), Ha, (bool_decide_eq_true_2 (is_Some (Some a))), orb_true_r by done. simpl.
  destruct (acknowledge_rows attemptID acknowledged sp) as (E1 & E2 & E3). set (sp1 := map_fold _ sp acknowledged) in *.
  assert (O1 : spool_ok sp1) by (by eapply filter_events_ok).
  match goal with |- context [delete_attempts_where ?p sp1] => set (del := p); set (sp2 := delete_attempts_where del sp1) end.
  assert (C1 : class_of sp1 attemptID = class_of sp attemptID) by (unfold class_of; by rewrite E1).
  assert (R2 : rows_of attemptID sp2 = List.filter (unacknowledged acknowledged) (rows_of attemptID sp)).
  { unfold sp2. rewrite delete_attempts_rows.
    - unfold rows_of. rewrite E3, filter_filter_and, filter_filter_and. apply List.filter_ext. intros r.
      destruct (bool_decide _), (unacknowledged acknowledged r); done.
    - intros x _ E. subst del. simpl in E. apply andb_true_iff in E as [E _]. apply andb_true_iff in E as [_ E]. by apply negb_true_iff in E. }
  assert (O2 : spool_ok sp2) by (by apply delete_attempts_ok).
  assert (C2 : class_of sp2 attemptID = class_of sp attemptID \/ class_of sp2 attemptID = None).
  { rewrite <- C1. apply delete_attempts_class. }
  case_bool_decide; [by exists sp2|]. eexists. split; [done|]. unfold compactSuppressedCompletionPayloads.
  match goal with |- context [delete_attempts_where ?p sp2] => set (cdel := p); set (sp3 := delete_attempts_where cdel sp2) end.
  assert (O3 : spool_ok sp3) by (by apply delete_attempts_ok). split_and!.
  - by destruct O3 as [? ? ? ?]; split.
  - assert (C3 : class_of sp3 attemptID = class_of sp attemptID \/ class_of sp3 attemptID = None); [|exact C3].
    destruct (delete_attempts_class cdel sp2 attemptID) as [E|E]; fold sp3 in E; rewrite E; auto.
  - rewrite <- R2. apply delete_attempts_rows. intros x _ E%bool_decide_eq_true. by eapply compacted_drained.
Qed.

(** ** Witness

    A service attempt whose spool holds 40 bytes in two rows; a third event
    evicts the first. *)
Definition tight_ls : logSpool := mklogSpool "g1" 100 40.
Definition full_spool : Spool :=
  mkSpool {[ "s1" := mkSpoolAttempt "j1" "1" JobClassService JobKindProcess 0 "g1" None None None None None None None ]}
    [mkSpoolRow 1 "s1" LogStdout 0 200 "01234567890123456789" None 20; mkSpoolRow 2 "s1" LogStdout 1 201 "01234567890123456789" None 20]
    3 ∅ ∅ ∅ ∅ ∅.
Definition third_line : LogEvent := mkLogEvent "s1" LogStdout 2 202 "0123456789" None.

Lemma full_spool_ok : spool_ok full_spool.
Proof.
  split; simpl.
  - repeat constructor.
  - repeat constructor.
  - constructor; [|constructor; [|done]]; (split; [done|split; vm_compute; discriminate|done|done]).
  - repeat constructor; by eexists.
Qed.

Lemma full_spool_linked : all_linked full_spool.
Proof.
  intros k. destruct (decide (k = ("s1", LogStdout))) as [->|N].
  - exists 0, 1. vm_compute. split_and!; reflexivity.
  - exists 0, (-1). unfold spans, stream_of. rewrite list_filter_false; [done|].
    constructor; [|constructor; [|done]]; apply bool_decide_eq_false; intros E; by apply N.
Qed.

Lemma append_keeps_every_stream_witness :
  map (fun r => (sr_sequence r, row_end r)) (sp_events (run (append tight_ls third_line) full_spool).1) = [(0, 0); (1, 1); (2, 2)]
  /\ class_used JobClassService (run (append tight_ls third_line) full_spool).1 = 30
  /\ within_budget tight_ls (run (append tight_ls third_line) full_spool).1.
Proof.
  split; [vm_compute; reflexivity|]. split; [vm_compute; reflexivity|].
  assert (H := append_keeps_every_stream tight_ls third_line full_spool 0 full_spool_ok full_spool_linked).
  destruct (run (append tight_ls third_line) full_spool) as [sp' answer]. apply H.
  - split; vm_compute; discriminate.
  - split; [done|split; vm_compute; discriminate|done].
  - vm_compute. split_and!; reflexivity.
Defined.
