(* ===== verification/UploadSync.v ===== *)
(** * The spool and L1 together

    A one-shot attempt's output from the producer through the spool to L1: the
    events the spool still holds continue exactly where L1's record ends,
    whatever is written, lost, repeated or restarted in between, so nothing
    written is lost and every batch read from the spool is accepted. *)
From S2P Require Import Prelude Order States Contract GoStrings JobSpec L1Types RestartPolicy Database.
From S2P Require Import LeaseClock Authority Credentials Summaries Lifecycle LogRetention Logs LogStreams Ingestion Claim.
From S2P Require Import LogSpool LogUpload SpoolStreams.
#[local] Open Scope string_scope.
#[local] Open Scope list_scope.
#[local] Open Scope Z_scope.

(** ** Consecutive events *)
Fixpoint elink (start : Z) (events : list LogEvent) (last : Z) : Prop :=
  match events with
  | [] => last = start - 1
  | e :: events => le_Sequence e = start /\ start <= logEventEndSequence e /\ elink (logEventEndSequence e + 1) events last
  end.

Definition on_stream (s : string) (e : LogEvent) : bool := bool_decide (le_Stream e = s).

Lemma elink_app start a b last :
  elink start (a ++ b) last <-> exists mid, elink start a mid /\ elink (mid + 1) b last.
Proof.
  revert start. induction a as [|r a IH]; intros start; simpl.
  - split; [intros H; exists (start - 1); split; [done|]; by replace (start - 1 + 1) with start by lia|].
    intros (? & -> & H). by replace (start - 1 + 1) with start in H by lia.
  - rewrite IH. split; [intros (E & L & mid & H1 & H2); by exists mid | intros (mid & (E & L & H1) & H2); split_and!; [done|done|by exists mid]].
Qed.

Lemma elink_last start events last : elink start events last -> start - 1 <= last.
Proof. revert start. induction events as [|e events IH]; intros start; simpl; [lia|]. intros (E & L & H%IH). lia. Qed.

Lemma elink_bounds start events last e :
  elink start events last -> e ∈ events -> start <= le_Sequence e <= logEventEndSequence e /\ logEventEndSequence e <= last.
Proof.
  revert start. induction events as [|x events IH]; intros start; simpl; [by intros _ ?%elem_of_nil|].
  intros (E & L & H) [->|He]%elem_of_cons; [apply elink_last in H; lia|]. apply (IH _ H) in He. lia.
Qed.

Lemma elink_unique start events a b : elink start events a -> elink start events b -> a = b.
Proof. revert start. induction events as [|e events IH]; intros start; simpl; [lia|]. intros (_ & _ & Ha) (_ & _ & Hb). eauto. Qed.

Definition elast (start : Z) (events : list LogEvent) : Z := List.last (map logEventEndSequence events) (start - 1).

Lemma elink_elast start events last : elink start events last -> last = elast start events.
Proof.
  revert start. induction events as [|e events IH]; intros start; [done|]. intros (E & L & H). apply IH in H. subst last.
  unfold elast. destruct events as [|x events]; simpl; [lia|]. clear. revert x. induction events as [|y events IH]; intros x; [done|].
  apply (IH y).
Qed.

Lemma elink_prefix start a b last : elink start (a ++ b) last -> elink start a (elast start a) /\ elast start a <= last.
Proof.
  intros (mid & H1 & H2)%elink_app. assert (E := elink_elast _ _ _ H1). subst mid. split; [done|]. apply elink_last in H2. lia.
Qed.

(** Two events of a chain are equal or apart. *)
Lemma elink_apart start events last e1 e2 :
  elink start events last -> e1 ∈ events -> e2 ∈ events ->
  e1 = e2 \/ logEventEndSequence e1 < le_Sequence e2 \/ logEventEndSequence e2 < le_Sequence e1.
Proof.
  revert start. induction events as [|x events IH]; intros start; simpl; [by intros _ ?%elem_of_nil|].
  intros (E & L & H) [->|H1]%elem_of_cons [->|H2]%elem_of_cons; [by left|..|by eapply IH].
  - apply (elink_bounds _ _ _ _ H) in H2. lia.
  - apply (elink_bounds _ _ _ _ H) in H1. lia.
Qed.

(** ** What the loop over a batch accepts *)
Section Complete.
Context (source_digest : LogEvent -> string) (late : bool) (db : DB) (attemptID : string) (Hs : streams_ok db).
Abbreviation accepted_form := (accepted_form source_digest).

Record sendable (e : LogEvent) : Prop := {
  sendable_valid : validateLogEvent attemptID e = Ok tt;
  sendable_time : json_time_ok (le_Timestamp e) = true;
  sendable_uint64 : uint64_event e
}.

Lemma passes_prepare e b b' :
  batch_sound db attemptID b -> sendable e -> bt_seen b !! (le_Stream e, le_Sequence e) = None ->
  passes source_digest late db attemptID e b b' -> prepare_event source_digest late db attemptID e b = Ok b'.
Proof.
  intros Hb [Hv Hj Hu] Hn Hp. destruct (validated_event _ _ _ Hv Hu) as (_ & [Hseq Hend] & Hmax).
  unfold prepare_event. rewrite Hv, Hj. simpl. destruct (accepted_form_fields source_digest late e) as (_ & -> & -> & ->).
  rewrite Hn. assert (Ht : match bt_recorded b !! le_Stream e with
               | Some through => through | None => readLogContinuity db attemptID (le_Stream e) end
               = readLogContinuity db attemptID (le_Stream e)).
  { destruct (bt_recorded b !! _) eqn:E; [|done]. by apply (sound_recorded _ _ _ Hb). }
  rewrite Ht. clear Ht. assert (Hr := continuity_range db attemptID (le_Stream e) Hs).
  assert (Hm := mark_range attemptID b db Hs Hb (le_Stream e)).
  destruct Hp as [Hd|b' _ -> Hle Hc|b' _ Hmk ->]; [congruence|..].
  - rewrite (proj2 (Z.leb_le _ _)) by lia. rewrite (proj2 (Z.ltb_ge _ _)) by lia. by rewrite Hc.
  - rewrite (proj2 (Z.leb_gt _ _)) by lia. simpl.
    replace (match bt_next b !! le_Stream e with Some next => next | None => _ end) with (le_Sequence e).
    + rewrite Z.eqb_refl. done.
    + unfold mark in Hmk. destruct (bt_next b !! le_Stream e) as [n|] eqn:En.
      * destruct (sound_next _ _ _ Hb _ _ En) as (l & -> & Hl). rewrite int64_pred_succ in Hmk by (unfold MaxInt64 in *; lia).
        rewrite int64_id by (unfold MaxInt64 in *; lia). done.
      * rewrite int64_id by (unfold MaxInt64 in *; lia). done.
Qed.

(** The events still to come: on each stream, replays of what L1 holds and then
    the continuation of its record. *)
Record in_order (b : batch) (pre post : string -> list LogEvent) (last : string -> Z) (events : list LogEvent) : Prop := {
  order_split : forall s, List.filter (on_stream s) events = pre s ++ post s;
  order_pre : forall s, exists k m, elink k (pre s) m /\ m <= readLogContinuity db attemptID s;
  order_first : forall s, pre s <> [] -> bt_next b !! s = None;
  order_held : forall s e x, e ∈ pre s -> x ∈ stream_rows db attemptID s -> compatible e (accepted_form late e) x;
  order_post : forall s, elink (mark db attemptID b s + 1) (post s) (last s);
  order_fresh : forall s q v e, bt_seen b !! (s, q) = Some v -> e ∈ pre s ++ post s -> q < le_Sequence e
}.

Definition drop_first (s : string) (f : string -> list LogEvent) (t : string) : list LogEvent :=
  if bool_decide (t = s) then tail (f t) else f t.

Lemma filter_cons_stream e events s :
  List.filter (on_stream s) (e :: events)
  = if bool_decide (le_Stream e = s) then e :: List.filter (on_stream s) events else List.filter (on_stream s) events.
Proof. done. Qed.

Lemma seen_insert b e s q v (x : LogEvent) :
  <[(le_Stream e, le_Sequence e) := x]> (bt_seen b) !! (s, q) = Some v ->
  (s = le_Stream e /\ q = le_Sequence e) \/ bt_seen b !! (s, q) = Some v.
Proof.
  destruct (decide ((s, q) = (le_Stream e, le_Sequence e))) as [[= -> ->]|N]; [by left|].
  rewrite lookup_insert_ne by done. by right.
Qed.

(** One event of the batch: the continuation of its stream, or a replay. *)
Section Step.
Context (b : batch) (pre post : string -> list LogEvent) (last : string -> Z) (e : LogEvent) (events : list LogEvent).
Context (Hb : batch_sound db attemptID b) (He : sendable e) (Ho : in_order b pre post last (e :: events)).
#[local] Definition stream : string := le_Stream e.

Lemma step_split : e :: List.filter (on_stream stream) events = pre stream ++ post stream.
Proof. rewrite <- (order_split _ _ _ _ _ Ho stream), filter_cons_stream, bool_decide_eq_true_2; done. Qed.

Lemma step_other t : t <> stream -> List.filter (on_stream t) events = pre t ++ post t.
Proof. intros Ht. rewrite <- (order_split _ _ _ _ _ Ho), filter_cons_stream, bool_decide_eq_false_2; [done|]. intros E. by apply Ht. Qed.

Lemma step_unseen : bt_seen b !! (le_Stream e, le_Sequence e) = None.
Proof.
  destruct (bt_seen b !! _) as [v|] eqn:E; [|done]. apply (order_fresh _ _ _ _ _ Ho _ _ _ e) in E; [lia|].
  change (le_Stream e) with stream. rewrite <- step_split. by left.
Qed.

Lemma order_new : pre stream = [] ->
  exists b' pre' post', prepare_event source_digest late db attemptID e b = Ok b' /\ in_order b' pre' post' last events.
Proof.
  intros Epre. assert (Hsplit := step_split). assert (Hother := step_other). assert (Hn := step_unseen).
  destruct Ho as [O1 O2 O3 O4 O5 O6]. destruct (validated_event _ _ _ (sendable_valid _ He) (sendable_uint64 _ He)) as (Hid & [Hseq Hend] & Hmax).
  rewrite Epre in Hsplit. simpl in Hsplit. assert (Hpost := O5 stream). rewrite <- Hsplit in Hpost. destruct Hpost as (Em & Hle & Hrest).
  set (b' := mkbatch (<[(le_Stream e, le_Sequence e) := accepted_form late e]> (bt_seen b))
         (<[le_Stream e := readLogContinuity db attemptID (le_Stream e)]> (bt_recorded b))
         (<[le_Stream e := int64 (logEventEndSequence e + 1)]> (bt_next b))
         (bt_newEvents b ++ [mkpreparedEvent (accepted_form late e) (logEventEndSequence e)])).
  exists b', pre, (drop_first stream post). split; [apply passes_prepare; try done; by apply PassNew|].
  split; try done.
  - intros t. unfold drop_first. case_bool_decide as Et; [subst t|by apply Hother]. by rewrite Epre, <- Hsplit.
  - intros t Ht. simpl. destruct (decide (t = stream)) as [->|]; [by rewrite Epre in Ht|]. rewrite lookup_insert_ne by done. by apply O3.
  - intros t. unfold drop_first, mark. simpl. case_bool_decide as Et; [subst t|by rewrite lookup_insert_ne; [apply O5|]].
    rewrite <- Hsplit. simpl. unfold stream. rewrite lookup_insert_eq, int64_pred_succ by (unfold MaxInt64 in *; lia). done.
  - intros t q v x Hq Hx. unfold drop_first in Hx. simpl in Hq. apply seen_insert in Hq as [[-> ->]|Hq].
    + change (le_Stream e) with stream in Hx. rewrite bool_decide_eq_true_2, Epre, <- Hsplit in Hx by done. simpl in Hx.
      apply (elink_bounds _ _ _ _ Hrest) in Hx. lia.
    + apply (O6 _ _ _ x Hq). case_bool_decide as Et; [subst t|done]. rewrite Epre, <- Hsplit in *. simpl in *. by right.
Qed.

Lemma order_replay pre0 : pre stream = e :: pre0 ->
  exists b' pre' post', prepare_event source_digest late db attemptID e b = Ok b' /\ in_order b' pre' post' last events.
Proof.
  intros Epre. assert (Hsplit := step_split). assert (Hother := step_other). assert (Hn := step_unseen).
  destruct Ho as [O1 O2 O3 O4 O5 O6]. destruct (validated_event _ _ _ (sendable_valid _ He) (sendable_uint64 _ He)) as (Hid & [Hseq Hend] & Hmax).
  rewrite Epre in Hsplit. simpl in Hsplit. injection Hsplit as Hsplit. destruct (O2 stream) as (k & m & Hk & Hm). rewrite Epre in Hk.
  destruct Hk as (Ek & Hke & Hk). assert (Hem := elink_last _ _ _ Hk).
  destruct (accepted_form_fields source_digest late e) as (_ & Es & Eq & Ee).
  set (b' := b <| bt_seen := <[(le_Stream e, le_Sequence e) := accepted_form late e]> (bt_seen b) |>
               <| bt_recorded := <[le_Stream e := readLogContinuity db attemptID (le_Stream e)]> (bt_recorded b) |>).
  assert (Hheld : checkRetainedLogReplay db attemptID (accepted_form late e) (logEventEndSequence e) e (accepted_form late e) = Ok tt).
  { apply replay_check; try done. intros x Hx. apply (O4 stream); [rewrite Epre; by left|done]. }
  exists b', (drop_first stream pre), post. split.
  { apply passes_prepare; try done. apply PassReplay; try done. change (le_Stream e) with stream. lia. }
  split; try done.
  - intros t. unfold drop_first. case_bool_decide as Et; [subst t|by apply Hother]. by rewrite Epre.
  - intros t. unfold drop_first. case_bool_decide as Et; [subst t|by apply O2]. rewrite Epre. eauto.
  - intros t Ht. apply O3. unfold drop_first in Ht. case_bool_decide as Et; [subst t|done]. by rewrite Epre.
  - intros t x y Hx. apply O4. unfold drop_first in Hx. case_bool_decide as Et; [subst t|done]. rewrite Epre in *. by right.
  - intros t q v x Hq Hx. unfold drop_first in Hx. simpl in Hq. apply seen_insert in Hq as [[-> ->]|Hq].
    + change (le_Stream e) with stream in Hx. rewrite bool_decide_eq_true_2, Epre in Hx by done. simpl in Hx.
      apply elem_of_app in Hx as [Hx|Hx]; [apply (elink_bounds _ _ _ _ Hk) in Hx; lia|].
      apply (elink_bounds _ _ _ _ (O5 stream)) in Hx. assert (H := mark_range attemptID b db Hs Hb stream). lia.
    + apply (O6 _ _ _ x Hq). case_bool_decide as Et; [subst t|done]. rewrite Epre in *. simpl in *. by right.
Qed.

Lemma order_step :
  exists b' pre' post', prepare_event source_digest late db attemptID e b = Ok b' /\ in_order b' pre' post' last events.
Proof.
  destruct (pre stream) as [|x pre0] eqn:E; [by apply order_new|]. apply (order_replay pre0).
  assert (H := step_split). rewrite E in *. simpl in H. by injection H as ->.
Qed.
End Step.

Lemma prepare_in_order b pre post last events :
  batch_sound db attemptID b -> Forall sendable events -> in_order b pre post last events ->
  exists b', prepare_events source_digest late db attemptID events b = Ok b' /\ batch_sound db attemptID b'
    /\ forall t, mark db attemptID b' t = last t.
Proof.
  intros Hb Hall. revert b pre post Hb. induction Hall as [|e events He _ IH]; intros b pre post Hb Ho.
  - exists b. split_and!; [done|done|]. intros t. destruct Ho as [O1 _ _ _ O5 _]. specialize (O1 t). symmetry in O1.
    apply app_eq_nil in O1 as [_ E]. specialize (O5 t). rewrite E in O5. simpl in O5. lia.
  - destruct (order_step b pre post last e events Hb He Ho) as (b1 & pre1 & post1 & H1 & Ho1). simpl. rewrite H1. simpl.
    destruct (prepare_event_passes _ _ _ _ _ _ _ Hs (sendable_uint64 _ He) Hb H1) as (Hv & _ & Hp).
    apply (IH b1 pre1 post1); [|done]. by eapply passes_sound; [|apply He|..].
Qed.
End Complete.

(** ** Delivery of one attempt's output

    The ghost list [dl_written] records every event the spool accepted from the
    producer; [dl_batch] is the batch the uploader holds in memory and sends until
    it is settled. *)
Record delivery := mkdelivery {
  dl_spool : Spool;
  dl_db : DB;
  dl_written : list LogEvent;
  dl_batch : option (list LogEvent);
  dl_late : bool
}.
#[export] Instance delivery_eta : Eta delivery := fun r =>
  mkdelivery (dl_spool r) (dl_db r) (dl_written r) (dl_batch r) (dl_late r).

Lemma stored_time_ok t : int64 t = t -> json_time_ok t = true.
Proof.
  intros E. assert (H := Z.mod_pos_bound (t + 2 ^ 63) (2 ^ 64) eq_refl). unfold int64 in E. unfold json_time_ok.
  change (-62167219200 * second) with (-62167219200000000000). change (253402300800 * second) with (253402300800000000000).
  apply andb_true_iff. rewrite Z.leb_le, Z.ltb_lt. lia.
Qed.

Lemma validated_shape attemptID e :
  validateLogEvent attemptID e = Ok tt -> uint64_event e -> well_formed e /\ le_AttemptID e = attemptID.
Proof.
  intros Hv Hu. destruct (validated_event _ _ _ Hv Hu) as (Hid & [H1 H2] & H3). split; [|done]. split; [done|lia|].
  intros gap E. unfold validateLogEvent in Hv. rewrite E in Hv. repeat (case_match; try done).
  match goal with H : negb (strlen _ =? 0) = false |- _ => apply negb_false_iff, Z.eqb_eq in H; unfold strlen in H end.
  destruct (le_Bytes e); [done|simpl in *; lia].
Qed.

Lemma linked_of_elink start rows last : elink start (map row_event rows) last -> linked start rows last.
Proof. revert start. induction rows as [|r rows IH]; intros start; simpl; [done|]. intros (E & _ & H). split; [done|]. by apply IH. Qed.

Lemma row_event_of n e : int64 (le_Timestamp e) = le_Timestamp e -> row_event (event_row n e) = e.
Proof. intros E. unfold row_event, event_row. simpl. rewrite E. by destruct e. Qed.

Lemma stream_of_rows sp attemptID s :
  stream_of sp (attemptID, s) = List.filter (fun r => bool_decide (sr_stream r = s)) (rows_of attemptID sp).
Proof.
  unfold stream_of, rows_of. rewrite filter_filter_and. apply List.filter_ext. intros r. unfold of_key, stream_key.
  rewrite <- bool_decide_and. apply bool_decide_ext. split; [intros [= -> ->]; done|intros [-> ->]; done].
Qed.

Lemma filter_row_event s rows :
  List.filter (on_stream s) (map row_event rows) = map row_event (List.filter (fun r => bool_decide (sr_stream r = s)) rows).
Proof. induction rows as [|r rows IH]; simpl; [done|]. rewrite IH. unfold on_stream. simpl. by case_bool_decide. Qed.

Lemma firstn_grow {A} n (l k : list A) : exists m, firstn n l = firstn m (l ++ k).
Proof.
  exists (Nat.min n (length l)). rewrite firstn_app. replace (Nat.min n (length l) - length l)%nat with 0%nat by lia.
  rewrite firstn_O, app_nil_r. destruct (Nat.le_gt_cases n (length l)); [by rewrite Nat.min_l by lia|].
  rewrite Nat.min_r by lia. by rewrite !firstn_all2 by lia.
Qed.

(** ** The agent's check of an acknowledgement *)
Lemma highest_spec events s q : highest events !! s = Some q -> exists e, e ∈ events /\ le_Stream e = s /\ eventEndSequence e = q.
Proof.
  revert s q. induction events as [|x events IH] using rev_ind; intros s q; [unfold highest; simpl; by rewrite lookup_empty|].
  unfold highest. rewrite fold_left_app. simpl. fold (highest events). intros H.
  assert (Hcase : (s = le_Stream x /\ q = eventEndSequence x) \/ highest events !! s = Some q).
  { unfold note_highest in H. destruct (decide (s = le_Stream x)) as [->|N].
    - destruct (highest events !! le_Stream x) as [v|] eqn:E; [destruct (v <? eventEndSequence x)|];
        rewrite ?lookup_insert_eq, ?E in H; injection H as <-; auto.
    - right. destruct (highest events !! le_Stream x); [destruct (_ <? _)|]; by rewrite ?lookup_insert_ne in H. }
  destruct Hcase as [[-> ->]|(e & He & Es & Eq)%IH]; [exists x|exists e]; rewrite elem_of_app; split_and!; auto.
  right. by apply list_elem_of_singleton.
Qed.

Lemma acknowledgement_valid events acknowledged :
  (forall e, e ∈ events -> exists v, acknowledged !! le_Stream e = Some v /\ logEventEndSequence e <= v) ->
  validateLogAcknowledgement events acknowledged = true.
Proof.
  intros H. unfold validateLogAcknowledgement. apply forallb_forall. intros [s q] Hin%list_elem_of_In%elem_of_map_to_list.
  apply highest_spec in Hin as (e & He & <- & <-). destruct (H e He) as (v & -> & Hle). by apply Z.leb_le.
Qed.

Section Delivery.
Context (ls : logSpool) (cfg : config) (bounds : log_bounds) (source_digest : LogEvent -> string).
Context (identity jobID attemptID token : string) (limit : nat).

Definition upload (batch : list LogEvent) : AppendLogsRequest := mkAppendLogsRequest token batch.

Definition late_upload (at_ : instant) (batch : list LogEvent) (db : DB) : bool :=
  match admit_upload cfg at_ identity jobID attemptID (upload batch) db with Next ad _ => ad_late ad | _ => false end.

(** One request of the uploader and what it does with the answer, if one comes. *)
Definition sent (at_ : instant) (lost : bool) (batch : list LogEvent) (st : delivery) : delivery :=
  let '(db, answer) := run (AppendLogs cfg bounds source_digest at_ identity jobID attemptID (upload batch)) (dl_db st) in
  let '(turn, sp) := upload_turn ls attemptID batch (if lost then NoAnswer else Answered answer) (dl_spool st) in
  mkdelivery sp db (dl_written st) (match turn with Retry => Some batch | Settled | Stopped => None end)
    (dl_late st || late_upload at_ batch (dl_db st)).

(** What a producer hands to the spool: valid events with consecutive sequences. *)
Record produced (written : list LogEvent) (e : LogEvent) : Prop := {
  produced_valid : validateLogEvent attemptID e = Ok tt;
  produced_uint64 : uint64_event e;
  produced_ns : int64 (le_Timestamp e) = le_Timestamp e;
  produced_next : elink 0 (List.filter (on_stream (le_Stream e)) written) (le_Sequence e - 1)
}.

(** L1's other work. *)
Inductive elsewhere (db : DB) : DB -> Prop :=
| OtherAppend at_ identity' jobID' attemptID' request :
    attemptID' <> attemptID -> Forall uint64_event (lr_Events request) ->
    elsewhere db (run (AppendLogs cfg bounds source_digest at_ identity' jobID' attemptID' request) db).1
| OtherJobCap jobID' now budget : elsewhere db (enforceJobLogByteRetention bounds jobID' now budget db).2
| OtherCeiling now budget : elsewhere db (enforceLogRetentionTotal bounds now budget db).2
| OtherWork db' :
    log_tables db' = log_tables db -> (is_Some (db_attempts db' !! attemptID) -> is_Some (db_attempts db !! attemptID)) ->
    elsewhere db db'.

(** The spool's other work leaves this attempt's rows alone. *)
Record apart (sp sp' : Spool) : Prop := {
  apart_ok : spool_ok sp';
  apart_rows : rows_of attemptID sp' = rows_of attemptID sp;
  apart_class : class_of sp' attemptID = class_of sp attemptID \/ class_of sp' attemptID = None
}.

Inductive delivers (st : delivery) : delivery -> Prop :=
| Write e sp' :
    produced (dl_written st) e -> run (append ls e) (dl_spool st) = (sp', Ok tt) ->
    delivers st (st <| dl_spool := sp' |> <| dl_written := dl_written st ++ [e] |>)
| ReadBatch :
    dl_batch st = None -> delivers st (st <| dl_batch := Some (pending attemptID limit (dl_spool st)) |>)
| SendBatch at_ lost batch :
    dl_batch st = Some batch ->
    (dl_late st = true -> forall ad db0,
       admit_upload cfg at_ identity jobID attemptID (upload batch) (dl_db st) = Next ad db0 -> ad_late ad = true) ->
    delivers st (sent at_ lost batch st)
| Restart : delivers st (st <| dl_batch := None |>)
| SpoolOther sp' : apart (dl_spool st) sp' -> delivers st (st <| dl_spool := sp' |>)
| L1Other db' : elsewhere (dl_db st) db' -> delivers st (st <| dl_db := db' |>).

(** ** The invariant *)
Abbreviation M st s := (readLogContinuity (dl_db st) attemptID s).
Abbreviation known st := (is_Some (db_attempts (dl_db st) !! attemptID)).

Definition holds_event (late : bool) (e : LogEvent) (x : LogRow) : Prop :=
  l_sequence x = le_Sequence e /\ l_sequence_end x = logEventEndSequence e
  /\ (l_event x = e \/ l_event x = accepted_form source_digest late e).

(** Per stream: what the spool has dropped, what it holds and L1 has, what only
    the spool holds. *)
Record stream_synced (st : delivery) (s : string) (acked pre post : list LogEvent) : Prop := {
  ss_written : List.filter (on_stream s) (dl_written st) = acked ++ pre ++ post;
  ss_spool : map row_event (stream_of (dl_spool st) (attemptID, s)) = pre ++ post;
  ss_order : exists last, elink 0 (acked ++ pre ++ post) last;
  ss_accepted : known st -> elink 0 (acked ++ pre) (M st s);
  ss_rows : known st -> forall x, x ∈ stream_rows (dl_db st) attemptID s ->
    exists e, e ∈ acked ++ pre /\ holds_event (dl_late st) e x
}.

Record synced (st : delivery) : Prop := {
  sy_spool : spool_ok (dl_spool st);
  sy_logs : logs_sound (dl_db st);
  sy_class : forall class, class_of (dl_spool st) attemptID = Some class -> class = JobClassOneShot;
  sy_written : Forall (fun e => validateLogEvent attemptID e = Ok tt /\ uint64_event e
                                /\ int64 (le_Timestamp e) = le_Timestamp e) (dl_written st);
  sy_streams : forall s, exists acked pre post, stream_synced st s acked pre post;
  sy_batch : forall batch, dl_batch st = Some batch ->
    exists n, batch = map row_event (firstn n (rows_of attemptID (dl_spool st)))
}.

(** *** Writing *)
Lemma append_oneshot e sp sp' start :
  spool_ok sp -> (forall class, class_of sp attemptID = Some class -> class = JobClassOneShot) ->
  validateLogEvent attemptID e = Ok tt -> uint64_event e -> spans sp (event_key e) start (le_Sequence e - 1) ->
  run (append ls e) sp = (sp', Ok tt) -> sp' = insert_event e sp /\ is_Some (sp_attempts sp !! attemptID).
Proof.
  intros Hok Hc Hv Hu Hs. destruct (validated_shape _ _ Hv Hu) as [Hwf Hid].
  rewrite (append_next ls e sp start Hok Hwf Hs), Hid. destruct (class_of sp attemptID) as [class|] eqn:Ec; [|done].
  rewrite (Hc class eq_refl), stored_form_oneshot. unfold make_room. rewrite bool_decide_eq_true_2 by done.
  destruct (_ <? _); [done|]. intros [= <-]. split; [done|]. unfold class_of in Ec. by destruct (sp_attempts sp !! attemptID).
Qed.

Lemma synced_write st e sp' :
  synced st -> produced (dl_written st) e -> run (append ls e) (dl_spool st) = (sp', Ok tt) ->
  synced (st <| dl_spool := sp' |> <| dl_written := dl_written st ++ [e] |>).
Proof.
  intros [Y1 Y2 Y3 Y4 Y5 Y6] [P1 P2 P3 P4] Hrun. destruct (validated_shape _ _ P1 P2) as [Hwf Hid].
  destruct (Y5 (le_Stream e)) as (acked & pre & post & [S1 S2 [last S3] S4 S5]).
  rewrite S1 in P4. assert (Hlast := elink_unique _ _ _ _ S3 P4). subst last.
  assert (Hspan : exists start, spans (dl_spool st) (event_key e) start (le_Sequence e - 1)).
  { apply elink_app in P4 as (mid & _ & P4). exists (mid + 1). apply linked_of_elink. unfold event_key. by rewrite Hid, S2. }
  destruct Hspan as [start Hspan]. destruct (append_oneshot e _ _ start Y1 Y3 P1 P2 Hspan Hrun) as [-> Ha].
  assert (Hkey : forall s, stream_of (insert_event e (dl_spool st)) (attemptID, s)
    = stream_of (dl_spool st) (attemptID, s) ++ (if bool_decide (le_Stream e = s) then [event_row (sp_next_ordinal (dl_spool st)) e] else [])).
  { intros s. rewrite stream_of_insert. f_equal. unfold event_key. rewrite Hid. do 2 case_bool_decide; congruence. }
  split; simpl; try done.
  - apply insert_ok; [done|done|by rewrite Hid].
  - apply Forall_app. split; [done|]. by repeat constructor.
  - intros s. destruct (decide (le_Stream e = s)) as [<-|N].
    + exists acked, pre, (post ++ [e]). split; simpl; try done.
      * rewrite List.filter_app, S1. simpl. unfold on_stream at 1. rewrite bool_decide_eq_true_2 by done. by rewrite <- !app_assoc.
      * rewrite Hkey, bool_decide_eq_true_2, map_app, S2 by done. simpl. rewrite row_event_of by done. by rewrite app_assoc.
      * exists (logEventEndSequence e). rewrite !app_assoc. apply elink_app. exists (le_Sequence e - 1). rewrite <- app_assoc.
        split; [done|]. simpl. destruct Hwf. split_and!; lia.
    + destruct (Y5 s) as (acked' & pre' & post' & [T1 T2 T3 T4 T5]). exists acked', pre', post'. split; simpl; try done.
      * rewrite List.filter_app, T1. simpl. unfold on_stream at 1. rewrite bool_decide_eq_false_2 by done. by rewrite app_nil_r.
      * by rewrite Hkey, bool_decide_eq_false_2, app_nil_r.
  - intros batch (n & ->)%Y6. unfold rows_of, insert_event. simpl. rewrite List.filter_app.
    destruct (firstn_grow n (List.filter (fun r => bool_decide (sr_attempt_id r = attemptID)) (sp_events (dl_spool st)))
      (List.filter (fun r => bool_decide (sr_attempt_id r = attemptID)) [event_row (sp_next_ordinal (dl_spool st)) e])) as [m E].
    exists m. by rewrite <- E.
Qed.

(** *** Reading, restarting, other work on the spool *)
Lemma synced_batch st batch :
  synced st -> (forall b, batch = Some b -> exists n, b = map row_event (firstn n (rows_of attemptID (dl_spool st)))) ->
  synced (st <| dl_batch := batch |>).
Proof.
  intros [Y1 Y2 Y3 Y4 Y5 Y6] H. split; simpl; try done. intros s. destruct (Y5 s) as (acked & pre & post & [S1 S2 S3 S4 S5]).
  by exists acked, pre, post.
Qed.

Lemma pending_rows sp : pending attemptID limit sp = map row_event (firstn limit (rows_of attemptID sp)).
Proof. unfold pending, pendingBatch. by rewrite map_map. Qed.

Lemma synced_apart st sp' : synced st -> apart (dl_spool st) sp' -> synced (st <| dl_spool := sp' |>).
Proof.
  intros [Y1 Y2 Y3 Y4 Y5 Y6] [A1 A2 A3]. split; simpl; try done.
  - intros class E. destruct A3 as [A3|A3]; rewrite A3 in E; [by apply Y3|done].
  - intros s. destruct (Y5 s) as (acked & pre & post & [S1 S2 S3 S4 S5]). exists acked, pre, post. split; simpl; try done.
    by rewrite stream_of_rows, A2, <- stream_of_rows.
  - by rewrite A2.
Qed.

(** *** Other work on L1 *)
Lemma refused_upload at_ identity' jobID' attemptID' request db db' e :
  logs_sound db -> Forall uint64_event (lr_Events request) ->
  run (AppendLogs cfg bounds source_digest at_ identity' jobID' attemptID' request) db = (db', Err e) -> db' = db.
Proof.
  intros Hs Hu. assert (Hf := admit_frame cfg at_ identity' jobID' attemptID' request db). unfold ends in Hf. unfold run.
  destruct (admit_upload cfg at_ identity' jobID' attemptID' request db) as [ad db0|r db0|r] eqn:Ha; [|done|].
  - rewrite (append_spec cfg bounds source_digest at_ identity' jobID' attemptID' request db ad db0 Hs Hu Ha).
    destruct (prepare_events _ _ _ _ _ _) as [b|err]; [|congruence]. destruct (bt_newEvents b); [done|].
    destruct (may_append ad); [done|congruence].
  - unfold AppendLogs, bind at 1. rewrite Ha. congruence.
Qed.

Record spares (db db' : DB) : Prop := {
  spares_sound : logs_sound db';
  spares_known : is_Some (db_attempts db' !! attemptID) -> is_Some (db_attempts db !! attemptID);
  spares_marks : is_Some (db_attempts db' !! attemptID) -> forall s,
    readLogContinuity db' attemptID s = readLogContinuity db attemptID s;
  spares_rows : forall s x, x ∈ stream_rows db' attemptID s -> x ∈ stream_rows db attemptID s
}.

Lemma stream_rows_elem db s x : x ∈ stream_rows db attemptID s <-> x ∈ db_log_events db /\ l_attempt_id x = attemptID /\ l_stream x = s.
Proof. unfold stream_rows. rewrite elem_of_filter_bool, andb_true_iff, !bool_decide_eq_true. done. Qed.

Lemma tables_spare db db' :
  logs_sound db -> log_tables db' = log_tables db ->
  (is_Some (db_attempts db' !! attemptID) -> is_Some (db_attempts db !! attemptID)) -> spares db db'.
Proof.
  intros Hs HT HA. assert (Hs' := logs_sound_tables _ _ HT Hs). injection HT as E1 _ E3 _ _. split; [done|done|..].
  - intros _ s. unfold readLogContinuity. by rewrite E3.
  - intros s x. unfold stream_rows. by rewrite E1.
Qed.

Lemma shrinks_spare db db' : logs_sound db -> shrinks db db' -> spares db db'.
Proof.
  intros Hs H. assert (Hs' := shrinks_streams _ _ H (proj2 Hs)). destruct H as [[keep E] M' C (? & ? & ? & ? & ? & ? & O)].
  split; [by split|by rewrite O|..].
  - intros _ s. unfold readLogContinuity. by rewrite M'.
  - intros s row. rewrite !stream_rows_elem, E. intros [[Hx _]%elem_of_filter_bool ?]. done.
Qed.

Lemma elsewhere_spares db db' : logs_sound db -> elsewhere db db' -> spares db db'.
Proof.
  intros Hs [at_ identity' jobID' attemptID' request Hne Hu|jobID' now budget|now budget|db2 HT HA].
  - destruct (run _ db) as [db1 [resp|e]] eqn:Hrun; simpl.
    2: { rewrite (refused_upload _ _ _ _ _ _ _ _ Hs Hu Hrun). by apply tables_spare. }
    destruct (accepted_upload _ _ _ _ _ _ _ _ _ _ _ Hs Hu Hrun) as (ad & db0 & b & Ha & HT & _ & Hb & _ & Hres).
    assert (Hf := admit_frame cfg at_ identity' jobID' attemptID' request db). unfold ends in Hf. rewrite Ha in Hf. destruct Hf as (_ & HA & _).
    assert (Hs0 := logs_sound_tables _ _ HT Hs). assert (H0 : spares db db0) by (apply tables_spare; [done|done|apply HA]).
    destruct Hres as [[_ ->]|[[keep E] S1 A1 M1]]; [done|]. destruct H0 as [_ K0 M0 R0]. split; [done|auto|..].
    + intros Hk s. rewrite M1, stored_continuity by (done || apply Hs0). rewrite bool_decide_eq_false_2 by done. by apply M0, A1.
    + intros s x. rewrite stream_rows_elem, E. intros ([Hx _]%elem_of_filter_bool & Ex & Es). apply R0, stream_rows_elem. split; [|done].
      rewrite stored_events in Hx. apply elem_of_app in Hx as [Hx|Hx]; [done|].
      destruct (new_rows_elem _ _ _ _ _ Hx) as (q & o & _ & -> & _). simpl in Ex. congruence.
  - apply shrinks_spare; [done|]. apply cap_shrinks, Hs.
  - apply shrinks_spare; [done|]. apply ceiling_shrinks, Hs.
  - by apply tables_spare.
Qed.

Lemma synced_elsewhere st db' : synced st -> spares (dl_db st) db' -> synced (st <| dl_db := db' |>).
Proof.
  intros [Y1 Y2 Y3 Y4 Y5 Y6] [Q1 Q2 Q3 Q4]. split; simpl; try done. intros s.
  destruct (Y5 s) as (acked & pre & post & [S1 S2 S3 S4 S5]). exists acked, pre, post. split; simpl; try done.
  - intros Hk. rewrite Q3 by done. by apply S4, Q2.
  - intros Hk x Hx. apply S5; auto.
Qed.

(** *** Sending *)
Definition replayed (db : DB) (batch : list LogEvent) (s : string) : list LogEvent :=
  List.filter (fun e => logEventEndSequence e <=? readLogContinuity db attemptID s) (List.filter (on_stream s) batch).
Definition fresh (db : DB) (batch : list LogEvent) (s : string) : list LogEvent :=
  List.filter (fun e => readLogContinuity db attemptID s <? logEventEndSequence e) (List.filter (on_stream s) batch).

Lemma filter_prefix {A} (p : A -> bool) n (l : list A) : exists rest, List.filter p l = List.filter p (firstn n l) ++ rest.
Proof. exists (List.filter p (skipn n l)). by rewrite <- List.filter_app, take_drop. Qed.

(** Where L1's record ends inside a stream. *)
Lemma stream_accepted st s acked pre post :
  stream_synced st s acked pre post -> known st ->
  (exists k, elink k pre (M st s)) /\ (exists last, elink (M st s + 1) post last).
Proof.
  intros [_ _ [last S3] S4 _] Hk. specialize (S4 Hk). split.
  - apply elink_app in S4 as (mid & _ & H). by exists (mid + 1).
  - rewrite app_assoc in S3. apply elink_app in S3 as (mid & H1 & H2). rewrite (elink_unique _ _ _ _ H1 S4) in H2. by exists last.
Qed.

Lemma batch_parts st n s acked pre post :
  let batch := map row_event (firstn n (rows_of attemptID (dl_spool st))) in
  stream_synced st s acked pre post -> known st ->
  List.filter (on_stream s) batch = replayed (dl_db st) batch s ++ fresh (dl_db st) batch s
  /\ exists pre2 post2, pre = replayed (dl_db st) batch s ++ pre2 /\ post = fresh (dl_db st) batch s ++ post2
       /\ (pre2 = [] \/ fresh (dl_db st) batch s = []).
Proof.
  intros batch Hsync Hk. destruct (stream_accepted _ _ _ _ _ Hsync Hk) as [[k Hpre] [last Hpost]].
  assert (E : exists rest, pre ++ post = List.filter (on_stream s) batch ++ rest).
  { rewrite <- (ss_spool _ _ _ _ _ Hsync), stream_of_rows. unfold batch. rewrite filter_row_event.
    destruct (filter_prefix (fun r => bool_decide (sr_stream r = s)) n (rows_of attemptID (dl_spool st))) as [rest ->].
    rewrite map_app. by eexists. }
  destruct E as [rest E]. unfold replayed, fresh. set (l := List.filter (on_stream s) batch) in *.
  assert (Fpre : forall a, (forall e, e ∈ a -> e ∈ pre) ->
    List.filter (fun e => logEventEndSequence e <=? M st s) a = a /\ List.filter (fun e => M st s <? logEventEndSequence e) a = []).
  { intros a Ha. split; [apply list_filter_true|apply list_filter_false]; apply Forall_forall; intros e He%Ha;
      apply (elink_bounds _ _ _ _ Hpre) in He; lia. }
  assert (Fpost : forall a, (forall e, e ∈ a -> e ∈ post) ->
    List.filter (fun e => logEventEndSequence e <=? M st s) a = [] /\ List.filter (fun e => M st s <? logEventEndSequence e) a = a).
  { intros a Ha. split; [apply list_filter_false|apply list_filter_true]; apply Forall_forall; intros e He%Ha;
      apply (elink_bounds _ _ _ _ Hpost) in He; lia. }
  apply app_eq_inv in E as [(d & E1 & E2)|(d & E1 & E2)]; cycle 1.
  - rewrite E1, !List.filter_app. destruct (Fpre pre) as [-> ->]; [done|]. destruct (Fpost d) as [-> ->].
    { intros e He. rewrite E2. apply elem_of_app. by left. }
    rewrite app_nil_r. simpl. split; [done|]. exists [], rest. rewrite app_nil_r. auto.
  - destruct (Fpre l) as [-> ->]. { intros e He. rewrite E1. apply elem_of_app. by left. }
    rewrite app_nil_r. split; [done|]. exists d, post. auto.
Qed.

Lemma batch_event st n e :
  synced st -> e ∈ map row_event (firstn n (rows_of attemptID (dl_spool st))) -> sendable attemptID e.
Proof.
  intros [_ _ _ Y4 Y5 _] (r & <- & Hr)%list_elem_of_In%in_map_iff. apply list_elem_of_In in Hr.
  assert (Hin : r ∈ rows_of attemptID (dl_spool st)) by (rewrite <- (take_drop n); apply elem_of_app; by left).
  destruct (Y5 (sr_stream r)) as (acked & pre & post & [S1 S2 _ _ _]).
  assert (He : row_event r ∈ dl_written st).
  { assert (Hx : row_event r ∈ pre ++ post).
    { rewrite <- S2. apply list_elem_of_In, in_map, list_elem_of_In. rewrite stream_of_rows. apply elem_of_filter_bool.
      split; [done|]. by apply bool_decide_eq_true. }
    assert (Hy : row_event r ∈ acked ++ pre ++ post) by (apply elem_of_app; by right).
    rewrite <- S1 in Hy. by apply elem_of_filter_bool in Hy as [? _]. }
  rewrite Forall_forall in Y4. destruct (Y4 _ He) as (H1 & H2 & H3). split; [done|by apply stored_time_ok|done].
Qed.

Lemma holds_later late late' e x : (late = true -> late' = true) -> holds_event late e x -> holds_event late' e x.
Proof.
  intros H (E1 & E2 & E3). split_and!; [done|done|]. destruct late; [by rewrite H|]. by left; destruct E3.
Qed.

Section Sending.
Context (st : delivery) (n : nat) (at_ : instant) (ad : admission) (db0 : DB).
#[local] Definition batch_of : list LogEvent := map row_event (firstn n (rows_of attemptID (dl_spool st))).
Context (Hsync : synced st).
Context (Hadmit : admit_upload cfg at_ identity jobID attemptID (upload batch_of) (dl_db st) = Next ad db0).
Context (Hlate : dl_late st = true -> ad_late ad = true).

Lemma admitted_tables : log_tables db0 = log_tables (dl_db st) /\ known st
  /\ forall id, is_Some (db_attempts db0 !! id) <-> is_Some (db_attempts (dl_db st) !! id).
Proof.
  assert (Hf := admit_frame cfg at_ identity jobID attemptID (upload batch_of) (dl_db st)). unfold ends in Hf. rewrite Hadmit in Hf.
  destruct Hf as (HT & HA & Hk). done.
Qed.

Lemma admitted_marks s : readLogContinuity db0 attemptID s = M st s.
Proof. destruct admitted_tables as [[= _ _ E _ _] _]. unfold readLogContinuity. by rewrite E. Qed.

Lemma admitted_rows s : stream_rows db0 attemptID s = stream_rows (dl_db st) attemptID s.
Proof. destruct admitted_tables as [[= E _ _ _ _] _]. unfold stream_rows. by rewrite E. Qed.

Definition reached (s : string) : Z := elast (M st s + 1) (fresh (dl_db st) batch_of s).

Lemma batch_prepared :
  exists b, prepare_events source_digest (ad_late ad) db0 attemptID batch_of empty_batch = Ok b /\ batch_sound db0 attemptID b
    /\ forall s, mark db0 attemptID b s = reached s.
Proof.
  destruct admitted_tables as (HT & Hk & _). assert (Hs0 := proj2 (logs_sound_tables _ _ HT (sy_logs _ Hsync))).
  apply (prepare_in_order source_digest (ad_late ad) db0 attemptID Hs0 empty_batch (replayed (dl_db st) batch_of) (fresh (dl_db st) batch_of));
    [apply batch_sound_empty|apply Forall_forall; intros e He; by eapply batch_event|].
  assert (Hparts : forall s, exists acked pre post, stream_synced st s acked pre post
    /\ List.filter (on_stream s) batch_of = replayed (dl_db st) batch_of s ++ fresh (dl_db st) batch_of s
    /\ exists pre2 post2, pre = replayed (dl_db st) batch_of s ++ pre2 /\ post = fresh (dl_db st) batch_of s ++ post2).
  { intros s. destruct (sy_streams _ Hsync s) as (acked & pre & post & HS). exists acked, pre, post.
    destruct (batch_parts st n s acked pre post HS Hk) as (E & pre2 & post2 & E1 & E2 & _). split_and!; eauto. }
  split.
  - intros s. by destruct (Hparts s) as (? & ? & ? & _ & E & _).
  - intros s. destruct (Hparts s) as (acked & pre & post & HS & _ & pre2 & post2 & E1 & _).
    destruct (stream_accepted _ _ _ _ _ HS Hk) as [[k Hk1] _]. rewrite E1 in Hk1. apply elink_prefix in Hk1 as [H1 H2].
    rewrite admitted_marks. eauto.
  - intros s _. simpl. apply lookup_empty.
  - intros s e x He Hx. destruct (Hparts s) as (acked & pre & post & HS & _ & pre2 & post2 & E1 & _).
    rewrite admitted_rows in Hx. destruct (ss_rows _ _ _ _ _ HS Hk x Hx) as (e' & He' & Hh).
    assert (Hin : e ∈ acked ++ pre) by (rewrite E1, !elem_of_app; auto).
    unfold compatible. destruct Hh as (Eq & Ee & Ev). rewrite Eq, Ee.
    destruct (elink_apart _ _ _ _ _ (ss_accepted _ _ _ _ _ HS Hk) Hin He') as [<-|[?|?]]; [|by auto|by auto].
    right. right. split_and!; [done|done|]. destruct (dl_late st); [by rewrite Hlate|]. by left; destruct Ev.
  - intros s. destruct (Hparts s) as (acked & pre & post & HS & _ & pre2 & post2 & _ & E2).
    destruct (stream_accepted _ _ _ _ _ HS Hk) as [_ [last Hk2]]. rewrite E2 in Hk2. apply elink_prefix in Hk2 as [H1 _].
    unfold mark. simpl. rewrite lookup_empty, admitted_marks. done.
  - intros s q v e. simpl. by rewrite lookup_empty.
Qed.

(** What an accepted batch leaves on L1. *)
Context (db1 : DB) (resp : AppendLogsResponse).
Context (Hrun : run (AppendLogs cfg bounds source_digest at_ identity jobID attemptID (upload batch_of)) (dl_db st) = (db1, Ok resp)).
#[local] Definition st1 : delivery := st <| dl_db := db1 |> <| dl_late := dl_late st || ad_late ad |>.

Lemma batch_uint64 : Forall uint64_event (lr_Events (upload batch_of)).
Proof. apply Forall_forall. intros e He. exact (sendable_uint64 _ _ (batch_event st n e Hsync He)). Qed.

Lemma accepted_batch :
  exists b, prepare_events source_digest (ad_late ad) db0 attemptID batch_of empty_batch = Ok b /\ batch_sound db0 attemptID b
    /\ (forall s, mark db0 attemptID b s = reached s) /\ lp_Acknowledged resp = acknowledged b
    /\ ((bt_newEvents b = [] /\ db1 = db0) \/ appends jobID attemptID b db0 db1).
Proof.
  destruct (accepted_upload _ _ _ _ _ _ _ _ _ _ _ (sy_logs _ Hsync) batch_uint64 Hrun) as (ad' & db0' & b & Ha & _ & Hp & Hb & Hack & Hres).
  rewrite Hadmit in Ha. injection Ha as <- <-. destruct batch_prepared as (b' & Hp' & _ & Hm). simpl in Hp. rewrite Hp in Hp'.
  injection Hp' as <-. by exists b.
Qed.

Lemma accepted_sound : logs_sound db1.
Proof.
  destruct accepted_batch as (b & _ & _ & _ & _ & [[_ ->]|H]); [|apply H].
  eapply logs_sound_tables; [apply admitted_tables|apply Hsync].
Qed.

Lemma accepted_known : is_Some (db_attempts db1 !! attemptID) -> forall s, readLogContinuity db1 attemptID s = reached s.
Proof.
  intros Hk s. destruct admitted_tables as (HT & _ & HA). assert (Hs0 := logs_sound_tables _ _ HT (sy_logs _ Hsync)).
  destruct accepted_batch as (b & _ & Hb & Hm & _ & [[En ->]|[_ _ _ M1]]).
  - rewrite <- Hm. apply unchanged_marks; [apply Hs0|done|done].
  - rewrite M1, stored_continuity by (done || apply Hs0). by rewrite bool_decide_eq_true_2.
Qed.

(** The rows L1 holds afterwards: those it held, and the fresh part of the batch. *)
Lemma accepted_rows s x :
  x ∈ stream_rows db1 attemptID s ->
  x ∈ stream_rows (dl_db st) attemptID s \/ exists e, e ∈ fresh (dl_db st) batch_of s /\ holds_event (ad_late ad) e x.
Proof.
  rewrite <- admitted_rows. destruct admitted_tables as (HT & Hk & _). assert (Hs0 := logs_sound_tables _ _ HT (sy_logs _ Hsync)).
  destruct accepted_batch as (b & Hp & Hb & Hm & _ & [[_ ->]|[[keep E] _ _ _]]); [by left|]. rewrite !stream_rows_elem, E.
  intros ([Hx _]%elem_of_filter_bool & Ex & Es). rewrite stored_events in Hx. apply elem_of_app in Hx as [Hx|Hx]; [by left|]. right.
  destruct (new_rows_elem _ _ _ _ _ Hx) as (p & o & Hpn & -> & _). simpl in Es.
  destruct (prepare_covers _ _ _ _ _ _ _ (proj2 Hs0) batch_uint64 (batch_sound_empty db0 attemptID) (seen_empty _ _) Hp) as [_ Hnew].
  destruct (Hnew p Hpn) as [?%elem_of_nil|(e & He & ->)]; [done|].
  destruct (accepted_form_fields source_digest (ad_late ad) e) as (_ & F1 & F2 & F3). simpl in Es. rewrite F1 in Es.
  exists e. split; [|split_and!; simpl; [done|done|by right]].
  assert (Hc := sound_chain _ _ _ Hb s). rewrite admitted_marks in Hc.
  assert (Hin : mkpreparedEvent (accepted_form source_digest (ad_late ad) e) (logEventEndSequence e) ∈ List.filter (of_stream s) (bt_newEvents b)).
  { apply elem_of_filter_bool. split; [done|]. unfold of_stream. simpl. rewrite F1. by apply bool_decide_eq_true. }
  destruct (chain_bounds _ _ _ _ Hc Hin) as [[H1 H2] _]. simpl in H1, H2.
  apply elem_of_filter_bool. split; [|apply Z.ltb_lt; lia]. apply elem_of_filter_bool. split; [done|]. by apply bool_decide_eq_true.
Qed.

Lemma accepted_streams s :
  exists acked pre post, stream_synced st1 s acked pre post /\ elink 0 (acked ++ pre) (reached s).
Proof.
  destruct admitted_tables as (HT & Hk & HA). destruct (sy_streams _ Hsync s) as (acked & pre & post & HS).
  destruct (batch_parts st n s acked pre post HS Hk) as (_ & pre2 & post2 & E1 & E2 & Hcase).
  change (map row_event (firstn n (rows_of attemptID (dl_spool st)))) with batch_of in *.
  set (new := fresh (dl_db st) batch_of s) in *. assert (Hacc := ss_accepted _ _ _ _ _ HS Hk).
  assert (Hreach : elink 0 (acked ++ pre ++ new) (reached s)).
  { destruct (stream_accepted _ _ _ _ _ HS Hk) as [_ [last Hpost]]. rewrite E2 in Hpost. apply elink_prefix in Hpost as [Hpost _].
    rewrite app_assoc. apply elink_app. by exists (M st s). }
  exists acked, (pre ++ new), post2. split; [|done]. destruct HS as [S1 S2 S3 S4 S5]. split; simpl.
  - by rewrite S1, E2, <- app_assoc.
  - by rewrite S2, E2, <- app_assoc.
  - rewrite E2 in S3. by rewrite <- app_assoc.
  - intros Hk1. by rewrite accepted_known.
  - intros _ x [Hx|(e & He & Hh)]%accepted_rows.
    + destruct (S5 Hk x Hx) as (e & He & Hh). exists e. split; [rewrite elem_of_app in He |- *; rewrite elem_of_app; tauto|].
      eapply holds_later; [|exact Hh]. intros ->. done.
    + exists e. split; [rewrite !elem_of_app; auto|]. eapply holds_later; [|exact Hh]. intros ->. apply orb_true_r.
Qed.

(** The answer acknowledges the whole batch, and no more than L1 reached. *)
Lemma accepted_answer :
  (forall s v, lp_Acknowledged resp !! s = Some v -> v = reached s /\ v <= MaxInt64)
  /\ forall e, e ∈ batch_of -> exists v, lp_Acknowledged resp !! le_Stream e = Some v /\ logEventEndSequence e <= v.
Proof.
  destruct admitted_tables as (HT & Hk & _). assert (Hs0 := logs_sound_tables _ _ HT (sy_logs _ Hsync)).
  destruct accepted_batch as (b & Hp & Hb & Hm & -> & _). split.
  - intros s v. rewrite (acknowledged_mark _ _ _ _ Hb). destruct (bt_recorded b !! s); [|done]. simpl. intros [= <-].
    split; [apply Hm|]. apply mark_range; [apply Hs0|done].
  - intros e He. destruct (prepare_covers _ _ _ _ _ _ _ (proj2 Hs0) batch_uint64 (batch_sound_empty db0 attemptID) (seen_empty _ _) Hp) as [Hcov _].
    destruct (Hcov e) as [[t Ht] Hle]; [by left|]. rewrite (acknowledged_mark _ _ _ _ Hb), Ht. simpl. eauto.
Qed.

(** The spool then drops the batch. *)
Lemma admitted_nonempty : batch_of <> [].
Proof.
  intros E. assert (H := Hadmit). rewrite E in H. unfold admit_upload, bind, check in H. by destruct (negb _).
Qed.

Lemma batch_settles :
  exists sp', upload_turn ls attemptID batch_of (Answered (Ok resp)) (dl_spool st) = (Settled, sp')
    /\ spool_ok sp' /\ (class_of sp' attemptID = class_of (dl_spool st) attemptID \/ class_of sp' attemptID = None)
    /\ rows_of attemptID sp' = List.filter (unacknowledged (lp_Acknowledged resp)) (rows_of attemptID (dl_spool st)).
Proof.
  destruct accepted_answer as [A1 A2]. unfold upload_turn. rewrite acknowledgement_valid by done.
  assert (Hex : is_Some (sp_attempts (dl_spool st) !! attemptID)).
  { assert (Hn := admitted_nonempty). unfold batch_of in Hn. destruct (rows_of attemptID (dl_spool st)) as [|r rows] eqn:E; [by rewrite firstn_nil in Hn|].
    assert (Hr : r ∈ rows_of attemptID (dl_spool st)) by (rewrite E; by left).
    apply elem_of_filter_bool in Hr as [Hr Er%bool_decide_eq_true]. assert (Ho := spool_owned _ (sy_spool _ Hsync)).
    rewrite Forall_forall in Ho. rewrite <- Er. by apply Ho. }
  destruct (acknowledge_spec ls attemptID (lp_Acknowledged resp) (dl_spool st) (sy_spool _ Hsync) Hex) as (sp' & -> & H).
  { intros s v E. by destruct (A1 s v E). }
  by exists sp'.
Qed.

Lemma settled_stream sp' s acked pre post :
  rows_of attemptID sp' = List.filter (unacknowledged (lp_Acknowledged resp)) (rows_of attemptID (dl_spool st)) ->
  stream_synced st1 s acked pre post -> elink 0 (acked ++ pre) (reached s) ->
  exists acked' pre', stream_synced (st1 <| dl_spool := sp' |> <| dl_batch := None |>) s acked' pre' post.
Proof.
  intros Hrows [S1 S2 [last S3] S4 S5] Hr. simpl in *.
  assert (Hstream : map row_event (stream_of sp' (attemptID, s))
    = List.filter (fun e => match lp_Acknowledged resp !! s with Some v => v <? le_Sequence e | None => true end) (pre ++ post)).
  { rewrite <- S2, !stream_of_rows, Hrows, filter_filter_comm.
    generalize (rows_of attemptID (dl_spool st)) as rows. intros rows. induction rows as [|r rows IH]; simpl; [done|].
    case_bool_decide as Es; [|done]. simpl. unfold unacknowledged at 1. rewrite Es. destruct (match lp_Acknowledged resp !! s with Some _ => _ | None => _ end); simpl; by rewrite IH. }
  destruct (lp_Acknowledged resp !! s) as [v|] eqn:Ev.
  - destruct (proj1 accepted_answer s v Ev) as [-> _]. exists (acked ++ pre), []. split; simpl; rewrite ?app_nil_r, <- ?app_assoc; try done.
    + rewrite Hstream, List.filter_app, list_filter_false, list_filter_true; [done|..].
      * rewrite app_assoc in S3. apply elink_app in S3 as (mid & H1 & H2). rewrite (elink_unique _ _ _ _ H1 Hr) in H2.
        apply Forall_forall. intros e He. apply (elink_bounds _ _ _ _ H2) in He. apply Z.ltb_lt. lia.
      * apply Forall_forall. intros e He. assert (Hb := elink_bounds _ _ _ e Hr). rewrite elem_of_app in Hb. specialize (Hb (or_intror He)). lia.
    + eauto.
  - exists acked, pre. split; simpl; eauto. rewrite Hstream. by rewrite list_filter_true by (by apply Forall_forall).
Qed.
End Sending.

Lemma synced_late st late : (dl_late st = true -> late = true) -> synced st -> synced (st <| dl_late := late |>).
Proof.
  intros Hl [Y1 Y2 Y3 Y4 Y5 Y6]. split; simpl; try done. intros s. destruct (Y5 s) as (acked & pre & post & [S1 S2 S3 S4 S5]).
  exists acked, pre, post. split; simpl; try done. intros Hk x Hx. destruct (S5 Hk x Hx) as (e & He & Hh). exists e. split; [done|].
  by eapply holds_later.
Qed.

Lemma synced_accepted st n at_ ad db0 db1 resp :
  let batch := map row_event (firstn n (rows_of attemptID (dl_spool st))) in
  synced st -> admit_upload cfg at_ identity jobID attemptID (upload batch) (dl_db st) = Next ad db0 ->
  (dl_late st = true -> ad_late ad = true) ->
  run (AppendLogs cfg bounds source_digest at_ identity jobID attemptID (upload batch)) (dl_db st) = (db1, Ok resp) ->
  dl_batch st = Some batch ->
  synced (st <| dl_db := db1 |> <| dl_late := dl_late st || ad_late ad |>)
  /\ exists sp', upload_turn ls attemptID batch (Answered (Ok resp)) (dl_spool st) = (Settled, sp')
       /\ synced (mkdelivery sp' db1 (dl_written st) None (dl_late st || ad_late ad)).
Proof.
  intros batch Hsync Ha Hl Hrun Hbatch. assert (Hst := accepted_streams st n at_ ad db0 Hsync Ha Hl db1 resp Hrun).
  assert (Hsound := accepted_sound st n at_ ad db0 Hsync Ha Hl db1 resp Hrun). split.
  - destruct Hsync as [Y1 Y2 Y3 Y4 Y5 Y6]. split; simpl; try done. intros s. destruct (Hst s) as (acked & pre & post & HS & _). eauto.
  - destruct (batch_settles st n at_ ad db0 Hsync Ha Hl db1 resp Hrun) as (sp' & Hturn & Hok & Hclass & Hrows).
    exists sp'. split; [done|]. split; simpl; try done.
    + intros class E. apply (sy_class _ Hsync). destruct Hclass as [Hc|Hc]; congruence.
    + apply (sy_written _ Hsync).
    + intros s. destruct (Hst s) as (acked & pre & post & HS & He).
      destruct (settled_stream st n at_ ad db0 Hsync Ha Hl db1 resp Hrun sp' s acked pre post Hrows HS He) as (acked' & pre' & HS').
      by exists acked', pre', post.
Qed.

Lemma synced_sent st at_ lost batch :
  synced st -> dl_batch st = Some batch ->
  (dl_late st = true -> forall ad db0,
     admit_upload cfg at_ identity jobID attemptID (upload batch) (dl_db st) = Next ad db0 -> ad_late ad = true) ->
  synced (sent at_ lost batch st).
Proof.
  intros Hsync Hbatch Hl. destruct (sy_batch _ Hsync batch Hbatch) as [n En]. unfold sent, late_upload.
  assert (Hu : Forall uint64_event (lr_Events (upload batch))).
  { apply Forall_forall. intros e He. rewrite En in He. exact (sendable_uint64 _ _ (batch_event st n e Hsync He)). }
  destruct (run _ (dl_db st)) as [db1 [resp|err]] eqn:Hrun.
  - destruct (accepted_upload _ _ _ _ _ _ _ _ _ _ _ (sy_logs _ Hsync) Hu Hrun) as (ad & db0 & _ & Ha & _). rewrite Ha.
    rewrite En in Ha, Hrun, Hbatch, Hl |- *. destruct (synced_accepted st n at_ ad db0 db1 resp Hsync Ha (fun H => Hl H _ _ Ha) Hrun Hbatch) as [H1 (sp' & Ht & H2)].
    destruct lost; [|by rewrite Ht]. simpl. rewrite <- Hbatch. exact H1.
  - rewrite (refused_upload _ _ _ _ _ _ _ _ (sy_logs _ Hsync) Hu Hrun).
    assert (Hturn : exists turn, upload_turn ls attemptID batch (if lost then NoAnswer else Answered (Err err)) (dl_spool st) = (turn, dl_spool st)
      /\ turn <> Settled).
    { destruct lost; simpl; [by exists Retry|]. case_bool_decide; eexists; done. }
    destruct Hturn as (turn & -> & Hn). apply (synced_late _ (dl_late st || match admit_upload cfg at_ identity jobID attemptID (upload batch) (dl_db st) with
                                                          | Next ad _ => ad_late ad | _ => false end)) in Hsync; [|by intros ->].
    apply (synced_batch _ (match turn with Retry => Some batch | _ => None end)) in Hsync; [exact Hsync|].
    intros b E. exists n. destruct turn; try done. injection E as <-. done.
Qed.

(** A fresh attempt: ensured in the spool, unknown to L1's log. *)
Record fresh_delivery (st : delivery) : Prop := {
  fresh_spool : spool_ok (dl_spool st);
  fresh_rows : rows_of attemptID (dl_spool st) = [];
  fresh_class : class_of (dl_spool st) attemptID = Some JobClassOneShot;
  fresh_logs : logs_sound (dl_db st);
  fresh_marks : forall s, M st s = -1;
  fresh_stored : forall s, stream_rows (dl_db st) attemptID s = [];
  fresh_state : dl_written st = [] /\ dl_batch st = None
}.

Lemma synced_fresh st : fresh_delivery st -> synced st.
Proof.
  intros [F1 F2 F3 F4 F5 F6 [F7 F8]]. split; try done.
  - intros class. rewrite F3. by intros [= <-].
  - by rewrite F7.
  - intros s. exists [], [], []. split; simpl.
    + by rewrite F7.
    + by rewrite stream_of_rows, F2.
    + by exists (-1).
    + intros _. by rewrite F5.
    + intros _ x. rewrite F6. by intros ?%elem_of_nil.
  - by rewrite F8.
Qed.

Lemma delivery_synced st0 st : fresh_delivery st0 -> rtc delivers st0 st -> synced st.
Proof.
  intros Hf%synced_fresh Hsteps. induction Hsteps as [st|st st1 st' Hstep _ IH]; [done|]. apply IH. clear IH.
  destruct Hstep as [e sp' Hp Hrun|Hb|at_ lost batch Hb Hl| |sp' Hap|db' Hel].
  - by apply synced_write.
  - apply synced_batch; [done|]. intros b [= <-]. exists limit. apply pending_rows.
  - by apply synced_sent.
  - by apply synced_batch.
  - by apply synced_apart.
  - apply synced_elsewhere; [done|]. apply elsewhere_spares; [apply Hf|done].
Qed.

(** ** The claims *)


(** C23: every batch the uploader holds is accepted.  In any such history, once
    the attempt passes L1's checks (and L1 does not take an attempt it found late
    for a timely one again), L1 accepts the batch, however much of it it already
    has; the agent's own check of the answer passes, and the batch leaves the
    spool. *)
Theorem every_batch_is_accepted st0 st at_ batch ad db0 :
  fresh_delivery st0 -> rtc delivers st0 st -> dl_batch st = Some batch ->
  admit_upload cfg at_ identity jobID attemptID (upload batch) (dl_db st) = Next ad db0 ->
  (dl_late st = true -> ad_late ad = true) -> may_append ad = true ->
  exists db1 resp sp',
    run (AppendLogs cfg bounds source_digest at_ identity jobID attemptID (upload batch)) (dl_db st) = (db1, Ok resp)
    /\ upload_turn ls attemptID batch (Answered (Ok resp)) (dl_spool st) = (Settled, sp')
    /\ forall r, r ∈ rows_of attemptID sp' -> row_event r ∉ batch.
Proof.
  intros Hf Hsteps Hb Ha Hl Hmay. assert (Hsync := delivery_synced st0 st Hf Hsteps).
  destruct (sy_batch _ Hsync batch Hb) as [n ->].
  assert (Hrun : exists db1 resp, run (AppendLogs cfg bounds source_digest at_ identity jobID attemptID (upload (batch_of st n))) (dl_db st) = (db1, Ok resp)).
  { unfold run. rewrite (append_spec cfg bounds source_digest at_ identity jobID attemptID _ _ ad db0 (sy_logs _ Hsync) (batch_uint64 st n Hsync) Ha).
    destruct (batch_prepared st n at_ ad db0 Hsync Ha Hl) as (b & Hp & _). simpl. rewrite Hp.
    destruct (bt_newEvents b); [eauto|]. rewrite Hmay. eauto. }
  destruct Hrun as (db1 & resp & Hrun). exists db1, resp.
  destruct (batch_settles st n at_ ad db0 Hsync Ha Hl db1 resp Hrun) as (sp' & Hturn & _ & _ & Hrows). exists sp'.
  split_and!; [done|done|]. intros r Hr Hin. rewrite Hrows in Hr. apply elem_of_filter_bool in Hr as [_ Hu].
  destruct (accepted_answer st n at_ ad db0 Hsync Ha Hl db1 resp Hrun) as [_ A2]. destruct (A2 _ Hin) as (v & Ev & Hle).
  destruct (validated_shape _ _ (sendable_valid _ _ (batch_event st n _ Hsync Hin)) (sendable_uint64 _ _ (batch_event st n _ Hsync Hin))) as [[_ Hw _] _].
  unfold unacknowledged in Hu. simpl in Ev. rewrite Ev in Hu. apply Z.ltb_lt in Hu. simpl in Hw. lia.
Qed.
End Delivery.

(** ** Witnesses *)
Definition sample_spool : Spool :=
  mkSpool {[ "a1" := mkSpoolAttempt "j1" "1" JobClassOneShot JobKindProcess 0 "g1" None None None None None None None ]} [] 1 ∅ ∅ ∅ ∅ ∅.
Definition sample_ls : logSpool := mklogSpool "g1" 100 40.

Definition start_delivery : delivery := mkdelivery sample_spool sample_db [] None false.

Lemma sample_fresh : fresh_delivery "a1" start_delivery.
Proof.
  split; try done.
  - by split; constructor.
  - exact sample_sound.
Qed.

Definition wrote (e : LogEvent) (st : delivery) : delivery :=
  st <| dl_spool := (run (append sample_ls e) (dl_spool st)).1 |> <| dl_written := dl_written st ++ [e] |>.

(** Two lines, the first in flight when the second is written; the answer to the
    upload is lost. *)
Definition written_one : delivery := wrote (sample_event LogStdout 0 "hello") start_delivery.
Definition read_one : delivery := written_one <| dl_batch := Some (pending "a1" 10 (dl_spool written_one)) |>.
Definition written_two : delivery := wrote (sample_event LogStdout 1 "world") read_one.
Definition first_batch : list LogEvent := [sample_event LogStdout 0 "hello"].
Definition sent_one : delivery :=
  sent sample_ls sample_config sample_bounds (fun _ => "") "id1" "j1" "a1" "1" (sample_instant 300) true first_batch written_two.

Abbreviation sample_delivers := (delivers sample_ls sample_config sample_bounds (fun _ => "") "id1" "j1" "a1" "1" 10).

Lemma sample_written st e :
  produced "a1" (dl_written st) e -> (run (append sample_ls e) (dl_spool st)).2 = Ok tt -> sample_delivers st (wrote e st).
Proof.
  intros Hp Hr. apply Write; [done|]. rewrite <- Hr. by destruct (run (append sample_ls e) (dl_spool st)).
Qed.

Lemma sample_history : rtc sample_delivers start_delivery sent_one.
Proof.
  apply (rtc_l _ _ written_one).
  { apply sample_written; [|vm_compute; reflexivity]. split; [vm_compute; reflexivity|vm_compute; discriminate|vm_compute; reflexivity|].
    vm_compute. reflexivity. }
  apply (rtc_l _ _ read_one); [apply ReadBatch; reflexivity|].
  apply (rtc_l _ _ written_two).
  { apply sample_written; [|vm_compute; reflexivity]. split; [vm_compute; reflexivity|vm_compute; discriminate|vm_compute; reflexivity|].
    vm_compute. split_and!; congruence. }
  apply rtc_once. apply SendBatch; [vm_compute; reflexivity|]. intros H. vm_compute in H. discriminate.
Qed.


Lemma every_batch_is_accepted_witness :
  exists db1 resp sp', run (AppendLogs sample_config sample_bounds (fun _ => "") (sample_instant 500) "id1" "j1" "a1" (upload "1" first_batch))
                         (dl_db sent_one) = (db1, Ok resp)
    /\ upload_turn sample_ls "a1" first_batch (Answered (Ok resp)) (dl_spool sent_one) = (Settled, sp').
Proof.
  destruct (admit_upload sample_config (sample_instant 500) "id1" "j1" "a1" (upload "1" first_batch) (dl_db sent_one)) as [ad db0|r d|r] eqn:Ha;
    [|vm_compute in Ha; discriminate..].
  destruct (every_batch_is_accepted sample_ls sample_config sample_bounds (fun _ => "") "id1" "j1" "a1" "1" 10
    start_delivery sent_one (sample_instant 500) first_batch ad db0 sample_fresh sample_history) as (db1 & resp & sp' & H1 & H2 & _).
  - vm_compute. reflexivity.
  - exact Ha.
  - intros H. vm_compute in H. discriminate.
  - vm_compute in Ha. injection Ha as <- _. reflexivity.
  - exists db1, resp, sp'. split; [exact H1|exact H2].
Defined.

(** ** Service output

    Service output may be evicted while a batch is in flight.  The node's spool
    holds 40 bytes: three lines are read and sent, a fourth is written, and a
    fifth needs the room of all four. *)
Definition service_line (sequence : Z) (payload : string) : LogEvent := mkLogEvent "a1" LogStdout sequence 200 payload None.

Definition service_l1 : DB :=
  sample_db <| db_jobs := {[ "j1" := sample_job (example_process_stored <| js_Class := JobClassService |>) JobRunning (Some "a1") 1 ]} |>
            <| db_service_jobs := {[ "j1" := sample_service (Some "n1") ]} |>.

Definition spooled (e : LogEvent) (sp : Spool) : Spool := (run (append sample_ls e) sp).1.

Definition service_spool : Spool :=
  sample_spool <| sp_attempts := {[ "a1" := mkSpoolAttempt "j1" "1" JobClassService JobKindProcess 0 "g1" None None None None None None None ]} |>.

Definition three_lines : Spool :=
  spooled (service_line 2 "0123456789") (spooled (service_line 1 "0123456789") (spooled (service_line 0 "0123456789") service_spool)).
Definition in_flight : list LogEvent := pending "a1" 10 three_lines.
Definition five_lines : Spool :=
  spooled (service_line 4 "0123456789012345678901234567890123456789") (spooled (service_line 3 "0123456789") three_lines).

Definition upload_of (t : Z) (batch : list LogEvent) (db : DB) : DB * result ErrorCode AppendLogsResponse :=
  run (AppendLogs sample_config (mklog_bounds 8 1000 1000 2000 100000) (fun _ => "") (sample_instant t) "id1" "j1" "a1" (upload "1" batch)) db.

Definition after_upload : DB := (upload_of 300 in_flight service_l1).1.
Definition after_settling : turn * Spool :=
  upload_turn sample_ls "a1" in_flight (Answered (upload_of 300 in_flight service_l1).2) five_lines.


(** The sink's counter of pending events: five lines through [WriteOutput], of
    which the last evicts the other four, and the upload of what is left. *)
Definition written_through (e : LogEvent) (state : batchingLogSink * Spool) : batchingLogSink * Spool :=
  let '(sp, answer) := WriteOutput sample_ls 0 e state.1 state.2 in
  (match answer with Ok (sink, _) => sink | Err _ => state.1 end, sp).

Definition sink_of_five : batchingLogSink * Spool :=
  fold_left (fun state e => written_through e state)
    [service_line 0 "0123456789"; service_line 1 "0123456789"; service_line 2 "0123456789"; service_line 3 "0123456789";
     service_line 4 "0123456789012345678901234567890123456789"] (mkbatchingLogSink "a1" 10 0, service_spool).

(** The sink counts evicted events as pending for good.  After the eviction
    two rows stand for five events; when both are uploaded and acknowledged the
    spool is empty and the counter still says three. *)
Theorem evicted_events_stay_counted :
  let '(sink, sp) := sink_of_five in
  let batch := pending "a1" 10 sp in
  let '(turn, sp') := upload_turn sample_ls "a1" batch (Answered (upload_of 300 batch service_l1).2) sp in
  turn = Settled /\ pendingCount "a1" sp' = 0 /\ bs_pendingEvents (settle_sink batch sink) = 3.
Proof. vm_compute. split_and!; reflexivity. Qed.
