(* ===== verification/SpoolEvidence.v ===== *)
(** * Completions in the spool

    A completion stored before it is sent is rebuilt identically after a restart
    for as long as L1 has not settled it; the sweep of dead rows takes no evidence
    that L1 could still accept. *)
From S2P Require Import Prelude Order States Contract GoStrings JobSpec L1Types RestartPolicy Database.
From S2P Require Import LeaseClock Authority Credentials Summaries Lifecycle LogRetention Logs LogStreams Claim LogSpool LogUpload.
From S2P Require Import SpoolStreams.
#[local] Open Scope string_scope.
#[local] Open Scope list_scope.
#[local] Open Scope Z_scope.

(** The request an attempt's lifecycle sends; [initiator] is the process result's
    own record of who began the termination. *)
Definition completionRequest (claim : Claim) (result : ProcessResult) (initiator evidence : string) : CompletionRequest :=
  mkCompletionRequest "" "" (al_FencingToken (cl_Lease claim)) ("completion:" +:+ al_AttemptID (cl_Lease claim)) result evidence ""
    (match pr_ExitCode result with Some _ => initiator | None => "" end).

(** [restartCompletionRequest] names the interruption that began the stop. *)
Definition interrupted_request (reason key : string) (request : CompletionRequest) : CompletionRequest :=
  request <| cr_InterruptionReason := reason |> <| cr_InterruptionRequestKey := key |>.

Section Evidence.
Context (ls : logSpool) (id : string).

(** The spool's work between storing a completion and settling it. *)
Inductive spool_step (sp : Spool) : Spool -> Prop :=
| StepAppend e : spool_step sp (run (append ls e) sp).1
| StepAcknowledge id' acknowledged : spool_step sp (run (acknowledge ls id' acknowledged) sp).1
| StepEnsure claim : spool_step sp (run (ensureAttempt ls claim) sp).1
| StepStore id' completion t : spool_step sp (run (storeDurableCompletion id' completion t) sp).1
| StepReplayGaps id' batch : spool_step sp (run (replaceBatchWithReplayGaps id' batch) sp).1
| StepDelivered now id' revision : id' <> id -> spool_step sp (run (completionDelivered now id' revision) sp).1
| StepDisposition now id' disposition reason revision :
    id' <> id -> spool_step sp (run (recordCompletionDisposition ls now id' disposition reason revision) sp).1
| StepSeal id' reason code t : id' <> id -> spool_step sp (run (sealIncomplete id' reason code t) sp).1
| StepSweep limit live createdHere : spool_step sp (sweepDeadOneShotAttempts ls limit live createdHere sp).2.

(** A row that still owes its completion. *)
Record owing (a : SpoolAttempt) : Prop := {
  owing_result : is_Some (sa_result a);
  owing_incomplete : sa_incomplete a = None;
  owing_disposition : sa_completion_disposition a = None;
  owing_refused : sa_l1_refused_ns a = None
}.

Lemma delete_attempts_keeps p sp a :
  sp_attempts sp !! id = Some a -> p id a = false -> sp_attempts (delete_attempts_where p sp) !! id = Some a.
Proof. intros Ha Hp. simpl. by apply map_lookup_filter_Some. Qed.

Lemma compact_keeps jobID sp a :
  sp_attempts sp !! id = Some a -> sa_completion_disposition a <> Some "suppressed" ->
  sp_attempts (compactSuppressedCompletionPayloads ls jobID sp) !! id = Some a.
Proof.
  intros Ha Hd. unfold compactSuppressedCompletionPayloads.
  match goal with |- context [delete_attempts_where ?p sp] => apply (delete_attempts_keeps p sp a Ha) end.
  apply bool_decide_eq_false. intros ([id' a'] & E & Hin)%list_elem_of_In%in_map_iff. simpl in E. subst id'.
  apply filter_In in Hin as [Hin _]. apply list_elem_of_In in Hin.
  assert (Hs : (id, a') ∈ suppressed_payloads jobID sp).
  { rewrite <- (take_drop maxSuppressedCompletionPayloadsPerJob). apply elem_of_app. by right. }
  unfold suppressed_payloads in Hs. rewrite merge_sort_Permutation in Hs. apply elem_of_filter_bool in Hs as [Hm E].
  apply elem_of_map_to_list in Hm. assert (a' = a) as -> by congruence.
  apply andb_true_iff in E as [[[_ E%bool_decide_eq_true]%andb_true_iff _]%andb_true_iff _]. done.
Qed.

Lemma replace_streams_attempts id' streams batch sp :
  ends (replace_streams id' streams batch) (fun _ sp' => sp_attempts sp' = sp_attempts sp) (fun _ _ => False) (fun _ => True) sp.
Proof.
  revert sp. induction streams as [|s streams IH]; intros sp; [done|]. simpl.
  apply (ends_seq (fun _ sp' => sp_attempts sp' = sp_attempts sp)).
  - unfold replace_stream. destruct (List.filter _ batch) as [|first rest]; [done|]. wp.
    assert (H' : forall l sp0, sp_attempts (fold_left (fun sp e => delete_events (fun x => (sr_ordinal x =? de_ordinal e)
                                                  && bool_decide (sr_attempt_id x = id')) sp) l sp0) = sp_attempts sp0).
    { induction l as [|e l IHl]; intros sp0; [done|]. simpl. by rewrite IHl. }
    by rewrite H'.
  - intros _ sp' E. specialize (IH sp'). eapply ends_mono; [| | |exact IH]; [|done|done]. intros ? s' Es. by rewrite Es.
Qed.

Abbreviation keeps a := (fun sp => sp_attempts sp !! id = Some a).

Lemma append_attempts e sp : sp_attempts (run (append ls e) sp).1 = sp_attempts sp.
Proof.
  assert (Hrun : forall run sp, sp_attempts (replaceEvictedServiceRun run sp) = sp_attempts sp).
  { intros [|first rest] sp0; [done|]. unfold replaceEvictedServiceRun. by rewrite replace_run_spec. }
  assert (Hfold : forall rs sp, sp_attempts (fold_left (fun sp run => replaceEvictedServiceRun run sp) rs sp) = sp_attempts sp).
  { induction rs as [|r rs IH]; intros sp0; simpl; [done|]. by rewrite IH. }
  apply (post_run _ (fun sp' => sp_attempts sp' = sp_attempts sp)); [done|]. unfold append. wp. unfold insert_event. simpl.
  match goal with H : make_room _ _ _ _ = Ok ?x |- sp_attempts ?x = _ => unfold make_room in H; revert H end.
  repeat case_match; try (intros [= <-]; done); try done. unfold evictServicePrefix. case_match; [done|].
  intros [= <-]. by rewrite fold_left_concat.
Qed.

Lemma acknowledge_keeps id' acknowledged sp a :
  keeps a sp -> owing a -> keeps a (run (acknowledge ls id' acknowledged) sp).1.
Proof.
  intros Ha [[r Hr] Hi Hd _]. apply (post_run _ (keeps a)); [done|]. unfold acknowledge.
  destruct (acknowledge_rows id' acknowledged sp) as (E & _ & _).
  assert (Hkeep : forall s, sp_attempts s = sp_attempts sp -> keeps a (delete_attempts_where (fun id a =>
    bool_decide (id = id') && bool_decide (sa_result a = None) && bool_decide (sa_incomplete a = None)
    && negb (has_events s id') && bool_decide (sa_completion_disposition a = Some "delivered")) s)).
  { intros s Es. apply delete_attempts_keeps; [by rewrite Es|]. rewrite Hr, (bool_decide_eq_false_2 (Some r = None)) by done.
    by rewrite andb_false_r. }
  wp; [by apply Hkeep|apply compact_keeps; [by apply Hkeep|by rewrite Hd]|by apply Hkeep].
Qed.

Lemma sweep_keeps limit live createdHere sp a :
  keeps a sp -> owing a -> keeps a (sweepDeadOneShotAttempts ls limit live createdHere sp).2.
Proof.
  intros Ha [[r Hr] Hi Hd Hf]. unfold sweepDeadOneShotAttempts. simpl.
  apply map_lookup_filter_Some. split; [done|].
  apply bool_decide_eq_false. intros ([id' a'] & E & Hin)%list_elem_of_In%in_map_iff. simpl in E. subst id'.
  apply filter_In in Hin as [Hin _]. apply list_elem_of_In in Hin. unfold sweep_candidates in Hin.
  assert (Hm : (id, a') ∈ merge_sort created_order (List.filter (fun '(id, a) => spoolSweepPredicate sp id a && generationPredicate ls sp a
                    && negb (bool_decide (id ∈ sp_evidence_custody sp))) (map_to_list (sp_attempts sp)))).
  { rewrite <- (take_drop limit). apply elem_of_app. by left. }
  rewrite merge_sort_Permutation in Hm. apply elem_of_filter_bool in Hm as [Hm Hp]. apply elem_of_map_to_list in Hm.
  assert (a' = a) as -> by congruence. unfold spoolSweepPredicate, spoolEmptyLeftover in Hp. rewrite Hf, Hr in Hp.
  rewrite (bool_decide_eq_false_2 (is_Some None)), (bool_decide_eq_false_2 (Some r = None)) in Hp; [|done|by intros [? ?]].
  simpl in Hp. by rewrite andb_false_r in Hp.
Qed.

Lemma step_keeps sp sp' a : spool_step sp sp' -> keeps a sp -> owing a -> keeps a sp'.
Proof.
  intros Hstep Ha Ho. destruct Hstep as [e|id' acknowledged|claim|id' completion t|id' batch|now id' revision Hne
    |now id' disposition reason revision Hne|id' reason code t Hne|limit live createdHere].
  - by rewrite append_attempts.
  - by apply acknowledge_keeps.
  - apply (post_run _ (keeps a)); [done|]. unfold ensureAttempt. wp; try done. simpl.
    destruct (decide (al_AttemptID (cl_Lease claim) = id)) as [E|N]; [congruence|by rewrite lookup_insert_ne].
  - apply (post_run _ (keeps a)); [done|]. unfold storeDurableCompletion. wp. simpl.
    destruct (decide (id' = id)) as [->|N]; [|by rewrite lookup_insert_ne]. rewrite lookup_insert_eq. destruct Ho as [[r Hr] _ _ _].
    match goal with H : _ !! id = Some ?x |- _ => assert (x = a) as -> by congruence end. rewrite Hr. f_equal.
    destruct a; simpl in *. unfold set_field. simpl. by rewrite <- Hr.
  - apply (post_run _ (keeps a)); [done|]. unfold replaceBatchWithReplayGaps. wp.
    eapply ends_mono; [| | |apply replace_streams_attempts]; [|done|done]. intros ? s' E. by rewrite E.
  - apply (post_run _ (keeps a)); [done|]. unfold completionDelivered. wp. simpl. apply map_lookup_filter_Some.
    split; [by rewrite lookup_alter_ne|]. by rewrite (bool_decide_eq_false_2 (id = id')) by congruence.
  - apply (post_run _ (keeps a)); [done|]. unfold recordCompletionDisposition. wp; simpl; try (by rewrite lookup_alter_ne).
    apply compact_keeps; [simpl; by rewrite lookup_alter_ne|]. by rewrite (owing_disposition _ Ho).
  - apply (post_run _ (keeps a)); [done|]. unfold sealIncomplete. wp. simpl. by rewrite lookup_insert_ne.
  - by apply sweep_keeps.
Qed.
End Evidence.

Lemma spool_steps_keep ls id sp sp' a :
  rtc (spool_step ls id) sp sp' -> sp_attempts sp !! id = Some a -> owing a -> sp_attempts sp' !! id = Some a.
Proof.
  induction 1 as [sp|sp sp1 sp' Hstep _ IH]; intros Ha Ho; [done|]. apply IH; [|done]. by eapply step_keeps.
Qed.

(** The row [ensureAttempt] writes for a new attempt. *)
Definition ensured_row (ls : logSpool) (claim : Claim) : SpoolAttempt :=
  mkSpoolAttempt (cl_JobID claim) (al_FencingToken (cl_Lease claim)) (js_Class (cl_Spec claim)) (js_Kind (cl_Spec claim))
    (int64 (cl_CreatedAt claim)) (ls_generationID ls) None None None None None None None.

Lemma ensured ls claim sp :
  sp_attempts sp !! al_AttemptID (cl_Lease claim) = None ->
  run (ensureAttempt ls claim) sp
  = (sp <| sp_attempts := <[al_AttemptID (cl_Lease claim) := ensured_row ls claim]> (sp_attempts sp) |>, Ok tt).
Proof. intros E. unfold run, ensureAttempt, bind, reads. by rewrite E. Qed.


Lemma size_filter_out {A} (m : gmap string A) (l : list string) :
  (size m <= size (filter (fun '(k, _) => bool_decide (k ∈ l) = false) m) + length l)%nat.
Proof.
  revert m. induction l as [|x l IH]; intros m; simpl.
  - rewrite map_filter_id; [lia|]. done.
  - specialize (IH (delete x m)). replace (filter (fun '(k, _) => bool_decide (k ∈ x :: l) = false) m)
      with (filter (fun '(k, _) => bool_decide (k ∈ l) = false) (delete x m)).
    + assert (H : (size m <= S (size (delete x m)))%nat) by (rewrite map_size_delete; destruct (m !! x), (size m); simpl; lia).
      etrans; [exact H|]. rewrite Nat.add_succ_r. by apply le_n_S.
    + apply map_eq. intros i. apply option_eq. intros a. rewrite !map_lookup_filter_Some, lookup_delete_Some, !bool_decide_eq_false, not_elem_of_cons.
      split; [intros [[? ?] ?]; split_and!; auto|intros (? & ? & ?); auto].
Qed.

(** The sweep takes no evidence L1 could still accept.  A row it deletes is a
    one-shot row of this generation or a closed one, outside custody, of no live
    attempt, and either L1 refused it for good or it holds nothing: no event, no
    completion, no outcome, and no process of this run made it.  Every other row
    stays with its events and acknowledgements, and at most [limit] rows go. *)
Theorem sweep_takes_only_dead_rows ls limit live createdHere sp :
  let sp' := (sweepDeadOneShotAttempts ls limit live createdHere sp).2 in
  (forall id a, sp_attempts sp !! id = Some a ->
     sp_attempts sp' !! id = Some a
     \/ (sp_attempts sp' !! id = None /\ sa_class a = JobClassOneShot /\ live id = false /\ ~ id ∈ sp_evidence_custody sp
         /\ generationPredicate ls sp a = true
         /\ (is_Some (sa_l1_refused_ns a)
             \/ (createdHere id = false /\ sa_result a = None /\ sa_completion_disposition a = None /\ has_events sp id = false))))
  /\ (forall r, r ∈ sp_events sp -> is_Some (sp_attempts sp' !! sr_attempt_id r) -> r ∈ sp_events sp')
  /\ (forall k v, sp_acknowledgements sp !! k = Some v -> is_Some (sp_attempts sp' !! k.1) -> sp_acknowledgements sp' !! k = Some v)
  /\ (size (sp_attempts sp) <= size (sp_attempts sp') + limit)%nat.
Proof.
  intros sp'. set (swept := List.filter (sweep_takes live createdHere) (sweep_candidates ls limit sp)).
  assert (Hsp : sp' = delete_attempts_where (fun id _ => bool_decide (id ∈ map fst swept)) sp) by done.
  assert (Hswept : forall id a, (id, a) ∈ swept -> sp_attempts sp !! id = Some a
    /\ spoolSweepPredicate sp id a = true /\ generationPredicate ls sp a = true /\ ~ id ∈ sp_evidence_custody sp
    /\ sweep_takes live createdHere (id, a) = true).
  { intros id a [Hc Ht]%elem_of_filter_bool. unfold sweep_candidates in Hc.
    match type of Hc with _ ∈ firstn _ (merge_sort _ ?l) => assert (Hm : (id, a) ∈ l) end.
    { rewrite <- (merge_sort_Permutation created_order), <- (take_drop limit). apply elem_of_app. by left. }
    apply elem_of_filter_bool in Hm as [Hm Hp]. apply elem_of_map_to_list in Hm.
    apply andb_true_iff in Hp as [[H1 H2]%andb_true_iff H3%negb_true_iff%bool_decide_eq_false]. done. }
  assert (Hin : forall id, id ∈ map fst swept -> exists a, (id, a) ∈ swept).
  { intros id ([id' a] & E & Hx%list_elem_of_In)%list_elem_of_In%in_map_iff. simpl in E. subst id'. by exists a. }
  assert (Hkept : forall id, is_Some (sp_attempts sp' !! id) -> ~ id ∈ map fst swept).
  { intros id [a Ha]. rewrite Hsp in Ha. simpl in Ha. apply map_lookup_filter_Some in Ha as [_ E]. by apply bool_decide_eq_false in E. }
  split_and!.
  - intros id a Ha. destruct (decide (id ∈ map fst swept)) as [Hd|Hd].
    + right. destruct (Hin id Hd) as (a' & Hx). destruct (Hswept id a' Hx) as (Ha' & Hp & Hg & Hc & Ht).
      assert (a' = a) as -> by congruence. unfold spoolSweepPredicate, spoolEmptyLeftover in Hp. unfold sweep_takes in Ht. simpl in Ht.
      apply andb_true_iff in Hp as [Hclass%bool_decide_eq_true Hp]. apply andb_true_iff in Ht as [Hlive%negb_true_iff Ht].
      split_and!; try done.
      * destruct (sp_attempts sp' !! id) eqn:E; [|done]. exfalso. apply (Hkept id); [by rewrite E|done].
      * destruct (sa_l1_refused_ns a); [by left|]. right. rewrite (bool_decide_eq_false_2 (is_Some None)) in Hp, Ht by (by intros [? ?]).
        simpl in Hp, Ht. rewrite !andb_true_iff, !bool_decide_eq_true, !negb_true_iff in Hp. apply negb_true_iff in Ht. tauto.
    + left. rewrite Hsp. simpl. apply map_lookup_filter_Some. split; [done|]. by apply bool_decide_eq_false.
  - intros r Hr Hk%Hkept. rewrite Hsp. simpl. apply elem_of_filter_bool. split; [done|]. apply negb_true_iff.
    destruct (sp_attempts sp !! sr_attempt_id r); [|done]. by apply bool_decide_eq_false.
  - intros k v Hv Hk%Hkept. rewrite Hsp. simpl. apply map_lookup_filter_Some. split; [done|].
    destruct (sp_attempts sp !! k.1); [|done]. by apply bool_decide_eq_false.
  - assert (Hl : (length (map fst swept) <= limit)%nat).
    { rewrite length_map. etrans; [apply filter_length_le|]. unfold sweep_candidates. apply firstn_le_length. }
    rewrite Hsp. simpl. assert (H := size_filter_out (sp_attempts sp) (map fst swept)). lia.
Qed.

(** ** Witnesses *)
Definition empty_spool : Spool := mkSpool ∅ [] 1 ∅ ∅ ∅ ∅ ∅.
Definition evidence_ls : logSpool := mklogSpool "g1" 100 40.
Definition evidence_claim : Claim :=
  mkClaim "j1" "n1" example_process_stored None None "client" 0 100 100 false (mkAttemptLease "a1" "1" 900 800 "" "" "" "") "token" None None None.
Definition exit_zero : ProcessResult := mkProcessResult None "" None None "" (Some 0) "" "" false false false.
Definition completed_spool : Spool :=
  (run (storeDurableCompletion "a1" (durableCompletionOf (interrupted_request "" "" (completionRequest evidence_claim exit_zero "" "attempt"))) 500)
    (run (ensureAttempt evidence_ls evidence_claim) empty_spool).1).1.
Definition drained_spool : Spool :=
  (run (acknowledge evidence_ls "a1" {[ LogStdout := 0 ]})
    (run (append evidence_ls (mkLogEvent "a1" LogStdout 0 200 "hello" None)) completed_spool).1).1.

