(* ===== verification/Redaction.v ===== *)
(** * Redaction of output

    The redacting sink of [agent/redaction.go], between a runtime's output and the
    spool: bytes that may still turn out to begin a secret are withheld, the rest
    is cut where no secret straddles, masked and passed on under the sink's own
    numbering.  [secrets] is in the order of a Go map's iteration, which is any. *)
From S2P Require Import Prelude Order States Contract GoStrings.
#[local] Open Scope string_scope.
#[local] Open Scope list_scope.
#[local] Open Scope Z_scope.

Abbreviation text := (list Ascii.ascii).

(** ** The functions of package [bytes] *)
Fixpoint starts_with (s prefix : text) {struct prefix} : bool :=
  match prefix, s with
  | [], _ => true
  | p :: prefix, c :: s => bool_decide (c = p) && starts_with s prefix
  | _ :: _, [] => false
  end.

(** [bytes.Index]. *)
Fixpoint Index (s sep : text) : option nat :=
  if starts_with s sep then Some O
  else match s with
       | [] => None
       | _ :: s => S <$> Index s sep
       end.

(** [bytes.ReplaceAll] of a nonempty [old]; [skip] counts the bytes of the
    occurrence being passed over. *)
Fixpoint replace_from (skip : nat) (s old new : text) : text :=
  match s with
  | [] => []
  | c :: rest =>
      match skip with
      | S skip => replace_from skip rest old new
      | O => if starts_with s old then new ++ replace_from (length old - 1) rest old new
             else c :: replace_from O rest old new
      end
  end.
Definition ReplaceAll (s old new : text) : text := replace_from O s old new.

Definition redactedValue : text := bytes "[REDACTED]".

Record redactionStream := mkredactionStream {
  rs_buffer : text;
  rs_next : Z;
  rs_template : option LogEvent
}.
#[export] Instance redactionStream_eta : Eta redactionStream := fun r =>
  mkredactionStream (rs_buffer r) (rs_next r) (rs_template r).

(** The values worth redacting: nonempty, each once. *)
Fixpoint distinct_values (seen : list string) (values : list string) : list string :=
  match values with
  | [] => []
  | v :: values => if bool_decide (v = "") || bool_decide (v ∈ seen) then distinct_values seen values
                   else v :: distinct_values (v :: seen) values
  end.

(** [newRedactingOutputSink]: no sink when there is nothing to redact. *)
Definition newRedactingOutputSink (sensitive alsoRedact : list string) : option (list text) :=
  match distinct_values [] (sensitive ++ alsoRedact) with
  | [] => None
  | values => Some (map bytes values)
  end.

Section Redaction.
Context (secrets : list text).

Definition replaceSecrets (payload : text) : text :=
  fold_left (fun redacted secret => ReplaceAll redacted secret redactedValue) secrets payload.

Definition pending_at (buffer : text) (cut : nat) (secret : text) : nat :=
  let start := (length buffer + 1 - length secret)%nat in
  default cut (List.find (fun index => starts_with secret (skipn index buffer))
                 (seq start (Nat.min (length buffer) cut - start))).

Definition pendingSecretPrefix (buffer : text) : nat :=
  fold_left (fun cut secret => pending_at buffer cut secret) secrets (length buffer).

(** The earliest occurrence of [secret] across [cut], if earlier than [adjusted]. *)
Fixpoint straddle (fuel : nat) (buffer : text) (cut : nat) (secret : text) (search adjusted : nat) : nat :=
  match fuel with
  | O => adjusted
  | S fuel =>
      if (search <? length buffer)%nat then
        match Index (skipn search buffer) secret with
        | None => adjusted
        | Some relative =>
            let index := (search + relative)%nat in
            let adjusted := if (index <? cut)%nat && (cut <? index + length secret)%nat && (index <? adjusted)%nat
                            then index else adjusted in
            if (cut <=? index)%nat then adjusted else straddle fuel buffer cut secret (index + 1) adjusted
        end
      else adjusted
  end.

Definition adjust (buffer : text) (cut : nat) : nat :=
  fold_left (fun adjusted secret => straddle (S (length buffer)) buffer cut secret (cut + 1 - length secret) adjusted) secrets cut.

Fixpoint settle_cut (fuel : nat) (buffer : text) (cut : nat) : nat :=
  match fuel with
  | O => cut
  | S fuel => let adjusted := adjust buffer cut in
              if (adjusted =? cut)%nat then cut else settle_cut fuel buffer adjusted
  end.

Definition safe_cut (buffer : text) : nat :=
  let cut := pendingSecretPrefix buffer in settle_cut (S cut) buffer cut.

(** [safePrefix]: the payload to emit and what stays withheld. *)
Definition safePrefix (buffer : text) : text * text :=
  match safe_cut buffer with
  | O => ([], buffer)
  | cut => (replaceSecrets (firstn cut buffer), skipn cut buffer)
  end.

Abbreviation streams := (gmap string redactionStream).

Definition stream_at (st : streams) (s : string) : redactionStream := default (mkredactionStream [] 0 None) (st !! s).

(** [WriteOutput] up to the call of the sink behind it: the stream afterwards
    and the event passed on, if any. *)
Definition WriteOutput (event : LogEvent) (st : streams) : streams * option LogEvent :=
  let stream := stream_at st (le_Stream event) in
  let '(payload, buffer) := safePrefix (rs_buffer stream ++ bytes (le_Bytes event)) in
  match payload with
  | [] => (<[le_Stream event := mkredactionStream buffer (rs_next stream) (Some event)]> st, None)
  | _ :: _ =>
      (<[le_Stream event := mkredactionStream buffer (rs_next stream + 1) (Some event)]> st,
       Some (event <| le_Bytes := of_bytes payload |> <| le_Sequence := rs_next stream |>))
  end.

(** One stream of [Flush]. *)
Definition flushed_event (stream : redactionStream) : option LogEvent :=
  match rs_buffer stream, rs_template stream with
  | _ :: _, Some template =>
      Some (template <| le_Bytes := of_bytes (replaceSecrets (rs_buffer stream)) |> <| le_Sequence := rs_next stream |>)
  | _, _ => None
  end.

(** [Flush] over the streams in the order of the map's iteration; it stops at the
    first event the sink behind it refuses. *)
Fixpoint Flush (accepts : LogEvent -> bool) (order : list string) (st : streams) : streams * list LogEvent * bool :=
  match order with
  | [] => (st, [], true)
  | s :: order =>
      let stream := stream_at st s in
      match flushed_event stream with
      | None => Flush accepts order st
      | Some event =>
          if accepts event then
            let '(st, events, ok) := Flush accepts order
              (<[s := stream <| rs_buffer := [] |> <| rs_next := rs_next stream + 1 |>]> st) in
            (st, event :: events, ok)
          else (st, [], false)
      end
  end.

(** A run of output through the sink. *)
Fixpoint write_all (events : list LogEvent) (st : streams) : streams * list LogEvent :=
  match events with
  | [] => (st, [])
  | event :: events =>
      let '(st, emitted) := WriteOutput event st in
      let '(st, rest) := write_all events st in
      (st, match emitted with Some e => e :: rest | None => rest end)
  end.
End Redaction.
