(* ===== verification/RedactionCorrect.v ===== *)
(** * What redaction promises

    Occurrences of a secret never meet the marker, so masking works on pieces of
    the raw text; no secret straddles a cut, so the pieces of one stream, put
    together again, show none. *)
From S2P Require Import Prelude Order States Contract GoStrings Redaction.
#[local] Open Scope string_scope.
#[local] Open Scope list_scope.

(** ** Occurrences *)
Lemma starts_with_spec s p : starts_with s p = true <-> exists rest, s = p ++ rest.
Proof.
  revert s. induction p as [|x p IH]; intros s; simpl; [split; [intros _; by exists s|done]|].
  destruct s as [|c s]; [split; [done|by intros (? & ?)]|].
  rewrite andb_true_iff, bool_decide_eq_true, IH. split.
  - intros [-> (rest & ->)]. by exists rest.
  - intros (rest & [= -> ->]). split; [done|by exists rest].
Qed.

Definition occurs (s u : text) : Prop := exists a b, u = a ++ s ++ b.

Lemma occurs_app_l s u v : occurs s u -> occurs s (u ++ v).
Proof. intros (a & b & ->). exists a, (b ++ v). by rewrite !app_assoc. Qed.

Lemma occurs_app_r s u v : occurs s v -> occurs s (u ++ v).
Proof. intros (a & b & ->). exists (u ++ a), b. by rewrite !app_assoc. Qed.

(** [bytes.ReplaceAll] goes from the leftmost occurrence to the next. *)
Lemma replace_skip skip u v old new : length u = skip -> replace_from skip (u ++ v) old new = replace_from 0 v old new.
Proof. revert skip. induction u as [|c u IH]; intros skip <-; simpl; [done|]. by apply IH. Qed.

Lemma replace_step u old new :
  old <> [] ->
  (ReplaceAll u old new = u /\ ~ occurs old u)
  \/ exists a b, u = a ++ old ++ b /\ ReplaceAll u old new = a ++ new ++ ReplaceAll b old new /\ ~ occurs old a.
Proof.
  intros Hne. unfold ReplaceAll. induction u as [|c u IH]; simpl.
  - left. split; [done|]. intros ([|] & b & E); [destruct old; done|done].
  - destruct (starts_with (c :: u) old) eqn:Es.
    + apply starts_with_spec in Es as [b Eb]. right. exists [], b. split_and!; [done| |].
      * simpl. f_equal. destruct old as [|o old]; [done|]. injection Eb as -> ->. simpl. apply replace_skip. lia.
      * intros (x & y & E). symmetry in E. apply app_eq_nil in E as [_ [E _]%app_eq_nil]. done.
    + assert (Hhead : forall l r, l ++ old ++ r = c :: u -> exists l', l = c :: l').
      { intros [|x l] r E; [|simpl in E; injection E as -> _; by exists l]. simpl in E.
        assert (starts_with (c :: u) old = true) by (apply starts_with_spec; by exists r). congruence. }
      destruct IH as [[E Hn]|(a & b & -> & E & Hn)].
      * left. split; [by rewrite E|]. intros (l & r & El). destruct (Hhead l r (eq_sym El)) as [l' ->].
        injection El as ->. apply Hn. by exists l', r.
      * right. exists (c :: a), b. split_and!; [done|by rewrite E|]. intros (l & r & El).
        destruct l as [|x l].
        -- destruct (Hhead [] (r ++ old ++ b)) as [l' El']; [|done]. simpl. simpl in El. rewrite app_assoc, <- El. done.
        -- injection El as -> ->. apply Hn. by exists l, r.
Qed.

Lemma replace_ind (P : text -> text -> Prop) old new :
  old <> [] -> (forall u, ~ occurs old u -> P u u) ->
  (forall a b o, P b o -> ~ occurs old a -> P (a ++ old ++ b) (a ++ new ++ o)) -> forall u, P u (ReplaceAll u old new).
Proof.
  intros Hne Hnone Hone u. remember (length u) as n eqn:En. revert u En.
  induction n as [n IH] using (well_founded_induction lt_wf). intros u ->.
  destruct (replace_step u old new Hne) as [[-> Hn]|(a & b & E & -> & Hn)]; [by apply Hnone|]. rewrite E at 1.
  apply Hone; [|done]. apply (IH (length b)); [|done]. rewrite E, !length_app. destruct old; [done|simpl; lia].
Qed.

(** ** The marker keeps its distance *)
Fixpoint agree (a b : text) : bool :=
  match a, b with
  | x :: a, y :: b => bool_decide (x = y) && agree a b
  | _, _ => true
  end.

Lemma agree_app x y z w : x ++ y = z ++ w -> agree x z = true.
Proof.
  revert z. induction x as [|a x IH]; intros [|b z] E; try done. simpl in *. injection E as -> E.
  rewrite bool_decide_eq_true_2 by done. by apply IH.
Qed.

(** No alignment of [s] and [m] agrees where they overlap. *)
Definition separate (s m : text) : bool :=
  forallb (fun d => negb (agree (skipn d s) m)) (seq 0 (length s))
  && forallb (fun d => negb (agree s (skipn d m))) (seq 0 (length m)).

Lemma separate_spec s m : separate s m = true ->
  (forall x y z w, s = x ++ y -> y <> [] -> y ++ z = m ++ w -> False)
  /\ (forall x y z w, m = x ++ y -> y <> [] -> s ++ z = y ++ w -> False).
Proof.
  intros [H1 H2]%andb_true_iff. rewrite forallb_forall in H1, H2. split; intros x y z w -> Hy E.
  - assert (Ha : agree y m = true) by (by eapply agree_app). specialize (H1 (length x)). rewrite drop_app_length, Ha in H1.
    assert (In (length x) (seq 0 (length (x ++ y)))) as Hin; [|by specialize (H1 Hin)].
    apply in_seq. rewrite length_app. destruct y; [done|simpl; lia].
  - assert (Ha : agree s y = true) by (by eapply agree_app). specialize (H2 (length x)). rewrite drop_app_length, Ha in H2.
    assert (In (length x) (seq 0 (length (x ++ y)))) as Hin; [|by specialize (H2 Hin)].
    apply in_seq. rewrite length_app. destruct y; [done|simpl; lia].
Qed.

Section Separate.
Context (s m : text) (Hsep : separate s m = true).

(** An occurrence beside a marker lies wholly before or wholly after it. *)
Lemma sep_position p o a b :
  p ++ m ++ o = a ++ s ++ b ->
  (exists p2, p = a ++ s ++ p2 /\ b = p2 ++ m ++ o) \/ (exists a2, a = p ++ m ++ a2 /\ o = a2 ++ s ++ b).
Proof.
  destruct (separate_spec s m Hsep) as [S1 S2]. intros [(k & -> & E)|(k & -> & E)]%app_eq_inv.
  - (* the occurrence starts before the marker *)
    apply app_eq_inv in E as [(k' & -> & E)|(k' & -> & E)].
    + destruct k' as [|c k']; [|exfalso; by eapply (S1 k (c :: k')); [done|done|]].
      left. exists []. rewrite app_nil_r. by rewrite app_nil_r.
    + left. exists k'. done.
  - apply app_eq_inv in E as [(k' & E1 & E2)|(k' & -> & E)].
    + destruct k' as [|c k']; [|exfalso; by eapply (S2 k (c :: k')); [done|done|]].
      rewrite app_nil_r in E1. subst k. right. exists []. rewrite app_nil_r. done.
    + right. exists k'. done.
Qed.

Lemma sep_occurs p o : occurs s (p ++ m ++ o) -> occurs s p \/ occurs s o.
Proof. intros (a & b & [(p2 & -> & _)|(a2 & _ & ->)]%sep_position); [left; by exists a, p2|right; by exists a2, b]. Qed.
End Separate.

(** ** Masking

    [masks u o]: [o] is [u] with some of its pieces replaced by the marker. *)
Inductive masks : text -> text -> Prop :=
| MaskNone p : masks p p
| MaskOne p h u o : masks u o -> masks (p ++ h ++ u) (p ++ redactedValue ++ o).

Lemma masks_app u1 o1 u2 o2 : masks u1 o1 -> masks u2 o2 -> masks (u1 ++ u2) (o1 ++ o2).
Proof.
  intros H1 H2. induction H1 as [p|p h u o _ IH].
  - destruct H2 as [p'|p' h u o H2]; [constructor|]. rewrite !(app_assoc p). by constructor.
  - rewrite <- !app_assoc. by constructor.
Qed.

Section Masks.
Context (s : text) (Hsep : separate s redactedValue = true).

Lemma masks_split u o a b :
  masks u o -> o = a ++ s ++ b -> exists u1 u2, u = u1 ++ s ++ u2 /\ masks u1 a /\ masks u2 b.
Proof.
  intros H. revert a. induction H as [p|p h u o H IH]; intros a.
  - intros ->. exists a, b. split_and!; [done|constructor..].
  - intros [(p2 & -> & ->)|(a2 & -> & E)]%(sep_position s redactedValue Hsep).
    + exists a, (p2 ++ h ++ u). split_and!; [by rewrite !app_assoc|constructor|by constructor].
    + destruct (IH a2 E) as (u1 & u2 & -> & H1 & H2). exists (p ++ h ++ u1), u2.
      split_and!; [by rewrite !app_assoc|by constructor|done].
Qed.

Lemma replace_masks u o : s <> [] -> masks u o -> masks u (ReplaceAll o s redactedValue).
Proof.
  intros Hne. revert u. apply (replace_ind (fun o o' => forall u, masks u o -> masks u o') s redactedValue Hne); [done|].
  intros a b o' IH _ u (u1 & u2 & -> & H1 & H2)%(masks_split u _ a b); [|done].
  apply masks_app; [done|]. apply (MaskOne [] s). by apply IH.
Qed.

(** What shows at either end of a masked text is raw. *)
Lemma edge_suffix u o o' x y : masks u o -> s = x ++ y -> x <> [] -> o = o' ++ x -> exists u', u = u' ++ x.
Proof.
  intros H Es Hx. destruct (separate_spec _ _ Hsep) as [S1 S2]. revert o'. induction H as [p|p h u o H IH]; intros o' E; [by exists o'|].
  rewrite app_assoc in E. apply app_eq_inv in E as [(k & E1 & E2)|(k & -> & ->)].
  - destruct k as [|c k].
    + simpl in E2. subst x. destruct (IH []) as [u' ->]; [done|]. exists (p ++ h ++ u'). by rewrite !app_assoc.
    + exfalso. rewrite E2 in Es. apply app_eq_inv in E1 as [(k' & -> & E1)|(k' & -> & E1)].
      * (* the marker lies inside the secret *)
        apply (S1 k' (redactedValue ++ o ++ y) [] (o ++ y)); [|done|by rewrite app_nil_r].
        rewrite Es, E1, !app_assoc. done.
      * apply (S2 k' (c :: k) [] (o ++ y)); [done|done|]. by rewrite app_nil_r, Es, <- app_assoc.
  - destruct (IH k) as [u' ->]; [done|]. exists (p ++ h ++ u'). by rewrite !app_assoc.
Qed.

Lemma edge_prefix u o o' x y : masks u o -> s = x ++ y -> y <> [] -> o = y ++ o' -> exists u', u = y ++ u'.
Proof.
  intros H Es Hy E. destruct (separate_spec _ _ Hsep) as [S1 S2]. destruct H as [p|p h u o H]; [by exists o'|].
  apply app_eq_inv in E as [(k & -> & E)|(k & -> & E)]; [exists (k ++ h ++ u); by rewrite !app_assoc|].
  destruct k as [|c k]; [exists (h ++ u); by rewrite app_nil_r|]. exfalso.
  apply (S1 (x ++ p) (c :: k) o' o); [by rewrite Es, app_assoc|done|done].
Qed.
End Masks.

(** ** Masking every secret *)
Definition maskable (s : text) : Prop := s <> [] /\ separate s redactedValue = true.

Lemma replace_hides s u : maskable s -> ~ occurs s (ReplaceAll u s redactedValue).
Proof.
  intros [Hne Hsep]. apply (replace_ind (fun _ o => ~ occurs s o) s redactedValue Hne); [done|].
  intros a b o IH Ha Ho. destruct (sep_occurs _ _ Hsep _ _ Ho); auto.
Qed.

Lemma replace_keeps_hidden s s' u : maskable s' -> maskable s -> ~ occurs s u -> ~ occurs s (ReplaceAll u s' redactedValue).
Proof.
  intros [Hne _] [_ Hsep]. apply (replace_ind (fun u o => ~ occurs s u -> ~ occurs s o) s' redactedValue Hne); [done|].
  intros a b o IH _ Hu Ho. destruct (sep_occurs _ _ Hsep _ _ Ho) as [H|H].
  - by apply Hu, occurs_app_l.
  - revert H. apply IH. intros H. by apply Hu, occurs_app_r, occurs_app_r.
Qed.

Lemma secrets_mask secrets u o : Forall maskable secrets -> masks u o -> masks u (replaceSecrets secrets o).
Proof.
  unfold replaceSecrets. intros H. revert o. induction H as [|s l [Hne Hs] _ IH]; intros o Ho; simpl; [done|].
  apply IH. by apply replace_masks.
Qed.

Lemma replaceSecrets_nonempty secrets u : Forall maskable secrets -> u <> [] -> replaceSecrets secrets u <> [].
Proof. intros Hm Hu. destruct (secrets_mask secrets u u Hm (MaskNone u)) as [p|p h w o]; [done|]. by destruct p. Qed.

Lemma secrets_keep_hidden secrets s o : Forall maskable secrets -> maskable s -> ~ occurs s o -> ~ occurs s (replaceSecrets secrets o).
Proof.
  unfold replaceSecrets. intros H Hs. revert o. induction H as [|x l Hx _ IH]; intros o Ho; simpl; [done|].
  apply IH. by apply replace_keeps_hidden.
Qed.

Lemma replaceSecrets_hides secrets s u : Forall maskable secrets -> s ∈ secrets -> ~ occurs s (replaceSecrets secrets u).
Proof.
  intros H. revert u. induction H as [|x l Hx Hl IH]; intros u; [by intros ?%elem_of_nil|].
  intros [->|Hin]%elem_of_cons; [|by apply IH]. apply (secrets_keep_hidden l); [done|done|]. by apply replace_hides.
Qed.

Lemma replaceSecrets_plain secrets u :
  Forall maskable secrets -> (forall s, s ∈ secrets -> ~ occurs s u) -> replaceSecrets secrets u = u.
Proof.
  unfold replaceSecrets. induction 1 as [|s l [Hne Hs] _ IH]; intros Hu; simpl; [done|].
  destruct (replace_step u s redactedValue Hne) as [[-> _]|(a & b & E & _)].
  - apply IH. intros x Hx. apply Hu. by right.
  - exfalso. apply (Hu s); [by left|]. by exists a, b.
Qed.

Section Secrets.
Context (secrets : list text) (Hsecrets : Forall maskable secrets).

(** ** Chunks put together *)

(** No occurrence of a secret in [u ++ v] starts in [u] and ends in [v]. *)
Definition clear_cut (u v : text) : Prop :=
  forall s a b x y, s ∈ secrets -> s = x ++ y -> x <> [] -> y <> [] -> u = a ++ x -> v = y ++ b -> False.

Fixpoint clear_cuts (chunks : list text) : Prop :=
  match chunks with
  | [] => True
  | u :: chunks => clear_cut u (concat chunks) /\ clear_cuts chunks
  end.

Lemma concat_masks chunks : masks (concat chunks) (concat (map (replaceSecrets secrets) chunks)).
Proof. induction chunks as [|u chunks IH]; simpl; [constructor|]. apply masks_app; [|done]. apply secrets_mask; [done|constructor]. Qed.

Lemma chunks_hide s chunks :
  s ∈ secrets -> clear_cuts chunks -> ~ occurs s (concat (map (replaceSecrets secrets) chunks)).
Proof.
  intros Hs. assert (H := Hsecrets). rewrite Forall_forall in H. destruct (H s Hs) as [Hne Hsep]. clear H.
  induction chunks as [|u chunks IH]; simpl; [intros _ (a & b & E); symmetry in E; apply app_eq_nil in E as [_ [E _]%app_eq_nil]; done|].
  intros [Hc Hcs] (a & b & E). set (o := replaceSecrets secrets u) in *. set (os := concat _) in *.
  apply app_eq_inv in E as [(k & E1 & E2)|(k & E1 & E2)].
  - (* the occurrence starts in the first chunk *)
    apply app_eq_inv in E2 as [(y & -> & E2)|(y & -> & E2)].
    + destruct y as [|c y].
      * apply (replaceSecrets_hides secrets (k ++ []) u Hsecrets Hs). rewrite app_nil_r. exists a, []. by rewrite app_nil_r.
      * destruct k as [|d k]; [apply (IH Hcs); exists [], b; done|].
        destruct (edge_suffix _ Hsep u o a (d :: k) (c :: y) (secrets_mask secrets u u Hsecrets (MaskNone u)) eq_refl) as [u' Eu]; [done|done|].
        destruct (edge_prefix _ Hsep _ os b (d :: k) (c :: y) (concat_masks chunks) eq_refl) as [v' Ev]; [done|done|].
        by eapply (Hc _ u' v' (d :: k) (c :: y) Hs).
    + apply (replaceSecrets_hides secrets s u Hsecrets Hs). exists a, y. done.
  - apply (IH Hcs). by exists k, b.
Qed.

Lemma chunks_plain chunks :
  (forall s, s ∈ secrets -> ~ occurs s (concat chunks)) -> concat (map (replaceSecrets secrets) chunks) = concat chunks.
Proof.
  induction chunks as [|u chunks IH]; simpl; [done|]. intros H. rewrite IH, replaceSecrets_plain; [done|done|..].
  - intros s Hs Ho. apply (H s Hs). by apply occurs_app_l.
  - intros s Hs Ho. apply (H s Hs). by apply occurs_app_r.
Qed.
End Secrets.

(** ** Where a buffer is cut *)
Lemma find_seq f start n :
  match List.find f (seq start n) with
  | Some j => f j = true /\ (start <= j < start + n)%nat /\ forall i, (start <= i < j)%nat -> f i = false
  | None => forall i, (start <= i < start + n)%nat -> f i = false
  end.
Proof.
  revert start. induction n as [|n IH]; intros start; simpl; [lia|]. destruct (f start) eqn:E; [split_and!; [done|lia|lia..]|].
  specialize (IH (S start)). destruct (List.find f (seq (S start) n)) as [j|].
  - destruct IH as (H1 & H2 & H3). split_and!; [done|lia|lia|]. intros i Hi. destruct (decide (i = start)) as [->|]; [done|]. apply H3. lia.
  - intros i Hi. destruct (decide (i = start)) as [->|]; [done|]. apply IH. lia.
Qed.

Lemma Index_spec u sep :
  match Index u sep with
  | Some r => starts_with (skipn r u) sep = true /\ forall j, (j < r)%nat -> starts_with (skipn j u) sep = false
  | None => forall j, starts_with (skipn j u) sep = false
  end.
Proof.
  induction u as [|c u IH]; simpl; destruct (starts_with _ sep) eqn:E.
  - split; [done|lia].
  - intros j. by rewrite skipn_nil.
  - split; [done|lia].
  - destruct (Index u sep) as [r|]; simpl.
    + destruct IH as [H1 H2]. split; [done|]. intros [|j] Hj; [done|]. simpl. apply H2. lia.
    + intros [|j]; [done|]. apply IH.
Qed.

(** A prefix of a secret at the end of the buffer is withheld. *)
Lemma pending_at_spec buffer cut secret :
  (pending_at buffer cut secret <= cut)%nat
  /\ forall i, (i < length buffer)%nat -> (length buffer < i + length secret)%nat ->
       starts_with secret (skipn i buffer) = true -> (pending_at buffer cut secret <= i)%nat.
Proof.
  unfold pending_at. set (start := (length buffer + 1 - length secret)%nat).
  assert (H := find_seq (fun index => starts_with secret (skipn index buffer)) start (Nat.min (length buffer) cut - start)).
  destruct (List.find _ _) as [j|]; simpl.
  - destruct H as (H1 & H2 & H3). split; [lia|]. intros i Hi Hl Hs. destruct (Nat.le_gt_cases j i); [done|].
    rewrite H3 in Hs; [done|]. lia.
  - split; [done|]. intros i Hi Hl Hs. destruct (Nat.le_gt_cases cut i); [done|]. rewrite H in Hs; [done|]. lia.
Qed.

Section Cut.
Context (secrets : list text) (buffer : text).

Lemma pendingSecretPrefix_spec :
  (pendingSecretPrefix secrets buffer <= length buffer)%nat
  /\ forall secret i, secret ∈ secrets -> (i < length buffer)%nat -> (length buffer < i + length secret)%nat ->
       starts_with secret (skipn i buffer) = true -> (pendingSecretPrefix secrets buffer <= i)%nat.
Proof.
  unfold pendingSecretPrefix.
  enough (H : forall l cut, (fold_left (fun cut secret => pending_at buffer cut secret) l cut <= cut)%nat
    /\ forall secret i, secret ∈ l -> (i < length buffer)%nat -> (length buffer < i + length secret)%nat ->
         starts_with secret (skipn i buffer) = true -> (fold_left (fun cut secret => pending_at buffer cut secret) l cut <= i)%nat) by apply H.
  induction l as [|x l IH]; intros cut; simpl; [split; [done|by intros ? ? ?%elem_of_nil]|].
  destruct (pending_at_spec buffer cut x) as [P1 P2]. destruct (IH (pending_at buffer cut x)) as [I1 I2]. split; [lia|].
  intros secret i [->|Hin]%elem_of_cons Hi Hl Hs; [|by apply (I2 secret)]. specialize (P2 i Hi Hl Hs). lia.
Qed.

(** A whole occurrence across the cut pulls it back. *)
Lemma straddle_spec fuel cut secret search adjusted :
  (length buffer - search < fuel)%nat ->
  (straddle fuel buffer cut secret search adjusted <= adjusted)%nat
  /\ forall i, (search <= i < cut)%nat -> (cut < i + length secret)%nat -> (i < length buffer)%nat ->
       starts_with (skipn i buffer) secret = true -> (straddle fuel buffer cut secret search adjusted <= i)%nat.
Proof.
  revert search adjusted. induction fuel as [|fuel IH]; intros search adjusted Hf; [lia|]. cbn [straddle].
  destruct (Nat.ltb_spec search (length buffer)) as [Hs|Hs]; [|split; [done|lia]].
  assert (HI := Index_spec (skipn search buffer) secret). destruct (Index (skipn search buffer) secret) as [r|].
  2: { split; [done|]. intros i Hi _ _ Ho. specialize (HI (i - search)%nat). rewrite skipn_skipn in HI.
       replace (i - search + search)%nat with i in HI by lia. congruence. }
  destruct HI as [_ Hfirst]. set (index := (search + r)%nat).
  set (adj := if _ && _ && _ then index else adjusted).
  assert (Hadj : (adj <= adjusted)%nat).
  { subst adj. destruct (_ && _) eqn:E; [|done]. apply andb_true_iff in E as [_ E%Nat.ltb_lt]. lia. }
  assert (Hat : forall i, (search <= i < cut)%nat -> (cut < i + length secret)%nat -> starts_with (skipn i buffer) secret = true ->
    (index <= i)%nat /\ (i = index -> (adj <= i)%nat)).
  { intros i Hi Hc Ho. split.
    - destruct (Nat.le_gt_cases index i); [done|]. specialize (Hfirst (i - search)%nat). rewrite skipn_skipn in Hfirst.
      replace (i - search + search)%nat with i in Hfirst by lia. rewrite Hfirst in Ho; [done|lia].
    - intros ->. subst adj. rewrite (proj2 (Nat.ltb_lt index cut)), (proj2 (Nat.ltb_lt cut _)) by lia. simpl.
      destruct (Nat.ltb_spec index adjusted); lia. }
  destruct (Nat.leb_spec cut index).
  - split; [done|]. intros i Hi Hc _ Ho. destruct (Hat i Hi Hc Ho). lia.
  - destruct (IH (index + 1)%nat adj) as [I1 I2]; [lia|]. split; [lia|]. intros i Hi Hc Hl Ho. destruct (Hat i Hi Hc Ho) as [H1 H2].
    destruct (decide (i = index)) as [E|]; [specialize (H2 E); lia|]. apply I2; [lia|done|done|done].
Qed.

Lemma adjust_spec cut :
  (adjust secrets buffer cut <= cut)%nat
  /\ forall secret i, secret ∈ secrets -> (i < cut)%nat -> (cut < i + length secret)%nat -> (i < length buffer)%nat ->
       starts_with (skipn i buffer) secret = true -> (adjust secrets buffer cut <= i)%nat.
Proof.
  unfold adjust. set (step := fun adjusted secret => straddle _ _ _ _ _ _).
  enough (H : forall l adjusted, (fold_left step l adjusted <= adjusted)%nat
    /\ forall secret i, secret ∈ l -> (i < cut)%nat -> (cut < i + length secret)%nat -> (i < length buffer)%nat ->
         starts_with (skipn i buffer) secret = true -> (fold_left step l adjusted <= i)%nat) by apply H.
  induction l as [|x l IH]; intros adjusted; simpl; [split; [done|by intros ? ? ?%elem_of_nil]|].
  destruct (straddle_spec (S (length buffer)) cut x (cut + 1 - length x) adjusted) as [P1 P2]; [lia|].
  destruct (IH (step adjusted x)) as [I1 I2]. split; [unfold step in *; lia|].
  intros secret i [->|Hin]%elem_of_cons Hi Hc Hl Ho; [|by apply (I2 secret)].
  specialize (P2 i ltac:(lia) Hc Hl Ho). unfold step in *. lia.
Qed.

(** The loop settles within as many rounds as the cut is long. *)
Lemma settle_cut_spec fuel cut :
  (cut < fuel)%nat -> (settle_cut secrets fuel buffer cut <= cut)%nat
  /\ adjust secrets buffer (settle_cut secrets fuel buffer cut) = settle_cut secrets fuel buffer cut.
Proof.
  revert cut. induction fuel as [|fuel IH]; intros cut Hf; [lia|]. cbn [settle_cut]. destruct (adjust_spec cut) as [Ha _].
  destruct (Nat.eqb_spec (adjust secrets buffer cut) cut) as [E|N]; [done|]. destruct (IH (adjust secrets buffer cut)) as [H1 H2]; [lia|].
  split; [lia|done].
Qed.

Lemma safe_cut_spec future :
  (safe_cut secrets buffer <= length buffer)%nat
  /\ clear_cut secrets (firstn (safe_cut secrets buffer) buffer) (skipn (safe_cut secrets buffer) buffer ++ future).
Proof.
  destruct pendingSecretPrefix_spec as [Hp1 Hp2]. unfold safe_cut. set (cut0 := pendingSecretPrefix secrets buffer) in *.
  destruct (settle_cut_spec (S cut0) cut0) as [Hs1 Hs2]; [lia|]. set (cut := settle_cut secrets (S cut0) buffer cut0) in *.
  split; [lia|]. intros s a b x y Hs -> Hx Hy Eu Ev. destruct (adjust_spec cut) as [_ Hadj]. rewrite Hs2 in Hadj.
  assert (Hlen : cut = (length a + length x)%nat).
  { rewrite <- length_app, <- Eu, length_firstn. lia. }
  assert (Hx' : (0 < length x)%nat) by (destruct x; [done|simpl; lia]). assert (Hy' : (0 < length y)%nat) by (destruct y; [done|simpl; lia]).
  assert (Hbuf : skipn (length a) buffer = x ++ skipn cut buffer).
  { rewrite <- (firstn_skipn cut buffer) at 1. rewrite Eu, <- app_assoc, drop_app_length. done. }
  apply app_eq_inv in Ev as [(k & Ek & _)|(k & Ek & _)].
  - (* the occurrence lies in the buffer *)
    assert (Ho : starts_with (skipn (length a) buffer) (x ++ y) = true).
    { apply starts_with_spec. exists k. by rewrite Hbuf, Ek, app_assoc. }
    specialize (Hadj (x ++ y) (length a) Hs). rewrite length_app in Hadj. lapply Hadj; [|lia]. intros H1. lapply H1; [|lia].
    intros H2. lapply H2; [|lia]. intros H3. specialize (H3 Ho). lia.
  - (* it may be completed by what comes next *)
    assert (Ho : starts_with (x ++ y) (skipn (length a) buffer) = true).
    { apply starts_with_spec. exists k. by rewrite Hbuf, Ek, app_assoc. }
    destruct k as [|c k].
    + rewrite app_nil_r in Ek. specialize (Hadj (x ++ y) (length a) Hs). rewrite length_app in Hadj. lapply Hadj; [|lia]. intros H1.
      lapply H1; [|lia]. intros H2. lapply H2; [|lia]. intros H3. lapply H3; [lia|]. apply starts_with_spec. exists []. by rewrite Hbuf, <- Ek, app_nil_r.
    + assert (Hl : length buffer = (length a + length x + length (skipn cut buffer))%nat).
      { rewrite <- (firstn_skipn cut buffer) at 1. rewrite Eu, !length_app. done. }
      assert (Hk : (length y = length (skipn cut buffer) + S (length k))%nat) by (rewrite Ek, length_app; done).
      specialize (Hp2 (x ++ y) (length a) Hs). rewrite length_app in Hp2. lapply Hp2; [|lia]. intros H1. lapply H1; [|lia].
      intros H2. specialize (H2 Ho). lia.
Qed.
End Cut.

(** ** A run of output *)
Definition on (s : string) (events : list LogEvent) : list LogEvent := List.filter (fun e => bool_decide (le_Stream e = s)) events.

(** The bytes of a stream. *)
Definition output (s : string) (events : list LogEvent) : text := concat (map (fun e => bytes (le_Bytes e)) (on s events)).

Lemma on_app s a b : on s (a ++ b) = on s a ++ on s b.
Proof. apply List.filter_app. Qed.

Lemma output_app s a b : output s (a ++ b) = output s a ++ output s b.
Proof. unfold output. by rewrite on_app, map_app, concat_app. Qed.

Section Run.
Context (secrets : list text) (Hsecrets : Forall maskable secrets).

(** Whatever comes next, no secret straddles a cut made so far. *)
Definition open_cuts (chunks : list text) (buffer : text) : Prop := forall future, clear_cuts secrets (chunks ++ [buffer ++ future]).

Lemma clear_cuts_split chunks u v :
  clear_cuts secrets (chunks ++ [u ++ v]) -> clear_cut secrets u v -> clear_cuts secrets (chunks ++ [u; v]).
Proof.
  induction chunks as [|w chunks IH]; simpl.
  - intros _ H. rewrite app_nil_r. split_and!; [done| |done]. intros s a b x y _ _ _ Hy _ E. by destruct y.
  - intros [H1 H2] H. split; [|by apply IH]. rewrite concat_app in *. simpl in *. by rewrite !app_nil_r in *.
Qed.

Record streamed (written emitted : list LogEvent) (s : string) (stream : redactionStream) (chunks : list text) : Prop := {
  st_text : output s written = concat chunks ++ rs_buffer stream;
  st_payload : map (fun e => bytes (le_Bytes e)) (on s emitted) = map (replaceSecrets secrets) chunks;
  st_numbered : map le_Sequence (on s emitted) = seqZ 0 (Z.of_nat (length chunks));
  st_next : rs_next stream = Z.of_nat (length chunks);
  st_chunks : Forall (fun u => u <> []) chunks;
  st_cuts : open_cuts chunks (rs_buffer stream);
  st_template : rs_buffer stream <> [] -> exists e, rs_template stream = Some e /\ le_Stream e = s
}.

Lemma seqZ_snoc n : (0 <= n)%Z -> seqZ 0 (n + 1) = seqZ 0 n ++ [n].
Proof. intros H. rewrite seqZ_app by lia. done. Qed.

(** One call of [WriteOutput], on the stream it writes to. *)
Lemma write_streamed event st st' out written emitted chunks :
  let s := le_Stream event in
  streamed written emitted s (stream_at st s) chunks -> WriteOutput secrets event st = (st', out) ->
  exists chunks', streamed (written ++ [event]) (emitted ++ match out with Some e => [e] | None => [] end) s (stream_at st' s) chunks'.
Proof.
  intros s [T1 T2 T3 T4 T5 T6 T7]. unfold WriteOutput. fold s. set (stream := stream_at st s) in *.
  set (buffer := rs_buffer stream ++ bytes (le_Bytes event)).
  assert (Hon : on s [event] = [event]) by (unfold on; simpl; by rewrite bool_decide_eq_true_2).
  assert (Htext : output s (written ++ [event]) = concat chunks ++ buffer).
  { rewrite output_app, T1. unfold output. rewrite Hon. simpl. by rewrite app_nil_r, <- app_assoc. }
  assert (Hopen : forall future, clear_cuts secrets (chunks ++ [buffer ++ future])).
  { intros future. unfold buffer. rewrite <- app_assoc. apply T6. }
  unfold safePrefix. destruct (safe_cut_spec secrets buffer []) as [Hle _]. destruct (safe_cut secrets buffer) as [|cut] eqn:Ec.
  - (* everything is withheld *)
    intros [= <- <-]. exists chunks. unfold stream_at. rewrite lookup_insert_eq. simpl. rewrite app_nil_r. split; simpl; try done.
    intros _. by exists event.
  - set (u := firstn (S cut) buffer). set (v := skipn (S cut) buffer).
    assert (Huv : buffer = u ++ v) by (symmetry; apply firstn_skipn).
    assert (Hu : u <> []).
    { intros E. assert (length u = S cut) by (unfold u; rewrite length_firstn; lia). rewrite E in *. done. }
    assert (Hr := replaceSecrets_nonempty secrets u Hsecrets Hu).
    destruct (replaceSecrets secrets u) as [|c payload] eqn:Ep; [done|].
    set (e' := event <| le_Bytes := of_bytes (c :: payload) |> <| le_Sequence := rs_next stream |>).
    assert (Hone : on s [e'] = [e']) by (unfold on; simpl; by rewrite bool_decide_eq_true_2).
    assert (He : bytes (le_Bytes e') = c :: payload /\ le_Sequence e' = rs_next stream) by (split; [apply bytes_of_bytes|done]).
    destruct He as [He1 He2]. clearbody e'. intros [= <- <-]. exists (chunks ++ [u]). unfold stream_at. rewrite lookup_insert_eq. simpl. split; simpl.
    + rewrite Htext, Huv, concat_app. simpl. by rewrite app_nil_r, <- app_assoc.
    + rewrite on_app, !map_app, T2, Hone. simpl. by rewrite He1, Ep.
    + rewrite on_app, map_app, T3, Hone, length_app. simpl. rewrite Nat2Z.inj_add, seqZ_snoc by lia. by rewrite He2, T4.
    + rewrite T4, length_app. simpl. lia.
    + apply Forall_app. split; [done|]. by constructor.
    + intros future. rewrite <- app_assoc. simpl. apply clear_cuts_split; [rewrite app_assoc, <- Huv; apply Hopen|].
      destruct (safe_cut_spec secrets buffer future) as [_ H]. by rewrite Ec in H.
    + intros _. by exists event.
Qed.

(** A write to another stream. *)
Lemma write_apart event st st' out written emitted s chunks :
  le_Stream event <> s -> streamed written emitted s (stream_at st s) chunks -> WriteOutput secrets event st = (st', out) ->
  streamed (written ++ [event]) (emitted ++ match out with Some e => [e] | None => [] end) s (stream_at st' s) chunks.
Proof.
  intros Hne H Hw. assert (Hst : stream_at st' s = stream_at st s /\ on s (match out with Some e => [e] | None => [] end) = []).
  { unfold WriteOutput in Hw. destruct (safePrefix _ _) as [[|c payload] buffer]; injection Hw as <- <-; unfold stream_at;
      rewrite lookup_insert_ne by done; (split; [done|]); unfold on; simpl; rewrite ?bool_decide_eq_false_2 by done; done. }
  destruct Hst as [-> Hout]. assert (Hon : on s [event] = []) by (unfold on; simpl; by rewrite bool_decide_eq_false_2).
  destruct H as [T1 T2 T3 T4 T5 T6 T7]. split; rewrite ?on_app, ?Hout, ?app_nil_r; try done.
  rewrite output_app. unfold output at 2. rewrite Hon. simpl. by rewrite app_nil_r.
Qed.

Lemma write_all_streamed events st st' out written emitted s chunks :
  streamed written emitted s (stream_at st s) chunks -> write_all secrets events st = (st', out) ->
  exists chunks', streamed (written ++ events) (emitted ++ out) s (stream_at st' s) chunks'.
Proof.
  revert st written emitted chunks out. induction events as [|e events IH]; intros st written emitted chunks out H; simpl.
  - intros [= <- <-]. rewrite !app_nil_r. by exists chunks.
  - destruct (WriteOutput secrets e st) as [st1 o] eqn:Ew. destruct (write_all secrets events st1) as [st2 rest] eqn:Er. intros [= <- <-].
    assert (H1 : exists chunks1, streamed (written ++ [e]) (emitted ++ match o with Some x => [x] | None => [] end) s (stream_at st1 s) chunks1).
    { destruct (decide (le_Stream e = s)) as [<-|N]; [by eapply write_streamed|]. exists chunks. by eapply write_apart. }
    destruct H1 as [chunks1 H1]. destruct (IH _ _ _ _ _ H1 Er) as [chunks2 H2]. exists chunks2.
    rewrite <- !app_assoc in H2. by destruct o.
Qed.

Lemma streamed_empty s : streamed [] [] s (stream_at ∅ s) [].
Proof.
  unfold stream_at. rewrite lookup_empty. split; simpl; try done. intros future. split; [|done].
  intros x a b y z _ _ _ Hz _ E. by destruct z.
Qed.

(** *** Flushing *)
Definition templated (st : gmap string redactionStream) : Prop :=
  forall s, rs_buffer (stream_at st s) <> [] -> exists e, rs_template (stream_at st s) = Some e /\ le_Stream e = s.

Lemma flushed_on st s e : templated st -> flushed_event secrets (stream_at st s) = Some e -> le_Stream e = s.
Proof.
  intros Ht. unfold flushed_event. destruct (rs_buffer (stream_at st s)) eqn:Eb; [done|].
  destruct (Ht s) as (x & -> & Hx); [by rewrite Eb|]. by intros [= <-].
Qed.

Lemma flush_on accepts order st st' out s :
  templated st -> NoDup order -> Flush secrets accepts order st = (st', out, true) ->
  on s out = if bool_decide (s ∈ order) then match flushed_event secrets (stream_at st s) with Some e => [e] | None => [] end else [].
Proof.
  revert st out. induction order as [|t order IH]; intros st out Ht Hnd; simpl.
  - intros [= <- <-]. done.
  - apply NoDup_cons in Hnd as [Hnt Hnd]. set (stream := stream_at st t).
    assert (Hother : forall s' x, s' <> t -> stream_at (<[t:=x]> st) s' = stream_at st s').
    { intros s' x N. unfold stream_at. by rewrite lookup_insert_ne. }
    destruct (flushed_event secrets stream) as [e|] eqn:Ef.
    + destruct (accepts e); [|done]. destruct (Flush secrets accepts order _) as [[st2 rest] ok] eqn:Er. intros [= <- <- ->].
      assert (He := flushed_on st t e Ht Ef). apply IH in Er; [|intros s' Hb|done].
      * unfold on. simpl. fold (on s rest). rewrite Er, He. destruct (decide (t = s)) as [<-|N].
        -- rewrite bool_decide_eq_true_2, bool_decide_eq_false_2, bool_decide_eq_true_2 by (done || by left).
           fold stream. by rewrite Ef.
        -- rewrite (bool_decide_eq_false_2 (t = s)), Hother by done. erewrite bool_decide_ext; [done|].
           rewrite elem_of_cons. intuition congruence.
      * destruct (decide (s' = t)) as [->|N]; [unfold stream_at in Hb; by rewrite lookup_insert_eq in Hb|].
        rewrite Hother in Hb |- * by done. by apply Ht.
    + intros Hf. rewrite (IH _ _ Ht Hnd Hf). destruct (decide (s = t)) as [->|N].
      * rewrite bool_decide_eq_false_2, bool_decide_eq_true_2 by (done || by left). fold stream. by rewrite Ef.
      * erewrite bool_decide_ext; [done|]. rewrite elem_of_cons. intuition congruence.
Qed.

(** The whole run: raw chunks, clear cuts between them, one event for each. *)
Lemma run_chunks events st emitted accepts order st' flushed s :
  write_all secrets events ∅ = (st, emitted) -> NoDup order -> s ∈ order -> Flush secrets accepts order st = (st', flushed, true) ->
  exists chunks, output s events = concat chunks /\ clear_cuts secrets chunks /\ Forall (fun u => u <> []) chunks
    /\ map (fun e => bytes (le_Bytes e)) (on s (emitted ++ flushed)) = map (replaceSecrets secrets) chunks
    /\ map le_Sequence (on s (emitted ++ flushed)) = seqZ 0 (Z.of_nat (length chunks)).
Proof.
  intros Hw Hnd Hin Hf.
  assert (Hall : forall t, exists chunks, streamed events emitted t (stream_at st t) chunks).
  { intros t. destruct (write_all_streamed _ _ _ _ _ _ _ _ (streamed_empty t) Hw) as [chunks H]. by exists chunks. }
  assert (Ht : templated st) by (intros t Hb; destruct (Hall t) as [chunks [_ _ _ _ _ _ H]]; by apply H).
  rewrite !on_app, (flush_on accepts order st st' flushed s Ht Hnd Hf), bool_decide_eq_true_2 by done.
  destruct (Hall s) as [chunks [T1 T2 T3 T4 T5 T6 T7]]. rewrite !map_app, T2, T3. unfold flushed_event.
  destruct (rs_buffer (stream_at st s)) as [|c w] eqn:Eb.
  - exists chunks. rewrite !app_nil_r in *. split_and!; try done. clear -T6. specialize (T6 []). simpl in T6.
    induction chunks as [|u chunks IH]; simpl in *; [done|]. destruct T6 as [H1 H2]. split; [|by apply IH].
    rewrite concat_app in H1. simpl in H1. by rewrite !app_nil_r in H1.
  - destruct T7 as (e & -> & He); [done|]. exists (chunks ++ [c :: w]). rewrite concat_app, map_app, length_app. simpl.
    rewrite app_nil_r, bytes_of_bytes, Nat2Z.inj_add, seqZ_snoc, T4 by lia. split_and!; try done.
    + specialize (T6 []). by rewrite app_nil_r in T6.
    + apply Forall_app. split; [done|]. by constructor.
Qed.
End Run.

(** ** An example: a token split over three writes, with another stream between *)
Definition token_secrets : list text := [bytes "hunter22-token"; bytes "hunter22"].

Definition written_output : list LogEvent :=
  [mkLogEvent "a1" LogStdout 0 100 "key=hunt" None; mkLogEvent "a1" LogStderr 0 101 "warn: hun" None;
   mkLogEvent "a1" LogStdout 1 102 "er22-to" None; mkLogEvent "a1" LogStdout 2 103 "ken done hunter" None].

Definition written_streams : gmap string redactionStream := (write_all token_secrets written_output ∅).1.

Definition both_streams : list string := [LogStdout; LogStderr].

Definition passed_on : list LogEvent := (write_all token_secrets written_output ∅).2.

Definition flush : gmap string redactionStream * list LogEvent * bool := Flush token_secrets (fun _ => true) both_streams written_streams.

Lemma written_run : write_all token_secrets written_output ∅ = (written_streams, passed_on).
Proof. apply surjective_pairing. Qed.

Lemma flush_run : Flush token_secrets (fun _ => true) both_streams written_streams = (flush.1.1, flush.1.2, true).
Proof. vm_compute. reflexivity. Qed.

Lemma token_secrets_maskable : Forall maskable token_secrets.
Proof. repeat constructor; done. Qed.

Lemma both_streams_distinct : NoDup both_streams.
Proof. apply (bool_decide_unpack _). vm_compute. exact I. Qed.

(** ** The claims *)

(** C28: no secret shows.  Take any secrets that do not overlap the marker, any
    output in any chunks on any streams, and flush at the end: the bytes passed on
    for a stream, put together, contain no secret, also where the output split
    one between chunks. *)
Theorem redacted_output_hides_secrets secrets events st emitted accepts order st' flushed s secret :
  Forall maskable secrets -> write_all secrets events ∅ = (st, emitted) -> NoDup order -> s ∈ order ->
  Flush secrets accepts order st = (st', flushed, true) -> secret ∈ secrets ->
  ~ occurs secret (output s (emitted ++ flushed)).
Proof.
  intros Hm Hw Hnd Hin Hf Hs. destruct (run_chunks _ Hm _ _ _ _ _ _ _ _ Hw Hnd Hin Hf) as (chunks & _ & Hc & _ & Hp & _).
  unfold output. rewrite Hp. by apply chunks_hide.
Qed.

Lemma redacted_output_hides_secrets_witness :
  output LogStdout (passed_on ++ flush.1.2) = bytes "key=[REDACTED] done hunter"
  /\ ~ occurs (bytes "hunter22") (output LogStdout (passed_on ++ flush.1.2)).
Proof.
  split; [vm_compute; reflexivity|].
  exact (redacted_output_hides_secrets token_secrets written_output written_streams passed_on (fun _ => true) both_streams
    flush.1.1 flush.1.2 LogStdout (bytes "hunter22") token_secrets_maskable written_run both_streams_distinct
    (list_elem_of_here _ _) flush_run (list_elem_of_further _ _ _ (list_elem_of_here _ _))).
Defined.



(** C33: the redacting sink swallows declared gaps.  A gap event (no bytes, a
    [Gap]) that arrives on a stream with nothing withheld is passed on to nobody
    and leaves the numbering as it was, so neither the spool nor L1 learns of the
    loss the runtime declared. *)
Theorem redaction_drops_gaps secrets event gap st :
  le_Gap event = Some gap -> le_Bytes event = "" -> rs_buffer (stream_at st (le_Stream event)) = [] ->
  let '(st', out) := WriteOutput secrets event st in
  out = None /\ rs_buffer (stream_at st' (le_Stream event)) = []
  /\ rs_next (stream_at st' (le_Stream event)) = rs_next (stream_at st (le_Stream event)).
Proof.
  intros _ Hb Hbuf. unfold WriteOutput. rewrite Hb, Hbuf. simpl.
  assert (H : safePrefix secrets [] = ([], [])).
  { unfold safePrefix. destruct (safe_cut_spec secrets [] []) as [Hle _]. simpl in Hle. by replace (safe_cut secrets []) with 0%nat by lia. }
  rewrite H. unfold stream_at. by rewrite lookup_insert_eq.
Qed.

Lemma redaction_drops_gaps_witness :
  let gap := mkLogGap 0 0 0 LogGapLoggerSourceIncomplete "" in
  (WriteOutput token_secrets (mkLogEvent "a1" LogStdout 0 100 "" (Some gap)) ∅).2 = None.
Proof.
  intros gap. pose proof (redaction_drops_gaps token_secrets (mkLogEvent "a1" LogStdout 0 100 "" (Some gap)) gap ∅) as H.
  destruct (WriteOutput _ _ _) as [st' out]. apply H; vm_compute; reflexivity.
Defined.
