(* ===== verification/RunLedger.v ===== *)
(** * The run ledger

    L3 keeps its runs in a SQLite database of its own ([l3/store.go],
    [l3/run_job_link.go], [l3/cancel.go], [l3/dispatch_hold.go]) and reaches L1
    only through its protocol.  Each definition is one short transaction; what a
    pass read earlier, or L1 answered, is an argument.  The tables keyed by
    [run_id] are one record per run, a row that may be missing an option: a run
    is inserted together with its trigger, its program and its outbox row.  Times
    are Unix nanoseconds.  A stored error is the value its JSON encodes. *)
From S2P Require Import Prelude Order States Contract GoStrings JobSpec.
From Stdlib Require Import Ascii.
#[local] Open Scope string_scope.
#[local] Open Scope list_scope.
#[local] Open Scope Z_scope.

(** ** Stored errors *)

(** A value of the details object: [json_extract] reads a string as it is and
    anything else as its text; only a string decodes as an identity. *)
Inductive wire_value := WireString (s : string) | WireOther (text : string).

Record APIError := mkAPIError {
  ae_Code : string;
  ae_Message : string;
  ae_Retryable : bool;
  ae_RequestID : string;
  ae_Details : gmap string wire_value
}.
#[export] Instance wire_value_eq_dec : EqDecision wire_value.
Proof. solve_decision. Defined.
#[export] Instance APIError_eq_dec : EqDecision APIError.
Proof. solve_decision. Defined.

Definition not_found : string := "not_found".
Definition l1RegressedReason : string := "l1_regressed".
Definition dispatchNotFoundReason : string := "dispatch_not_found".

(** [COALESCE(json_extract(last_error, '$.details.key'), '')]. *)
Definition detail_text (key : string) (e : option APIError) : string :=
  match e with
  | None => ""
  | Some e => match ae_Details e !! key with
              | Some (WireString s) => s
              | Some (WireOther text) => text
              | None => ""
              end
  end.

Definition l1RegressionCause (jobID : string) : APIError :=
  mkAPIError not_found "L1 regressed: previously dispatched job is absent; work was not replayed" false ""
    {[ "reason" := WireString l1RegressedReason; "l1_job_id" := WireString jobID ]}.

(** ** Tables *)
Inductive run_program :=
| RunScript (content sha256 : string) (interpreter : list string) (mode : Z)
| RunImage (program : ImageProgram).

(** A row of [runs]; of [limits_json] the runtime limit. *)
Record RunRow := mkRunRow {
  r_parent_run_id : option string;
  r_dispatch_key : string;
  r_actor : string;
  r_idempotency_key : string;
  r_request_hash : string;
  r_status : RunState;
  r_params : string;
  r_tags : list string;
  r_limits : option Z;
  r_envelope_schema : option string;
  r_required_envelope : bool;
  r_dispatch_authority : bool;
  r_restartable : bool;
  r_l1_job_id : option string;
  r_node_id : option string;
  r_failure_reason : option string;
  r_node_attribution_pending : bool;
  r_job_link_settled : bool;
  r_job_link_failures : Z;
  r_job_link_retry_ns : Z;
  r_dispatch_attempt_ns : option Z;
  r_created_ns : Z;
  r_updated_ns : Z;
  r_started_ns : option Z;
  r_finished_ns : option Z
}.
#[export] Instance RunRow_eta : Eta RunRow := fun r =>
  mkRunRow (r_parent_run_id r) (r_dispatch_key r) (r_actor r) (r_idempotency_key r) (r_request_hash r) (r_status r)
    (r_params r) (r_tags r) (r_limits r) (r_envelope_schema r) (r_required_envelope r) (r_dispatch_authority r)
    (r_restartable r) (r_l1_job_id r) (r_node_id r) (r_failure_reason r) (r_node_attribution_pending r)
    (r_job_link_settled r) (r_job_link_failures r) (r_job_link_retry_ns r) (r_dispatch_attempt_ns r) (r_created_ns r)
    (r_updated_ns r) (r_started_ns r) (r_finished_ns r).

Record OutboxRow := mkOutboxRow {
  o_dispatch_key : string;
  o_job_id : option string;
  o_attempt_count : Z;
  o_token_delivery : option string;
  o_last_error : option APIError;
  o_dispatched_ns : option Z
}.
#[export] Instance OutboxRow_eta : Eta OutboxRow := fun o =>
  mkOutboxRow (o_dispatch_key o) (o_job_id o) (o_attempt_count o) (o_token_delivery o) (o_last_error o) (o_dispatched_ns o).

Record RunTriggerRow := mkRunTriggerRow { t_actor : string; t_source : string; t_source_run_id : option string }.

Record RunTokenRow := mkRunTokenRow {
  tk_attempt_id : string;
  tk_token_hash : string;
  tk_minted_ns : Z;
  tk_expires_ns : option Z
}.
#[export] Instance RunTokenRow_eta : Eta RunTokenRow := fun k =>
  mkRunTokenRow (tk_attempt_id k) (tk_token_hash k) (tk_minted_ns k) (tk_expires_ns k).

Record CancellationRow := mkCancellationRow {
  c_requested_ns : Z;
  c_failures : Z;
  c_retry_ns : Z;
  c_completed_ns : option Z;
  c_last_error : option APIError;
  c_refused : bool
}.
#[export] Instance CancellationRow_eta : Eta CancellationRow := fun c =>
  mkCancellationRow (c_requested_ns c) (c_failures c) (c_retry_ns c) (c_completed_ns c) (c_last_error c) (c_refused c).

Record DispatchRetryRow := mkDispatchRetryRow { d_failures : Z; d_retry_ns : Z }.

(** The rows one run has in the tables keyed by its ID. *)
Record RunEntry := mkRunEntry {
  en_run : RunRow;
  en_trigger : RunTriggerRow;
  en_program : run_program;
  en_outbox : OutboxRow;
  en_token : option RunTokenRow;
  en_cancellation : option CancellationRow;
  en_retry : option DispatchRetryRow
}.
#[export] Instance RunEntry_eta : Eta RunEntry := fun e =>
  mkRunEntry (en_run e) (en_trigger e) (en_program e) (en_outbox e) (en_token e) (en_cancellation e) (en_retry e).

(** The append-only protocol records; of a gate its outcome. *)
Record EnvelopeRow := mkEnvelopeRow { ev_run_id : string; ev_idempotency_key : string; ev_body_hash : string }.
Record GateRow := mkGateRow { g3_run_id : string; g3_idempotency_key : string; g3_body_hash : string; g3_outcome : string }.
Record RejectionRow := mkRejectionRow { pr_run_id : string; pr_kind : string; pr_idempotency_key : string }.

Record DispatchHoldRow := mkDispatchHoldRow {
  h_generation : Z;
  h_since_ns : option Z;
  h_reason : string;
  h_next_probe_ns : Z;
  h_failures : Z;
  h_probe_id : string;
  h_probe_until_ns : Z
}.
#[export] Instance DispatchHoldRow_eta : Eta DispatchHoldRow := fun h =>
  mkDispatchHoldRow (h_generation h) (h_since_ns h) (h_reason h) (h_next_probe_ns h) (h_failures h) (h_probe_id h)
    (h_probe_until_ns h).

Record Ledger := mkLedger {
  lg_runs : gmap string RunEntry;
  lg_envelopes : gmap string EnvelopeRow;
  lg_gates : gmap string GateRow;
  lg_rejections : list RejectionRow;
  lg_hold : DispatchHoldRow
}.
#[export] Instance Ledger_eta : Eta Ledger := fun l =>
  mkLedger (lg_runs l) (lg_envelopes l) (lg_gates l) (lg_rejections l) (lg_hold l).

(** A new database: the schema inserts the one row of [dispatch_hold]. *)
Definition empty_ledger : Ledger := mkLedger ∅ ∅ ∅ [] (mkDispatchHoldRow 0 None "" 0 0 "" 0).

(** ** Transactions *)
Inductive ledger_error :=
| Coded (code : ErrorCode)
| DispatchAbandoned
| SeatRunRerun
| RecoveredDispatchIdentityConflict.

Abbreviation ledger_tx R A := (tx Ledger ledger_error R A).
Abbreviation entry_tx R A := (tx RunEntry ledger_error R A).

Definition internal : ledger_error := Coded ErrorInternal.

(** Statements about one run, in a transaction on the ledger; a read of a run
    that does not exist is [missing]. *)
Definition on_run {R A} (missing : ledger_error) (runID : string) (m : entry_tx R A) : ledger_tx R A :=
  fun l => match lg_runs l !! runID with
           | None => Abort (Err missing)
           | Some e => match m e with
                       | Next a e' => Next a (l <| lg_runs := <[runID := e']> (lg_runs l) |>)
                       | Return r e' => Return r (l <| lg_runs := <[runID := e']> (lg_runs l) |>)
                       | Abort r => Abort r
                       end
           end.

(** An UPDATE of one run, without effect where there is none. *)
Definition exec_run (runID : string) (f : RunEntry -> RunEntry) (l : Ledger) : Ledger :=
  l <| lg_runs := alter f runID (lg_runs l) |>.

Definition set_run (f : RunRow -> RunRow) (e : RunEntry) : RunEntry := e <| en_run := f (en_run e) |>.
Definition set_outbox (f : OutboxRow -> OutboxRow) (e : RunEntry) : RunEntry := e <| en_outbox := f (en_outbox e) |>.

Definition run_terminal (s : RunState) : bool := bool_decide (s = RunSucceeded) || bool_decide (s = RunFailed).
Definition run_waiting (s : RunState) : bool := bool_decide (s = RunPending) || bool_decide (s = RunDispatching).

(** ** Failure reasons *)
Definition maxFailureReasonRunes : nat := 200.

(** [unicode.IsControl]: the category Cc. *)
Definition IsControl (r : Z) : bool := in_range 0 31 r || in_range 127 159 r.

(** [strings.FieldsFunc] on decoded runes with their bytes. *)
Fixpoint fields_from (gap : Z -> bool) (word : list ascii) (l : list (Z * list ascii)) : list (list ascii) :=
  match l with
  | [] => if bool_decide (word = []) then [] else [word]
  | (r, b) :: l => if gap r then (if bool_decide (word = []) then [] else [word]) ++ fields_from gap [] l
                   else fields_from gap (word ++ b) l
  end.

Definition ellipsis : Z := 8230.

Definition SanitizeFailureReason (reason : string) : string :=
  let fields := fields_from (fun r => IsSpace r || IsControl r) [] (chunks (bytes reason)) in
  let line := of_bytes (join_with " "%char fields) in
  if (maxFailureReasonRunes <? length (runes line))%nat
  then of_bytes (concat (map encode_rune (firstn (maxFailureReasonRunes - 1) (runes line) ++ [ellipsis])))
  else line.

Definition nullableReason (reason : string) : option string :=
  let reason := SanitizeFailureReason reason in if bool_decide (reason = "") then None else Some reason.

(** ** What the ledger knows of a run's job *)
Record dispatchObservation := mkdispatchObservation {
  ob_outboxJob : option string;
  ob_runJob : option string;
  ob_lastError : option APIError;
  ob_dispatched : option Z;
  ob_settled : bool;
  ob_state : RunState;
  ob_reason : string;
  ob_diagnosticJob : string;
  ob_attempted : option Z
}.
#[export] Instance dispatchObservation_eq_dec : EqDecision dispatchObservation.
Proof. solve_decision. Defined.

Definition readDispatchObservation (e : RunEntry) : dispatchObservation :=
  let r := en_run e in let o := en_outbox e in
  mkdispatchObservation (o_job_id o) (r_l1_job_id r) (o_last_error o) (o_dispatched_ns o) (r_job_link_settled r) (r_status r)
    (detail_text "reason" (o_last_error o)) (detail_text "l1_job_id" (o_last_error o)) (r_dispatch_attempt_ns r).

Inductive linkKnowledgeState := linkUnknown | linkAttemptedUnconfirmed | linkLinked | linkMissingSettled | linkRegressed.

(** The identities in the order they are compared; a diagnostic identity that is
    not a string is corrupt. *)
Definition diagnostic_identity (e : option APIError) : option (list (option string)) :=
  match e with
  | None => Some []
  | Some e => match ae_Details e !! "l1_job_id" with
              | None => Some []
              | Some (WireString named) => if bool_decide (named = "") then None else Some [Some named]
              | Some (WireOther _) => None
              end
  end.

(** The one identity all of them name; [None] when one is empty or two differ. *)
Fixpoint single_identity (known : string) (identities : list (option string)) : option string :=
  match identities with
  | [] => Some known
  | None :: rest => single_identity known rest
  | Some named :: rest =>
      if bool_decide (named = "") || (negb (bool_decide (known = "")) && negb (bool_decide (known = named))) then None
      else single_identity named rest
  end.

Definition decodeRunJobLink (observed : dispatchObservation) : option (linkKnowledgeState * string) :=
  match diagnostic_identity (ob_lastError observed) with
  | None => None
  | Some diagnostic =>
      match single_identity "" ([ob_runJob observed; ob_outboxJob observed] ++ diagnostic) with
      | None => None
      | Some jobID =>
          if bool_decide (ob_reason observed = l1RegressedReason)
          then (if bool_decide (jobID = "") then None else Some (linkRegressed, jobID))
          else if bool_decide (is_Some (ob_runJob observed)) then Some (linkLinked, jobID)
          else if ob_settled observed || bool_decide (ob_reason observed = dispatchNotFoundReason)
          then Some (if bool_decide (is_Some (ob_outboxJob observed)) && bool_decide (is_Some (ob_dispatched observed))
                     then linkRegressed else linkMissingSettled, jobID)
          else if bool_decide (is_Some (ob_outboxJob observed)) then Some (linkLinked, jobID)
          else if bool_decide (is_Some (ob_attempted observed)) then Some (linkAttemptedUnconfirmed, jobID)
          else Some (linkUnknown, jobID)
      end
  end.

(** ** Confirming a dispatch *)
Inductive dispatchLinkEvidence := dispatchAcknowledgementEvidence | dispatchStoredEvidence | dispatchLookupEvidence.
#[export] Instance dispatchLinkEvidence_eq_dec : EqDecision dispatchLinkEvidence.
Proof. solve_decision. Defined.

Definition regressed (observed : dispatchObservation) : bool := bool_decide (ob_reason observed = l1RegressedReason).

(** A regression recorded since the lookup began makes its answer stale. *)
Definition stale_lookup (current : dispatchObservation) (observed : option dispatchObservation) : bool :=
  match observed with
  | None => true
  | Some observed =>
      regressed current
      && (negb (regressed observed) || negb (bool_decide (ob_diagnosticJob current = ob_diagnosticJob observed))
          || negb (bool_decide (ob_lastError current = ob_lastError observed)))
  end.

Definition other_job (jobID : string) (known : option string) : bool :=
  match known with Some id => negb (bool_decide (id = jobID)) | None => false end.

Definition conflicting_job (jobID : string) (observed : dispatchObservation) : bool :=
  other_job jobID (ob_outboxJob observed) || other_job jobID (ob_runJob observed)
  || (regressed observed && negb (bool_decide (ob_diagnosticJob observed = ""))
      && negb (bool_decide (ob_diagnosticJob observed = jobID))).

Definition clearDispatchRetry (e : RunEntry) : RunEntry := e <| en_retry := None |>.

(** The association an ended run lacks; nothing else of it changes. *)
Definition linkTerminalRunTx (jobID : string) (e : RunEntry) : RunEntry :=
  let r := en_run e in
  if bool_decide (r_l1_job_id r = None) && run_terminal (r_status r)
  then set_run (fun r => r <| r_l1_job_id := Some jobID |> <| r_job_link_settled := true |>
         <| r_node_attribution_pending := bool_decide (default "" (r_node_id r) = "") || r_node_attribution_pending r |>) e
  else e.

Definition wake_cancellation (e : RunEntry) : RunEntry :=
  e <| en_cancellation := (fun c => c <| c_failures := 0 |> <| c_retry_ns := 0 |> <| c_completed_ns := None |>
                                      <| c_last_error := None |> <| c_refused := false |>) <$> en_cancellation e |>.

(** The writes of [completeDispatchWithEvidenceTx]: the first acknowledgement and
    a positive lookup go to the outbox, a waiting run is queued, an ended one is
    linked, and a cancellation is delivered again. *)
Definition outbox_unacknowledged (jobID : string) (o : OutboxRow) : bool :=
  bool_decide (o_dispatched_ns o = None) && negb (other_job jobID (o_job_id o)).

Definition acknowledge_outbox (now : Z) (jobID : string) (evidence : dispatchLinkEvidence) (o : OutboxRow) : OutboxRow :=
  let o := if outbox_unacknowledged jobID o
           then o <| o_job_id := Some jobID |> <| o_dispatched_ns := Some now |> <| o_last_error := None |>
                  <| o_token_delivery := None |>
           else o in
  if bool_decide (evidence = dispatchLookupEvidence) && negb (other_job jobID (o_job_id o))
  then o <| o_job_id := Some (default jobID (o_job_id o)) |> <| o_last_error := None |> <| o_token_delivery := None |>
  else o.

Definition record_acknowledgement (now : Z) (jobID : string) (evidence : dispatchLinkEvidence) (e : RunEntry) : RunEntry :=
  let acknowledged := outbox_unacknowledged jobID (en_outbox e) in
  let unlinked := bool_decide (r_l1_job_id (en_run e) = None) in
  let queued := run_waiting (r_status (en_run e)) in
  let e := set_outbox (acknowledge_outbox now jobID evidence) e in
  let e := if queued
           then set_run (fun r => r <| r_l1_job_id := Some jobID |> <| r_status := RunQueued |> <| r_updated_ns := now |>) e
           else e in
  let e := if acknowledged || unlinked then wake_cancellation e else e in
  let e := if queued then e else linkTerminalRunTx jobID e in
  clearDispatchRetry e.

Definition completeDispatchWithEvidenceTx {R} (now : Z) (jobID : string) (evidence : dispatchLinkEvidence)
    (observed : option dispatchObservation) : entry_tx R unit :=
  let! _ := check (negb (bool_decide (jobID = ""))) internal in
  let! current := reads readDispatchObservation in
  let! _ := check (negb (bool_decide (evidence = dispatchLookupEvidence) && stale_lookup current observed)) internal in
  let! _ := check (bool_decide (is_Some (decodeRunJobLink current))) internal in
  let! _ := check (negb (conflicting_job jobID current)) internal in
  if (bool_decide (evidence = dispatchStoredEvidence)
      && (ob_settled current || regressed current || bool_decide (ob_reason current = dispatchNotFoundReason)))
     || (bool_decide (evidence = dispatchAcknowledgementEvidence) && regressed current)
  then pure tt
  else writes (record_acknowledgement now jobID evidence).

Definition completeDispatchWithEvidence (now : Z) (runID jobID : string) (evidence : dispatchLinkEvidence)
    (observed : option dispatchObservation) : ledger_tx unit unit :=
  on_run internal runID (completeDispatchWithEvidenceTx now jobID evidence observed).

Definition completeDispatch (now : Z) (runID jobID : string) : ledger_tx unit unit :=
  completeDispatchWithEvidence now runID jobID dispatchAcknowledgementEvidence None.
