(* ===== verification/RunDispatch.v ===== *)
(** * Dispatching, canceling and recovering runs

    The store writes of [l3/run_job_link.go], [l3/cancel.go] and
    [l3/dispatch_hold.go]: submit attempts and their bearer, permanent and
    retryable refusals, cancellation and its delivery schedule, the settlement
    of absent dispatches and the ledger-wide dispatch hold.  The instants are
    arguments; [grace] is the token grace of the store. *)
From S2P Require Import Prelude Order States Contract GoStrings JobSpec RunLedger.
#[local] Open Scope string_scope.
#[local] Open Scope list_scope.
#[local] Open Scope Z_scope.

Definition Second : Z := 1000000000.
Definition Minute : Z := 60 * Second.

(** ** Schedules *)
Definition unrecordedDispatchRetryBase : Z := 30 * Second.
Definition unrecordedDispatchRetryCap : Z := 30 * Minute.
Definition unrecordedDispatchSettleHorizon : Z := 60 * Minute.

(** [for i := 0; i < failures && delay < cap; i++ { delay *= 2 }]. *)
Fixpoint double_delay (failures : nat) (delay : Z) : Z :=
  match failures with
  | O => delay
  | S failures => if delay <? unrecordedDispatchRetryCap then double_delay failures (delay * 2) else delay
  end.

Definition unrecordedDispatchBackoff (failures : Z) : Z :=
  Z.min (double_delay (Z.to_nat failures) unrecordedDispatchRetryBase) unrecordedDispatchRetryCap.

Definition dispatchRetryBackoff (failures : Z) : Z :=
  if 5 <? failures then Minute else Second * Z.shiftl 1 (Z.max failures 0).

(** ** Ending a run *)
Definition expire_token (expires : Z) (e : RunEntry) : RunEntry :=
  e <| en_token := (fun k => k <| tk_expires_ns := Some (default expires (tk_expires_ns k)) |>) <$> en_token e |>.

Definition clearStagedTokenDelivery (e : RunEntry) : RunEntry :=
  set_outbox (fun o => o <| o_token_delivery := None |>) (clearDispatchRetry e).

Definition failRunTx (now grace : Z) (reason : string) (e : RunEntry) : RunEntry :=
  let linked := bool_decide (is_Some (r_l1_job_id (en_run e))) in
  let e := if run_terminal (r_status (en_run e)) then e
           else expire_token (now + grace)
             (set_run (fun r => r <| r_status := RunFailed |> <| r_failure_reason := nullableReason reason |>
                <| r_updated_ns := now |> <| r_started_ns := Some (default now (r_started_ns r)) |>
                <| r_finished_ns := Some (default now (r_finished_ns r)) |>
                <| r_node_id := if linked then None else r_node_id r |>
                <| r_node_attribution_pending := linked |>) e) in
  clearStagedTokenDelivery e.

(** ** Submit attempts *)

(** Whether a unique index of [run_tokens] holds the digest or the attempt. *)
Definition token_taken (digest attemptID : string) (l : Ledger) : bool :=
  existsb (fun r : string * RunEntry => match en_token r.2 with
             | Some k => bool_decide (tk_token_hash k = digest) || bool_decide (tk_attempt_id k = attemptID)
             | None => false
             end) (map_to_list (lg_runs l)).

(** The bearer staged for the pending dispatch; minted and staged on the first
    attempt.  [run_tokens] holds one row per run. *)
Definition ensureRunTokenTx {R} (token_digest : string -> string) (now : Z) (fresh attemptID : string) (taken : bool) :
    entry_tx R string :=
  let! e := reads (fun e => e) in
  let! _ := check (bool_decide (o_dispatched_ns (en_outbox e) = None)) (Coded ErrorConflict) in
  if negb (bool_decide (default "" (o_token_delivery (en_outbox e)) = "")) then pure (default "" (o_token_delivery (en_outbox e)))
  else
  let! _ := check (bool_decide (en_token e = None) && negb taken) internal in
  let! _ := writes (fun e => e <| en_token := Some (mkRunTokenRow attemptID (token_digest fresh) now None) |>) in
  let! _ := writes (set_outbox (fun o => o <| o_token_delivery := Some fresh |>)) in
  pure fresh.

(** What keeps a run from being submitted now. *)
Definition dispatch_deferred (now : Z) (hold : DispatchHoldRow) (e : RunEntry) : bool :=
  negb (run_waiting (r_status (en_run e))) || bool_decide (is_Some (en_cancellation e))
  || bool_decide (is_Some (h_since_ns hold))
  || match en_retry e with Some d => now <? d_retry_ns d | None => false end.

(** One attempt: the guards, the bearer and the attempt count. *)
Definition attempt_entry (token_digest : string -> string) (now : Z) (fresh attemptID : string) (taken : bool)
    (hold : DispatchHoldRow) : entry_tx string string :=
  let! deferred := reads (dispatch_deferred now hold) in
  let! _ := check (negb deferred) DispatchAbandoned in
  let! _ := writes (set_run (fun r => r <| r_status := RunDispatching |> <| r_updated_ns := now |>
                                        <| r_dispatch_attempt_ns := Some now |>)) in
  let! token := ensureRunTokenTx token_digest now fresh attemptID taken in
  let! _ := writes (fun e => if bool_decide (o_dispatched_ns (en_outbox e) = None)
                             then set_outbox (fun o => o <| o_attempt_count := o_attempt_count o + 1 |>
                                                          <| o_last_error := None |>) e
                             else e) in
  pure token.

Definition beginDispatch (token_digest : string -> string) (now : Z) (runID fresh attemptID : string) : ledger_tx string string :=
  let! hold := reads lg_hold in
  let! taken := reads (token_taken (token_digest fresh) attemptID) in
  on_run DispatchAbandoned runID (attempt_entry token_digest now fresh attemptID taken hold).

(** A refusal that may be retried: its account, and the next instant to try. *)
Definition record_dispatch_error (now : Z) (dispatchErr : APIError) (e : RunEntry) : RunEntry :=
  let undispatched := bool_decide (o_dispatched_ns (en_outbox e) = None) in
  let settled := r_job_link_settled (en_run e) in
  let e := if undispatched && negb settled then set_outbox (fun o => o <| o_last_error := Some dispatchErr |>) e else e in
  let waiting := run_waiting (r_status (en_run e)) && undispatched && negb settled && bool_decide (en_cancellation e = None) in
  if waiting
  then let failures := match en_retry e with Some d => d_failures d | None => 0 end in
       e <| en_retry := Some (mkDispatchRetryRow (failures + 1) (now + dispatchRetryBackoff failures)) |>
  else e.

Definition recordDispatchError (now : Z) (runID : string) (dispatchErr : APIError) : Ledger -> Ledger :=
  exec_run runID (record_dispatch_error now dispatchErr).

Definition dispatchFailureReason (e : APIError) : string :=
  "L1 refused the dispatch: " +:+ ae_Code e +:+ ": " +:+ ae_Message e.

(** A permanent refusal fails the run. *)
Definition fail_dispatch (now grace : Z) (dispatchErr : APIError) (e : RunEntry) : RunEntry :=
  let e := if bool_decide (o_dispatched_ns (en_outbox e) = None)
           then set_outbox (fun o => o <| o_last_error := if r_job_link_settled (en_run e) then o_last_error o else Some dispatchErr |>
                                       <| o_token_delivery := None |>) e
           else e in
  failRunTx now grace (dispatchFailureReason dispatchErr) e.

Definition failDispatch (now grace : Z) (runID : string) (dispatchErr : APIError) : Ledger -> Ledger := exec_run runID (fail_dispatch now grace dispatchErr).

(** ** Cancellation *)
Definition maxLineageTraversalDepth : nat := 64.

(** The submitting actor of the root of a run's lineage, following parents. *)
Fixpoint root_actor (depth : nat) (runID : string) (l : Ledger) : option string :=
  match lg_runs l !! runID with
  | None => None
  | Some e => match r_parent_run_id (en_run e), depth with
              | None, _ => Some (t_actor (en_trigger e))
              | Some _, O => None
              | Some parent, S depth => root_actor depth parent l
              end
  end.

Definition uncontradictedOutbox (e : RunEntry) : bool :=
  let reason := detail_text "reason" (o_last_error (en_outbox e)) in
  negb (r_job_link_settled (en_run e)) && negb (bool_decide (reason = l1RegressedReason))
  && negb (bool_decide (reason = dispatchNotFoundReason)).

Definition cancelStoredJobID (e : RunEntry) : option string :=
  match r_l1_job_id (en_run e) with
  | Some jobID => Some jobID
  | None => if uncontradictedOutbox e then o_job_id (en_outbox e) else None
  end.

Definition canceled_locally : string := "canceled before dispatch was confirmed".

(** A run never attempted ends here; any other records the intent, and an
    earlier one that is not delivered is tried again at once. *)
Definition record_cancellation (now grace : Z) (never : bool) (e : RunEntry) : RunEntry :=
  if never
  then (failRunTx now grace canceled_locally e)
         <| en_cancellation := Some (default (mkCancellationRow now 0 0 (Some now) None false) (en_cancellation e)) |>
  else e <| en_cancellation := Some (match en_cancellation e with
         | None => mkCancellationRow now 0 0 None None false
         | Some c => if bool_decide (c_completed_ns c = None)
                     then c <| c_failures := 0 |> <| c_retry_ns := 0 |> <| c_last_error := None |> <| c_refused := false |>
                     else c
         end) |>.

Definition requestRunCancellation (now grace : Z) (runID actor : string) : ledger_tx unit unit :=
  let! root := reads (root_actor maxLineageTraversalDepth runID) in
  on_run (Coded ErrorNotFound) runID (
    let! e := reads (fun e => e) in
    let jobID := cancelStoredJobID e in
    let never := bool_decide (r_dispatch_attempt_ns (en_run e) = None) && bool_decide (jobID = None) in
    let! _ := check (bool_decide (actor = t_actor (en_trigger e)) || bool_decide (root = Some actor)) (Coded ErrorForbidden) in
    let! _ := if run_terminal (r_status (en_run e)) && never then answer tt else pure tt in
    let! _ := match jobID, r_l1_job_id (en_run e) with
              | Some jobID, None =>
                  if bool_decide (is_Some (decodeRunJobLink (readDispatchObservation e)))
                  then completeDispatchWithEvidenceTx now jobID dispatchStoredEvidence None else pure tt
              | _, _ => pure tt
              end in
    writes (record_cancellation now grace never)).

Definition finish_cancellation (now : Z) (e : RunEntry) : RunEntry :=
  e <| en_cancellation := (fun c => c <| c_completed_ns := Some now |> <| c_last_error := None |> <| c_refused := false |>)
                            <$> en_cancellation e |>.

(** An absence counts once the lookup began beyond the settlement horizon of
    the last attempt; a run without one has no answer to the comparison. *)
Definition cancelAbsentDispatch (now grace : Z) (runID : string) (lookupStarted : Z) : ledger_tx unit unit :=
  on_run internal runID (
    let! e := reads (fun e => e) in
    if bool_decide (is_Some (r_l1_job_id (en_run e))) || bool_decide (is_Some (o_job_id (en_outbox e))) then answer tt
    else
    let! attempted := need (fun e => r_dispatch_attempt_ns (en_run e)) internal in
    if attempted <=? lookupStarted - unrecordedDispatchSettleHorizon
    then writes (fun e => finish_cancellation now
           (set_run (fun r => r <| r_job_link_settled := true |>) (failRunTx now grace canceled_locally e)))
    else answer tt).

Definition markTerminalLinkRegressedTx (jobID : string) (e : RunEntry) : RunEntry :=
  set_outbox (fun o => o <| o_last_error := Some (l1RegressionCause jobID) |>) e.

Definition finish_undelivered (now : Z) (e : RunEntry) : RunEntry :=
  match en_cancellation e with
  | Some c => if bool_decide (c_completed_ns c = None) then finish_cancellation now e else e
  | None => e
  end.

Definition cancelAbsentStoredIdentity (now : Z) (runID : string) (observed : dispatchObservation) : ledger_tx unit unit :=
  on_run internal runID (
    let! current := reads readDispatchObservation in
    let! _ := check (bool_decide (current = observed)) internal in
    let! stored := need (fun _ => ob_outboxJob current) internal in
    let! _ := check (negb (bool_decide (stored = "")) && negb (other_job stored (ob_runJob current))
                     && negb (regressed current && negb (bool_decide (ob_diagnosticJob current = ""))
                              && negb (bool_decide (ob_diagnosticJob current = stored)))) internal in
    let! _ := if run_terminal (ob_state current) then pure tt else answer tt in
    let! _ := match ob_runJob current with
              | Some linked =>
                  if bool_decide (linked = "") then pure tt
                  else let! _ := check (bool_decide (is_Some (ob_dispatched current))) internal in
                       writes (markTerminalLinkRegressedTx linked)
              | None => pure tt
              end in
    writes (finish_undelivered now)).

(** What a recovery pass read of an ended run before it asked L1. *)
Record unrecordedDispatch := mkunrecordedDispatch {
  u_RunID : string;
  u_DispatchKey : string;
  u_OutboxJobID : string;
  u_observed : dispatchObservation
}.
#[export] Instance unrecordedDispatch_eq_dec : EqDecision unrecordedDispatch.
Proof. solve_decision. Defined.

Definition acceptRecoveredCancellation (now : Z) (item : unrecordedDispatch) (jobID : string)
    (observed : option dispatchObservation) : ledger_tx unit unit :=
  let! stored := reads (fun l => lg_runs l !! u_RunID item) in
  match stored with
  | Some e =>
      if bool_decide (en_cancellation e = None) then answer tt
      else
      let! _ := check (bool_decide (r_dispatch_key (en_run e) = u_DispatchKey item)
                       && bool_decide (o_dispatch_key (en_outbox e) = r_dispatch_key (en_run e))) internal in
      on_run internal (u_RunID item) (completeDispatchWithEvidenceTx now jobID dispatchLookupEvidence observed)
  | None => answer tt
  end.

Definition linkUnrecordedDispatch (now : Z) (item : unrecordedDispatch) (jobID : string) : ledger_tx unit unit :=
  let! stored := reads (fun l => lg_runs l !! u_RunID item) in
  let! _ := if bool_decide (is_Some (stored ≫= en_cancellation)) then answer tt else pure tt in
  let! _ := check (negb (bool_decide (jobID = ""))) internal in
  let! e := need (fun _ => stored) internal in
  let! _ := check (bool_decide (r_dispatch_key (en_run e) = u_DispatchKey item)
                   && bool_decide (o_dispatch_key (en_outbox e) = r_dispatch_key (en_run e))
                   && negb (conflicting_job jobID (readDispatchObservation e))) RecoveredDispatchIdentityConflict in
  on_run internal (u_RunID item) (completeDispatchWithEvidenceTx now jobID dispatchLookupEvidence (Some (u_observed item))).

(** ** Delivery schedules *)

(** An ended delivery is rescheduled only while its run still lacks a job that
    may exist. *)
Definition unresolved_link (e : RunEntry) : bool :=
  bool_decide (r_l1_job_id (en_run e) = None)
  && (bool_decide (is_Some (r_dispatch_attempt_ns (en_run e))) || bool_decide (is_Some (o_job_id (en_outbox e))))
  && uncontradictedOutbox e.

Definition writeCancellationBackoff (failures retry : Z) (payload : APIError) (e : RunEntry) : RunEntry :=
  e <| en_cancellation := (fun c =>
    if bool_decide (c_failures c = failures) && (bool_decide (c_completed_ns c = None) || unresolved_link e)
    then c <| c_failures := c_failures c + 1 |> <| c_retry_ns := retry |>
           <| c_last_error := if bool_decide (c_completed_ns c = None) then Some payload else c_last_error c |>
    else c) <$> en_cancellation e |>.

Definition provisional_absence : APIError := mkAPIError not_found "dispatch absence remains provisional" true "" ∅.

Definition cancellationFailurePayload (cause : option APIError) : APIError := default provisional_absence cause.

Definition cancellation_failures (e : RunEntry) : Z := match en_cancellation e with Some c => c_failures c | None => 0 end.

Definition defer_cancellation (now : Z) (cause : option APIError) (e : RunEntry) : RunEntry :=
  let failures := cancellation_failures e in
  writeCancellationBackoff failures (now + unrecordedDispatchBackoff failures) (cancellationFailurePayload cause) e.

Definition deferRunCancellation (now : Z) (runID : string) (cause : option APIError) : Ledger -> Ledger :=
  exec_run runID (defer_cancellation now cause).

(** Nothing is written once the run has a job, which is answered. *)
Definition deferUnlinkedRunCancellation (now : Z) (runID : string) (cause : option APIError) : ledger_tx string string :=
  on_run internal runID (
    let! linked := reads (fun e => default "" (r_l1_job_id (en_run e))) in
    let! _ := if bool_decide (linked = "") then pure tt else answer linked in
    let! _ := writes (defer_cancellation now cause) in
    pure "").

Definition finishRunCancellation (now : Z) (runID : string) : Ledger -> Ledger := exec_run runID (finish_cancellation now).

Definition refuse_cancellation (now : Z) (cause : APIError) (e : RunEntry) : RunEntry :=
  e <| en_cancellation := (fun c => if bool_decide (c_completed_ns c = None)
         then c <| c_completed_ns := Some now |> <| c_last_error := Some cause |> <| c_refused := true |> else c)
       <$> en_cancellation e |>.

Definition refuseRunCancellation (now : Z) (runID : string) (cause : APIError) : Ledger -> Ledger :=
  exec_run runID (refuse_cancellation now cause).

(** L1 took the cancellation: the write of [cancelRunJobRemote]. *)
Definition clear_delivery_failure (e : RunEntry) : RunEntry :=
  e <| en_cancellation := (fun c => if bool_decide (c_completed_ns c = None)
         then c <| c_last_error := None |> <| c_failures := 0 |> <| c_retry_ns := 0 |> else c) <$> en_cancellation e |>.

(** ** Recovery of ended runs *)
Definition unrecorded (e : RunEntry) : bool :=
  bool_decide (r_l1_job_id (en_run e) = None) && negb (r_job_link_settled (en_run e)) && run_terminal (r_status (en_run e))
  && bool_decide (is_Some (r_dispatch_attempt_ns (en_run e))) && bool_decide (en_cancellation e = None).

Definition unrecorded_item (runID : string) (e : RunEntry) : unrecordedDispatch :=
  mkunrecordedDispatch runID (r_dispatch_key (en_run e)) (default "" (o_job_id (en_outbox e))) (readDispatchObservation e).

Definition unrecordedDispatchForTx (runID : string) (l : Ledger) : option unrecordedDispatch :=
  match lg_runs l !! runID with
  | Some e => if unrecorded e then Some (unrecorded_item runID e) else None
  | None => None
  end.

Definition defer_unrecorded (now : Z) (e : RunEntry) : RunEntry :=
  let failures := r_job_link_failures (en_run e) in
  if bool_decide (r_l1_job_id (en_run e) = None) && negb (r_job_link_settled (en_run e)) && bool_decide (en_cancellation e = None)
  then set_run (fun r => r <| r_job_link_failures := failures + 1 |>
                            <| r_job_link_retry_ns := now + unrecordedDispatchBackoff failures |>) e
  else e.

Definition deferUnrecordedDispatch (now : Z) (runID : string) : ledger_tx unit unit :=
  on_run internal runID (writes (defer_unrecorded now)).

Inductive settleOutcome := settled | settleChanged | settleNotDue.

Definition settlement_cause (item : unrecordedDispatch) : APIError :=
  if bool_decide (u_OutboxJobID item = "")
  then mkAPIError not_found "L1 did not find the attempted dispatch; work was not replayed" false ""
         {[ "reason" := WireString dispatchNotFoundReason; "dispatch_key" := WireString (u_DispatchKey item) ]}
  else l1RegressionCause (u_OutboxJobID item).

(** The guards of the compare-and-set. *)
Definition settle_due (item : unrecordedDispatch) (horizon : Z) (e : RunEntry) : bool :=
  bool_decide (r_l1_job_id (en_run e) = None) && negb (r_job_link_settled (en_run e)) && run_terminal (r_status (en_run e))
  && bool_decide (en_cancellation e = None) && bool_decide (r_dispatch_key (en_run e) = u_DispatchKey item)
  && bool_decide (default "" (o_job_id (en_outbox e)) = u_OutboxJobID item)
  && (negb (bool_decide (u_OutboxJobID item = ""))
      || match r_dispatch_attempt_ns (en_run e) with Some attempted => attempted <=? horizon | None => false end).

Definition settle_entry (item : unrecordedDispatch) (e : RunEntry) : RunEntry :=
  set_outbox (fun o => o <| o_last_error := match o_last_error o with
                              | Some cause => if ae_Retryable cause then Some (settlement_cause item) else Some cause
                              | None => Some (settlement_cause item)
                              end |> <| o_token_delivery := None |>)
    (set_run (fun r => r <| r_job_link_settled := true |>) e).

Definition settleUnrecordedDispatch (item : unrecordedDispatch) (lookupStarted : Z) (l : Ledger) : Ledger * settleOutcome :=
  match lg_runs l !! u_RunID item with
  | Some e =>
      if settle_due item (lookupStarted - unrecordedDispatchSettleHorizon) e
      then (exec_run (u_RunID item) (settle_entry item) l, settled)
      else (l, if unrecorded e && bool_decide (unrecorded_item (u_RunID item) e = item) then settleNotDue else settleChanged)
  | None => (l, settleChanged)
  end.

(** ** Jobs L1 lost *)

(** What a pass read of a run before it asked L1. *)
Record projectedRun := mkprojectedRun {
  p_RunID : string;
  p_JobID : string;
  p_State : RunState;
  p_RequiredEnvelope : bool
}.

Definition lost_job_reason (jobID : string) : string := "L1 lost the dispatched job " +:+ jobID +:+ "; the work was not replayed".

Definition lost_due (run : projectedRun) (e : RunEntry) : bool :=
  bool_decide (r_status (en_run e) = p_State run) && bool_decide (r_l1_job_id (en_run e) = Some (p_JobID run))
  && bool_decide (o_job_id (en_outbox e) = Some (p_JobID run)) && bool_decide (is_Some (o_dispatched_ns (en_outbox e))).

Definition lose_job (now grace : Z) (run : projectedRun) (e : RunEntry) : RunEntry :=
  let e := set_run (fun r => r <| r_status := RunFailed |> <| r_failure_reason := nullableReason (lost_job_reason (p_JobID run)) |>
             <| r_updated_ns := now |> <| r_started_ns := Some (default now (r_started_ns r)) |>
             <| r_finished_ns := Some (default now (r_finished_ns r)) |>) e in
  let e := set_outbox (fun o => o <| o_last_error := Some (l1RegressionCause (p_JobID run)) |>) e in
  clearDispatchRetry (expire_token (now + grace) e).

Definition failMissingL1Job (now grace : Z) (run : projectedRun) (l : Ledger) : Ledger * bool :=
  if bool_decide (p_JobID run = "") || run_terminal (p_State run) then (l, false)
  else match lg_runs l !! p_RunID run with
       | Some e => if lost_due run e then (exec_run (p_RunID run) (lose_job now grace run) l, true) else (l, false)
       | None => (l, false)
       end.

(** ** The dispatch hold *)

(** The first refusal starts a hold; a later one fences a probe in flight. *)
Definition holdDispatch (now : Z) (reason : string) (l : Ledger) : Ledger :=
  let h := lg_hold l in
  if bool_decide (is_Some (h_since_ns h)) && bool_decide (h_reason h = reason) && bool_decide (h_probe_id h = "") then l
  else
  let fresh := bool_decide (h_since_ns h = None) in
  l <| lg_hold := h
      <| h_generation := if bool_decide (h_generation h = 0) then 1
                         else if bool_decide (h_probe_id h = "") then h_generation h else h_generation h + 1 |>
      <| h_since_ns := Some (default now (h_since_ns h)) |> <| h_reason := reason |>
      <| h_next_probe_ns := if fresh then now + Second else h_next_probe_ns h |>
      <| h_failures := if fresh then 0 else h_failures h |> |>.

Record dispatchProbe := mkdispatchProbe { dp_generation : Z; dp_id : string }.

Definition probe_due (now : Z) (h : DispatchHoldRow) : bool :=
  bool_decide (is_Some (h_since_ns h)) && (h_next_probe_ns h <=? now) && (h_probe_until_ns h <=? now).

(** The read before the transaction only saves a write lock. *)
Definition reserveDispatchProbe (now budget : Z) (fresh : string) (l : Ledger) : Ledger * option dispatchProbe :=
  let h := lg_hold l in
  if probe_due now h
  then (l <| lg_hold := h <| h_probe_id := fresh |> <| h_probe_until_ns := now + (budget + Second) |> |>,
        Some (mkdispatchProbe (h_generation h) fresh))
  else (l, None).

Definition finishDispatchProbe (now : Z) (p : dispatchProbe) (admitted : bool) (l : Ledger) : Ledger :=
  let h := lg_hold l in
  if bool_decide (h_probe_id h <> dp_id p) then l
  else if admitted && bool_decide (h_generation h = dp_generation p)
  then l <| lg_hold := h <| h_since_ns := None |> <| h_reason := "" |> <| h_failures := 0 |> <| h_next_probe_ns := 0 |>
                         <| h_probe_id := "" |> <| h_probe_until_ns := 0 |> |>
  else l <| lg_hold := h <| h_failures := h_failures h + 1 |> <| h_next_probe_ns := now + dispatchRetryBackoff (h_failures h) |>
                         <| h_probe_id := "" |> <| h_probe_until_ns := 0 |> |>.
