(* ===== verification/RunProtocol.v ===== *)
(** * Creating runs, their protocol writes and the projection of their jobs

    [l3/store.go]: run creation and reruns, envelopes and gate results written
    with a run token, the rejection of invalid ones, and the projection of what
    L1 says of a job onto its run.  What depends on JSON schemas, on workflows,
    on Computer grants and on captured exec inputs is an argument: the decoded
    request or body, and the verdicts. *)
From S2P Require Import Prelude Order States Contract GoStrings JobSpec RunLedger RunDispatch.
#[local] Open Scope string_scope.
#[local] Open Scope list_scope.
#[local] Open Scope Z_scope.

(** ** Creating a run *)

(** A normalized request; the program is its inline script or image, or what
    its workflow reference resolves to. *)
Record CreateRunInput := mkCreateRunInput {
  ci_Actor : string;
  ci_IdempotencyKey : string;
  ci_requestHash : string;
  ci_ParentRunID : string;
  ci_Params : string;
  ci_Tags : list string;
  ci_Limits : option Z;
  ci_EnvelopeSchema : option string;
  ci_RequiredEnvelope : bool;
  ci_DispatchAuthority : bool;
  ci_Restartable : bool
}.

(** The verdicts of other tables and of L1: the grant and in-flight checks of a
    Computer, the workflow resolution, the final proof of the Computer's scope,
    and the captured exec input. *)
Record creation_verdicts := mkcreation_verdicts {
  cv_computer : option (result ErrorCode unit);
  cv_program : result ErrorCode run_program;
  cv_proof : result ErrorCode unit;
  cv_capture : result ErrorCode unit
}.

Definition coded {A} (r : result ErrorCode A) : result ledger_error A :=
  match r with Ok a => Ok a | Err code => Err (Coded code) end.

Definition by_idempotency_key (actor key : string) (l : Ledger) : option (string * RunEntry) :=
  head (List.filter (fun r : string * RunEntry => bool_decide (r_actor (en_run r.2) = actor)
                       && bool_decide (r_idempotency_key (en_run r.2) = key)) (map_to_list (lg_runs l))).

(** The same key with the same request answers its run; with another one it conflicts. *)
Definition replay_run (actor key requestHash : string) : ledger_tx (string * bool) unit :=
  let! existing := reads (by_idempotency_key actor key) in
  match existing with
  | Some (runID, e) =>
      if bool_decide (r_request_hash (en_run e) = requestHash) then answer (runID, true)
      else fail (Coded ErrorIdempotencyConflict)
  | None => pure tt
  end.

Definition validate_program (lower_table : Z -> Z) (program : run_program) (tags : list string) : result ErrorCode unit :=
  match program with
  | RunScript _ _ _ _ => Ok tt
  | RunImage image =>
      match ValidateImageProgram image JobClassOneShot with
      | Err _ => Err ErrorInvalidRequest
      | Ok _ => match ValidatePinnedRouting lower_table image tags with Err _ => Err ErrorInvalidRequest | Ok _ => Ok tt end
      end
  end.

Definition dispatch_key_of (runID : string) : string := "run:" +:+ runID.

(** The rows a creation inserts. *)
Definition new_run (now : Z) (runID : string) (input : CreateRunInput) (parent : option string) (source : string)
    (sourceRunID : option string) (program : run_program) : RunEntry :=
  mkRunEntry
    (mkRunRow parent (dispatch_key_of runID) (ci_Actor input) (ci_IdempotencyKey input) (ci_requestHash input) RunPending
       (ci_Params input) (ci_Tags input) (ci_Limits input) (ci_EnvelopeSchema input) (ci_RequiredEnvelope input)
       (ci_DispatchAuthority input) (ci_Restartable input) None None None false false 0 0 None now now None None)
    (mkRunTriggerRow (ci_Actor input) source sourceRunID) program
    (mkOutboxRow (dispatch_key_of runID) None 0 None None None) None None None.

(** The run ID is drawn at random; one that is taken violates the primary key. *)
Definition insert_run {R} (runID : string) (e : RunEntry) : ledger_tx R unit :=
  let! taken := reads (fun l => bool_decide (is_Some (lg_runs l !! runID))) in
  let! _ := check (negb taken) internal in
  writes (fun l => l <| lg_runs := <[runID := e]> (lg_runs l) |>).

Definition check_parent {R} (parentRunID : string) : ledger_tx R unit :=
  if bool_decide (parentRunID = "") then pure tt
  else let! parent := need (fun l => lg_runs l !! parentRunID) (Coded ErrorNotFound) in
       check (negb (run_terminal (r_status (en_run parent)))) (Coded ErrorConflict).

Definition optional (s : string) : option string := if bool_decide (s = "") then None else Some s.

(** Where the run came from. *)
Definition trigger_source (input : CreateRunInput) (computer : bool) : string * option string :=
  if computer then ("computer", None)
  else match optional (ci_ParentRunID input) with Some parent => ("chain", Some parent) | None => ("manual", None) end.

Definition CreateRun (lower_table : Z -> Z) (now : Z) (input : CreateRunInput) (verdicts : creation_verdicts) (runID : string) :
    ledger_tx (string * bool) (string * bool) :=
  let computer := bool_decide (is_Some (cv_computer verdicts)) in
  let! _ := replay_run (ci_Actor input) (ci_IdempotencyKey input) (ci_requestHash input) in
  let! _ := lift (coded (default (Ok tt) (cv_computer verdicts))) in
  let! _ := check_parent (ci_ParentRunID input) in
  let! program := lift (coded (cv_program verdicts)) in
  let! _ := lift (coded (validate_program lower_table program (ci_Tags input))) in
  let! _ := lift (coded (if computer then cv_proof verdicts else Ok tt)) in
  let! _ := insert_run runID (new_run now runID input (optional (ci_ParentRunID input))
                                (trigger_source input computer).1 (trigger_source input computer).2 program) in
  let! _ := lift (coded (cv_capture verdicts)) in
  pure (runID, false).

(** ** Reruns *)
Record CreateRerunInput := mkCreateRerunInput {
  ri_Actor : string;
  ri_IdempotencyKey : string;
  ri_SourceRunID : string
}.

Definition stable_node_tags (tags : list string) : nat :=
  length (List.filter (fun tag => HasPrefix tag StableNodeTagPrefix && (strlen StableNodeTagPrefix <? strlen tag)) tags).

#[export] Instance ImageProgram_eta : Eta ImageProgram := fun p =>
  mkImageProgram (ip_Reference p) (ip_Digest p) (ip_Argv p) (ip_WorkingDirectory p) (ip_Mounts p) (ip_Limits p)
    (ip_RuntimeHandler p) (ip_digestNull p) (ip_argvNull p) (ip_workingDirNull p) (ip_mountsNull p) (ip_limitsNull p).

(** The program of a rerun: an image without a digest is pinned to what the
    source resolved. *)
Definition rerun_program (resolution : option string) (program : run_program) : result ErrorCode run_program :=
  match program with
  | RunScript _ _ _ _ => Ok program
  | RunImage image =>
      match ip_Digest image, resolution with
      | Some _, _ => Ok program
      | None, None => Err ErrorNoResolvedImageSnapshot
      | None, Some top => Ok (RunImage (image <| ip_Digest := Some top |>))
      end
  end.

Definition CreateRerun (request_hash : string -> string -> string) (seat : string -> bool) (now : Z) (input : CreateRerunInput)
    (resolution : option string) (captured attached : result ErrorCode unit) (runID : string) :
    ledger_tx (string * bool) (string * bool) :=
  let actor := TrimSpace (ri_Actor input) in
  let key := TrimSpace (ri_IdempotencyKey input) in
  let sourceRunID := TrimSpace (ri_SourceRunID input) in
  let! _ := check (negb (bool_decide (key = "")) && (strlen key <=? 255)) (Coded ErrorInvalidRequest) in
  let! _ := check (negb (bool_decide (actor = ""))) (Coded ErrorUnauthorized) in
  let! _ := check (negb (bool_decide (sourceRunID = ""))) (Coded ErrorInvalidRequest) in
  let! source := reads (fun l => lg_runs l !! sourceRunID) in
  let! _ := match source with Some e => check (negb (seat (r_params (en_run e)))) SeatRunRerun | None => pure tt end in
  let! _ := match source with Some _ => lift (coded captured) | None => pure tt end in
  let! _ := replay_run actor key (request_hash actor sourceRunID) in
  let! e := need (fun _ => source) (Coded ErrorNotFound) in
  let r := en_run e in
  let! program := lift (coded (rerun_program resolution (en_program e))) in
  let! _ := check (match program with
                   | RunScript _ _ _ _ => bool_decide (stable_node_tags (r_tags r) = 1%nat)
                   | RunImage _ => true
                   end) (Coded ErrorInvalidRequest) in
  let copied := mkCreateRunInput actor key (request_hash actor sourceRunID) "" (r_params r) (r_tags r) (r_limits r)
                  (r_envelope_schema r) (r_required_envelope r) (r_dispatch_authority r) (r_restartable r) in
  let! _ := insert_run runID (new_run now runID copied None "rerun" (Some sourceRunID) program) in
  let! _ := lift (coded attached) in
  pure (runID, false).

(** ** Protocol writes *)
#[export] Instance RejectionRow_eq_dec : EqDecision RejectionRow.
Proof. solve_decision. Defined.

Record RunTokenScope := mkRunTokenScope { rt_RunID : string; rt_AttemptID : string }.

Definition AuthenticateRunToken (token_digest : string -> string) (now : Z) (token : string) (l : Ledger) :
    result ErrorCode RunTokenScope :=
  if bool_decide (token = "") then Err ErrorUnauthorized
  else
  match head (List.filter (fun r : string * RunEntry => match en_token r.2 with
                             | Some k => bool_decide (tk_token_hash k = token_digest token) | None => false end)
                (map_to_list (lg_runs l))) with
  | Some (runID, e) =>
      match en_token e with
      | Some k => if match tk_expires_ns k with Some expires => negb (now <? expires) | None => false end
                  then Err ErrorUnauthorized else Ok (mkRunTokenScope runID (tk_attempt_id k))
      | None => Err ErrorUnauthorized
      end
  | None => Err ErrorUnauthorized
  end.

(** The decoded fields of an envelope or a gate result. *)
Record protocol_body := mkprotocol_body {
  pb_ID : string;
  pb_RunID : string;
  pb_AttemptID : string;
  pb_IdempotencyKey : string;
  pb_Outcome : string;
  pb_Name : string
}.

(** A canonical body: its digest, the key it is rejected under, and its decoding;
    [None] when it fails its schema, which [invalid] summarizes. *)
Record protocol_write := mkprotocol_write {
  pw_hash : string;
  pw_rejection_key : string;
  pw_body : option protocol_body;
  pw_invalid : string
}.

Definition errRunIDMismatch : string := "run_id must match the authenticated run".
Definition errAttemptIDMismatch : string := "attempt_id must match the authenticated run attempt".

Definition rejectProtocolWrite (now grace : Z) (runID kind idempotencyKey summary : string) (l : Ledger) : Ledger :=
  let row := mkRejectionRow runID kind idempotencyKey in
  exec_run runID (failRunTx now grace summary)
    (if bool_decide (row ∈ lg_rejections l) then l else l <| lg_rejections := lg_rejections l ++ [row] |>).

(** The binding checks. *)
Definition bound_body (scope : RunTokenScope) (kind : string) (w : protocol_write) : result string protocol_body :=
  match pw_body w with
  | None => Err (pw_invalid w)
  | Some b =>
      if negb (bool_decide (pb_RunID b = rt_RunID scope)) then Err ("rejected " +:+ kind +:+ ": " +:+ errRunIDMismatch)
      else if negb (bool_decide (pb_AttemptID b = rt_AttemptID scope))
      then Err ("rejected " +:+ kind +:+ ": " +:+ errAttemptIDMismatch)
      else Ok b
  end.

(** The refusal is committed with the failure of the run. *)
Definition rejected {A} (now grace : Z) (scope : RunTokenScope) (kind : string) (w : protocol_write) (summary : string) :
    ledger_tx bool A :=
  let! _ := writes (rejectProtocolWrite now grace (rt_RunID scope) kind (pw_rejection_key w) summary) in
  commit (Err (Coded ErrorInvalidRequest)).

(** An envelope is validated against the schema its run was submitted with, if
    it has one; [conforms] gives the summary of a violation.  The answer tells a
    replay. *)
Definition AppendEnvelope (conforms : string -> protocol_body -> option string) (now grace : Z) (scope : RunTokenScope)
    (w : protocol_write) : ledger_tx bool bool :=
  match bound_body scope "envelope" w with
  | Err summary => rejected now grace scope "envelope" w summary
  | Ok b =>
      let! e := need (fun l => lg_runs l !! rt_RunID scope) (Coded ErrorNotFound) in
      match r_envelope_schema (en_run e) ≫= (fun schema => conforms schema b) with
      | Some summary => rejected now grace scope "envelope" w summary
      | None =>
          let! existing := reads (fun l => head (List.filter (fun r : string * EnvelopeRow =>
              bool_decide (ev_run_id r.2 = rt_RunID scope) && bool_decide (ev_idempotency_key r.2 = pb_IdempotencyKey b))
              (map_to_list (lg_envelopes l)))) in
          match existing with
          | Some (_, v) => if bool_decide (ev_body_hash v = pw_hash w) then answer true else fail (Coded ErrorIdempotencyConflict)
          | None =>
              let! taken := reads (fun l => bool_decide (is_Some (lg_envelopes l !! pb_ID b))) in
              let! _ := check (negb taken) (Coded ErrorIdempotencyConflict) in
              let! _ := writes (fun l => l <| lg_envelopes :=
                <[pb_ID b := mkEnvelopeRow (rt_RunID scope) (pb_IdempotencyKey b) (pw_hash w)]> (lg_envelopes l) |>) in
              pure false
          end
      end
  end.

Definition GateFail : string := "fail".
Definition GateError : string := "error".
Definition gate_failed (outcome : string) : bool := bool_decide (outcome = GateFail) || bool_decide (outcome = GateError).

(** [fmt]'s [%q] of the gate's name is an argument. *)
Definition AppendGateResult (quote : string -> string) (now grace : Z) (scope : RunTokenScope) (w : protocol_write) :
    ledger_tx bool bool :=
  match bound_body scope "gate" w with
  | Err summary => rejected now grace scope "gate" w summary
  | Ok b =>
      let! existing := reads (fun l => head (List.filter (fun r : string * GateRow =>
          bool_decide (g3_run_id r.2 = rt_RunID scope) && bool_decide (g3_idempotency_key r.2 = pb_IdempotencyKey b))
          (map_to_list (lg_gates l)))) in
      match existing with
      | Some (_, g) => if bool_decide (g3_body_hash g = pw_hash w) then answer true else fail (Coded ErrorIdempotencyConflict)
      | None =>
          let! taken := reads (fun l => bool_decide (is_Some (lg_gates l !! pb_ID b))) in
          let! _ := check (negb taken) (Coded ErrorIdempotencyConflict) in
          let! _ := writes (fun l => l <| lg_gates :=
            <[pb_ID b := mkGateRow (rt_RunID scope) (pb_IdempotencyKey b) (pw_hash w) (pb_Outcome b)]> (lg_gates l) |>) in
          let! _ := writes (fun l => if gate_failed (pb_Outcome b)
            then exec_run (rt_RunID scope)
                   (failRunTx now grace ("gate " +:+ quote (pb_Name b) +:+ " reported " +:+ pb_Outcome b)) l
            else l) in
          pure false
      end
  end.

(** ** Projection *)
Definition run_rank (s : RunState) : Z :=
  match s with
  | RunPending => 0 | RunDispatching => 1 | RunQueued => 2 | RunRunning => 3 | RunAwaitingInput => 4
  | RunSucceeded | RunFailed => 5
  end.

(** The run state a job state stands for; the lifecycle-only states have none. *)
Definition projection_target (current : RunState) (job : JobState) : option RunState :=
  match job with
  | JobQueued | JobClaimed => Some RunQueued
  | JobRunning => Some RunRunning
  | JobAwaitingInput => Some RunAwaitingInput
  | JobSucceeded => Some (if bool_decide (current = RunQueued) then RunRunning else RunSucceeded)
  | JobFailed => Some RunFailed
  | _ => None
  end.

(** The state to move to, if any. *)
Definition ProjectJobState (current : RunState) (job : JobState) : result ErrorCode (option RunState) :=
  if run_terminal current then Ok None
  else match projection_target current job with
       | None => Err ErrorInvalidRequest
       | Some target =>
           if bool_decide (current = target) then Ok None
           else if negb (bool_decide (current = RunAwaitingInput) && bool_decide (target = RunRunning))
                   && negb (run_terminal target) && (run_rank target <? run_rank current)
           then Ok None else Ok (Some target)
       end.

Definition children (runID : string) (l : Ledger) : list RunEntry :=
  List.filter (fun e => bool_decide (r_parent_run_id (en_run e) = Some runID)) (map_to_list (lg_runs l)).*2.

(** What the ledger itself knows against a run whose job exited zero. *)
Record run_evidence := mkrun_evidence {
  re_acceptedEnvelopes : nat;
  re_rejectedWrites : nat;
  re_failedGates : nat;
  re_activeChildren : nat;
  re_failedChildren : nat
}.

Definition evidence_of (runID : string) (l : Ledger) : run_evidence :=
  mkrun_evidence
    (length (List.filter (fun v => bool_decide (ev_run_id v = runID)) (map_to_list (lg_envelopes l)).*2))
    (length (List.filter (fun p => bool_decide (pr_run_id p = runID)) (lg_rejections l)))
    (length (List.filter (fun g => bool_decide (g3_run_id g = runID) && gate_failed (g3_outcome g)) (map_to_list (lg_gates l)).*2))
    (length (List.filter (fun e => negb (run_terminal (r_status (en_run e)))) (children runID l)))
    (length (List.filter (fun e => bool_decide (r_status (en_run e) = RunFailed)) (children runID l))).

Definition succeededJobFailureReason (ev : run_evidence) : string :=
  if (0 <? re_rejectedWrites ev)%nat
  then "the job exited 0, but the ledger rejected " +:+ pretty (re_rejectedWrites ev) +:+ " of its protocol writes"
  else if (0 <? re_failedGates ev)%nat
  then "the job exited 0, but " +:+ pretty (re_failedGates ev) +:+ " of its gates reported fail or error"
  else if (0 <? re_failedChildren ev)%nat
  then "the job exited 0, but " +:+ pretty (re_failedChildren ev) +:+ " of its child runs failed"
  else "the job exited 0 without reporting the envelope --required-envelope requires".

(** The state to record and its reason; [None] when an exit-zero parent keeps
    waiting for its children. *)
Definition succeeded_outcome (run : projectedRun) (ev : run_evidence) (target : RunState) : option (RunState * string) :=
  if (0 <? re_rejectedWrites ev)%nat || (0 <? re_failedGates ev)%nat || (0 <? re_failedChildren ev)%nat
     || (p_RequiredEnvelope run && (re_acceptedEnvelopes ev =? 0)%nat)
  then Some (RunFailed, succeededJobFailureReason ev)
  else if (0 <? re_activeChildren ev)%nat
  then if bool_decide (p_State run = RunRunning) then None else Some (RunRunning, "")
  else Some (target, "").

Definition projected_outcome (run : projectedRun) (jobState : JobState) (jobFailure : string) (ev : run_evidence)
    (target : RunState) : option (RunState * string) :=
  if bool_decide (jobState = JobSucceeded) then succeeded_outcome run ev target
  else if bool_decide (jobState = JobFailed)
  then Some (target, if bool_decide (jobFailure = "") then "the L1 job failed" else jobFailure)
  else Some (target, "").

Definition record_projection (now grace : Z) (target : RunState) (reason : string) (e : RunEntry) : RunEntry :=
  let started := bool_decide (target = RunRunning) || bool_decide (target = RunAwaitingInput) || run_terminal target in
  let finished := run_terminal target in
  let reason := if bool_decide (target = RunFailed) then nullableReason reason else None in
  let e := set_run (fun r => r <| r_status := target |> <| r_updated_ns := now |>
             <| r_failure_reason := match reason with Some reason => Some reason | None => r_failure_reason r end |>
             <| r_started_ns := if started then Some (default now (r_started_ns r)) else r_started_ns r |>
             <| r_finished_ns := if finished then Some now else r_finished_ns r |>) e in
  if finished then clearStagedTokenDelivery (expire_token (now + grace) e) else e.

Definition projectJobOutcome (now grace : Z) (run : projectedRun) (jobState : JobState) (jobFailure : string) :
    ledger_tx unit unit :=
  let! projection := lift (coded (ProjectJobState (p_State run) jobState)) in
  match projection with
  | None => answer tt
  | Some target =>
      let! ev := reads (evidence_of (p_RunID run)) in
      match projected_outcome run jobState jobFailure ev target with
      | None => answer tt
      | Some (target, reason) =>
          writes (exec_run (p_RunID run) (fun e =>
            if bool_decide (r_status (en_run e) = p_State run) then record_projection now grace target reason e else e))
      end
  end.

(** ** Node attribution *)
Definition record_run_node (now : Z) (nodeID : string) (settled : bool) (e : RunEntry) : RunEntry :=
  let r := en_run e in
  let replaceable := if settled then nodeID else "" in
  if (bool_decide (default "" (r_node_id r) = "")
      || (negb (bool_decide (replaceable = "")) && negb (bool_decide (r_node_id r = Some replaceable))))
     && negb (run_terminal (r_status r))
  then set_run (fun r => r <| r_node_id := Some nodeID |> <| r_updated_ns := now |>) e else e.

Definition recordRunNode (now : Z) (runID nodeID : string) (settled : bool) (l : Ledger) : Ledger :=
  if bool_decide (nodeID = "") then l else exec_run runID (record_run_node now nodeID settled) l.

Definition settle_node (nodeID : string) (e : RunEntry) : RunEntry :=
  if r_node_attribution_pending (en_run e)
  then set_run (fun r => r <| r_node_id := if bool_decide (default "" (r_node_id r) = "") && negb (bool_decide (nodeID = ""))
                                           then Some nodeID else r_node_id r |>
                           <| r_node_attribution_pending := false |>) e
  else e.

Definition settleNodeAttribution (runID nodeID : string) : Ledger -> Ledger := exec_run runID (settle_node nodeID).
