(* ===== verification/RunHistory.v ===== *)
(** * The history of a run

    Every transaction of the run ledger, taken as a step, moves each run forward:
    the columns of its creation stay, its status follows the run state machine,
    an outcome, a job link and a token are recorded once, and the rows of one run
    agree with each other. *)
From S2P Require Import Prelude Order States Contract GoStrings JobSpec RunLedger RunDispatch RunProtocol.
#[local] Open Scope string_scope.
#[local] Open Scope list_scope.
#[local] Open Scope Z_scope.

(** ** The rows of one run *)
Definition run_edge (s s' : RunState) : Prop := CanTransition RunTransitions s s' = true.

Record entry_ok (e : RunEntry) : Prop := {
  ok_key : o_dispatch_key (en_outbox e) = r_dispatch_key (en_run e);
  ok_link : forall jobID, r_l1_job_id (en_run e) = Some jobID -> o_job_id (en_outbox e) = Some jobID;
  ok_outbox : is_Some (o_job_id (en_outbox e)) <-> is_Some (o_dispatched_ns (en_outbox e));
  ok_named : o_job_id (en_outbox e) <> Some "";
  ok_dispatched : is_Some (o_dispatched_ns (en_outbox e)) -> run_waiting (r_status (en_run e)) = false;
  ok_linked : run_waiting (r_status (en_run e)) = false -> run_terminal (r_status (en_run e)) = false ->
    is_Some (r_l1_job_id (en_run e));
  ok_pending : r_status (en_run e) = RunPending -> r_dispatch_attempt_ns (en_run e) = None /\ en_token e = None;
  ok_dispatching : r_status (en_run e) = RunDispatching ->
    is_Some (r_dispatch_attempt_ns (en_run e)) /\ is_Some (o_token_delivery (en_outbox e));
  ok_staged : is_Some (o_token_delivery (en_outbox e)) ->
    r_status (en_run e) = RunDispatching /\ is_Some (en_token e);
  ok_bearer : o_token_delivery (en_outbox e) <> Some "";
  ok_expiry : forall k, en_token e = Some k -> is_Some (tk_expires_ns k) <-> run_terminal (r_status (en_run e)) = true;
  ok_finished : is_Some (r_finished_ns (en_run e)) <-> run_terminal (r_status (en_run e)) = true
}.

(** ** One run against a later version of it *)

(** What its creation fixed. *)
Definition fixed_of (e : RunEntry) :=
  let r := en_run e in
  (r_parent_run_id r, r_dispatch_key r, r_actor r, r_idempotency_key r, r_request_hash r,
   (r_params r, r_tags r, r_limits r, r_envelope_schema r, r_required_envelope r, r_dispatch_authority r, r_restartable r,
    r_created_ns r),
   en_trigger e, en_program e, o_dispatch_key (en_outbox e)).

Definition outcome_of (e : RunEntry) :=
  let r := en_run e in (r_status r, r_failure_reason r, r_started_ns r, r_finished_ns r).

Definition token_identity (k : RunTokenRow) := (tk_attempt_id k, tk_token_hash k, tk_minted_ns k).

(** What is recorded once stays. *)
Definition kept_once {A} (before after : option A) : Prop := forall a, before = Some a -> after = Some a.

(** What an operation may do: record a success, link a job, mint a token. *)
Record licence := mklicence {
  may_win : Prop;
  may_link : string -> Prop;
  may_mint : string -> string -> Prop
}.

Record advances_ (may : licence) (e e' : RunEntry) : Prop := {
  adv_fixed : fixed_of e' = fixed_of e;
  adv_path : rtc run_edge (r_status (en_run e)) (r_status (en_run e'));
  adv_final : run_terminal (r_status (en_run e)) = true -> outcome_of e' = outcome_of e;
  adv_success : r_status (en_run e') = RunSucceeded -> r_status (en_run e) = RunSucceeded \/ may_win may;
  adv_link : kept_once (r_l1_job_id (en_run e)) (r_l1_job_id (en_run e'));
  adv_outbox : kept_once (o_job_id (en_outbox e)) (o_job_id (en_outbox e'));
  adv_acked : forall jobID, o_job_id (en_outbox e') = Some jobID -> o_job_id (en_outbox e) = Some jobID \/ may_link may jobID;
  adv_unattempted : is_Some (en_cancellation e) \/ run_terminal (r_status (en_run e)) = true ->
    r_dispatch_attempt_ns (en_run e) = None -> r_dispatch_attempt_ns (en_run e') = None;
  adv_attempted : is_Some (r_dispatch_attempt_ns (en_run e)) -> is_Some (r_dispatch_attempt_ns (en_run e'));
  adv_canceled : is_Some (en_cancellation e) -> is_Some (en_cancellation e');
  adv_token : forall k, en_token e = Some k -> exists k', en_token e' = Some k' /\ token_identity k' = token_identity k
    /\ kept_once (tk_expires_ns k) (tk_expires_ns k');
  adv_minted : forall k, en_token e' = Some k -> en_token e = None -> may_mint may (tk_token_hash k) (tk_attempt_id k);
  adv_staged : is_Some (en_token e) -> forall token, o_token_delivery (en_outbox e') = Some token ->
    o_token_delivery (en_outbox e) = Some token;
  adv_ok : entry_ok e -> entry_ok e'
}.
Arguments adv_fixed {may e e'} _.
Arguments adv_path {may e e'} _.
Arguments adv_final {may e e'} _.
Arguments adv_success {may e e'} _.
Arguments adv_link {may e e'} _.
Arguments adv_outbox {may e e'} _.
Arguments adv_acked {may e e'} _.
Arguments adv_unattempted {may e e'} _.
Arguments adv_attempted {may e e'} _.
Arguments adv_canceled {may e e'} _.
Arguments adv_token {may e e'} _.
Arguments adv_minted {may e e'} _.
Arguments adv_staged {may e e'} _.
Arguments adv_ok {may e e'} _.

#[export] Instance advances_preorder may : PreOrder (advances_ may).
Proof.
  split.
  - intros e. split; unfold kept_once; try done; try congruence; eauto.
  - intros e1 e2 e3 [F1 P1 N1 S1 L1 O1 J1 U1 A1 C1 T1 M1 G1 K1] [F2 P2 N2 S2 L2 O2 J2 U2 A2 C2 T2 M2 G2 K2]. split; auto.
    + congruence.
    + by etrans.
    + intros H. assert (E := N1 H). rewrite N2; [done|]. unfold outcome_of in E. congruence.
    + intros [H|H]%S2; auto.
    + intros id H. auto.
    + intros id H. auto.
    + intros id [H|H]%J2; auto.
    + intros H Ha. apply U2; [|by apply U1]. destruct H as [H|H]; [left; auto|]. right.
      assert (E := N1 H). unfold outcome_of in E. congruence.
    + intros k Hk. destruct (T1 k Hk) as (k2 & E2 & I2 & X2). destruct (T2 k2 E2) as (k3 & E3 & I3 & X3).
      exists k3. split_and!; [done | congruence | intros x Hx; auto].
    + intros k3 E3 E1. destruct (en_token e2) as [k2|] eqn:E2; [|by apply M2].
      destruct (T2 k2 eq_refl) as (k & Ek & I & _). assert (k = k3) as -> by congruence.
      unfold token_identity in I. injection I as -> -> _. by apply M1.
    + intros [k Hk] token Ht. apply G1; [by exists k|]. apply G2; [|done]. destruct (T1 k Hk) as (k2 & E2 & _). by exists k2.
Qed.

Lemma advances_weaken (may may' : licence) e e' :
  (may_win may -> may_win may') -> (forall id, may_link may id -> may_link may' id) ->
  (forall hash id, may_mint may hash id -> may_mint may' hash id) -> advances_ may e e' -> advances_ may' e e'.
Proof.
  intros H1 H2 H3 []. split; try done; [intros E; destruct (adv_success0 E); auto | intros id E; destruct (adv_acked0 id E); auto | auto].
Qed.

Lemma run_path_eval (s s' : RunState) (path : list RunState) :
  (fix walk s path := match path with [] => bool_decide (s = s') | s1 :: path => CanTransition RunTransitions s s1 && walk s1 path end)
    s path = true -> rtc run_edge s s'.
Proof.
  revert s. induction path as [|s1 path IH]; intros s H.
  - apply bool_decide_eq_true in H as ->. done.
  - apply andb_true_iff in H as [H1 H2]. eapply rtc_l; [exact H1 | by apply IH].
Qed.

Lemma run_path_failed s : run_terminal s = false -> rtc run_edge s RunFailed.
Proof. intros H. apply (run_path_eval _ _ [RunFailed]). by destruct s. Qed.

(** The columns the invariant reads. *)
Definition core_of (e : RunEntry) :=
  (fixed_of e, outcome_of e, r_l1_job_id (en_run e), r_dispatch_attempt_ns (en_run e),
   (o_job_id (en_outbox e), o_dispatched_ns (en_outbox e), o_token_delivery (en_outbox e)), en_token e).

Lemma advances_core may e e' :
  core_of e' = core_of e -> (is_Some (en_cancellation e) -> is_Some (en_cancellation e')) -> advances_ may e e'.
Proof.
  intros E HC. unfold core_of, fixed_of, outcome_of in E. simplify_eq.
  split; unfold kept_once, fixed_of, outcome_of; try congruence.
  - by replace (r_status (en_run e')) with (r_status (en_run e)).
  - intros ?. left. congruence.
  - intros id ?. left. congruence.
  - exact HC.
  - intros k Hk. exists k. split_and!; congruence.
  - intros []. split; repeat match goal with Heq : ?x = ?y |- context [?x] => rewrite Heq end; done.
Qed.

(** ** Single operations *)
Section Operations.
Context (may : licence).
Abbreviation advances := (advances_ may).

(** Dropping the staged bearer of a run that is no longer being dispatched. *)
Lemma advances_unstage e :
  r_status (en_run e) <> RunDispatching -> advances e (set_outbox (fun o => o <| o_token_delivery := None |>) e).
Proof.
  intros Hs. split; unfold kept_once; simpl; try done; try (intros; by left); try congruence; [intros k Hk; by exists k|].
  intros []. split; simpl; try done; by intros [].
Qed.

Lemma expire_token_lookup expires e k :
  en_token e = Some k ->
  en_token (expire_token expires e) = Some (k <| tk_expires_ns := Some (default expires (tk_expires_ns k)) |>).
Proof. intros H. unfold expire_token. simpl. by rewrite H. Qed.

(** A run that ends: the status, the reason and the times are written, its
    token gets an expiry and the staged bearer goes. *)
Lemma advances_end e e' expires :
  run_terminal (r_status (en_run e)) = false -> run_terminal (r_status (en_run e')) = true ->
  (r_status (en_run e') = RunSucceeded -> may_win may) -> is_Some (r_finished_ns (en_run e')) ->
  fixed_of e' = fixed_of e -> r_l1_job_id (en_run e') = r_l1_job_id (en_run e) ->
  r_dispatch_attempt_ns (en_run e') = r_dispatch_attempt_ns (en_run e) ->
  o_job_id (en_outbox e') = o_job_id (en_outbox e) -> o_dispatched_ns (en_outbox e') = o_dispatched_ns (en_outbox e) ->
  (en_token e' = en_token (expire_token expires e)) -> en_cancellation e' = en_cancellation e ->
  o_token_delivery (en_outbox e') = None -> rtc run_edge (r_status (en_run e)) (r_status (en_run e')) -> advances e e'.
Proof.
  intros Hlive Hend Hwin Hfin HF HL HA HO HD HT HC HS HP. split; unfold kept_once; try done; try congruence.
  - intros E. right. by apply Hwin.
  - intros id Hid. left. congruence.
  - intros k Hk. rewrite HT, (expire_token_lookup _ _ _ Hk). eexists. split; [done|]. split; [done|].
    intros x Hx. simpl. by rewrite Hx.
  - intros k Hk Hn. rewrite HT in Hk. unfold expire_token in Hk. simpl in Hk. by rewrite Hn in Hk.
  - intros []. unfold fixed_of in HF. simplify_eq. split; rewrite ?HL, ?HO, ?HD, ?HS; try done; try congruence.
    + intros _. by destruct (r_status (en_run e')).
    + intros E. by rewrite E in Hend.
    + intros E. by rewrite E in Hend.
    + intros k Hk. rewrite HT in Hk. unfold expire_token in Hk. simpl in Hk. destruct (en_token e); [|done].
      injection Hk as <-. simpl. split; [done|]. by eexists.
Qed.

Lemma run_terminal_cases s : run_terminal s = true -> s = RunSucceeded \/ s = RunFailed.
Proof. destruct s; try done; auto. Qed.

Lemma advances_failRunTx now grace reason e : advances e (failRunTx now grace reason e).
Proof.
  unfold failRunTx. destruct (run_terminal _) eqn:Ht.
  - unfold clearStagedTokenDelivery. etrans; [|apply advances_unstage]; [by apply advances_core|].
    simpl. intros E. by rewrite E in Ht.
  - apply (advances_end _ _ (now + grace)); try done. by apply run_path_failed.
Qed.

Lemma advances_fail_dispatch now grace err e : advances e (fail_dispatch now grace err e).
Proof.
  unfold fail_dispatch, failRunTx. destruct (bool_decide _); simpl; destruct (run_terminal _) eqn:Ht.
  1, 3: etrans; [apply (advances_unstage e); intros E; by rewrite E in Ht | by apply advances_core].
  all: apply (advances_end _ _ (now + grace)); try done; by apply run_path_failed.
Qed.

Lemma advances_lose_job now grace run e : lost_due run e = true -> run_terminal (p_State run) = false ->
  entry_ok e -> advances e (lose_job now grace run e).
Proof.
  unfold lost_due. intros H Ht Hok. rewrite !andb_true_iff, !bool_decide_eq_true in H. destruct H as [[[Hs _] _] Hd].
  apply (advances_end _ _ (now + grace)); try done; rewrite ?Hs; try done.
  - simpl. destruct (o_token_delivery (en_outbox e)) eqn:E; [|done].
    destruct (ok_staged _ Hok) as [Hst _]; [by eexists|]. apply (ok_dispatched _ Hok) in Hd. by rewrite Hst in Hd.
  - by apply run_path_failed.
Qed.

(** What an acknowledgement amounts to in the columns of the invariant. *)
Definition acknowledged_entry (now : Z) (jobID : string) (e : RunEntry) : RunEntry :=
  let e := set_outbox (fun o => o <| o_job_id := Some jobID |> <| o_dispatched_ns := Some (default now (o_dispatched_ns o)) |>
             <| o_token_delivery := None |>) e in
  set_run (fun r => if run_waiting (r_status r) then r <| r_l1_job_id := Some jobID |> <| r_status := RunQueued |>
                    else if run_terminal (r_status r) then r <| r_l1_job_id := Some jobID |> else r) e.

Lemma other_job_none jobID known : other_job jobID known = false -> known = None \/ known = Some jobID.
Proof.
  unfold other_job. destruct known as [id|]; [|by left]. intros H%negb_false_iff%bool_decide_eq_true. subst. by right.
Qed.

Lemma unstaged e : entry_ok e -> r_status (en_run e) <> RunDispatching -> o_token_delivery (en_outbox e) = None.
Proof.
  intros Hok Hs. destruct (o_token_delivery (en_outbox e)) eqn:E; [|done].
  destruct (ok_staged _ Hok) as [Hd _]; [by eexists | done].
Qed.

Lemma acknowledge_outbox_columns now jobID evidence e :
  entry_ok e -> other_job jobID (o_job_id (en_outbox e)) = false ->
  let o := acknowledge_outbox now jobID evidence (en_outbox e) in
  o_dispatch_key o = o_dispatch_key (en_outbox e) /\ o_job_id o = Some jobID
  /\ o_dispatched_ns o = Some (default now (o_dispatched_ns (en_outbox e))) /\ o_token_delivery o = None.
Proof.
  intros Hok Ho. unfold acknowledge_outbox, outbox_unacknowledged. rewrite Ho, andb_true_r.
  destruct (o_dispatched_ns (en_outbox e)) as [at_|] eqn:Ed.
  - rewrite (bool_decide_eq_false_2 (Some at_ = None)) by done.
    assert (Hw := ok_dispatched _ Hok). rewrite Ed in Hw. specialize (Hw ltac:(by eexists)).
    destruct (proj2 (ok_outbox _ Hok)) as [id Hid]; [rewrite Ed; by eexists|].
    destruct (other_job_none _ _ Ho) as [|Ej]; [congruence|]. rewrite Ho.
    assert (Et := unstaged e Hok ltac:(intros E; by rewrite E in Hw)). case_match; simpl; by rewrite ?Ed, ?Ej.
  - rewrite (bool_decide_eq_true_2 (None = None)) by done. simpl. rewrite (bool_decide_eq_true_2 (jobID = jobID)) by done. by case_match.
Qed.

Lemma acknowledgement_core now jobID evidence e :
  entry_ok e -> other_job jobID (o_job_id (en_outbox e)) = false -> other_job jobID (r_l1_job_id (en_run e)) = false ->
  core_of (record_acknowledgement now jobID evidence e) = core_of (acknowledged_entry now jobID e)
  /\ (is_Some (en_cancellation e) -> is_Some (en_cancellation (record_acknowledgement now jobID evidence e))).
Proof.
  intros Hok Ho Hr. destruct (acknowledge_outbox_columns now jobID evidence e Hok Ho) as (E1 & E2 & E3 & E4).
  unfold record_acknowledgement, linkTerminalRunTx. destruct (run_waiting _) eqn:Hw.
  - destruct (_ || _); unfold core_of, fixed_of, outcome_of; simpl; rewrite Hw, E1, E2, E3, E4; split; try done.
    by intros [c ->].
  - destruct (_ || _); simpl.
    all: destruct (r_l1_job_id (en_run e)) as [id|] eqn:El;
      [destruct (other_job_none _ _ Hr) as [|[= ->]]; [done|] |
       rewrite bool_decide_eq_true_2 by done; simpl; destruct (run_terminal _) eqn:Ht;
       [|by destruct (ok_linked _ Hok Hw Ht); congruence]].
    all: unfold core_of, fixed_of, outcome_of; simpl; rewrite Hw, E1, E2, E3, E4, ?Ht; simpl; split; try done; try (by intros [c ->]).
    all: destruct (run_terminal _); simpl; by rewrite El.
Qed.

Lemma acknowledged_ok now jobID e :
  entry_ok e -> jobID <> "" -> other_job jobID (r_l1_job_id (en_run e)) = false -> entry_ok (acknowledged_entry now jobID e).
Proof.
  intros [K1 K2 K3 K4 K5 K6 K7 K8 K9 K10 K11 K12] Hne Hr. apply other_job_none in Hr.
  unfold acknowledged_entry. destruct (run_waiting (r_status (en_run e))) eqn:Hw;
    [|destruct (run_terminal (r_status (en_run e))) eqn:Ht]; split; simpl; rewrite ?Hw, ?Ht; simpl; try done; try congruence.
  all: assert (Hnt : run_waiting (r_status (en_run e)) = true -> run_terminal (r_status (en_run e)) = false)
    by (by destruct (r_status (en_run e))).
  - intros k Hk. rewrite (K11 k Hk), Hnt by done. done.
  - rewrite K12, Hnt by done. done.
  - intros E. by rewrite E in Hw.
  - intros k Hk. rewrite Ht. by apply K11.
  - intros id Hid. destruct Hr; congruence.
  - auto.
  - intros E. by rewrite E in Hw.
Qed.

Lemma advances_acknowledged now jobID e :
  entry_ok e -> jobID <> "" -> may_link may jobID -> other_job jobID (o_job_id (en_outbox e)) = false ->
  other_job jobID (r_l1_job_id (en_run e)) = false -> advances e (acknowledged_entry now jobID e).
Proof.
  intros Hok Hne Ha Ho Hr. assert (Hok' := acknowledged_ok now jobID e Hok Hne Hr). revert Hok'. apply other_job_none in Ho, Hr.
  assert (Hlive : run_waiting (r_status (en_run e)) = true -> run_terminal (r_status (en_run e)) = false)
    by (by destruct (r_status (en_run e))).
  split; unfold kept_once, fixed_of, outcome_of; simpl; try done; try (intros k Hk; by exists k);
    try (intros ?; intuition congruence); try (intros ? [= <-]; by right).
  all: destruct (run_waiting _) eqn:Hw; [|destruct (run_terminal _) eqn:Ht]; simpl; try done; try (by left); try (intuition congruence).
  apply (run_path_eval _ _ (if bool_decide (r_status (en_run e) = RunPending) then [RunDispatching; RunQueued] else [RunQueued])).
  by destruct (r_status (en_run e)).
Qed.

Lemma advances_record_projection now grace target reason e :
  entry_ok e -> run_waiting (r_status (en_run e)) = false -> run_terminal (r_status (en_run e)) = false ->
  run_waiting target = false -> rtc run_edge (r_status (en_run e)) target -> (target = RunSucceeded -> may_win may) ->
  advances e (record_projection now grace target reason e).
Proof.
  intros Hok Hw Ht Hw' Hp Hwin. unfold record_projection. destruct (run_terminal target) eqn:Ht'.
  { by apply (advances_end _ _ (now + grace)). }
  assert (Hl := ok_linked _ Hok Hw Ht).
  assert (Hs := unstaged e Hok ltac:(intros E; by rewrite E in Hw)).
  split; unfold kept_once, fixed_of, outcome_of; simpl; try done; try (intros; by left); try congruence.
  - intros E. by rewrite E in Ht'.
  - intros k Hk. by exists k.
  - intros []. split; simpl; rewrite ?Hw', ?Ht', ?Ht in *; try done.
    + intros E. by rewrite E in Hw'.
    + intros E. by rewrite E in Hw'.
    + rewrite Hs. by intros [].
Qed.

Lemma advances_settle item e : run_terminal (r_status (en_run e)) = true -> advances e (settle_entry item e).
Proof.
  intros Ht. etrans; [apply (advances_unstage e); intros E; by rewrite E in Ht | by apply advances_core].
Qed.

Lemma advances_cancellation e c : advances e (e <| en_cancellation := Some c |>).
Proof. by apply advances_core. Qed.

(** The operations that only touch the delivery schedule. *)
Lemma advances_schedule e f : advances e (e <| en_cancellation := f <$> en_cancellation e |>).
Proof. apply advances_core; [done|]. simpl. by intros [c ->]. Qed.

Lemma advances_finish now e : advances e (finish_cancellation now e).
Proof. apply advances_schedule. Qed.

Lemma advances_finish_undelivered now e : advances e (finish_undelivered now e).
Proof. unfold finish_undelivered. repeat case_match; [apply advances_finish | done..]. Qed.

Lemma advances_defer_cancellation now cause e : advances e (defer_cancellation now cause e).
Proof. apply advances_schedule. Qed.

Lemma advances_refuse now cause e : advances e (refuse_cancellation now cause e).
Proof. apply advances_schedule. Qed.

Lemma advances_clear_failure e : advances e (clear_delivery_failure e).
Proof. apply advances_schedule. Qed.

Lemma advances_defer_unrecorded now e : advances e (defer_unrecorded now e).
Proof. unfold defer_unrecorded. case_match; [by apply advances_core | done]. Qed.

Lemma advances_dispatch_error now err e : advances e (record_dispatch_error now err e).
Proof. unfold record_dispatch_error. repeat case_match; try done; by apply advances_core. Qed.

Lemma advances_record_node now nodeID settled e : advances e (record_run_node now nodeID settled e).
Proof. unfold record_run_node. case_match; [by apply advances_core | done]. Qed.

Lemma advances_settle_node nodeID e : advances e (settle_node nodeID e).
Proof. unfold settle_node. case_match; [by apply advances_core | done]. Qed.

Lemma advances_mark_regressed jobID e : advances e (markTerminalLinkRegressedTx jobID e).
Proof. by apply advances_core. Qed.

Lemma advances_record_cancellation now grace never e : advances e (record_cancellation now grace never e).
Proof.
  unfold record_cancellation. destruct never; [|apply advances_cancellation].
  etrans; [apply advances_failRunTx | apply advances_cancellation].
Qed.
End Operations.

(** ** Transactions on one run *)
Lemma ends_complete {R} may now jobID evidence observed (Q : unit -> RunEntry -> Prop) K (X : result ledger_error R -> Prop) e :
  entry_ok e -> may_link may jobID -> (forall e', advances_ may e e' -> Q tt e') -> (forall err, X (Err err)) ->
  ends (completeDispatchWithEvidenceTx now jobID evidence observed) Q K X e.
Proof.
  intros Hok Ha HQ HX. unfold completeDispatchWithEvidenceTx. wp; try apply HX; [by apply HQ|]. apply HQ.
  match goal with H : negb (conflicting_job _ _) = true |- _ =>
    apply negb_true_iff in H; unfold conflicting_job in H; apply orb_false_iff in H as [[Ho Hr]%orb_false_iff _] end.
  match goal with H : negb (bool_decide (jobID = "")) = true |- _ => apply negb_true_iff, bool_decide_eq_false in H; rename H into Hne end.
  destruct (acknowledgement_core now jobID evidence e Hok Ho Hr) as [Hc Hk].
  etrans; [by apply (advances_acknowledged may now jobID e)|]. apply advances_core; [done|]. exact Hk.
Qed.

(** A submit attempt hands out the staged bearer. *)
Record attempting (token : string) (e : RunEntry) : Prop := {
  attempting_status : r_status (en_run e) = RunDispatching;
  attempting_staged : o_token_delivery (en_outbox e) = Some token;
  attempting_fresh : en_cancellation e = None
}.

Lemma advances_attempt may now e :
  entry_ok e -> run_waiting (r_status (en_run e)) = true -> en_cancellation e = None -> is_Some (o_token_delivery (en_outbox e)) ->
  advances_ may e (set_run (fun r => r <| r_status := RunDispatching |> <| r_updated_ns := now |>
                                        <| r_dispatch_attempt_ns := Some now |>) e).
Proof.
  intros Hok Hw Hc Hs. destruct (ok_staged _ Hok Hs) as [Ed Hk].
  split; unfold kept_once, fixed_of, outcome_of; simpl; rewrite ?Ed; try done; try (intros; by left); try congruence.
  - intros [H|H]; [rewrite Hc in H; by destruct H | done].
  - intros k E. by exists k.
  - intros []. rewrite Ed in *. split; simpl; rewrite ?Ed; done.
Qed.

Lemma advances_first_attempt may now digest fresh attemptID e :
  entry_ok e -> run_waiting (r_status (en_run e)) = true -> en_cancellation e = None -> en_token e = None -> fresh <> "" ->
  may_mint may digest attemptID ->
  advances_ may e
    (set_outbox (fun o => o <| o_token_delivery := Some fresh |>)
       (set_run (fun r => r <| r_status := RunDispatching |> <| r_updated_ns := now |> <| r_dispatch_attempt_ns := Some now |>)
          (e <| en_token := Some (mkRunTokenRow attemptID digest now None) |>))).
Proof.
  intros Hok Hw Hc Hk Hf Hm. assert (Hp : r_status (en_run e) = RunPending).
  { destruct (r_status (en_run e)) eqn:E; try done. destruct (ok_dispatching _ Hok E) as [_ Hs].
    apply (ok_staged _ Hok) in Hs as [_ Hs]. rewrite Hk in Hs. by destruct Hs. }
  split; unfold kept_once, fixed_of, outcome_of; simpl; rewrite ?Hp, ?Hk; try done; try (intros; by left).
  - by apply (run_path_eval _ _ [RunDispatching]).
  - intros [H|H]; [rewrite Hc in H; by destruct H | done].
  - by intros k [= <-] _.
  - intros []. rewrite Hp in *. split; simpl; try done; try congruence.
    intros k [= <-]. simpl. split; [by intros [] | done].
Qed.

Lemma ends_attempt may token_digest now fresh attemptID taken hold (Q : string -> RunEntry -> Prop) K
    (X : result ledger_error string -> Prop) e :
  entry_ok e -> fresh <> "" -> (taken = false -> may_mint may (token_digest fresh) attemptID) ->
  (forall token e', advances_ may e e' -> attempting token e' -> Q token e') ->
  (forall err, X (Err err)) -> ends (attempt_entry token_digest now fresh attemptID taken hold) Q K X e.
Proof.
  intros Hok Hf Hm HQ HX. unfold attempt_entry, dispatch_deferred, ensureRunTokenTx. wp; try apply HX.
  all: simpl in *; match goal with H : bool_decide (o_dispatched_ns _ = None) = true |- _ => rewrite H end.
  all: match goal with H : negb (_ || _ || _ || _) = true |- _ =>
    apply negb_true_iff, orb_false_iff in H as [[[Hw%negb_false_iff Hc]%orb_false_iff _]%orb_false_iff _] end.
  all: apply bool_decide_eq_false, eq_None_not_Some in Hc.
  - destruct (o_token_delivery (en_outbox e)) as [token|] eqn:Es; [|done]. apply HQ; [|by split].
    etrans; [apply (advances_attempt may now e); try done; by rewrite Es | by apply advances_core].
  - match goal with H : _ && _ = true |- _ => apply andb_true_iff in H as [Hk%bool_decide_eq_true Ht%negb_true_iff] end.
    apply HQ; [|by split]. etrans; [by apply (advances_first_attempt may now (token_digest fresh) fresh attemptID e); auto|].
    by apply advances_core.
Qed.
