(* ===== verification/RunMachine.v ===== *)
(** * The run ledger as a transition system

    Every transaction of the ledger is an operation on it.  What an operation was
    given, a bearer, an L1 answer or what a pass read earlier, is in its
    arguments; [op_fits] says what the code guarantees of them.  The invariant of
    the whole ledger is proved over every sequence of operations. *)
From S2P Require Import Prelude Order States Contract GoStrings JobSpec RunLedger RunDispatch RunProtocol RunHistory.
#[local] Open Scope string_scope.
#[local] Open Scope list_scope.
#[local] Open Scope Z_scope.

(** What the transactions are parameterised by. *)
Record ledger_env := mkledger_env {
  le_lower_table : Z -> Z;
  le_request_hash : string -> string -> string;
  le_seat : string -> bool;
  le_conforms : string -> protocol_body -> option string;
  le_quote : string -> string;
  le_token_digest : string -> string;
  le_grace : Z
}.

Inductive ledger_op :=
| OpCreateRun (now : Z) (input : CreateRunInput) (verdicts : creation_verdicts) (runID : string)
| OpCreateRerun (now : Z) (input : CreateRerunInput) (resolution : option string) (captured attached : result ErrorCode unit)
    (runID : string)
| OpEnvelope (now : Z) (scope : RunTokenScope) (w : protocol_write)
| OpGate (now : Z) (scope : RunTokenScope) (w : protocol_write)
| OpBegin (now : Z) (runID fresh attemptID : string)
| OpDispatchError (now : Z) (runID : string) (err : APIError)
| OpFailDispatch (now : Z) (runID : string) (err : APIError)
| OpComplete (now : Z) (runID jobID : string) (evidence : dispatchLinkEvidence) (observed : option dispatchObservation)
| OpRequestCancel (now : Z) (runID actor : string)
| OpCancelAbsent (now : Z) (runID : string) (lookupStarted : Z)
| OpCancelAbsentStored (now : Z) (runID : string) (observed : dispatchObservation)
| OpAcceptRecovered (now : Z) (item : unrecordedDispatch) (jobID : string) (observed : option dispatchObservation)
| OpLinkUnrecorded (now : Z) (item : unrecordedDispatch) (jobID : string)
| OpDeferUnlinked (now : Z) (runID : string) (cause : option APIError)
| OpDeferCancel (now : Z) (runID : string) (cause : option APIError)
| OpFinishCancel (now : Z) (runID : string)
| OpRefuseCancel (now : Z) (runID : string) (cause : APIError)
| OpClearFailure (runID : string)
| OpSettle (item : unrecordedDispatch) (lookupStarted : Z)
| OpDeferUnrecorded (now : Z) (runID : string)
| OpFailMissing (now : Z) (run : projectedRun)
| OpProject (now : Z) (run : projectedRun) (jobState : JobState) (jobFailure : string)
| OpRecordNode (now : Z) (runID nodeID : string) (final : bool)
| OpSettleNode (runID nodeID : string)
| OpHold (now : Z) (reason : string)
| OpReserveProbe (now budget : Z) (fresh : string)
| OpFinishProbe (now : Z) (p : dispatchProbe) (admitted : bool).

Section Ledger.
Context (env : ledger_env).
Abbreviation grace := (le_grace env).

Definition apply_op (op : ledger_op) (l : Ledger) : Ledger :=
  match op with
  | OpCreateRun now input verdicts runID => (run (CreateRun (le_lower_table env) now input verdicts runID) l).1
  | OpCreateRerun now input resolution captured attached runID =>
      (run (CreateRerun (le_request_hash env) (le_seat env) now input resolution captured attached runID) l).1
  | OpEnvelope now scope w => (run (AppendEnvelope (le_conforms env) now grace scope w) l).1
  | OpGate now scope w => (run (AppendGateResult (le_quote env) now grace scope w) l).1
  | OpBegin now runID fresh attemptID => (run (beginDispatch (le_token_digest env) now runID fresh attemptID) l).1
  | OpDispatchError now runID err => recordDispatchError now runID err l
  | OpFailDispatch now runID err => failDispatch now grace runID err l
  | OpComplete now runID jobID evidence observed => (run (completeDispatchWithEvidence now runID jobID evidence observed) l).1
  | OpRequestCancel now runID actor => (run (requestRunCancellation now grace runID actor) l).1
  | OpCancelAbsent now runID lookupStarted => (run (cancelAbsentDispatch now grace runID lookupStarted) l).1
  | OpCancelAbsentStored now runID observed => (run (cancelAbsentStoredIdentity now runID observed) l).1
  | OpAcceptRecovered now item jobID observed => (run (acceptRecoveredCancellation now item jobID observed) l).1
  | OpLinkUnrecorded now item jobID => (run (linkUnrecordedDispatch now item jobID) l).1
  | OpDeferUnlinked now runID cause => (run (deferUnlinkedRunCancellation now runID cause) l).1
  | OpDeferCancel now runID cause => deferRunCancellation now runID cause l
  | OpFinishCancel now runID => finishRunCancellation now runID l
  | OpRefuseCancel now runID cause => refuseRunCancellation now runID cause l
  | OpClearFailure runID => exec_run runID clear_delivery_failure l
  | OpSettle item lookupStarted => (settleUnrecordedDispatch item lookupStarted l).1
  | OpDeferUnrecorded now runID => (run (deferUnrecordedDispatch now runID) l).1
  | OpFailMissing now run => (failMissingL1Job now grace run l).1
  | OpProject now run_ jobState jobFailure => (run (projectJobOutcome now grace run_ jobState jobFailure) l).1
  | OpRecordNode now runID nodeID final => recordRunNode now runID nodeID final l
  | OpSettleNode runID nodeID => settleNodeAttribution runID nodeID l
  | OpHold now reason => holdDispatch now reason l
  | OpReserveProbe now budget fresh => (reserveDispatchProbe now budget fresh l).1
  | OpFinishProbe now p admitted => finishDispatchProbe now p admitted l
  end.

(** ** What the arguments are *)

(** A bearer is drawn at random; a pass projects onto a run that had its job when
    it was read, and [required_envelope] is fixed. *)
Definition op_fits (op : ledger_op) (l : Ledger) : Prop :=
  match op with
  | OpBegin _ _ fresh _ => fresh <> ""
  | OpProject _ run _ _ =>
      run_waiting (p_State run) = false
      /\ forall e, lg_runs l !! p_RunID run = Some e -> p_RequiredEnvelope run = r_required_envelope (en_run e)
  | _ => True
  end.

(** The ledger's own conditions on a success. *)
Record clean_run (runID : string) (l : Ledger) : Prop := {
  clean_children : forall id c, lg_runs l !! id = Some c -> r_parent_run_id (en_run c) = Some runID ->
    r_status (en_run c) = RunSucceeded;
  clean_envelope : forall e, lg_runs l !! runID = Some e -> r_required_envelope (en_run e) = true ->
    exists id v, lg_envelopes l !! id = Some v /\ ev_run_id v = runID;
  clean_writes : forall p, p ∈ lg_rejections l -> pr_run_id p <> runID;
  clean_gates : forall id g, lg_gates l !! id = Some g -> g3_run_id g = runID -> gate_failed (g3_outcome g) = false
}.

(** Which job an operation links, which run it starts and whose success it may
    record. *)
Definition op_may (op : ledger_op) (l : Ledger) (runID : string) : licence :=
  mklicence
    match op with OpProject _ run _ _ => p_RunID run = runID /\ clean_run runID l | _ => False end
    (fun jobID => match op with
       | OpComplete _ id job _ _ => id = runID /\ job = jobID
       | OpAcceptRecovered _ item job _ | OpLinkUnrecorded _ item job => u_RunID item = runID /\ job = jobID
       | _ => False end)
    (fun hash id => match op with
       | OpBegin _ id' fresh attemptID => id' = runID /\ hash = le_token_digest env fresh /\ id = attemptID
           /\ token_taken hash id l = false
       | _ => False end).

(** ** One ledger against a later one *)
Definition fresh_run (runID : string) (e : RunEntry) : Prop :=
  exists now input parent source sourceRunID program, e = new_run now runID input parent source sourceRunID program.

Record born (l : Ledger) (runID : string) (e : RunEntry) : Prop := {
  born_fresh : fresh_run runID e;
  born_parent : forall parent, r_parent_run_id (en_run e) = Some parent ->
    exists p, lg_runs l !! parent = Some p /\ run_terminal (r_status (en_run p)) = false;
  born_request : by_idempotency_key (r_actor (en_run e)) (r_idempotency_key (en_run e)) l = None
}.

Definition creates (op : ledger_op) (runID : string) : Prop :=
  match op with OpCreateRun _ _ _ id | OpCreateRerun _ _ _ _ _ id => id = runID | _ => False end.

Record later (op : ledger_op) (l l' : Ledger) : Prop := {
  later_run : forall id e, lg_runs l !! id = Some e ->
    exists e', lg_runs l' !! id = Some e' /\ advances_ (op_may op l id) e e';
  later_born : forall id e, lg_runs l !! id = None -> lg_runs l' !! id = Some e -> creates op id /\ born l id e;
  later_envelopes : lg_envelopes l ⊆ lg_envelopes l'
}.

Lemma later_refl op l : later op l l.
Proof. split; [intros id e He; by exists e | congruence | done]. Qed.

Lemma later_untouched op l l' : lg_runs l' = lg_runs l -> lg_envelopes l' = lg_envelopes l -> later op l l'.
Proof. intros E1 E2. split; rewrite ?E1, ?E2; [intros id e He; by exists e | congruence | done]. Qed.

Lemma later_alter op l l' runID e e' :
  lg_runs l !! runID = Some e -> advances_ (op_may op l runID) e e' ->
  lg_runs l' = <[runID := e']> (lg_runs l) -> lg_envelopes l ⊆ lg_envelopes l' -> later op l l'.
Proof.
  intros He Ha E1 E2. split; [| |done]; rewrite E1.
  - intros id i Hi. destruct (decide (id = runID)) as [->|Ne].
    + exists e'. rewrite lookup_insert_eq. split; [done|]. congruence.
    + exists i. by rewrite lookup_insert_ne.
  - intros id i Hn. rewrite lookup_insert_ne by congruence. congruence.
Qed.

(** An UPDATE of one run after statements on other tables. *)
Lemma later_exec_after op l l1 runID f :
  lg_runs l1 = lg_runs l -> lg_envelopes l1 = lg_envelopes l ->
  (forall e, lg_runs l !! runID = Some e -> advances_ (op_may op l runID) e (f e)) -> later op l (exec_run runID f l1).
Proof.
  intros E1 E2 H. unfold exec_run. destruct (lg_runs l !! runID) as [e|] eqn:E.
  - eapply later_alter; [exact E | by apply H | | simpl; by rewrite E2]. simpl. rewrite E1. apply map_eq. intros i.
    destruct (decide (i = runID)) as [->|Ne]; [by rewrite lookup_alter_eq, lookup_insert_eq, E | by rewrite lookup_alter_ne, lookup_insert_ne].
  - apply later_untouched; simpl; [rewrite E1; apply alter_id; congruence | done].
Qed.

Lemma later_exec op l runID f :
  (forall e, lg_runs l !! runID = Some e -> advances_ (op_may op l runID) e (f e)) -> later op l (exec_run runID f l).
Proof. by apply later_exec_after. Qed.

Lemma ends_on_run {R A} missing runID (m : entry_tx R A) Q K (X : result ledger_error R -> Prop) l :
  (lg_runs l !! runID = None -> X (Err missing)) ->
  (forall e, lg_runs l !! runID = Some e ->
     let put e' := l <| lg_runs := <[runID := e']> (lg_runs l) |> in
     ends m (fun a e' => Q a (put e')) (fun r e' => K r (put e')) X e) ->
  ends (on_run missing runID m) Q K X l.
Proof.
  intros HX HQ. unfold ends, on_run in *. destruct (lg_runs l !! runID) as [e|] eqn:E; [|by apply HX].
  specialize (HQ e eq_refl). by destruct (m e).
Qed.

(** ** Every operation moves the ledger forward *)
Lemma post_entry {R A} op missing runID (m : entry_tx R A) l :
  (forall e, lg_runs l !! runID = Some e ->
     post m (fun _ => advances_ (op_may op l runID) e) (fun _ => advances_ (op_may op l runID) e) e) ->
  post (on_run missing runID m) (fun _ => later op l) (fun _ => later op l) l.
Proof.
  intros H. apply ends_on_run; [done|]. intros e He. eapply ends_mono; [..|by apply H]; [| |done].
  all: intros a e' Ha; eapply later_alter; [exact He | exact Ha | reflexivity | done].
Qed.

Lemma later_run_entry {R} op missing runID (m : entry_tx R R) l :
  (forall e, lg_runs l !! runID = Some e ->
     post m (fun _ => advances_ (op_may op l runID) e) (fun _ => advances_ (op_may op l runID) e) e) ->
  later op l (run (on_run missing runID m) l).1.
Proof. intros H. apply post_run; [apply later_refl | by apply post_entry]. Qed.

Lemma run_path_live s s' :
  run_waiting s = false -> run_terminal s = false ->
  s' = s \/ s' = RunFailed \/ s' = RunSucceeded \/ s' = RunRunning \/ s' = RunAwaitingInput -> rtc run_edge s s'.
Proof.
  intros Hw Ht H.
  apply (run_path_eval _ _ (if bool_decide (s = s') then [] else if bool_decide (s' = RunFailed) || bool_decide (s' = RunRunning)
    || bool_decide (s = RunRunning) then [s'] else [RunRunning; s'])).
  destruct s; try done; destruct H as [->|[->|[->|[->| ->]]]]; reflexivity.
Qed.

Lemma ProjectJobState_live current job target :
  run_waiting current = false -> ProjectJobState current job = Ok (Some target) ->
  run_terminal current = false /\ (target = RunFailed \/ target = RunSucceeded \/ target = RunRunning \/ target = RunAwaitingInput).
Proof.
  unfold ProjectJobState. destruct (run_terminal current) eqn:Ht; [done|]. intros Hw H. split; [done|].
  destruct current, job; simpl in H; simplify_eq; auto.
Qed.

(** What a projection records, and when it is a success. *)
Lemma projected_outcome_spec run jobState jobFailure ev target target' reason :
  run_waiting (p_State run) = false -> ProjectJobState (p_State run) jobState = Ok (Some target) ->
  projected_outcome run jobState jobFailure ev target = Some (target', reason) ->
  run_waiting target' = false /\ rtc run_edge (p_State run) target'
  /\ (target' = RunSucceeded -> re_rejectedWrites ev = 0%nat /\ re_failedGates ev = 0%nat /\ re_failedChildren ev = 0%nat
        /\ re_activeChildren ev = 0%nat /\ (p_RequiredEnvelope run = true -> re_acceptedEnvelopes ev <> 0%nat)).
Proof.
  intros Hw Hp Ho. destruct (ProjectJobState_live _ _ _ Hw Hp) as [Ht Htgt].
  assert (Hcase : target' = RunFailed \/ target' = target \/ target' = RunRunning).
  { unfold projected_outcome, succeeded_outcome in Ho. repeat case_match; simplify_eq; auto. }
  assert (Hgo : target' = RunFailed \/ target' = RunSucceeded \/ target' = RunRunning \/ target' = RunAwaitingInput)
    by (destruct Hcase as [->|[->| ->]]; auto).
  split_and!; [by destruct Hgo as [->|[->|[->| ->]]] | apply run_path_live; auto |]. intros ->.
  unfold projected_outcome in Ho. destruct (bool_decide (jobState = JobSucceeded)) eqn:Es.
  2: { apply bool_decide_eq_false in Es. unfold ProjectJobState in Hp. rewrite Ht in Hp.
       destruct (p_State run), jobState; simpl in *; simplify_eq. }
  unfold succeeded_outcome in Ho. destruct (_ || _) eqn:Hbad; [simplify_eq|]. rewrite !orb_false_iff in Hbad.
  destruct Hbad as [[[H1%Nat.ltb_ge H2%Nat.ltb_ge] H3%Nat.ltb_ge] H4].
  destruct (Nat.ltb_spec 0 (re_activeChildren ev)); [by case_match; simplify_eq|].
  split_and!; try lia. intros E. rewrite E in H4. by apply Nat.eqb_neq in H4.
Qed.

Section Steps.
Context (l : Ledger) (Hok : forall id e, lg_runs l !! id = Some e -> entry_ok e).

Lemma later_complete op now runID jobID evidence observed :
  may_link (op_may op l runID) jobID -> later op l (run (completeDispatchWithEvidence now runID jobID evidence observed) l).1.
Proof.
  intros Hm. apply later_run_entry. intros e He. eapply ends_complete; [by eapply Hok | | intros e' Ha; exact Ha | done]. done.
Qed.

Lemma later_accept now item jobID observed :
  later (OpAcceptRecovered now item jobID observed) l (run (acceptRecoveredCancellation now item jobID observed) l).1.
Proof.
  apply post_run; [apply later_refl|]. unfold acceptRecoveredCancellation. wp.
  apply post_entry. intros e He. eapply ends_complete; [by eapply Hok | | intros e' Ha; exact Ha | done]. done.
Qed.

Lemma later_link_unrecorded now item jobID :
  later (OpLinkUnrecorded now item jobID) l (run (linkUnrecordedDispatch now item jobID) l).1.
Proof.
  apply post_run; [apply later_refl|]. unfold linkUnrecordedDispatch. wp.
  all: apply post_entry; intros e He; eapply ends_complete; [by eapply Hok | | intros e' Ha; exact Ha | done]; done.
Qed.

Lemma later_begin_dispatch now runID fresh attemptID :
  fresh <> "" -> later (OpBegin now runID fresh attemptID) l (run (beginDispatch (le_token_digest env) now runID fresh attemptID) l).1.
Proof.
  intros Hf. apply post_run; [apply later_refl|]. unfold beginDispatch. wp. apply post_entry. intros e He.
  eapply ends_attempt; [by eapply Hok | done | | intros token e' Ha _; exact Ha | done]. intros Ht. by split_and!.
Qed.

(** Linking the job the outbox already names gives no new one. *)
Lemma advances_relink may jobID e e' :
  o_job_id (en_outbox e) = Some jobID -> advances_ (mklicence (may_win may) (eq jobID) (may_mint may)) e e' -> advances_ may e e'.
Proof.
  intros Hj []. split; try done. intros id E. left. destruct (adv_acked id E) as [H|H]; simpl in H; congruence.
Qed.

Lemma later_request_cancel now runID actor :
  later (OpRequestCancel now runID actor) l (run (requestRunCancellation now grace runID actor) l).1.
Proof.
  apply post_run; [apply later_refl|]. unfold requestRunCancellation. wp. apply post_entry. intros e He.
  wp; try apply advances_record_cancellation.
  match goal with H : cancelStoredJobID e = Some ?id, H' : r_l1_job_id (en_run e) = None |- _ =>
    assert (Ej : o_job_id (en_outbox e) = Some id) by (unfold cancelStoredJobID in H; rewrite H' in H; by case_match) end.
  eapply (ends_complete (mklicence False (eq _) (fun _ _ => False))); [by eapply Hok | reflexivity | | done].
  intros e' Ha. wp. etrans; [|apply advances_record_cancellation]. eapply advances_relink; [exact Ej|].
  revert Ha. by apply advances_weaken.
Qed.

Lemma later_cancel_absent now runID lookupStarted op :
  later op l (run (cancelAbsentDispatch now grace runID lookupStarted) l).1.
Proof.
  apply later_run_entry. intros e He. wp.
  etrans; [apply advances_failRunTx|]. etrans; [|apply advances_finish]. by apply advances_core.
Qed.

Lemma later_cancel_absent_stored now runID observed op :
  later op l (run (cancelAbsentStoredIdentity now runID observed) l).1.
Proof.
  apply later_run_entry. intros e He. wp; try apply advances_finish_undelivered.
  etrans; [apply advances_mark_regressed | apply advances_finish_undelivered].
Qed.

Lemma later_defer_unlinked now runID cause op : later op l (run (deferUnlinkedRunCancellation now runID cause) l).1.
Proof. apply later_run_entry. intros e He. wp. apply advances_defer_cancellation. Qed.

Lemma later_settle_unrecorded item lookupStarted op : later op l (settleUnrecordedDispatch item lookupStarted l).1.
Proof.
  unfold settleUnrecordedDispatch. destruct (lg_runs l !! u_RunID item) as [e|] eqn:E; [|apply later_refl].
  destruct (settle_due _ _ _) eqn:Hd; [|apply later_refl]. apply later_exec. intros e' He'. simplify_eq.
  apply advances_settle. unfold settle_due in Hd. rewrite !andb_true_iff in Hd. tauto.
Qed.

Lemma later_fail_missing now run op : later op l (failMissingL1Job now grace run l).1.
Proof.
  unfold failMissingL1Job. destruct (_ || _) eqn:Hc; [apply later_refl|]. apply orb_false_iff in Hc as [_ Ht].
  destruct (lg_runs l !! p_RunID run) as [e|] eqn:E; [|apply later_refl].
  destruct (lost_due _ _) eqn:Hd; [|apply later_refl]. apply later_exec. intros e' He'. simplify_eq.
  apply advances_lose_job; [done | done | by eapply Hok].
Qed.

(** A run whose evidence is clear is clean. *)
Lemma evidence_clean runID e :
  lg_runs l !! runID = Some e -> let ev := evidence_of runID l in
  re_rejectedWrites ev = 0%nat -> re_failedGates ev = 0%nat -> re_failedChildren ev = 0%nat -> re_activeChildren ev = 0%nat ->
  (r_required_envelope (en_run e) = true -> re_acceptedEnvelopes ev <> 0%nat) -> clean_run runID l.
Proof.
  intros He ev Hr Hg Hf Ha Hv. simpl in *.
  assert (none : forall A (f : A -> bool) xs, length (List.filter f xs) = 0%nat -> forall x, x ∈ xs -> f x = false)
    by (intros A f xs H; apply filter_none; by apply nil_length_inv).
  split.
  - intros id c Hc Hp. assert (Hin : c ∈ children runID l).
    { apply list_elem_of_In, filter_In. split; [|by apply bool_decide_eq_true].
      apply list_elem_of_In, list_elem_of_fmap. exists (id, c). split; [done|]. by apply elem_of_map_to_list. }
    assert (H1 := none _ _ _ Ha c Hin). assert (H2 := none _ _ _ Hf c Hin). simpl in H1, H2.
    apply negb_false_iff, run_terminal_cases in H1. apply bool_decide_eq_false in H2. by destruct H1.
  - intros e' He' Hq. simplify_eq. specialize (Hv Hq).
    destruct (List.filter _ (map_to_list (lg_envelopes l)).*2) as [|v vs] eqn:E; [done|].
    assert (Hin : In v (v :: vs)) by by left. rewrite <- E in Hin. apply filter_In in Hin as [Hin Hb].
    apply list_elem_of_In, list_elem_of_fmap in Hin as ([id v'] & -> & Hin). apply elem_of_map_to_list in Hin.
    exists id, v'. split; [done|]. by apply bool_decide_eq_true in Hb.
  - intros p Hp E. assert (H := none _ _ _ Hr p Hp). by apply bool_decide_eq_false in H.
  - intros id g Hgate E. assert (Hin : g ∈ (map_to_list (lg_gates l)).*2).
    { apply list_elem_of_fmap. exists (id, g). split; [done|]. by apply elem_of_map_to_list. }
    assert (H := none _ _ _ Hg g Hin). simpl in H. by rewrite bool_decide_eq_true_2 in H.
Qed.

Lemma later_project now run_ jobState jobFailure :
  op_fits (OpProject now run_ jobState jobFailure) l ->
  later (OpProject now run_ jobState jobFailure) l (run (projectJobOutcome now grace run_ jobState jobFailure) l).1.
Proof.
  intros [Hw Hq]. apply post_run; [apply later_refl|]. unfold projectJobOutcome. wp.
  match goal with H : coded _ = Ok (Some ?t) |- _ => assert (Hp : ProjectJobState (p_State run_) jobState = Ok (Some t)) by
    (unfold coded in H; by case_match; simplify_eq) end.
  match goal with H : projected_outcome _ _ _ _ _ = Some _ |- _ =>
    destruct (projected_outcome_spec _ _ _ _ _ _ _ Hw Hp H) as (Hw' & Hpath & Hwin) end.
  destruct (ProjectJobState_live _ _ _ Hw Hp) as [Ht _].
  apply later_exec. intros e He. destruct (bool_decide (r_status (en_run e) = p_State run_)) eqn:Es; [|done].
  apply bool_decide_eq_true in Es. apply advances_record_projection; rewrite ?Es; try done; [by eapply Hok|].
  intros E. split; [done|]. destruct (Hwin E) as (H1 & H2 & H3 & H4 & H5).
  eapply evidence_clean; try done. intros Hr. apply H5. by rewrite (Hq e He).
Qed.

Lemma later_reject op now runID kind key summary :
  later op l (rejectProtocolWrite now grace runID kind key summary l).
Proof.
  unfold rejectProtocolWrite. apply later_exec_after; [by case_match | by case_match|]. intros e _. apply advances_failRunTx.
Qed.

Lemma later_envelope now scope w op : later op l (run (AppendEnvelope (le_conforms env) now grace scope w) l).1.
Proof.
  apply post_run; [apply later_refl|]. unfold AppendEnvelope, rejected. wp; try apply later_reject.
  split; simpl; [intros id e He; by exists e | congruence|]. apply insert_subseteq.
  match goal with H : negb (bool_decide (is_Some _)) = true |- _ =>
    apply negb_true_iff, bool_decide_eq_false, eq_None_not_Some in H; exact H end.
Qed.

Lemma later_gate now scope w op : later op l (run (AppendGateResult (le_quote env) now grace scope w) l).1.
Proof.
  apply post_run; [apply later_refl|]. unfold AppendGateResult, rejected. wp; try apply later_reject.
  case_match; [|by apply later_untouched]. apply later_exec_after; [done | done|]. intros e _. apply advances_failRunTx.
Qed.

Lemma later_insert op runID e :
  lg_runs l !! runID = None -> creates op runID -> born l runID e -> later op l (l <| lg_runs := <[runID := e]> (lg_runs l) |>).
Proof.
  intros Hn Hc Hb. split; simpl; [| |done].
  - intros id i Hi. exists i. rewrite lookup_insert_ne by congruence. by split.
  - intros id i Hi. destruct (decide (id = runID)) as [->|Ne]; [rewrite lookup_insert_eq; by intros [= <-]|].
    rewrite lookup_insert_ne by done. congruence.
Qed.

Lemma ends_replay_run actor key hash (Q : unit -> Ledger -> Prop) K (X : result ledger_error (string * bool) -> Prop) :
  (by_idempotency_key actor key l = None -> Q tt l) -> (forall r, X r) -> ends (replay_run actor key hash) Q K X l.
Proof. intros HQ HX. unfold replay_run. wp; try apply HX. by apply HQ. Qed.

Lemma later_create now input verdicts runID :
  later (OpCreateRun now input verdicts runID) l (run (CreateRun (le_lower_table env) now input verdicts runID) l).1.
Proof.
  apply post_run; [apply later_refl|]. unfold CreateRun. apply ends_bind, ends_replay_run; [intros Hkey|done].
  unfold check_parent, insert_run. wp.
  all: match goal with H : negb (bool_decide (is_Some _)) = true |- _ =>
    apply negb_true_iff, bool_decide_eq_false, eq_None_not_Some in H; rename H into Hn end.
  all: apply later_insert; [exact Hn | done|]; split; [by repeat eexists | simpl | exact Hkey].
  - unfold optional. match goal with H : bool_decide (ci_ParentRunID input = "") = true |- _ => by rewrite H end.
  - unfold optional. match goal with H : bool_decide (ci_ParentRunID input = "") = false |- _ => rewrite H end.
    intros parent [= <-]. eexists. split; [eassumption|]. by apply negb_true_iff.
Qed.

Lemma later_rerun now input resolution captured attached runID :
  later (OpCreateRerun now input resolution captured attached runID) l
    (run (CreateRerun (le_request_hash env) (le_seat env) now input resolution captured attached runID) l).1.
Proof.
  apply post_run; [apply later_refl|]. unfold CreateRerun. wp.
  all: apply ends_replay_run; [intros Hkey|done]; unfold insert_run; wp.
  all: match goal with H : negb (bool_decide (is_Some (lg_runs l !! _))) = true |- _ =>
    apply negb_true_iff, bool_decide_eq_false, eq_None_not_Some in H; rename H into Hn end.
  all: apply later_insert; [exact Hn | done|]; split; [by repeat eexists | done | exact Hkey].
Qed.

Lemma later_op op : op_fits op l -> later op l (apply_op op l).
Proof.
  intros Hf. destruct op; simpl.
  - apply later_create.
  - apply later_rerun.
  - apply later_envelope.
  - apply later_gate.
  - by apply later_begin_dispatch.
  - apply later_exec. intros e _. apply advances_dispatch_error.
  - apply later_exec. intros e _. apply advances_fail_dispatch.
  - by apply later_complete.
  - apply later_request_cancel.
  - apply later_cancel_absent.
  - apply later_cancel_absent_stored.
  - apply later_accept.
  - apply later_link_unrecorded.
  - apply later_defer_unlinked.
  - apply later_exec. intros e _. apply advances_defer_cancellation.
  - apply later_exec. intros e _. apply advances_finish.
  - apply later_exec. intros e _. apply advances_refuse.
  - apply later_exec. intros e _. apply advances_clear_failure.
  - apply later_settle_unrecorded.
  - apply later_run_entry. intros e _. wp. apply advances_defer_unrecorded.
  - apply later_fail_missing.
  - by apply later_project.
  - unfold recordRunNode. case_match; [apply later_refl|]. apply later_exec. intros e _. apply advances_record_node.
  - apply later_exec. intros e _. apply advances_settle_node.
  - unfold holdDispatch. case_match; by apply later_untouched.
  - unfold reserveDispatchProbe. case_match; by apply later_untouched.
  - unfold finishDispatchProbe. repeat case_match; by apply later_untouched.
Qed.
End Steps.

(** ** The invariant of the ledger *)
Record ledger_ok (l : Ledger) : Prop := {
  lo_entries : forall id e, lg_runs l !! id = Some e -> entry_ok e;
  lo_keys : forall id e, lg_runs l !! id = Some e -> r_dispatch_key (en_run e) = dispatch_key_of id;
  lo_family : forall id e child c, lg_runs l !! id = Some e -> lg_runs l !! child = Some c ->
    r_parent_run_id (en_run c) = Some id -> r_status (en_run e) = RunSucceeded -> r_status (en_run c) = RunSucceeded;
  lo_envelope : forall id e, lg_runs l !! id = Some e -> r_status (en_run e) = RunSucceeded ->
    r_required_envelope (en_run e) = true -> exists env_id v, lg_envelopes l !! env_id = Some v /\ ev_run_id v = id;
  lo_tokens : forall id1 e1 k1 id2 e2 k2, lg_runs l !! id1 = Some e1 -> lg_runs l !! id2 = Some e2 ->
    en_token e1 = Some k1 -> en_token e2 = Some k2 ->
    tk_token_hash k1 = tk_token_hash k2 \/ tk_attempt_id k1 = tk_attempt_id k2 -> id1 = id2;
  lo_requests : forall id1 e1 id2 e2, lg_runs l !! id1 = Some e1 -> lg_runs l !! id2 = Some e2 ->
    r_actor (en_run e1) = r_actor (en_run e2) -> r_idempotency_key (en_run e1) = r_idempotency_key (en_run e2) -> id1 = id2
}.

Lemma fresh_ok runID e : fresh_run runID e -> entry_ok e.
Proof.
  intros (now & input & parent & source & sourceRunID & program & ->). split; simpl; try done; try (by intros []).
Qed.

(** A run of the later ledger is new, or it was there. *)
Lemma later_inv op l l' id e' :
  later op l l' -> lg_runs l' !! id = Some e' ->
  (lg_runs l !! id = None /\ creates op id /\ born l id e')
  \/ exists e, lg_runs l !! id = Some e /\ advances_ (op_may op l id) e e'.
Proof.
  intros H He'. destruct (lg_runs l !! id) as [e|] eqn:E.
  - right. exists e. split; [done|]. destruct (later_run _ _ _ H id e E) as (e1 & H1 & Ha). congruence.
  - left. split; [done|]. by apply (later_born _ _ _ H).
Qed.

Lemma fixed_parent e e' : fixed_of e' = fixed_of e -> r_parent_run_id (en_run e') = r_parent_run_id (en_run e).
Proof. unfold fixed_of. congruence. Qed.
Lemma fixed_key e e' : fixed_of e' = fixed_of e -> r_dispatch_key (en_run e') = r_dispatch_key (en_run e).
Proof. unfold fixed_of. congruence. Qed.
Lemma fixed_required e e' : fixed_of e' = fixed_of e -> r_required_envelope (en_run e') = r_required_envelope (en_run e).
Proof. unfold fixed_of. congruence. Qed.
Lemma fixed_request e e' : fixed_of e' = fixed_of e ->
  r_actor (en_run e') = r_actor (en_run e) /\ r_idempotency_key (en_run e') = r_idempotency_key (en_run e)
  /\ r_request_hash (en_run e') = r_request_hash (en_run e).
Proof. unfold fixed_of. intros E. simplify_eq. done. Qed.

Lemma succeeded_stays may e e' : advances_ may e e' -> r_status (en_run e) = RunSucceeded -> r_status (en_run e') = RunSucceeded.
Proof. intros Ha E. assert (H := adv_final Ha ltac:(by rewrite E)). unfold outcome_of in H. congruence. Qed.

Lemma by_idempotency_key_none actor key l id e :
  by_idempotency_key actor key l = None -> lg_runs l !! id = Some e ->
  ~ (r_actor (en_run e) = actor /\ r_idempotency_key (en_run e) = key).
Proof.
  intros H He [E1 E2]. apply elem_of_map_to_list in He. apply (head_filter_none _ _ H (id, e)) in He. simpl in He.
  by rewrite !bool_decide_eq_true_2 in He.
Qed.

Lemma token_taken_false hash id l runID e k :
  token_taken hash id l = false -> lg_runs l !! runID = Some e -> en_token e = Some k ->
  tk_token_hash k <> hash /\ tk_attempt_id k <> id.
Proof.
  intros H He Hk. unfold token_taken in H. apply elem_of_map_to_list, list_elem_of_In in He.
  assert (Hn : ~ (tk_token_hash k = hash \/ tk_attempt_id k = id)); [|tauto]. intros Hc. apply not_true_iff_false in H. apply H.
  apply existsb_exists. exists (runID, e). split; [done|]. simpl. rewrite Hk, orb_true_iff, !bool_decide_eq_true. done.
Qed.

Lemma family_later op l l' :
  ledger_ok l -> later op l l' -> forall id e child c, lg_runs l' !! id = Some e -> lg_runs l' !! child = Some c ->
  r_parent_run_id (en_run c) = Some id -> r_status (en_run e) = RunSucceeded -> r_status (en_run c) = RunSucceeded.
Proof.
  intros Hok Hl id e' child c' He' Hc' Hp Hs.
  destruct (later_inv _ _ _ _ _ Hl He') as [(_ & _ & [(? & ? & ? & ? & ? & ? & ->) _ _])|(e & He & Ha)]; [done|].
  destruct (later_inv _ _ _ _ _ Hl Hc') as [(_ & Hcr & [_ Hpar _])|(c & Hc & Hb)].
  - destruct (Hpar id Hp) as (p & Hp' & Ht). simplify_eq. destruct (adv_success Ha Hs) as [E|E]; [by rewrite E in Ht|].
    by destruct op.
  - eapply succeeded_stays; [exact Hb|]. rewrite (fixed_parent _ _ (adv_fixed Hb)) in Hp.
    destruct (adv_success Ha Hs) as [E|E]; [by eapply (lo_family _ Hok id e child c)|].
    destruct op; try done. destruct E as [_ Hclean]. by eapply (clean_children _ _ Hclean).
Qed.

Lemma tokens_later op l l' :
  ledger_ok l -> later op l l' -> forall id1 e1 k1 id2 e2 k2, lg_runs l' !! id1 = Some e1 -> lg_runs l' !! id2 = Some e2 ->
    en_token e1 = Some k1 -> en_token e2 = Some k2 ->
    tk_token_hash k1 = tk_token_hash k2 \/ tk_attempt_id k1 = tk_attempt_id k2 -> id1 = id2.
Proof.
  intros Hok Hl.
  assert (Hold : forall id e' k', lg_runs l' !! id = Some e' -> en_token e' = Some k' ->
    exists e, lg_runs l !! id = Some e /\
      ((exists k, en_token e = Some k /\ token_identity k' = token_identity k)
       \/ may_mint (op_may op l id) (tk_token_hash k') (tk_attempt_id k'))).
  { intros id e' k' He' Hk'.
    destruct (later_inv _ _ _ _ _ Hl He') as [(_ & _ & [(? & ? & ? & ? & ? & ? & ->) _ _])|(e & He & Ha)]; [done|].
    exists e. split; [done|]. destruct (en_token e) as [k|] eqn:Ek; [left | right; by apply (adv_minted Ha)].
    exists k. split; [done|]. destruct (adv_token Ha k Ek) as (k2 & E2 & I & _). congruence. }
  assert (Hmint : forall id1 id2 h1 a1 e2 k2, may_mint (op_may op l id1) h1 a1 -> lg_runs l !! id2 = Some e2 ->
    en_token e2 = Some k2 -> tk_token_hash k2 <> h1 /\ tk_attempt_id k2 <> a1).
  { intros id1 id2 h1 a1 e2 k2 Hm He2 Hk2. destruct op; try done. destruct Hm as (_ & _ & _ & Ht). by eapply token_taken_false. }
  intros id1 e1 k1 id2 e2 k2 H1 H2 Hk1 Hk2 Hc.
  destruct (Hold _ _ _ H1 Hk1) as (e1' & H1' & [(k1' & E1 & I1)|M1]), (Hold _ _ _ H2 Hk2) as (e2' & H2' & [(k2' & E2 & I2)|M2]);
    unfold token_identity in *; simplify_eq.
  - eapply (lo_tokens _ Hok id1 e1' k1' id2 e2' k2'); try done. intuition congruence.
  - destruct (Hmint _ _ _ _ _ _ M2 H1' E1). intuition congruence.
  - destruct (Hmint _ _ _ _ _ _ M1 H2' E2). intuition congruence.
  - destruct op; try done. destruct M1 as (<- & _), M2 as (<- & _). done.
Qed.

Lemma ledger_ok_later op l l' : ledger_ok l -> later op l l' -> ledger_ok l'.
Proof.
  intros Hok Hl. split; [| |by eapply family_later| |by eapply tokens_later|].
  - intros id e' He'. destruct (later_inv _ _ _ _ _ Hl He') as [(_ & _ & [Hf _ _])|(e & He & Ha)]; [by eapply fresh_ok|].
    apply (adv_ok Ha). by eapply lo_entries.
  - intros id e' He'. destruct (later_inv _ _ _ _ _ Hl He') as [(_ & _ & [(? & ? & ? & ? & ? & ? & ->) _ _])|(e & He & Ha)]; [done|].
    rewrite (fixed_key _ _ (adv_fixed Ha)). by eapply lo_keys.
  - intros id e' He' Hs Hq.
    destruct (later_inv _ _ _ _ _ Hl He') as [(_ & _ & [(? & ? & ? & ? & ? & ? & ->) _ _])|(e & He & Ha)]; [done|].
    rewrite (fixed_required _ _ (adv_fixed Ha)) in Hq.
    assert (Hv : exists v_id v, lg_envelopes l !! v_id = Some v /\ ev_run_id v = id).
    { destruct (adv_success Ha Hs) as [E|E]; [by eapply (lo_envelope _ Hok)|].
      destruct op; try done. destruct E as [_ Hclean]. by eapply (clean_envelope _ _ Hclean). }
    destruct Hv as (v_id & v & Hv & E). exists v_id, v. split; [|done]. eapply lookup_weaken; [exact Hv | apply Hl].
  - intros id1 e1 id2 e2 H1 H2 Ea Ek.
    destruct (later_inv _ _ _ _ _ Hl H1) as [(N1 & C1 & [_ _ B1])|(e1' & H1' & A1)],
      (later_inv _ _ _ _ _ Hl H2) as [(N2 & C2 & [_ _ B2])|(e2' & H2' & A2)].
    + by destruct op; simpl in *; subst.
    + destruct (fixed_request _ _ (adv_fixed A2)) as (F1 & F2 & _).
      destruct (by_idempotency_key_none _ _ _ _ _ B1 H2'). split; congruence.
    + destruct (fixed_request _ _ (adv_fixed A1)) as (F1 & F2 & _).
      destruct (by_idempotency_key_none _ _ _ _ _ B2 H1'). split; congruence.
    + destruct (fixed_request _ _ (adv_fixed A1)) as (F1 & F2 & _), (fixed_request _ _ (adv_fixed A2)) as (F3 & F4 & _).
      eapply (lo_requests _ Hok id1 e1' id2 e2'); congruence.
Qed.

(** ** Histories *)
Definition ledger_step (l l' : Ledger) : Prop := exists op, op_fits op l /\ l' = apply_op op l.
Definition ledger_reachable : Ledger -> Prop := rtc ledger_step empty_ledger.

Lemma empty_ledger_ok : ledger_ok empty_ledger.
Proof. split; unfold empty_ledger; simpl; intros; by rewrite lookup_empty in *. Qed.

Lemma step_ok l op : ledger_ok l -> op_fits op l -> ledger_ok (apply_op op l).
Proof. intros Hok Hf. eapply ledger_ok_later; [exact Hok|]. apply later_op; [apply Hok | done]. Qed.

Lemma steps_ok l l' : ledger_ok l -> rtc ledger_step l l' -> ledger_ok l'.
Proof. intros Hok H. induction H as [|l1 l2 l3 (op & Hf & ->) _ IH]; [done|]. apply IH. by apply step_ok. Qed.

Lemma reachable_ledger_ok l : ledger_reachable l -> ledger_ok l.
Proof. apply steps_ok, empty_ledger_ok. Qed.

Definition anything : licence := mklicence True (fun _ => True) (fun _ _ => True).

Lemma steps_run l l' id e :
  ledger_ok l -> rtc ledger_step l l' -> lg_runs l !! id = Some e ->
  exists e', lg_runs l' !! id = Some e' /\ advances_ anything e e'.
Proof.
  intros Hok H. revert e Hok. induction H as [|l1 l2 l3 (op & Hf & ->) _ IH]; intros e Hok He; [by exists e|].
  destruct (later_run _ _ _ (later_op l1 (lo_entries _ Hok) op Hf) id e He) as (e2 & He2 & Ha).
  destruct (IH e2 (step_ok _ _ Hok Hf) He2) as (e3 & He3 & Hb). exists e3. split; [done|]. etrans; [|exact Hb].
  revert Ha. by apply advances_weaken.
Qed.

(** C8: the record of a run is permanent.  Whatever the ledger does from a
    reachable state on, a run keeps what its creation fixed, its status only moves
    along the contract's run transitions, the outcome of an ended run (status,
    reason, times) never changes, and its job, its cancellation and the identity
    of its token, once recorded, stay. *)
Theorem run_record_is_permanent l l' id e :
  ledger_reachable l -> rtc ledger_step l l' -> lg_runs l !! id = Some e ->
  exists e', lg_runs l' !! id = Some e' /\ fixed_of e' = fixed_of e
    /\ rtc run_edge (r_status (en_run e)) (r_status (en_run e'))
    /\ (run_terminal (r_status (en_run e)) = true -> outcome_of e' = outcome_of e)
    /\ kept_once (r_l1_job_id (en_run e)) (r_l1_job_id (en_run e'))
    /\ (is_Some (en_cancellation e) -> is_Some (en_cancellation e'))
    /\ (forall k, en_token e = Some k -> exists k', en_token e' = Some k' /\ token_identity k' = token_identity k).
Proof.
  intros Hr Hs He. destruct (steps_run _ _ _ _ (reachable_ledger_ok _ Hr) Hs He) as (e' & He' & Ha). exists e'.
  split_and!; [done | apply Ha | apply Ha | apply Ha | apply Ha | apply Ha|].
  intros k Hk. destruct (adv_token Ha k Hk) as (k' & ? & ? & _). by exists k'.
Qed.

(** C7: a success is earned.  In every reachable ledger a run that succeeded has a
    finish time, every child run it ever got has succeeded too, and so in turn the
    whole lineage below it, and the envelope it promised was accepted. *)
Theorem success_is_earned l id e :
  ledger_reachable l -> lg_runs l !! id = Some e -> r_status (en_run e) = RunSucceeded ->
  is_Some (r_finished_ns (en_run e))
  /\ (forall child c, lg_runs l !! child = Some c -> r_parent_run_id (en_run c) = Some id -> r_status (en_run c) = RunSucceeded)
  /\ (r_required_envelope (en_run e) = true -> exists env_id v, lg_envelopes l !! env_id = Some v /\ ev_run_id v = id).
Proof.
  intros Hr He Hs. assert (Hok := reachable_ledger_ok _ Hr). split_and!.
  - apply (ok_finished _ (lo_entries _ Hok _ _ He)). by rewrite Hs.
  - intros child c Hc Hp. by eapply (lo_family _ Hok id e child c).
  - by eapply (lo_envelope _ Hok).
Qed.

(** C15: a run token speaks for one run, and not for long after it ended.  In every
    reachable ledger, a token that authenticates at [now] carries the digest of
    the token of exactly one run, the one in the scope it gets; if that run has
    ended, its grace has not run out and no bearer is staged for it any more. *)
Theorem run_token_names_its_run l now token scope :
  ledger_reachable l -> AuthenticateRunToken (le_token_digest env) now token l = Ok scope ->
  exists e k, lg_runs l !! rt_RunID scope = Some e /\ en_token e = Some k
    /\ tk_token_hash k = le_token_digest env token /\ tk_attempt_id k = rt_AttemptID scope
    /\ (forall id e' k', lg_runs l !! id = Some e' -> en_token e' = Some k' ->
          tk_token_hash k' = le_token_digest env token -> id = rt_RunID scope)
    /\ (run_terminal (r_status (en_run e)) = true ->
          o_token_delivery (en_outbox e) = None /\ exists expires, tk_expires_ns k = Some expires /\ now < expires).
Proof.
  intros Hr H. assert (Hok := reachable_ledger_ok _ Hr). unfold AuthenticateRunToken in H.
  case_match; [done|]. destruct (head _) as [[id e]|] eqn:Eh; [|done]. apply head_filter_some in Eh as [Hin Hk].
  apply elem_of_map_to_list in Hin. simpl in Hk. destruct (en_token e) as [k|] eqn:Ek; [|done].
  apply bool_decide_eq_true in Hk. destruct (match tk_expires_ns k with Some _ => _ | None => _ end) eqn:Ex; [done|].
  injection H as <-. exists e, k. split_and!; try done.
  - intros id' e' k' He' Hk' E. eapply (lo_tokens _ Hok id' e' k' id e k); try done. left. congruence.
  - intros Ht. assert (He := lo_entries _ Hok _ _ Hin). split; [apply unstaged; [done | by intros E; rewrite E in Ht]|].
    apply (ok_expiry _ He k Ek) in Ht as [x Hx]. exists x. rewrite Hx in Ex. apply negb_false_iff, Z.ltb_lt in Ex. done.
Qed.

(** what was stopped in time is never submitted.  Once a run is canceled, or
    has ended, before its first submit attempt, it never gets one: from then on it
    has no attempt, no bearer and no token, and every attempt to dispatch it is
    abandoned without a write. *)
Theorem stopped_run_is_never_dispatched l l' id e now fresh attemptID :
  ledger_reachable l -> rtc ledger_step l l' -> lg_runs l !! id = Some e ->
  is_Some (en_cancellation e) \/ run_terminal (r_status (en_run e)) = true -> r_dispatch_attempt_ns (en_run e) = None ->
  (exists e', lg_runs l' !! id = Some e' /\ r_dispatch_attempt_ns (en_run e') = None
     /\ o_token_delivery (en_outbox e') = None /\ r_status (en_run e') <> RunDispatching)
  /\ run (beginDispatch (le_token_digest env) now id fresh attemptID) l' = (l', Err DispatchAbandoned).
Proof.
  intros Hr Hs He Hstop Hn. assert (Hok := reachable_ledger_ok _ Hr).
  destruct (steps_run _ _ _ _ Hok Hs He) as (e' & He' & Ha).
  assert (Hok' := lo_entries _ (steps_ok _ _ Hok Hs) _ _ He'). assert (Hn' := adv_unattempted Ha Hstop Hn).
  assert (Hd : r_status (en_run e') <> RunDispatching)
    by (intros E; destruct (ok_dispatching _ Hok' E) as [[x Hx] _]; congruence).
  split; [exists e'; split_and!; [done | done | by apply unstaged | done]|].
  assert (Hdef : dispatch_deferred now (lg_hold l') e' = true).
  { unfold dispatch_deferred. destruct Hstop as [Hc|Ht].
    - apply (adv_canceled Ha) in Hc. by rewrite (bool_decide_eq_true_2 _ Hc), !orb_true_r.
    - assert (E := adv_final Ha Ht). unfold outcome_of in E. injection E as E _ _ _. rewrite E.
      apply run_terminal_cases in Ht as [-> | ->]; done. }
  unfold run, beginDispatch, bind, reads, on_run, attempt_entry. rewrite He'.
  unfold bind at 1, reads at 1. by rewrite Hdef.
Qed.

Lemma by_idempotency_key_some l id e :
  ledger_ok l -> lg_runs l !! id = Some e ->
  by_idempotency_key (r_actor (en_run e)) (r_idempotency_key (en_run e)) l = Some (id, e).
Proof.
  intros Hok He. unfold by_idempotency_key. destruct (head _) as [[id' e']|] eqn:E.
  - apply head_filter_some in E as [Hin Hb]. apply elem_of_map_to_list in Hin. simpl in Hb.
    apply andb_true_iff in Hb as [H1%bool_decide_eq_true H2%bool_decide_eq_true].
    assert (id' = id) as -> by by eapply (lo_requests _ Hok id' e' id e). congruence.
  - by destruct (by_idempotency_key_none _ _ _ _ _ E He).
Qed.

Lemma CreateRun_created now input verdicts runID l l1 id :
  run (CreateRun (le_lower_table env) now input verdicts runID) l = (l1, Ok (id, false)) ->
  exists e, lg_runs l1 !! id = Some e /\ r_actor (en_run e) = ci_Actor input
    /\ r_idempotency_key (en_run e) = ci_IdempotencyKey input /\ r_request_hash (en_run e) = ci_requestHash input.
Proof.
  intros Hrun. pose (P := fun (s : Ledger) (r : result ledger_error (string * bool)) => forall id, r = Ok (id, false) ->
    exists e, lg_runs s !! id = Some e /\ r_actor (en_run e) = ci_Actor input
      /\ r_idempotency_key (en_run e) = ci_IdempotencyKey input /\ r_request_hash (en_run e) = ci_requestHash input).
  assert (H : P (run (CreateRun (le_lower_table env) now input verdicts runID) l).1
                (run (CreateRun (le_lower_table env) now input verdicts runID) l).2).
  { apply (ends_run _ P). unfold CreateRun, replay_run, check_parent, insert_run, P.
    wp; try (by intros ? [=]); intros ? [= <-]; eexists; simpl; by rewrite lookup_insert_eq. }
  rewrite Hrun in H. by apply H.
Qed.

(** C13: creating a run is idempotent.  Once a request created a run, the same actor
    repeating it under the same key gets that run, at any later time and whatever
    became of it, and the ledger stays as it is; the same key with another request
    is refused. *)
Theorem run_creation_replays now now' input verdicts verdicts' runID runID' l l1 l2 id :
  ledger_reachable l -> run (CreateRun (le_lower_table env) now input verdicts runID) l = (l1, Ok (id, false)) ->
  rtc ledger_step l1 l2 ->
  run (CreateRun (le_lower_table env) now' input verdicts' runID') l2 = (l2, Ok (id, true))
  /\ forall input', ci_Actor input' = ci_Actor input -> ci_IdempotencyKey input' = ci_IdempotencyKey input ->
       ci_requestHash input' <> ci_requestHash input ->
       run (CreateRun (le_lower_table env) now' input' verdicts' runID') l2 = (l2, Err (Coded ErrorIdempotencyConflict)).
Proof.
  intros Hr Hrun Hs. destruct (CreateRun_created _ _ _ _ _ _ _ Hrun) as (e & He & Ea & Ek & Eh).
  assert (Hok1 : ledger_ok l1).
  { replace l1 with (apply_op (OpCreateRun now input verdicts runID) l) by (simpl; by rewrite Hrun).
    by apply step_ok; [apply reachable_ledger_ok|]. }
  destruct (steps_run _ _ _ _ Hok1 Hs He) as (e2 & He2 & Ha). destruct (fixed_request _ _ (adv_fixed Ha)) as (Fa & Fk & Fh).
  assert (Hget := by_idempotency_key_some _ _ _ (steps_ok _ _ Hok1 Hs) He2). rewrite Fa, Fk, Ea, Ek in Hget.
  unfold run, CreateRun, bind at 1, replay_run, bind, reads. split.
  - rewrite Hget. simpl. by rewrite Fh, Eh, bool_decide_eq_true_2.
  - intros input' -> -> Hne. rewrite Hget. simpl. rewrite Fh, Eh, bool_decide_eq_false_2 by congruence. done.
Qed.
End Ledger.

(** ** Witnesses *)
Definition sample_ledger_env : ledger_env :=
  mkledger_env (fun r => r) (fun actor source => actor +:+ source) (fun _ => false) (fun _ _ => None) (fun s => s)
    (fun token => "digest:" +:+ token) 1000.

Definition sample_digest : string := "0123456789abcdef0123456789abcdef0123456789abcdef0123456789abcdef".
Definition sample_input (key parent : string) : CreateRunInput :=
  mkCreateRunInput "alice" key ("hash-" +:+ key) parent "{}" ["linux"] None None true false false.
Definition sample_verdicts : creation_verdicts :=
  mkcreation_verdicts None (Ok (RunScript "echo" sample_digest [] 493)) (Ok tt) (Ok tt).

Definition op_create (id parent : string) : ledger_op := OpCreateRun 10 (sample_input id parent) sample_verdicts id.
Definition op_begin (id : string) : ledger_op := OpBegin 20 id ("bearer-" +:+ id) ("attempt-" +:+ id).
Definition op_ack (id job : string) : ledger_op := OpComplete 30 id job dispatchAcknowledgementEvidence None.
Definition op_project (id job : string) (s : RunState) (j : JobState) : ledger_op := OpProject 40 (mkprojectedRun id job s true) j "".
Definition op_envelope (id : string) : ledger_op :=
  OpEnvelope 50 (mkRunTokenScope id ("attempt-" +:+ id))
    (mkprotocol_write "body" "key" (Some (mkprotocol_body ("env-" +:+ id) id ("attempt-" +:+ id) "key" "" "")) "").

Definition apply_ops (ops : list ledger_op) (l : Ledger) : Ledger := foldl (fun l op => apply_op sample_ledger_env op l) l ops.

(** A parent and its child, both through to success. *)
Definition ops_running : list ledger_op :=
  [op_create "run-1" ""; op_begin "run-1"; op_ack "run-1" "job-1"; op_project "run-1" "job-1" RunQueued JobRunning;
   op_create "run-2" "run-1"; op_begin "run-2"; op_ack "run-2" "job-2"; op_project "run-2" "job-2" RunQueued JobRunning].
Definition ops_finished : list ledger_op :=
  [op_envelope "run-2"; op_project "run-2" "job-2" RunRunning JobSucceeded;
   op_envelope "run-1"; op_project "run-1" "job-1" RunRunning JobSucceeded].

Definition ledger_running : Ledger := apply_ops ops_running empty_ledger.
Definition ledger_finished : Ledger := apply_ops ops_finished ledger_running.

Definition op_fits_b (op : ledger_op) (l : Ledger) : bool :=
  match op with
  | OpBegin _ _ fresh _ => negb (bool_decide (fresh = ""))
  | OpProject _ run _ _ =>
      negb (run_waiting (p_State run))
      && match lg_runs l !! p_RunID run with Some e => Bool.eqb (p_RequiredEnvelope run) (r_required_envelope (en_run e)) | None => true end
  | _ => true
  end.

Lemma op_fits_eval op l : op_fits_b op l = true -> op_fits op l.
Proof.
  destruct op; simpl; try done.
  - by intros H%negb_true_iff%bool_decide_eq_false.
  - intros [H1%negb_true_iff H2]%andb_true_iff. split; [done|]. intros e He. rewrite He in H2. by apply eqb_prop.
Qed.

Fixpoint ops_fit (ops : list ledger_op) (l : Ledger) : bool :=
  match ops with
  | [] => true
  | op :: ops => op_fits_b op l && ops_fit ops (apply_op sample_ledger_env op l)
  end.

Lemma ops_steps ops l : ops_fit ops l = true -> rtc (ledger_step sample_ledger_env) l (apply_ops ops l).
Proof.
  revert l. induction ops as [|op ops IH]; intros l H; [done|]. simpl in H. apply andb_true_iff in H as [H1 H2].
  eapply rtc_l; [exists op; split; [by apply op_fits_eval | reflexivity] | by apply IH].
Qed.

Lemma ledger_running_reachable : ledger_reachable sample_ledger_env ledger_running.
Proof. apply ops_steps. vm_compute. reflexivity. Qed.
Lemma ledger_running_finishes : rtc (ledger_step sample_ledger_env) ledger_running ledger_finished.
Proof. apply ops_steps. vm_compute. reflexivity. Qed.
Lemma ledger_finished_reachable : ledger_reachable sample_ledger_env ledger_finished.
Proof. eapply rtc_trans; [apply ledger_running_reachable | apply ledger_running_finishes]. Qed.

Definition sample_run (id : string) (l : Ledger) : RunEntry :=
  default (new_run 0 id (sample_input id "") None "" None (RunScript "" "" [] 0)) (lg_runs l !! id).

Lemma run_record_is_permanent_witness :
  exists e', lg_runs ledger_finished !! "run-1" = Some e' /\ rtc run_edge RunRunning (r_status (en_run e')).
Proof.
  destruct (run_record_is_permanent sample_ledger_env ledger_running ledger_finished "run-1" (sample_run "run-1" ledger_running)
    ledger_running_reachable ledger_running_finishes ltac:(vm_compute; reflexivity)) as (e' & H1 & _ & H2 & _).
  exists e'. split; [exact H1|]. exact H2.
Defined.

Lemma success_is_earned_witness :
  exists env_id v, lg_envelopes ledger_finished !! env_id = Some v /\ ev_run_id v = "run-1".
Proof.
  apply (success_is_earned sample_ledger_env ledger_finished "run-1" (sample_run "run-1" ledger_finished)
    ledger_finished_reachable ltac:(vm_compute; reflexivity) ltac:(vm_compute; reflexivity)).
  vm_compute. reflexivity.
Defined.

Lemma run_token_names_its_run_witness :
  exists e k, lg_runs ledger_finished !! "run-1" = Some e /\ en_token e = Some k /\ tk_attempt_id k = "attempt-run-1".
Proof.
  destruct (run_token_names_its_run sample_ledger_env ledger_finished 60 "bearer-run-1" (mkRunTokenScope "run-1" "attempt-run-1")
    ledger_finished_reachable ltac:(vm_compute; reflexivity)) as (e & k & H1 & H2 & _ & H3 & _).
  exact (ex_intro _ e (ex_intro _ k (conj H1 (conj H2 H3)))).
Defined.

(** A run canceled before it was submitted. *)
Definition ledger_stopped : Ledger := apply_ops [op_create "run-1" ""; OpRequestCancel 15 "run-1" "alice"] empty_ledger.

Lemma stopped_run_is_never_dispatched_witness :
  run (beginDispatch (le_token_digest sample_ledger_env) 30 "run-1" "bearer" "attempt")
    (apply_ops [op_begin "run-1"; op_create "run-2" ""] ledger_stopped)
  = (apply_ops [op_begin "run-1"; op_create "run-2" ""] ledger_stopped, Err DispatchAbandoned).
Proof.
  apply (stopped_run_is_never_dispatched sample_ledger_env ledger_stopped _ "run-1" (sample_run "run-1" ledger_stopped)).
  - apply ops_steps. vm_compute. reflexivity.
  - apply ops_steps. vm_compute. reflexivity.
  - vm_compute. reflexivity.
  - left. vm_compute. eexists. reflexivity.
  - vm_compute. reflexivity.
Defined.

Lemma run_creation_replays_witness :
  run (CreateRun (le_lower_table sample_ledger_env) 99 (sample_input "run-1" "") sample_verdicts "run-9")
    (apply_ops [op_begin "run-1"] (apply_op sample_ledger_env (op_create "run-1" "") empty_ledger))
  = (apply_ops [op_begin "run-1"] (apply_op sample_ledger_env (op_create "run-1" "") empty_ledger), Ok ("run-1", true)).
Proof.
  apply (run_creation_replays sample_ledger_env 10 99 (sample_input "run-1" "") sample_verdicts sample_verdicts "run-1" "run-9"
    empty_ledger (apply_op sample_ledger_env (op_create "run-1" "") empty_ledger)).
  - apply rtc_refl.
  - vm_compute. reflexivity.
  - apply ops_steps. vm_compute. reflexivity.
Defined.

(** A parent that exits zero is failed by its first failed child, while another
    child is still running. *)
Example failed_child_fails_parent_early :
  let l := apply_ops (ops_running ++
    [op_create "run-3" "run-1"; op_begin "run-3"; op_ack "run-3" "job-3";
     op_project "run-2" "job-2" RunRunning JobFailed; op_project "run-1" "job-1" RunRunning JobSucceeded]) empty_ledger in
  r_status (en_run (sample_run "run-1" l)) = RunFailed /\ r_status (en_run (sample_run "run-3" l)) = RunQueued.
Proof. vm_compute. split; reflexivity. Qed.
