(* ===== verification/RunHold.v ===== *)
(** * The dispatch hold

    While L1 does not admit the ledger, nothing is submitted; probes find out when
    that ends ([l3/dispatch_hold.go]).  A probe reserved before a newer refusal
    must not lift the hold with its answer. *)
From S2P Require Import Prelude Order States Contract GoStrings JobSpec RunLedger RunDispatch RunProtocol RunHistory RunMachine.
#[local] Open Scope string_scope.
#[local] Open Scope list_scope.
#[local] Open Scope Z_scope.

Lemma on_run_hold {R A} missing runID (m : entry_tx R A) l h K :
  lg_hold l = h -> (forall r s, lg_hold s = h -> K r s) -> post (on_run missing runID m) (fun _ s => lg_hold s = h) K l.
Proof. intros E HK. apply ends_on_run; [done|]. intros e _. unfold ends. destruct (m e); simpl; auto. Qed.

Section Hold.
Context (env : ledger_env).

(** The operations on the hold. *)
Definition touches_hold (op : ledger_op) : bool :=
  match op with OpHold _ _ | OpReserveProbe _ _ _ | OpFinishProbe _ _ _ => true | _ => false end.

Ltac wp_extra ::= lazymatch goal with
  | |- ends (on_run _ _ _) _ _ _ _ => apply on_run_hold; [done | done]
  end.

Lemma hold_untouched op l : touches_hold op = false -> lg_hold (apply_op env op l) = lg_hold l.
Proof.
  intros Ht. destruct op; simpl in *; try done.
  all: try (apply (post_run _ (fun s => lg_hold s = lg_hold l)); [done|]).
  all: unfold CreateRun, CreateRerun, replay_run, check_parent, insert_run, AppendEnvelope, AppendGateResult, rejected, beginDispatch,
    completeDispatchWithEvidence, requestRunCancellation, cancelAbsentDispatch, cancelAbsentStoredIdentity,
    acceptRecoveredCancellation, linkUnrecordedDispatch, deferUnlinkedRunCancellation, deferUnrecordedDispatch, projectJobOutcome.
  all: wp; try done; try (unfold rejectProtocolWrite; by repeat case_match); try (by repeat case_match).
  - unfold settleUnrecordedDispatch. by repeat case_match.
  - unfold failMissingL1Job. by repeat case_match.
  - unfold recordRunNode. by repeat case_match.
Qed.

(** A probe ID is drawn at random: no other reservation has it. *)
Definition other_step (probe : string) (l l' : Ledger) : Prop :=
  exists op, (forall now budget, op <> OpReserveProbe now budget probe) /\ l' = apply_op env op l.

(** What a refusal leaves behind for the probe [p]. *)
Definition probe_fenced (p : dispatchProbe) (h : DispatchHoldRow) : Prop :=
  dp_generation p <= h_generation h /\ (h_probe_id h = dp_id p -> dp_generation p < h_generation h).

Lemma hold_generation now reason l :
  0 <= h_generation (lg_hold l) ->
  h_generation (lg_hold l) <= h_generation (lg_hold (holdDispatch now reason l))
  /\ h_probe_id (lg_hold (holdDispatch now reason l)) = h_probe_id (lg_hold l)
  /\ (h_probe_id (lg_hold l) <> "" -> h_generation (lg_hold l) < h_generation (lg_hold (holdDispatch now reason l))).
Proof.
  intros Hg. unfold holdDispatch. destruct (_ && _ && _) eqn:E.
  - split_and!; [lia | done|]. intros Hne. apply andb_true_iff in E as [_ E%bool_decide_eq_true]. congruence.
  - simpl. split_and!; [repeat case_bool_decide; lia | done|]. intros Hne. rewrite (bool_decide_eq_false_2 _ Hne).
    destruct (bool_decide (h_generation (lg_hold l) = 0)) eqn:E0; simpl; [apply bool_decide_eq_true in E0|]; lia.
Qed.

(** Generations never go back and start at zero. *)
Lemma generation_step op l :
  0 <= h_generation (lg_hold l) -> h_generation (lg_hold l) <= h_generation (lg_hold (apply_op env op l)).
Proof.
  intros Hg. destruct (touches_hold op) eqn:Ht; [|by rewrite hold_untouched]. destruct op; try done; simpl.
  - by apply hold_generation.
  - unfold reserveDispatchProbe. case_match; simpl; lia.
  - unfold finishDispatchProbe. repeat case_match; simpl; lia.
Qed.

Lemma fenced_step p l l' :
  dp_id p <> "" -> 0 <= dp_generation p -> other_step (dp_id p) l l' -> probe_fenced p (lg_hold l) -> probe_fenced p (lg_hold l').
Proof.
  intros Hne Hp (op & Hop & ->) [Hg Hf]. split; [assert (H := generation_step op l); lia|].
  destruct (touches_hold op) eqn:Ht; [|by rewrite hold_untouched]. destruct op; try done; simpl.
  - destruct (hold_generation now reason l) as (H1 & H2 & _); [lia|]. rewrite H2. intros E. specialize (Hf E). lia.
  - unfold reserveDispatchProbe. case_match; simpl; [|done]. intros ->. by destruct (Hop now budget).
  - unfold finishDispatchProbe. repeat case_match; simpl; try done; by intros <-.
Qed.

Lemma fenced_steps p l l' :
  dp_id p <> "" -> 0 <= dp_generation p -> rtc (other_step (dp_id p)) l l' -> probe_fenced p (lg_hold l) -> probe_fenced p (lg_hold l').
Proof. intros H1 H2 Hs. induction Hs as [|l1 l2 l3 H12 _ IH]; [done|]. intros H. apply IH. by eapply fenced_step. Qed.

Lemma generation_steps probe l l' :
  0 <= h_generation (lg_hold l) -> rtc (other_step probe) l l' -> h_generation (lg_hold l) <= h_generation (lg_hold l').
Proof.
  intros Hg Hs. induction Hs as [|l1 l2 l3 (op & _ & ->) _ IH]; [lia|]. assert (H := generation_step op l1 Hg). lia.
Qed.

(** C14: a stale probe never lifts a hold.  After a probe was reserved, once L1
    refused the ledger again, at any later point and whatever other probes and
    refusals came in between, an admission answered to that probe leaves every
    hold in place. *)
Theorem stale_probe_never_lifts_hold now budget fresh l0 l1 p l2 now2 reason l4 now4 :
  0 <= h_generation (lg_hold l0) -> fresh <> "" -> reserveDispatchProbe now budget fresh l0 = (l1, Some p) ->
  rtc (other_step fresh) l1 l2 -> rtc (other_step fresh) (holdDispatch now2 reason l2) l4 ->
  is_Some (h_since_ns (lg_hold l4)) -> is_Some (h_since_ns (lg_hold (finishDispatchProbe now4 p true l4))).
Proof.
  intros Hg Hne Hres H12 H34 Hheld. unfold reserveDispatchProbe in Hres. case_match; [|done]. simplify_eq.
  apply generation_steps in H12; [simpl in H12 | done].
  set (p := mkdispatchProbe (h_generation (lg_hold l0)) fresh) in *.
  assert (Hf : probe_fenced p (lg_hold (holdDispatch now2 reason l2))).
  { destruct (hold_generation now2 reason l2) as (G1 & G2 & G3); [lia|]. split; [simpl; lia|]. simpl. rewrite G2. intros E.
    rewrite E in G3. specialize (G3 Hne). lia. }
  apply (fenced_steps p _ _ Hne Hg H34) in Hf as [_ Hf].
  unfold finishDispatchProbe. case_bool_decide as Hid; [done|].
  rewrite (bool_decide_eq_false_2 (h_generation (lg_hold l4) = dp_generation p)); [by simpl|].
  specialize (Hf Hid). simpl in *. lia.
Qed.
End Hold.

(** ** Witness *)
Definition held_ledger : Ledger := holdDispatch 100 "identity_unverifiable" empty_ledger.
Definition probed_ledger : Ledger := (reserveDispatchProbe 2000000000 1000 "probe-1" held_ledger).1.

Lemma stale_probe_never_lifts_hold_witness :
  is_Some (h_since_ns (lg_hold (finishDispatchProbe 2000000200 (mkdispatchProbe 1 "probe-1") true
    (holdDispatch 2000000100 "identity_unverifiable" probed_ledger)))).
Proof.
  apply (stale_probe_never_lifts_hold sample_ledger_env 2000000000 1000 "probe-1" held_ledger probed_ledger (mkdispatchProbe 1 "probe-1")
    probed_ledger 2000000100 "identity_unverifiable").
  - vm_compute. discriminate.
  - discriminate.
  - vm_compute. reflexivity.
  - apply rtc_refl.
  - apply rtc_refl.
  - vm_compute. eexists. reflexivity.
Defined.
