(* ===== verification/RunIntent.v ===== *)
(** * What the ledger submits

    [dispatchIntent.jobSpec] of [l3/store.go], from the rows [pendingDispatches]
    reads ([l3/run_job_link.go]), and the specification L1 decodes from it: the
    flags that record wire presence are those of the members the encoder writes
    ([contract/types.go]). *)
From S2P Require Import Prelude Order States Contract GoStrings JobSpec RunLedger RunDispatch RunProtocol.
From Stdlib Require Import Ascii.
#[local] Open Scope string_scope.
#[local] Open Scope list_scope.
#[local] Open Scope Z_scope.

(** ** [base64.StdEncoding] *)
Definition base64_alphabet : list ascii := bytes "ABCDEFGHIJKLMNOPQRSTUVWXYZabcdefghijklmnopqrstuvwxyz0123456789+/".

Definition base64_digit (n : Z) : ascii := nth (Z.to_nat n) base64_alphabet "="%char.

Fixpoint base64 (l : list ascii) : list ascii :=
  match l with
  | [] => []
  | [a] => let n := Z.shiftl (byte_val a) 16 in
           [base64_digit (Z.land (Z.shiftr n 18) 63); base64_digit (Z.land (Z.shiftr n 12) 63); "="%char; "="%char]
  | [a; b] => let n := Z.lor (Z.shiftl (byte_val a) 16) (Z.shiftl (byte_val b) 8) in
              [base64_digit (Z.land (Z.shiftr n 18) 63); base64_digit (Z.land (Z.shiftr n 12) 63);
               base64_digit (Z.land (Z.shiftr n 6) 63); "="%char]
  | a :: b :: c :: rest =>
      let n := Z.lor (Z.lor (Z.shiftl (byte_val a) 16) (Z.shiftl (byte_val b) 8)) (byte_val c) in
      [base64_digit (Z.land (Z.shiftr n 18) 63); base64_digit (Z.land (Z.shiftr n 12) 63);
       base64_digit (Z.land (Z.shiftr n 6) 63); base64_digit (Z.land n 63)] ++ base64 rest
  end.

Definition encodeBase64 (content : string) : string := of_bytes (base64 (bytes content)).

(** ** The intent *)
Record dispatchIntent := mkdispatchIntent {
  di_RunID : string;
  di_DispatchKey : string;
  di_ParentRunID : string;
  di_HandoffOwnerID : string;
  di_Params : string;
  di_DispatchAuthority : bool;
  di_Restartable : bool;
  di_program : run_program;
  di_Tags : list string;
  di_Limits : option Z
}.

(** The row of [pendingDispatches] for a run. *)
Definition intent_of (runID : string) (e : RunEntry) : dispatchIntent :=
  let r := en_run e in let t := en_trigger e in
  mkdispatchIntent runID (r_dispatch_key r) (default "" (r_parent_run_id r))
    (if bool_decide (t_source t = "rerun") then default "" (t_source_run_id t) else runID)
    (r_params r) (r_dispatch_authority r) (r_restartable r) (en_program e) (r_tags r) (r_limits r).

(** Whether the pass lists the run. *)
Definition dispatch_listed (now : Z) (hold : DispatchHoldRow) (e : RunEntry) : bool :=
  bool_decide (o_dispatched_ns (en_outbox e) = None) && negb (dispatch_deferred now hold e).

Definition DefaultL3Address : string := "wefty://run-ledger".
Definition DefaultHandoffRoot : string := "/tmp/wefty/handoffs".
Definition MaxDispatchedRunParamsBytes : Z := 65536.
Definition LabelParentRunID : string := "parent_run_id".

Definition handoff_owner (intent : dispatchIntent) : string :=
  if bool_decide (di_HandoffOwnerID intent = "") then di_RunID intent else di_HandoffOwnerID intent.

Definition insert_if {A} (b : bool) (key : string) (value : A) (m : gmap string A) : gmap string A :=
  if b then <[key := value]> m else m.

Definition intent_labels (intent : dispatchIntent) : gmap string string :=
  let params := TrimSpace (di_Params intent) in
  insert_if (negb (bool_decide (di_ParentRunID intent = ""))) LabelParentRunID (di_ParentRunID intent)
  (insert_if (negb (bool_decide (handoff_owner intent = di_RunID intent))) LabelHandoffOwnerRunID (handoff_owner intent)
  (insert_if (negb (bool_decide (params = "")) && negb (bool_decide (params = "{}"))
              && (strlen params <=? MaxDispatchedRunParamsBytes)) LabelRunParams params
  (<[(if di_DispatchAuthority intent then LabelDispatchAuthority else LabelWithholdCredentials) := LabelTrue]>
   {[ LabelRunID := di_RunID intent ]}))).

Definition intent_limits (intent : dispatchIntent) : option JobLimits :=
  match di_Limits intent with
  | Some seconds => if 0 <? seconds then Some (mkJobLimits seconds 0 0 false) else None
  | None => None
  end.

(** [append([]T(nil), values...)]: nil for no values. *)
Definition clone {A} (values : list A) : option (list A) := match values with [] => None | _ => Some values end.

Definition intent_env (intent : dispatchIntent) (handoff : string) : gmap string string :=
  <[EnvRunID := di_RunID intent]> (<[EnvL3Endpoint := DefaultL3Address]> {[ EnvHandoffDir := handoff ]}).

Definition cloneOCILimits (limits : OCILimits) : OCILimits :=
  mkOCILimits (ol_MemoryBytes limits) (ol_CPUMillicores limits) false false.

Definition jobSpec (intent : dispatchIntent) (runToken : string) : JobSpec :=
  let handoff := Clean (DefaultHandoffRoot +:+ "/" +:+ handoff_owner intent) in
  let secrets := {[ EnvRunToken := runToken ]} in
  match di_program intent with
  | RunImage program =>
      let oci := mkOCIExecutionSpec (mkOCIImageSpec (ip_Reference program) (ip_Digest program) false)
                   (clone (default [] (ip_Argv program))) (ip_WorkingDirectory program) (ip_Mounts program)
                   (cloneOCILimits <$> ip_Limits program) None false false false false false in
      mkJobSpec SchemaVersionV1 (di_DispatchKey intent) None JobKindOCI JobClassOneShot None false "" None
        (ip_RuntimeHandler program) (di_Tags intent)
        (mkExecutionSpec (mkExecutableSpec "" "" "" None 0) None (intent_env intent OCIContainerHandoffDirectory) secrets "" ""
           (Some oci) false false false false false)
        (intent_limits intent) (intent_labels intent) false false
  | RunScript content sha256 interpreter mode =>
      mkJobSpec SchemaVersionV1 (di_DispatchKey intent) None JobKindProcess JobClassOneShot None (di_Restartable intent) "" None ""
        (di_Tags intent)
        (mkExecutionSpec (mkExecutableSpec "" (encodeBase64 content) sha256 (clone interpreter) mode)
           (Some ["wefty-inline-" +:+ di_RunID intent]) (intent_env intent handoff) secrets "/tmp" handoff None
           false false false false false)
        (intent_limits intent) (intent_labels intent) false false
  end.

(** ** The wire *)

(** [omitzero] and [omitempty] leave a zero member out, and the decoder flags the
    members it finds. *)
Definition on_wire (spec : JobSpec) : JobSpec :=
  let e := js_Execution spec in
  spec <| js_publishedPortSet := bool_decide (is_Some (js_PublishedPort spec)) |>
       <| js_instanceKeySet := bool_decide (is_Some (js_InstanceKey spec)) |>
       <| js_Execution := e
            <| exec_executableSet := negb (zeroExecutable (exec_Executable e)) |>
            <| exec_argvSet := bool_decide (is_Some (exec_Argv e)) |>
            <| exec_workingDirSet := negb (bool_decide (exec_WorkingDirectory e = "")) |>
            <| exec_handoffDirSet := negb (bool_decide (exec_HandoffDirectory e = "")) |>
            <| exec_ociSet := bool_decide (is_Some (exec_OCI e)) |> |>.
