(* ===== verification/RunAccepted.v ===== *)
(** * What the ledger accepts, L1 accepts

    The checks of [normalizeCreateRun] ([l3/store.go]) on scripts and tags, and the
    proof that the job of a run they admitted passes [contract.ValidateJobSpec]: L1
    has no ground in the specification to refuse what the ledger accepted. *)
From S2P Require Import Prelude Order States Contract GoStrings JobSpec Placement RunLedger RunDispatch RunProtocol RunIntent.
From Stdlib Require Import Ascii.
#[local] Open Scope string_scope.
#[local] Open Scope list_scope.
#[local] Open Scope Z_scope.

(** ** Identifiers *)
Definition hex_digit (n : Z) : ascii := byte_of (if n <? 10 then 48 + n else 87 + n).

(** [hex.EncodeToString]. *)
Definition hex_encode (l : list ascii) : string :=
  of_bytes (concat (map (fun a => [hex_digit (Z.shiftr (byte_val a) 4); hex_digit (Z.land (byte_val a) 15)]) l)).

Definition newID (prefix : string) (random : list ascii) : string := prefix +:+ "_" +:+ hex_encode random.

(** ** Tags and scripts *)
Section Normalize.
Context (lower_table : Z -> Z) (sha256 : string -> string).

Fixpoint collect_tags (seen tags : list string) : result ErrorCode (list string) :=
  match tags with
  | [] => Ok []
  | tag :: rest =>
      let tag := normalize_word lower_table tag in
      if negb (validRoutingTag tag) then Err ErrorInvalidRequest
      else if bool_decide (tag ∈ seen) then collect_tags seen rest
      else let? normalized := collect_tags (tag :: seen) rest in Ok (tag :: normalized)
  end.

Definition normalizeTags (tags : list string) : result ErrorCode (list string) :=
  let? normalized := collect_tags [] tags in Ok (sort_strings normalized).

Definition defaultInlineMode : Z := 493.

(** [sha256] is the lower-case hexadecimal digest. *)
Definition normalizeScript (content suppliedSHA : string) (interpreter : list string) (suppliedMode : option Z) :
    result ErrorCode Z :=
  if bool_decide (content = "") then Err ErrorInvalidRequest
  else if negb (bool_decide (suppliedSHA = sha256 content)) then Err ErrorInvalidRequest
  else if existsb (fun part => bool_decide (part = "")) interpreter then Err ErrorInvalidRequest
  else let mode := default defaultInlineMode suppliedMode in
       if 4095 <? mode then Err ErrorInvalidRequest else Ok mode.
End Normalize.

(** ** Normal tags *)
Definition normal_tags (tags : list string) : Prop := NoDup tags /\ Forall (fun t => validRoutingTag t = true) tags.

Lemma collect_tags_normal lower_table seen tags normalized :
  collect_tags lower_table seen tags = Ok normalized ->
  normal_tags normalized /\ Forall (fun t => t ∉ seen) normalized.
Proof.
  revert seen normalized. induction tags as [|tag tags IH]; intros seen normalized H; simpl in H.
  { injection H as <-. repeat constructor. }
  destruct (validRoutingTag _) eqn:Hv; [simpl in H|done]. case_bool_decide as Hs; [by apply IH in H|].
  inv_ok H. injection H as <-. apply IH in Hv0 as [[Hnd Hval] Hseen]. split; [split|].
  - constructor; [|done]. intros Hin. rewrite Forall_forall in Hseen. by apply (Hseen _ Hin), elem_of_cons; left.
  - by constructor.
  - constructor; [done|]. eapply Forall_impl; [exact Hseen|]. intros t Ht ?. by apply Ht, elem_of_cons; right.
Qed.

Lemma normalizeTags_normal lower_table raw tags : normalizeTags lower_table raw = Ok tags -> normal_tags tags.
Proof.
  unfold normalizeTags. intros H. inv_ok H. injection H as <-. apply collect_tags_normal in Hv as [[Hnd Hval] _].
  unfold normal_tags, sort_strings. by rewrite (sort_by_perm (fun s : string => (0, s)) v).
Qed.

Lemma NormalizeTags_perm lower_table tags : normal_tags tags -> NormalizeTags lower_table tags ≡ₚ tags.
Proof.
  intros [Hnd Hv]. apply NoDup_Permutation; [|done | intros t; by apply NormalizeTags_valid].
  unfold NormalizeTags, sort_strings. rewrite sort_by_perm. apply NoDup_elements.
Qed.

Lemma validate_tags_normal lower_table seen tags :
  normal_tags tags -> Forall (fun t => t ∉ seen) tags -> validate_tags lower_table seen tags = Ok tags.
Proof.
  revert seen. induction tags as [|tag tags IH]; intros seen [Hnd Hv] Hs; [done|].
  apply NoDup_cons in Hnd as [Hnew Hnd]. apply Forall_cons in Hv as [Ht Hv], Hs as [Hs Hseen].
  simpl. rewrite Ht. simpl. rewrite bool_decide_eq_false_2 by done. rewrite IH; [|done|].
  - simpl. by rewrite normalize_word_plain by by apply validRoutingTag_plain.
  - apply Forall_forall. intros t Hin [->|?]%elem_of_cons; [done|]. rewrite Forall_forall in Hseen. by apply (Hseen t).
Qed.

Lemma NormalizeTags_accepted lower_table tags :
  normal_tags tags -> validate_tags lower_table [] (NormalizeTags lower_table tags) = Ok (NormalizeTags lower_table tags).
Proof.
  intros H. pose proof (NormalizeTags_perm lower_table tags H) as P.
  apply validate_tags_normal; [|apply Forall_forall; intros ? _; apply not_elem_of_nil].
  unfold normal_tags. by rewrite P.
Qed.

Lemma validatePinnedRouting_perm lower_table required tags tags' :
  tags ≡ₚ tags' -> validatePinnedRouting lower_table required tags = validatePinnedRouting lower_table required tags'.
Proof. intros P. unfold validatePinnedRouting. by rewrite (length_filter_perm _ _ _ P). Qed.

(** ** Plain identifiers and names *)
Lemma RuneCount_plain s : Forall plain_byte (bytes s) -> RuneCountInString s = Z.of_nat (length (bytes s)).
Proof.
  intros H. unfold RuneCountInString, runes. rewrite chunks_ascii, !length_map; [done|].
  eapply Forall_impl; [exact H|]. by intros a (? & _).
Qed.

Lemma hex_digits_plain a :
  Forall plain_byte [hex_digit (Z.shiftr (byte_val a) 4); hex_digit (Z.land (byte_val a) 15)].
Proof. repeat constructor; destruct a as [[] [] [] [] [] [] [] []]; vm_compute; congruence. Qed.

Lemma hex_encode_plain l : Forall plain_byte (bytes (hex_encode l)).
Proof.
  unfold hex_encode. rewrite bytes_of_bytes. induction l as [|a l IH]; [constructor|].
  cbn [map concat]. apply Forall_app. split; [apply hex_digits_plain | exact IH].
Qed.

Lemma hex_encode_length l : length (bytes (hex_encode l)) = (2 * length l)%nat.
Proof. unfold hex_encode. rewrite bytes_of_bytes. induction l; simpl in *; lia. Qed.

Definition plain_byteb (a : ascii) : bool :=
  (byte_val a <? 128) && negb (IsSpace (byte_val a)) && negb (in_range 65 90 (byte_val a)).

Lemma plain_bytes s : forallb plain_byteb (bytes s) = true -> Forall plain_byte (bytes s).
Proof.
  intros H. apply Forall_forall. intros a Ha%list_elem_of_In. rewrite forallb_forall in H. specialize (H a Ha).
  unfold plain_byteb in H. rewrite !andb_true_iff, !negb_true_iff in H. by destruct H as [[?%Z.ltb_lt ?] ?].
Qed.

(** The dispatch key of a run is a non-empty word within the contract's limit. *)
Lemma dispatch_key_plain random : Forall plain_byte (bytes (dispatch_key_of (newID "run" random))).
Proof.
  unfold dispatch_key_of, newID. rewrite !bytes_app.
  repeat (apply Forall_app; split); try (by apply plain_bytes; vm_compute). apply hex_encode_plain.
Qed.

Lemma dispatch_key_length random : length (bytes (dispatch_key_of (newID "run" random))) = (8 + 2 * length random)%nat.
Proof. unfold dispatch_key_of, newID. rewrite !bytes_app, !length_app, hex_encode_length. simpl. lia. Qed.

Lemma base64_nonempty l : l <> [] -> base64 l <> [].
Proof. destruct l as [|a [|b [|c l]]]; done. Qed.

Lemma encodeBase64_nonempty content : content <> "" -> encodeBase64 content <> "".
Proof.
  intros H E. apply (f_equal bytes) in E. unfold encodeBase64 in E. rewrite bytes_of_bytes in E.
  revert E. apply base64_nonempty. by destruct content.
Qed.

(** ** The job of an accepted run *)
Section Accepted.
Context (lower_table : Z -> Z) (sha256 : string -> string).
Hypothesis sha256_hex : forall content, validLowerSHA256 (sha256 content) = true.

Definition limit_accepted (limits : option Z) : Prop :=
  match limits with Some seconds => ValidateLimitSeconds seconds = Ok tt | None => True end.

(** What the creation checks of the program; the runtime handler of an image is
    taken to be one word, which it does not check. *)
Definition program_accepted (program : run_program) (tags : list string) : Prop :=
  match program with
  | RunScript content sha interpreter mode =>
      exists supplied, normalizeScript sha256 content sha interpreter supplied = Ok mode
  | RunImage image =>
      validate_program lower_table program tags = Ok tt
      /\ contains_space (normalize_word lower_table (ip_RuntimeHandler image)) = false
  end.

Lemma validate_limits_accepted intent : limit_accepted (di_Limits intent) -> validate_limits (intent_limits intent) = Ok tt.
Proof.
  unfold intent_limits, limit_accepted. destruct (di_Limits intent) as [seconds|]; [|done].
  intros H. destruct (0 <? seconds); [|done]. simpl. by rewrite H.
Qed.

(** Both kinds are words, and only a process job is restartable. *)
Lemma kind_accepted kind restartable :
  kind = JobKindProcess \/ kind = JobKindOCI /\ restartable = false ->
  normalize_word lower_table kind = kind /\ contains_space kind = false
  /\ TrimSpace kind <> "" /\ RuneCountInString kind <= 128
  /\ restartable && (negb (bool_decide (kind = JobKindProcess)) || negb (bool_decide (JobClassOneShot = JobClassOneShot))) = false.
Proof.
  intros [->|[-> ->]].
  all: split_and!; [by apply normalize_word_plain, plain_bytes | by vm_compute | by vm_compute | by vm_compute | ].
  all: first [done | by destruct restartable].
Qed.

(** A one-shot job of either kind passes when its parts do. *)
Lemma oneshot_accepted spec :
  js_SchemaVersion spec = SchemaVersionV1 -> js_Class spec = JobClassOneShot ->
  js_InstanceKey spec = None -> js_instanceKeySet spec = false ->
  Forall plain_byte (bytes (js_DispatchKey spec)) -> (0 < length (bytes (js_DispatchKey spec)) <= 255)%nat ->
  RuneCountInString (js_RuntimeHandler spec) <= 128 ->
  contains_space (normalize_word lower_table (js_RuntimeHandler spec)) = false ->
  validateEnvironment (exec_Env (js_Execution spec)) = Ok tt ->
  validateEnvironment (exec_SensitiveEnv (js_Execution spec)) = Ok tt ->
  validate_tags lower_table [] (js_RoutingTags spec) = Ok (js_RoutingTags spec) ->
  validate_limits (js_Limits spec) = Ok tt ->
  validatePinnedRouting lower_table (RequiresPinnedPlacement spec) (js_RoutingTags spec) = Ok tt ->
  let named := spec <| js_RuntimeHandler := normalize_word lower_table (js_RuntimeHandler spec) |> in
  (js_Kind spec = JobKindProcess /\ validateProcessExecution named = Ok tt
   \/ js_Kind spec = JobKindOCI /\ js_Restartable spec = false /\ validateOCIExecution named = Ok tt) ->
  ValidateJobSpec lower_table spec = Ok named.
Proof.
  intros Hver Hclass Hik His Hplain [Hl Hu] Hh Hs He Hse Ht Hlim Hpin named Hexec.
  destruct (kind_accepted (js_Kind spec) (js_Restartable spec)) as (Hnk & Hsk & Htk & Hrk & Hrs); [tauto|].
  unfold ValidateJobSpec. rewrite Hver. cbn [negb Z.eqb SchemaVersionV1 Pos.eqb].
  rewrite (TrimSpace_plain (js_DispatchKey spec)) by done.
  rewrite (bool_decide_eq_false_2 (js_DispatchKey spec = "")) by (intros E; by rewrite E in Hl; inversion Hl).
  rewrite (bool_decide_eq_false_2 (TrimSpace (js_Kind spec) = "")) by done.
  rewrite (RuneCount_plain (js_DispatchKey spec)) by done.
  rewrite (proj2 (Z.ltb_ge 255 _)), (proj2 (Z.ltb_ge 128 (RuneCountInString (js_Kind spec)))), (proj2 (Z.ltb_ge 128 (RuneCountInString (js_RuntimeHandler spec)))) by lia.
  unfold validate_instance_key. rewrite Hclass, Hik, His.
  rewrite (bool_decide_eq_false_2 (TrimSpace JobClassOneShot = "")) by done.
  replace (128 <? RuneCountInString JobClassOneShot) with false by done. cbn [orb andb result_bind].
  rewrite Hnk. replace (spec <| js_Kind := js_Kind spec |>) with spec by by destruct spec. fold named.
  change (js_Kind named) with (js_Kind spec). change (js_Restartable named) with (js_Restartable spec).
  change (js_Class named) with (js_Class spec). change (js_Execution named) with (js_Execution spec).
  change (js_RuntimeHandler named) with (normalize_word lower_table (js_RuntimeHandler spec)).
  change (js_RoutingTags named) with (js_RoutingTags spec). change (js_Limits named) with (js_Limits spec).
  rewrite Hclass, Hsk, Hs, Hrs, He, Hse, Ht. cbn [orb andb result_bind].
  assert (validate_service named = Ok named) as Hserv.
  { unfold validate_service. change (js_Class named) with (js_Class spec). by rewrite Hclass. }
  destruct Hexec as [[-> Hx]|(-> & _ & Hx)].
  all: [> rewrite bool_decide_eq_true_2 by done | rewrite bool_decide_eq_false_2, bool_decide_eq_true_2 by done].
  all: rewrite Hx; cbn [result_bind]; rewrite Hlim; cbn [result_bind]; rewrite Hserv; cbn [result_bind].
  all: change (RequiresPinnedPlacement named) with (RequiresPinnedPlacement spec); by rewrite Hpin.
Qed.

Lemma script_execution_accepted spec content sha interpreter mode supplied argv handoff :
  normalizeScript sha256 content sha interpreter supplied = Ok mode ->
  js_RuntimeHandler spec = "" ->
  exec_Executable (js_Execution spec) = mkExecutableSpec "" (encodeBase64 content) sha (clone interpreter) mode ->
  exec_OCI (js_Execution spec) = None -> exec_ociSet (js_Execution spec) = false ->
  exec_WorkingDirectory (js_Execution spec) = "/tmp" -> exec_Argv (js_Execution spec) = Some [argv] ->
  exec_HandoffDirectory (js_Execution spec) = handoff ->
  exec_handoffDirSet (js_Execution spec) = negb (bool_decide (handoff = "")) ->
  validateProcessExecution spec = Ok tt.
Proof.
  intros H Hr Hx Ho Hos Hw Ha Hh Hhs. unfold normalizeScript in H. inv_ok H. cbv zeta in H. inv_ok H. injection H as <-.
  apply bool_decide_eq_false in Hg. apply negb_false_iff, bool_decide_eq_true in Hg0 as ->.
  unfold validateProcessExecution. rewrite Hr, Hx, Ho, Hos, Hw, Ha, Hh, Hhs. cbn -[validLowerSHA256 encodeBase64 defaultInlineMode].
  rewrite (bool_decide_eq_false_2 (encodeBase64 content = "")) by by apply encodeBase64_nonempty.
  rewrite sha256_hex, Hg2. by destruct (bool_decide (handoff = "")), (bool_decide (js_Class spec = _)).
Qed.

Lemma clone_accepted (argv : option (list string)) :
  match argv with Some l => bool_decide (l = []) || negb (containsNonEmpty l) | None => false end = false ->
  match clone (default [] argv) with Some l => bool_decide (l = []) || negb (containsNonEmpty l) | None => false end = false.
Proof. by destruct argv as [[|a l]|]. Qed.

Lemma limits_accepted (limits : option OCILimits) :
  match limits with Some l => negb (valid_oci_limits l) | None => false end = false ->
  match cloneOCILimits <$> limits with Some l => negb (valid_oci_limits l) | None => false end = false.
Proof.
  destruct limits as [[m c mn cn]|]; [|done]. unfold valid_oci_limits. simpl. rewrite !negb_false_iff, !andb_true_iff. intuition.
Qed.

Lemma image_execution_accepted image intent token tags handler :
  di_program intent = RunImage image -> ValidateImageProgram image JobClassOneShot = Ok tt ->
  validateOCIExecution (on_wire (jobSpec intent token) <| js_RoutingTags := tags |> <| js_RuntimeHandler := handler |>) = Ok tt.
Proof.
  intros Hp H. unfold ValidateImageProgram in H. inv_ok H. unfold validateOCIExecution in *.
  unfold jobSpec. rewrite Hp. unfold on_wire. cbn in H |- *. inv_ok H.
  replace (match intent_limits intent with Some l => _ | None => false end) with false.
  2: { unfold intent_limits. by destruct (di_Limits intent) as [seconds|]; [destruct (0 <? seconds)|]. }
  by rewrite (clone_accepted _ Hg6), (limits_accepted _ Hg9).
Qed.

Lemma image_accepted image tags :
  validate_program lower_table (RunImage image) tags = Ok tt ->
  ValidateImageProgram image JobClassOneShot = Ok tt /\ ValidatePinnedRouting lower_table image tags = Ok tt.
Proof. simpl. by destruct (ValidateImageProgram _ _) as [[]|]; [destruct (ValidatePinnedRouting _ _ _) as [[]|]|]. Qed.

(** The job of a run the ledger accepted. *)
Definition run_job (random : list ascii) (now : Z) (input : CreateRunInput) (parent : option string) (source : string)
    (sourceRunID : option string) (program : run_program) (token : string) : JobSpec :=
  let runID := newID "run" random in
  on_wire (jobSpec (intent_of runID (new_run now runID input parent source sourceRunID program)) token).

End Accepted.

Definition script_digest : string := "9f86d081884c7d659a2feaa0c55ad015a3bf4f1b2b0b822cd15d6c15b0f00a08".
Definition sample_random : list ascii := map byte_of (seqZ 7 16).
Definition sample_creation : CreateRunInput :=
  mkCreateRunInput "operator:sample" "key-1" "hash-1" "" "{}" ["gpu"; "node:n1"] (Some 600) None false true true.


(** The two validators differ on a runtime handler of two words: the ledger's
    accepts the program and L1's refuses the job. *)
Definition spaced_image : ImageProgram :=
  mkImageProgram "ghcr.io/acme/tool:1" None None None [] None "run sc" false false false false false.

Example spaced_handler_is_refused :
  validate_program id (RunImage spaced_image) [] = Ok tt
  /\ ValidateJobSpec id (run_job sample_random 5 sample_creation None "manual" None (RunImage spaced_image) "tok")
     = Err ErrorInvalidRequest.
Proof. split; vm_compute; reflexivity. Qed.
