(* ===== verification/RunWorld.v ===== *)
(** * The run ledger and the control plane together

    L3 and L1 share no store: a submission is delivered some time after the
    ledger decided on it, perhaps more than once or never, and an answer reaches
    the ledger when L1 has moved on.  A history is the list of the states the two
    stores went through, the last one first; what crosses the boundary was true
    in some state of it.  L1's steps are those of Machine.v, and only the ledger
    submits as the run ledger ([runLedgerNodeID] of [l1/server.go]). *)
From S2P Require Import Prelude Order States Contract GoStrings JobSpec L1Types RestartPolicy Database.
From S2P Require Import LeaseClock Submit Machine History.
From S2P Require Import RunLedger RunDispatch RunProtocol RunHistory RunMachine RunIntent.
#[local] Open Scope string_scope.
#[local] Open Scope list_scope.
#[local] Open Scope Z_scope.

Record world := mkworld { w_ledger : Ledger; w_db : DB }.

Section World.
Context (env : environment) (lenv : ledger_env) (ledger_identity : string).

Definition ledger_origin : JobOrigin := mkJobOrigin ledger_identity true None.

Abbreviation submit := (CreateJobAs (env_lower_table env) (env_spec_digest env) (env_hashDispatchKey env) (env_admitSeatRun env)).

(** What the ledger sends for a run: an attempt committed, so its bearer was staged. *)
Definition submission_of (w : world) (runID : string) (spec : JobSpec) : Prop :=
  exists e token, lg_runs (w_ledger w) !! runID = Some e /\ o_token_delivery (en_outbox e) = Some token
    /\ spec = on_wire (jobSpec (intent_of runID e) token).

(** L1 has, or had, a job under the run's dispatch key; [SubmitJob] checks the key
    of what it is answered, and the lookup asks for it. *)
Definition job_answered (h : list world) (runID jobID : string) : Prop :=
  exists w j, w ∈ h /\ db_jobs (w_db w) !! jobID = Some j /\ j_dispatch_key j = dispatch_key_of runID.

(** The outbox of the run had this job. *)
Definition job_stored (h : list world) (runID jobID : string) : Prop :=
  exists w e, w ∈ h /\ lg_runs (w_ledger w) !! runID = Some e /\ o_job_id (en_outbox e) = Some jobID.

(** What a pass read of a run that has its job. *)
Definition captured (h : list world) (run : projectedRun) : Prop :=
  exists w e, w ∈ h /\ lg_runs (w_ledger w) !! p_RunID run = Some e /\ r_l1_job_id (en_run e) = Some (p_JobID run)
    /\ p_State run = r_status (en_run e) /\ p_RequiredEnvelope run = r_required_envelope (en_run e).

(** What the arguments of an operation come from. *)
Definition op_told (h : list world) (op : ledger_op) : Prop :=
  match op with
  | OpBegin _ _ fresh _ => fresh <> ""
  | OpComplete _ runID jobID _ _ => job_answered h runID jobID \/ job_stored h runID jobID
  | OpAcceptRecovered _ item jobID _ | OpLinkUnrecorded _ item jobID =>
      job_answered h (u_RunID item) jobID \/ job_stored h (u_RunID item) jobID
  | OpProject _ run _ _ => captured h run
  | _ => True
  end.

Inductive history : list world -> Prop :=
| HistoryStart : history [mkworld empty_ledger empty_db]
| HistoryLedger w h op : history (w :: h) -> op_told (w :: h) op ->
    history (mkworld (apply_op lenv op (w_ledger w)) (w_db w) :: w :: h)
| HistoryDeliver w h w0 runID spec at_ jobID : history (w :: h) -> w0 ∈ w :: h -> submission_of w0 runID spec ->
    history (mkworld (w_ledger w) (run (submit at_ spec ledger_origin jobID) (w_db w)).1 :: w :: h)
| HistoryControl w h db' : history (w :: h) -> step env (w_db w) db' ->
    (forall id j, db_jobs (w_db w) !! id = None -> db_jobs db' !! id = Some j -> j_submitted_by_run_ledger j = false) ->
    history (mkworld (w_ledger w) db' :: w :: h).

(** ** What an earlier state says of a later one *)
Record earlier (w w' : world) : Prop := {
  prec_runs : forall id e, lg_runs (w_ledger w) !! id = Some e ->
    exists e', lg_runs (w_ledger w') !! id = Some e' /\ advances_ anything e e';
  prec_jobs : forall id j, db_jobs (w_db w) !! id = Some j ->
    exists j', db_jobs (w_db w') !! id = Some j' /\ identity_of j' = identity_of j
}.

#[export] Instance earlier_preorder : PreOrder earlier.
Proof.
  split.
  - intros w. split; [intros id e He; by exists e | intros id j Hj; by exists j].
  - intros w1 w2 w3 [R1 J1] [R2 J2]. split.
    + intros id e He. destruct (R1 id e He) as (e2 & H2 & A2). destruct (R2 id e2 H2) as (e3 & H3 & A3).
      exists e3. split; [done | by etrans].
    + intros id j Hj. destruct (J1 id j Hj) as (j2 & H2 & E2). destruct (J2 id j2 H2) as (j3 & H3 & E3).
      exists j3. split; [done | congruence].
Qed.

Lemma earlier_db l db db' : step env db db' -> earlier (mkworld l db) (mkworld l db').
Proof.
  intros Hs. apply (later_step env) in Hs. split; simpl; [intros id e He; by exists e|].
  intros id j Hj. destruct (later_jobs _ _ _ Hs id j Hj) as (j' & Hj' & E). exists j'. split; [done | apply E].
Qed.

(** ** The invariant *)

(** A job the ledger submitted goes back to a delivery of its run. *)
Definition delivered (h : list world) (id : string) (j : JobRow) : Prop :=
  exists runID w0 spec at_ db db' j0, w0 ∈ h /\ submission_of w0 runID spec
    /\ run (submit at_ spec ledger_origin id) db = (db', Ok (Created id j0)) /\ identity_of j = identity_of j0.

Record world_ok (h : list world) (w : world) : Prop := {
  wo_ledger : ledger_ok (w_ledger w);
  wo_keys : unique_keys (w_db w);
  wo_past : forall w0, w0 ∈ h -> earlier w0 w;
  wo_links : forall id e jobID, lg_runs (w_ledger w) !! id = Some e -> o_job_id (en_outbox e) = Some jobID ->
    exists j, db_jobs (w_db w) !! jobID = Some j /\ j_dispatch_key j = dispatch_key_of id;
  wo_jobs : forall id j, db_jobs (w_db w) !! id = Some j -> j_submitted_by_run_ledger j = true -> delivered h id j
}.

Record history_ok (h : list world) : Prop := {
  ho_last : forall w h', h = w :: h' -> world_ok h w;
  ho_ordered : StronglySorted (fun w w0 => earlier w0 w) h;
  ho_ledgers : Forall (fun w => ledger_ok (w_ledger w)) h
}.

Lemma unique_keys_step db db' : step env db db' -> unique_keys db -> unique_keys db'.
Proof.
  intros [(at_ & spec & origin & jobID & ->)|Hl]%(step_later (fun _ => False)); [apply unique_keys_submit|].
  intros Hu id1 j1 id2 j2 H1 H2 E.
  assert (Hold : forall id j, db_jobs db' !! id = Some j -> exists j0, db_jobs db !! id = Some j0 /\ j_dispatch_key j0 = j_dispatch_key j).
  { intros id j Hj. destruct (db_jobs db !! id) as [j0|] eqn:E0; [|by destruct (later_new _ _ _ Hl id j E0 Hj) as (? & [] & _)].
    exists j0. split; [done|]. destruct (later_jobs _ _ _ Hl id j0 E0) as (j' & Hj' & Ev).
    assert (Ei := evolves_identity _ _ Ev). unfold identity_of in Ei. simplify_eq. congruence. }
  destruct (Hold _ _ H1) as (j1' & H1' & E1), (Hold _ _ H2) as (j2' & H2' & E2). eapply (Hu id1 j1' id2 j2'); congruence.
Qed.

Lemma delivered_weaken w h id j : delivered h id j -> delivered (w :: h) id j.
Proof.
  intros (runID & w0 & spec & at_ & db & db' & j0 & Hw & H). exists runID, w0, spec, at_, db, db', j0.
  split; [by apply elem_of_cons; right | exact H].
Qed.

Lemma delivered_identity h id j j' : identity_of j' = identity_of j -> delivered h id j -> delivered h id j'.
Proof.
  intros E (runID & w0 & spec & at_ & db & db' & j0 & H1 & H2 & H3 & H4). exists runID, w0, spec, at_, db, db', j0.
  split_and!; [done | done | done | congruence].
Qed.

Section Extend.
Context (w : world) (h : list world) (Hok : history_ok (w :: h)).

Lemma last_ok : world_ok (w :: h) w.
Proof. by apply (ho_last _ Hok w h). Qed.

Lemma told_fits op : op_told (w :: h) op -> op_fits op (w_ledger w).
Proof.
  destruct op; simpl; try done. intros (w0 & e0 & Hw0 & He0 & Hl & -> & ->).
  assert (Hok0 : ledger_ok (w_ledger w0)) by (assert (H := ho_ledgers _ Hok); rewrite Forall_forall in H; by apply H).
  assert (He := lo_entries _ Hok0 _ _ He0). split.
  - apply (ok_dispatched _ He), (ok_outbox _ He). rewrite (ok_link _ He _ Hl). by eexists.
  - intros e He'. destruct (prec_runs _ _ (wo_past _ _ last_ok w0 Hw0) _ _ He0) as (e1 & H1 & Ha). simplify_eq.
    by rewrite (fixed_required _ _ (adv_fixed Ha)).
Qed.

Lemma answered_exists runID jobID :
  job_answered (w :: h) runID jobID \/ job_stored (w :: h) runID jobID ->
  exists j, db_jobs (w_db w) !! jobID = Some j /\ j_dispatch_key j = dispatch_key_of runID.
Proof.
  intros [(w0 & j0 & Hw0 & Hj0 & E)|(w0 & e0 & Hw0 & He0 & E)].
  - destruct (prec_jobs _ _ (wo_past _ _ last_ok w0 Hw0) _ _ Hj0) as (j & Hj & Ei). exists j. split; [done|].
    unfold identity_of in Ei. congruence.
  - destruct (prec_runs _ _ (wo_past _ _ last_ok w0 Hw0) _ _ He0) as (e & He & Ha).
    eapply (wo_links _ _ last_ok _ _ _ He). by apply (adv_outbox Ha).
Qed.

(** A state after [w] keeps the order of the history. *)
Lemma history_extend w' :
  earlier w w' -> ledger_ok (w_ledger w') -> unique_keys (w_db w') ->
  (forall id e jobID, lg_runs (w_ledger w') !! id = Some e -> o_job_id (en_outbox e) = Some jobID ->
     exists j, db_jobs (w_db w') !! jobID = Some j /\ j_dispatch_key j = dispatch_key_of id) ->
  (forall id j, db_jobs (w_db w') !! id = Some j -> j_submitted_by_run_ledger j = true -> delivered (w :: h) id j) ->
  history_ok (w' :: w :: h).
Proof.
  intros Hp Hl Hu HL HJ.
  assert (Hpast : forall w0, w0 ∈ w :: h -> earlier w0 w').
  { intros w0 Hw0. etrans; [by apply (wo_past _ _ last_ok) | done]. }
  split.
  - intros ? ? [= <- <-]. split; try done.
    + intros w0 [->|Hw0]%elem_of_cons; [done | by apply Hpast].
    + intros id j Hj Hb. by apply delivered_weaken, HJ.
  - constructor; [apply Hok|]. apply Forall_forall. exact Hpast.
  - constructor; [done | apply Hok].
Qed.

Lemma history_ledger op :
  op_told (w :: h) op -> history_ok (mkworld (apply_op lenv op (w_ledger w)) (w_db w) :: w :: h).
Proof.
  intros Ht. assert (Hf := told_fits op Ht). assert (Hl := wo_ledger _ _ last_ok).
  assert (Hlater := later_op lenv (w_ledger w) (lo_entries _ Hl) op Hf). apply history_extend; simpl.
  - split; simpl; [|intros id j Hj; by exists j]. intros id e He.
    destruct (later_run _ _ _ _ Hlater id e He) as (e' & He' & Ha). exists e'. split; [done|]. revert Ha. by apply advances_weaken.
  - by apply step_ok.
  - apply (wo_keys _ _ last_ok).
  - intros id e' jobID He' Ej.
    destruct (later_inv _ _ _ _ _ _ Hlater He') as [(_ & _ & [(? & ? & ? & ? & ? & ? & ->) _ _])|(e & He & Ha)]; [done|].
    destruct (adv_acked Ha jobID Ej) as [E|E]; [by eapply (wo_links _ _ last_ok)|].
    destruct op; try done; destruct E as [<- <-]; by apply answered_exists.
  - apply (wo_jobs _ _ last_ok).
Qed.

Lemma history_deliver w0 runID spec at_ jobID :
  w0 ∈ w :: h -> submission_of w0 runID spec ->
  history_ok (mkworld (w_ledger w) (run (submit at_ spec ledger_origin jobID) (w_db w)).1 :: w :: h).
Proof.
  intros Hw0 Hsub. set (db' := (run (submit at_ spec ledger_origin jobID) (w_db w)).1).
  assert (Hs : step env (w_db w) db') by apply StepCreateJobAs.
  assert (Hp : earlier w (mkworld (w_ledger w) db')) by (destruct w; by apply earlier_db).
  apply history_extend; simpl; [done | apply (wo_ledger _ _ last_ok) | eapply unique_keys_step; [exact Hs | apply (wo_keys _ _ last_ok)] | |].
  - intros id e job He Ej. destruct (wo_links _ _ last_ok id e job He Ej) as (j & Hj & E).
    destruct (prec_jobs _ _ Hp _ _ Hj) as (j' & Hj' & Ei). exists j'. split; [done|]. unfold identity_of in Ei. congruence.
  - intros id j Hj Hb. unfold db' in Hj.
    assert (H := CreateJobAs_created (env_lower_table env) (env_spec_digest env) (env_hashDispatchKey env) (env_admitSeatRun env)
                   at_ spec ledger_origin jobID (w_db w)).
    destruct (run _ (w_db w)) as [db1 [[id1 j1|id1 j1|row]|e1]] eqn:Erun; simpl in *; subst; try by apply (wo_jobs _ _ last_ok).
    destruct H as (-> & EJ & _). rewrite EJ in Hj. apply lookup_insert_Some in Hj as [[<- <-]|[_ Hj]];
      [|by apply (wo_jobs _ _ last_ok)].
    by exists runID, w0, spec, at_, (w_db w), db1, j1.
Qed.

Lemma history_control db' :
  step env (w_db w) db' ->
  (forall id j, db_jobs (w_db w) !! id = None -> db_jobs db' !! id = Some j -> j_submitted_by_run_ledger j = false) ->
  history_ok (mkworld (w_ledger w) db' :: w :: h).
Proof.
  intros Hs Hforeign. assert (Hp : earlier w (mkworld (w_ledger w) db')) by (destruct w; by apply earlier_db).
  apply history_extend; simpl; [done | apply (wo_ledger _ _ last_ok) | eapply unique_keys_step; [exact Hs | apply (wo_keys _ _ last_ok)] | |].
  - intros id e job He Ej. destruct (wo_links _ _ last_ok id e job He Ej) as (j & Hj & E).
    destruct (prec_jobs _ _ Hp _ _ Hj) as (j' & Hj' & Ei). exists j'. split; [done|]. unfold identity_of in Ei. congruence.
  - intros id j' Hj' Hb. destruct (db_jobs (w_db w) !! id) as [j|] eqn:Hj; [|by rewrite (Hforeign _ _ Hj Hj') in Hb].
    destruct (prec_jobs _ _ Hp _ _ Hj) as (j1 & Hj1 & Ei). assert (j1 = j') as -> by (simpl in Hj1; congruence).
    eapply delivered_identity; [exact Ei|]. apply (wo_jobs _ _ last_ok); [done|]. unfold identity_of in Ei. congruence.
Qed.
End Extend.

Lemma history_is_ok h : history h -> history_ok h.
Proof.
  induction 1 as [|w h op _ IH Ht|w h w0 runID spec at_ jobID _ IH Hw Hsub|w h db' _ IH Hs Hf].
  - assert (E : db_jobs empty_db = ∅) by reflexivity. split.
    + intros w h' [= <- <-]. split; simpl.
      * apply empty_ledger_ok.
      * intros id1 j1 id2 j2 H1. by rewrite ?E, lookup_empty in H1.
      * intros w0 ->%list_elem_of_singleton. done.
      * intros id e jobID H1. by rewrite lookup_empty in H1.
      * intros id j H1. by rewrite ?E, lookup_empty in H1.
    + by repeat constructor.
    + constructor; [apply empty_ledger_ok | constructor].
  - by apply history_ledger.
  - by eapply history_deliver.
  - by apply history_control.
Qed.

(** ** What the two promise together *)
Lemma dispatch_key_inj id1 id2 : dispatch_key_of id1 = dispatch_key_of id2 -> id1 = id2.
Proof. unfold dispatch_key_of. intros [= H]. exact H. Qed.


(** Two states of a history, one after the other. *)
Lemma history_ordered h w1 w2 : history_ok h -> w1 ∈ h -> w2 ∈ h -> earlier w1 w2 \/ earlier w2 w1.
Proof.
  intros Hok. assert (Hs := ho_ordered _ Hok). clear Hok. induction Hs as [|w h _ IH Hf]; [by intros ?%not_elem_of_nil|].
  rewrite Forall_forall in Hf. intros [->|H1]%elem_of_cons [->|H2]%elem_of_cons; [by left | right; by apply Hf | left; by apply Hf | by apply IH].
Qed.

Lemma submission_key w runID spec : ledger_ok (w_ledger w) -> submission_of w runID spec -> js_DispatchKey spec = dispatch_key_of runID.
Proof.
  intros Hok (e & token & He & _ & ->). rewrite <- (lo_keys _ Hok _ _ He). unfold jobSpec. by destruct (di_program _).
Qed.

Lemma fixed_intent runID e e' : fixed_of e' = fixed_of e -> intent_of runID e' = intent_of runID e.
Proof.
  unfold fixed_of, intent_of. intros E. simplify_eq.
  repeat match goal with Heq : ?x = ?y |- context [?x] => rewrite Heq end. done.
Qed.

(** A run is always submitted with the same description. *)
Lemma submissions_agree h w1 w2 runID spec1 spec2 :
  history_ok h -> w1 ∈ h -> w2 ∈ h -> submission_of w1 runID spec1 -> submission_of w2 runID spec2 -> spec1 = spec2.
Proof.
  intros Hok H1 H2.
  assert (Hone : forall w1 w2 spec1 spec2, w1 ∈ h -> earlier w1 w2 -> submission_of w1 runID spec1 -> submission_of w2 runID spec2 -> spec1 = spec2).
  { clear w1 w2 spec1 spec2 H1 H2. intros w1 w2 spec1 spec2 H1 Hp (e1 & t1 & He1 & Ht1 & ->) (e2 & t2 & He2 & Ht2 & ->).
    destruct (prec_runs _ _ Hp _ _ He1) as (e & He & Ha). simplify_eq. rewrite (fixed_intent _ _ _ (adv_fixed Ha)).
    assert (Hl := ho_ledgers _ Hok). rewrite Forall_forall in Hl. specialize (Hl _ H1).
    destruct (ok_staged _ (lo_entries _ Hl _ _ He1)) as [_ Hk]; [by eexists|].
    assert (Ht := adv_staged Ha Hk _ Ht2). congruence. }
  intros S1 S2. destruct (history_ordered h w1 w2 Hok H1 H2) as [Hp|Hp]; 
    [exact (Hone _ _ _ _ H1 Hp S1 S2) | symmetry; exact (Hone _ _ _ _ H2 Hp S2 S1)].
Qed.

Lemma ValidateJobSpec_key lower spec spec' : ValidateJobSpec lower spec = Ok spec' -> js_DispatchKey spec' = js_DispatchKey spec.
Proof.
  unfold ValidateJobSpec. intros H. inv_ok H. injection H as <-.
  match goal with H : validate_service _ = Ok _ |- _ => by destruct (validate_service_frame _ _ H) as [->|[_ ->]] end.
Qed.

Lemma created_key at_ spec origin jobID db db' id j :
  run (submit at_ spec origin jobID) db = (db', Ok (Created id j)) -> id = jobID /\ j_dispatch_key j = js_DispatchKey spec.
Proof.
  intros Hrun. assert (H := CreateJobAs_created (env_lower_table env) (env_spec_digest env) (env_hashDispatchKey env)
    (env_admitSeatRun env) at_ spec origin jobID db). rewrite Hrun in H. destruct H as (-> & _ & spec' & a & Hacc & ->).
  split; [done|]. simpl. by rewrite (ValidateJobSpec_key _ _ _ (accepted_spec _ _ _ _ _ _ _ _ _ Hacc)).
Qed.

(** The delivery a job of the run ledger came from is one of its own run. *)
Lemma delivered_run h id j runID :
  history_ok h -> delivered h id j -> j_dispatch_key j = dispatch_key_of runID ->
  exists w0 spec at_ db db' j0, w0 ∈ h /\ submission_of w0 runID spec
    /\ run (submit at_ spec ledger_origin id) db = (db', Ok (Created id j0)) /\ identity_of j = identity_of j0.
Proof.
  intros Hok (run0 & w0 & spec & at_ & db & db' & j0 & Hw0 & Hsub & Hrun & Ei) Hkey.
  assert (Hl := ho_ledgers _ Hok). rewrite Forall_forall in Hl. destruct (created_key _ _ _ _ _ _ _ _ Hrun) as [_ Ek].
  rewrite (submission_key _ _ _ (Hl _ Hw0) Hsub) in Ek. unfold identity_of in Ei.
  assert (run0 = runID) as -> by (apply dispatch_key_inj; congruence). by exists w0, spec, at_, db, db', j0.
Qed.

(** C4: a run executes once.  However often the ledger submits a run, before or
    after restarts of either side and however late a submission arrives, each one
    carries the same description and bearer; once L1 has the job of the run, it
    answers every later submission with that job and its store stays as it is. *)
Theorem run_is_submitted_once w h w1 w2 runID spec1 spec2 jobID j at_ freshID :
  history (w :: h) -> w1 ∈ w :: h -> w2 ∈ w :: h -> submission_of w1 runID spec1 -> submission_of w2 runID spec2 ->
  spec1 = spec2
  /\ (db_jobs (w_db w) !! jobID = Some j -> j_dispatch_key j = dispatch_key_of runID -> j_submitted_by_run_ledger j = true ->
      run (submit at_ spec1 ledger_origin freshID) (w_db w) = (w_db w, Ok (ReplayedJob jobID j))).
Proof.
  intros Hh H1 H2 S1 S2. assert (Hok := history_is_ok _ Hh). split; [exact (submissions_agree _ _ _ _ _ _ Hok H1 H2 S1 S2)|].
  intros Hj Hkey Hb. assert (Hw := ho_last _ Hok w h eq_refl).
  destruct (delivered_run _ _ _ _ Hok (wo_jobs _ _ Hw _ _ Hj Hb) Hkey) as (w0 & spec & at0 & db & db' & j0 & Hw0 & Hsub & Hrun & Ei).
  rewrite (submissions_agree _ _ _ _ _ _ Hok H1 Hw0 S1 Hsub). unfold identity_of in Ei. simplify_eq.
  by eapply resubmission_answers; [exact Hrun | apply (wo_keys _ _ Hw) | ..].
Qed.

(** C6: a run stopped before its first submit attempt never reaches L1: at no
    later time does L1 hold a job the ledger submitted under its key. *)
Theorem stopped_run_has_no_job w h w0 runID e jobID j :
  history (w :: h) -> w0 ∈ w :: h -> lg_runs (w_ledger w0) !! runID = Some e ->
  is_Some (en_cancellation e) \/ run_terminal (r_status (en_run e)) = true -> r_dispatch_attempt_ns (en_run e) = None ->
  db_jobs (w_db w) !! jobID = Some j -> j_dispatch_key j = dispatch_key_of runID -> j_submitted_by_run_ledger j = false.
Proof.
  intros Hh H0 He Hstop Hn Hj Hkey. assert (Hok := history_is_ok _ Hh). assert (Hw := ho_last _ Hok w h eq_refl).
  destruct (j_submitted_by_run_ledger j) eqn:Hb; [|done]. exfalso.
  destruct (delivered_run _ _ _ _ Hok (wo_jobs _ _ Hw _ _ Hj Hb) Hkey) as (w1 & spec & _ & _ & _ & _ & H1 & (e1 & t1 & He1 & Ht1 & _) & _).
  assert (Hl := ho_ledgers _ Hok). rewrite Forall_forall in Hl.
  destruct (ok_staged _ (lo_entries _ (Hl _ H1) _ _ He1)) as [Hd _]; [by eexists|].
  destruct (ok_dispatching _ (lo_entries _ (Hl _ H1) _ _ He1) Hd) as [Hatt _].
  destruct (prec_runs _ _ (wo_past _ _ Hw _ H1) _ _ He1) as (e2 & He2 & Ha2).
  destruct (prec_runs _ _ (wo_past _ _ Hw _ H0) _ _ He) as (e3 & He3 & Ha3).
  assert (e3 = e2) as -> by congruence. destruct (adv_attempted Ha2 Hatt) as [x Hx].
  by rewrite (adv_unattempted Ha3 Hstop Hn) in Hx.
Qed.
End World.

(** ** Witnesses *)

(** A run submitted twice, its job and the link. *)
Definition world_0 : world := mkworld empty_ledger empty_db.
Definition after_op (op : ledger_op) (w : world) : world := mkworld (apply_op sample_ledger_env op (w_ledger w)) (w_db w).
Definition world_1 : world := after_op (op_create "run-1" "") world_0.
Definition world_2 : world := after_op (op_begin "run-1") world_1.
Definition sample_submission : JobSpec := on_wire (jobSpec (intent_of "run-1" (sample_run "run-1" (w_ledger world_2))) "bearer-run-1").
Definition delivered_at (at_ : Z) (id : string) (w : world) :=
  run (CreateJobAs (fun r => r) js_DispatchKey (fun k => k) (fun _ _ _ _ => Ok tt) (sample_instant at_) sample_submission
         (ledger_origin "run-ledger") id) (w_db w).
Definition world_3 : world := mkworld (w_ledger world_2) (delivered_at 100 "job-1" world_2).1.
Definition world_4 : world := after_op (op_ack "run-1" "job-1") world_3.

Abbreviation sample_history := (history sample_env sample_ledger_env "run-ledger").
Definition worlds_2 : list world := [world_2; world_1; world_0].
Definition worlds_4 : list world := world_4 :: world_3 :: worlds_2.

Lemma sample_submits : submission_of world_2 "run-1" sample_submission.
Proof.
  exists (sample_run "run-1" (w_ledger world_2)), "bearer-run-1".
  split; [vm_compute; reflexivity|]. split; [vm_compute; reflexivity | reflexivity].
Qed.

Definition sample_job : JobRow :=
  match (delivered_at 100 "job-1" world_2).2 with
  | Ok (Created _ j) => j
  | _ => queued_job js_DispatchKey sample_submission (ledger_origin "") (mkancestry None None "" false 0) 0
  end.

Lemma sample_history_2 : sample_history worlds_2.
Proof.
  apply (HistoryLedger sample_env sample_ledger_env "run-ledger" world_1 [world_0] (op_begin "run-1")); [|discriminate].
  apply (HistoryLedger sample_env sample_ledger_env "run-ledger" world_0 [] (op_create "run-1" "")); [|exact I].
  apply HistoryStart.
Qed.

Lemma sample_history_4 : sample_history worlds_4.
Proof.
  apply (HistoryLedger sample_env sample_ledger_env "run-ledger" world_3 worlds_2 (op_ack "run-1" "job-1")).
  - apply (HistoryDeliver sample_env sample_ledger_env "run-ledger" world_2 [world_1; world_0] world_2 "run-1" sample_submission
      (sample_instant 100) "job-1"); [exact sample_history_2 | apply elem_of_cons; by left | exact sample_submits].
  - left. exists world_3, sample_job. split; [apply elem_of_cons; by left|]. split; vm_compute; reflexivity.
Qed.


Lemma run_is_submitted_once_witness : delivered_at 200 "job-2" world_4 = (w_db world_4, Ok (ReplayedJob "job-1" sample_job)).
Proof.
  assert (H2 : world_2 ∈ worlds_4) by (apply elem_of_cons; right; apply elem_of_cons; right; apply elem_of_cons; by left).
  apply (run_is_submitted_once sample_env sample_ledger_env "run-ledger" world_4 (world_3 :: worlds_2) world_2 world_2 "run-1"
    sample_submission sample_submission "job-1" sample_job (sample_instant 200) "job-2" sample_history_4 H2 H2
    sample_submits sample_submits); vm_compute; reflexivity.
Defined.

(** A run canceled before its first attempt, beside the one that was submitted. *)
Definition world_5 : world := after_op (op_create "run-2" "") world_4.
Definition world_6 : world := after_op (OpRequestCancel 300 "run-2" "alice") world_5.
Definition foreign_spec : JobSpec := sample_submission <| js_DispatchKey := "run:run-2" |> <| js_Labels := ∅ |>.
Definition world_7 : world :=
  mkworld (w_ledger world_6)
    (run (CreateJobAs (fun r => r) js_DispatchKey (fun k => k) (fun _ _ _ _ => Ok tt) (sample_instant 400) foreign_spec
            (mkJobOrigin "client" false None) "job-9") (w_db world_6)).1.
Definition foreign_job : JobRow := default sample_job (db_jobs (w_db world_7) !! "job-9").

Lemma sample_history_7 : sample_history (world_7 :: world_6 :: world_5 :: worlds_4).
Proof.
  apply (HistoryControl sample_env sample_ledger_env "run-ledger" world_6 (world_5 :: worlds_4)).
  - apply (HistoryLedger sample_env sample_ledger_env "run-ledger" world_5 worlds_4 (OpRequestCancel 300 "run-2" "alice")); [|exact I].
    apply (HistoryLedger sample_env sample_ledger_env "run-ledger" world_4 (world_3 :: worlds_2) (op_create "run-2" "")); [|exact I].
    exact sample_history_4.
  - apply (StepCreateJobAs sample_env).
  - intros id j Hn Hj.
    assert (E : db_jobs (w_db world_7) = <["job-9" := foreign_job]> (db_jobs (w_db world_6))) by (vm_compute; reflexivity).
    change (db_jobs (w_db world_7) !! id = Some j) in Hj. rewrite E in Hj.
    apply lookup_insert_Some in Hj as [[_ <-]|[_ Hj]]; [vm_compute; reflexivity | congruence].
Qed.

Lemma stopped_run_has_no_job_witness : j_submitted_by_run_ledger foreign_job = false.
Proof.
  apply (stopped_run_has_no_job sample_env sample_ledger_env "run-ledger" world_7 (world_6 :: world_5 :: worlds_4) world_6 "run-2"
    (sample_run "run-2" (w_ledger world_6)) "job-9" foreign_job sample_history_7).
  - apply elem_of_cons; right; apply elem_of_cons; by left.
  - vm_compute. reflexivity.
  - left. vm_compute. eexists. reflexivity.
  - vm_compute. reflexivity.
  - vm_compute. reflexivity.
  - vm_compute. reflexivity.
Defined.
